(* ===== verification/_CoqProject ===== *)
-Q . S2P
Prelude.v
GoStrings.v
GoPath.v
Utf8.v
Errx.v
Text.v
Errors.v
GoNet.v
Account.v
AccountPlatforms.v
AccountFacts.v
Service.v
ServiceFiles.v
ServicePlatforms.v
ServiceOperation.v
ServiceFacts.v
ServiceDirectoryFacts.v
ServiceFlowFacts.v
ConfigTypes.v
ConfigOptions.v
ConfigRegistry.v
ConfigFormats.v
ConfigDecode.v
ConfigResolve.v
ConfigFile.v
Config.v
ConfigFormatsFacts.v
ConfigCsvFacts.v
ConfigRegistryFacts.v
ConfigDecodeFacts.v
ConfigFlowFacts.v
ConfigSaveFacts.v
CertsTypes.v
CertsNames.v
CertsCrypto.v
CertsOptions.v
CertsOptionsFacts.v
CertsState.v
CertsBackend.v
CertsAuthority.v
CertsStateFacts.v
CertsFiles.v
CertsDisk.v
CertsFileStore.v
CertsSql.v
CertsSqliteStore.v
CertsFileStoreFacts.v
CertsFileStoreLaws.v
CertsSqliteFacts.v
CertsSqliteLaws.v
CertsSqliteParity.v
CertsBundle.v
CertsBundleFacts.v
CertsLoad.v
CertsTrust.v
CertsIssuer.v
CertsIssuerFacts.v
CertsFileLedger.v
CertsSqliteLedger.v
CertsExamples.v
CertsStaged.v
CertsTrustFacts.v
CertsAuthorityFacts.v
CertsSigning.v
CertsCsr.v
CertsIssuance.v
CertsEnsure.v
CertsOperations.v
CertsManager.v
CertsWitnesses.v
IssuerWitnesses.v
FileStoreWitnesses.v
SqliteWitnesses.v
Host.v
Style.v
Printer.v
Logger.v
AccountWitnesses.v
ServiceWitnesses.v
ConfigWitnesses.v
