(* ===== verification/Prelude.v ===== *)
(** * compage-go: certificates, accounts, services, configuration, console, and the helpers below

    A model of the packages [certs], [account], [service], [config],
    [configpflag], [console], [host], [style], [term], [errx] and [text] of the
    Go module compage-go, with the theorems that make them correct.

    ** The program

    [certs] manages a private certificate authority.  An [AuthorityManager]
    ([authority.go], [authority_operations.go]) keeps a document in a store: a
    root certificate per generation, the issuers with their versions, and at
    most one pending rotation.  [Ensure] provisions the document or stages a
    rotation, [PromotePending] and [DiscardPending] end it, [PruneRoot] and
    [Purge] remove.  An [IssuerManager] ([issuer.go]) opens one issuer of the
    document and signs requests ([csr.go]) within the issuer's policy; in ledger
    mode it records each certificate in the store.  [trust.go] and
    [trust_bundle.go] derive the roots that clients trust, [bundle.go] and
    [save.go] load, order and write certificates.  A store is a [backend]
    ([store.go]); [file_store.go] keeps files, [sqlite_store.go] a database with
    the document and tables that mirror it.  [errx] gives errors a kind and
    [text] makes identifiers of names; both managers use them.

    [account] makes a local account as declared: [operation.go] looks it up,
    plans the changes and, as root, has the backend of the platform
    ([backend_linux_impl.go], [backend_darwin_impl.go]) run the commands, then
    looks again.

    [service] manages the program's own service.  [service.go] makes a
    specification of options; [operation.go] ensures its account (through
    [account]), its directories ([directories.go]) and its definition, a systemd
    unit or a property list that the platform's backend renders and installs,
    and starts, stops, removes and purges it.

    [config] resolves a struct from six layers of raw values.  [registry.go]
    compiles the struct's type to a list of leaves; [options.go] collects what
    the caller gives; [file.go] with [format.go] and its siblings reads and
    flattens the file; [config.go] adds the environment and the flags, and
    [validate.go] decodes the winning value of each leaf ([decode.go]) and runs
    the validators.  [Load] and [Set] publish the snapshot, [Save] writes its
    persistent part, [log.go] keeps diagnostics until there is a logger.
    [configpflag] makes a flag set a source of flags.

    [console/printer] writes what a user reads: lines gated by a level, tables,
    prompts, and the records of [log/slog].  [console/logger] fans records out to
    the sinks of a program, and queues them before there is a logger.  [style]
    and [term] decide on colors, [host] collects facts about the host.

    ** Files, bottom up

    - This file: procedures over a history or a world, the notations for Go's
      early returns, the logics [ensures], [returns] and [step_post] with their
      automation.
    - [GoStrings], [GoPath], [Utf8], [GoNet], [Errors]: what the
      program uses of [strings], [strconv], [path/filepath], [unicode], [net],
      [encoding/hex] and the errors of the host.
    - [Errx]: [errx/error.go], [errx/inspect.go], [errx/kind.go].  Errors live in
      a heap, so that shared and cyclic ones are represented.
    - [Text]: [text/text.go].
    - [Account], [AccountPlatforms]: package [account], the operation and the two
      platform backends; [AccountFacts]: what they guarantee.
    - [Service]: options, validation and metadata of [service.go], with
      [encoding/base64] as it uses it.  [ServiceFiles]: [backend.go].
      [ServicePlatforms]: the two backends.  [ServiceOperation]: [directories.go],
      [operation.go] and [New].  [ServiceFacts],
      [ServiceDirectoryFacts], [ServiceFlowFacts]: what they guarantee.
    - [ConfigTypes]: types, raw values and [errors.go] of [config].
      [ConfigOptions]: [options.go], [flag.go] and the types of [source.go] and
      [validate.go].  [ConfigRegistry]: [registry.go].  [ConfigFormats]:
      [format.go], [format_json.go], [format_yaml.go], [format_toml.go].
      [ConfigDecode]: [decode.go] with [encoding/csv].  [ConfigResolve]:
      [validate.go].  [ConfigFile]: [file.go] with [os.ExpandEnv].  [Config]:
      [config.go], [log.go], [configpflag/source.go].
    - [ConfigFormatsFacts], [ConfigCsvFacts], [ConfigRegistryFacts],
      [ConfigDecodeFacts], [ConfigFlowFacts], [ConfigSaveFacts]: the readers and
      trees of nested keys, lists in flags, the schema, decoding and resolving,
      the operations, saving and reading back.
    - [CertsTypes], [CertsNames]: [models.go], [errors.go].
    - [CertsCrypto]: [crypto.go] and the names of [csr.go], over the classes
      [Crypto], [Env] and [CryptoLaws].
    - [CertsOptions], [CertsOptionsFacts]: [options.go], issuer definitions.
    - [CertsState], [CertsStateFacts]: the document of [store.go] and
      [validate.go]; [state_ok] is [validateState] as a proposition.
    - [CertsBackend]: the interface [backend] as the class [Backend], its
      promises as [BackendLaws].
    - [CertsAuthority], [CertsAuthorityFacts], [CertsStaged], [CertsEnsure],
      [CertsOperations], [CertsManager]: the authority manager,
      first its operations, then what they keep and do.
    - [CertsFiles], [CertsLoad], [CertsBundle], [CertsBundleFacts]: [save.go], [bundle.go].
    - [CertsTrust], [CertsTrustFacts]: [trust.go], [trust_bundle.go], and the
      window in which a promotion keeps the replaced root trusted ([trust_window]).
    - [CertsIssuer], [CertsIssuerFacts], [CertsSigning], [CertsIssuance]:
      [issuer.go].  [CertsCsr]: [csr.go].
    - [CertsDisk]: a disk, the [os] functions on it, and
      [security_unix.go].
    - [CertsFileStore], [CertsFileStoreFacts], [CertsFileStoreLaws],
      [CertsFileLedger]: [file_store.go], that it satisfies [BackendLaws], and
      its ledger.
    - [CertsSql]: the tables of [sqlite_store.go], its statements one by one,
      and transactions.  [CertsSqliteStore]: the store.  [CertsSqliteFacts],
      [CertsSqliteLaws], [CertsSqliteParity], [CertsSqliteLedger]: that it
      satisfies [BackendLaws], what its parity check accepts, and its ledger.
    - [Host], [Style], [Printer], [Logger]: [host]; [style] and [term];
      [console/console.go], [console/hints.go] and [console/printer];
      [console/logger].  Each holds its theorems too.
    - [CertsExamples], [CertsWitnesses], [IssuerWitnesses],
      [FileStoreWitnesses], [SqliteWitnesses], [AccountWitnesses], [ServiceWitnesses],
      [ConfigWitnesses]: concrete instances of every interface and runs of the
      operations on them; they show that the hypotheses can be met.

    ** How code is represented

    A Go method is a definition of the same name; helpers carry the name of what
    they do and stand for a part of a function.  A function that calls the
    outside is a procedure [stm W A], a function from the world before to the
    value and the world after.  Errors are values of [error], a panic that the
    code can run into is an [Errorf] of its own.  Managers are the memory
    [w_mem] of a world; a store is its disk [w_disk].  What Go passes to
    [update] as a closure is a procedure that answers with an [outcome].
    Integers are [Z]; wrap-around is written where it can happen ([u64],
    [int64]).  Go maps are [gmap]; the order of a loop over one is that of
    [map_to_list], on which only the choice among several errors depends.

    In [config] a type is a [gotype], what [reflect] shows of it, slices with the
    name that a type declaration may give them, and a value of
    type [any] a [gov], an immutable tree, on which the copies that the code
    makes are the identity; a document is the list of its entries in the order
    of a loop over it.  The value of a schema is the map from the index of a
    leaf to what was set there.

    A database is a record of tables, a table a [gmap] from the primary key, the
    ledger a list in the order of its rows; a file holds the bytes that [SQLite]
    gives a database.  A statement is a function from a database to the next or
    an error.  The world of the printer and the logger is the list of the writes
    so far with the writer of each, and the shared levels as cells; a handler of
    [log/slog] is a tree of handlers.

    ** Interfaces

    What is not in the repository is a class.  [Unicode]: the tables of runes,
    with [UnicodeLaws].  [Crypto]: the functions of [crypto/x509],
    [encoding/pem] and the PKCS#8 package that compute; [Env]: the clock, the
    random source and what is created with it, each by the number of the call;
    [CryptoLaws]: what their documentation says and the code relies on, such as
    that a certificate that was created and is parsed is that of its template and
    signed by its parent's key.  Its names are those of the template as they are
    encoded and parsed ([names_read]): an IPv4 address is encoded in its short
    form and a URI as its text.  [URLParser]: [url.Parse].  [Host]: the answers of the
    operating system to [save.go] from the history of calls, so that files may
    change between two calls.  [Kernel]: what a disk does not determine, with
    every call free to fail.
    [SQLite] with [SQLiteLaws]: the files of [modernc.org/sqlite] and the names
    that open them; [SQLText] with [SQLTextLaws]: the texts that the SQLite store
    compares.  [JSON] with [JSONLaws]: [encoding/json] on the
    three stored types.  [AccountHost]: the answers of the user database, the
    commands and the file system to [account], from the history of calls;
    [ServiceHost]: the same for [service], with an [AccountHost] for the calls
    that go through [account].  [MetadataJSON] with [MetadataLaws]:
    [encoding/json] on the metadata of a service.
    [ConfigHost]: the answers of the system to [config], from the history of
    calls; [Formats]: the JSON scanner and the readers and writers of TOML, YAML
    and JSON, with [JSONFileLaws]: a written document scans to its tokens;
    [Numbers] with [NumbersLaws]: text of floats and durations; [Schema]: the
    type of a configuration and its own validation.
    [SystemQuery] and [NetworkQuery]: the answers of the system and of the
    resolver to [host]; [Terminals]: which files are terminals; [Formats] of
    [Printer], with [FormatsLaws]: [fmt]; [LogHost]: which writes a sink accepts,
    the clock, the random numbers and the opening of a log file.
    [Backend] with [BackendLaws]: a store; the managers are verified against it,
    and [FileStore_refines] and [SQLiteStore_refines] discharge it for the two
    stores.

    ** Theorems

    - The authority: every run of operations keeps the stored document
      well-formed ([calls_keep_authority]); promotion, discarding, purging and
      the trust deadline ([PromotePending_spec], [Ensure_discard],
      [Purge_guard], [ledgerTrustDeadline_spec]); [validateState_spec].
    - Issuing: what is signed is within policy, validity and ledger
      ([SignCSR_spec]), and what is within them is signed ([SignCSR_issues]);
      the policy ([validateRequest_spec]); requests ([NewCSR_spec]); the ledger
      record ([ledger_record_valid]).
    - Trust and bundles: contents and continuity of trust
      ([buildTrustBundle_spec], [trust_continuity]), order of chains
      ([normalizeBundle_spec], [normalizeBundle_perm]), reloading
      ([bundle_reload], [trust_reload]), atomic saving ([atomicSave_spec]).
    - The file store: [FileStore_refines]; its ledger ([appendLedger_spec],
      [lookupLedger_spec], [file_pages_spec], [page_bounds]).
    - The SQLite store: [SQLiteStore_refines]; its parity check accepts exactly
      the tables of the document ([sql_load_exact]), so what an update stores is
      loaded ([sql_update_load]); its ledger ([sql_append_spec]).
    - The console: who gets a record and with what ([logger_writes]), the line of
      a record ([Handle_line]), tables ([renderTable_spec]), the queue
      ([Flush_run]); styled text ([styled_text]); what the discovery of a network
      reports ([discoverNetwork_spec]).
    - Accounts: what a successful operation has verified ([Ensure_verified]),
      that checking changes nothing ([unapplied_reads]), the comparison
      ([compareFor_spec]), and on the platforms the memberships
      ([modify_memberships]), identifiers ([allocateID_least]) and options
      ([unchecked_options]).
    - Services: the type of a manager ([New_type]), what a successful operation
      has established ([Ensure_establishes]), how definitions are written
      ([write_replaces]), what they say ([unit_has_its_lines],
      [arguments_read_back], [rendered_reasons]), what is removed, what is
      kept and what was looked at before ([purge_confined],
      [cleanup_checks_path]), and by whom
      ([system_needs_root]).
    - Configuration: every run of operations keeps the snapshot what its layers
      determine ([operations_consistent]) and a failure keeps the snapshot
      ([failure_keeps_snapshot]); what a load and a set publish ([Load_spec],
      [Set_spec]); resolving against its abstract snapshot ([resolve_spec]);
      what is written and how ([Save_writes]) and that it is read back
      ([save_read_back]); the schema ([makeRegistry_spec]), decoding
      ([decoded_typed]), the JSON reader ([decodeJSONFormat_spec]) and lists in
      flags ([flag_text_read_back]).
    - Options, definitions, names and identifiers: normal forms and their fixed
      points, in [CertsOptionsFacts], [CertsNames] and [Text].
    - [errx]: classification refines its abstract definition and ends on every
      heap, and where it loses a kind.
    - Where the code does not do what it means to: [provision_common_name],
      [assertSpec_misses_identity], [ledger_record_valid], [page_bounds],
      [KindOf_sharing], [unchecked_options], [created_unreported],
      [launchd_state_is_config], [system_config_hidden], [binary_adds_lines],
      [revision_in_comment], [purge_takes_nested_logs], [dash_hides_conflict],
      [empty_list_unreadable], [native_rows_unchecked],
      [relative_path_unreadable], [purged_then_panics], [count_after_flush],
      [flush_ignores_level], [unit_repeated], [With_ignores_success],
      [grouped_hint_printed], [enabled_not_shown], [renderTable_spec].

    ** Bounds and fuel

    The loops over ledger pages take their fuel as an argument and answer [None]
    when it is used up; [ledgerTrustDeadline_spec] and [file_pages_spec] say
    that one unit per page is enough.  [climb] gets the number of certificates,
    which bounds a chain without repetition; [parse_blocks] the length of its
    input, of which each block consumes some; [kindOf] a cost of the heap
    ([fuel_for]), enough by [KindOf_total]; [free_generation] the number of
    roots; [free_id] the number of used identifiers ([allocateID_least]).
    [sign_attempts] makes the eight attempts of the code, [temp_tries]
    the ten thousand of [os.CreateTemp].  The JSON reader gets two units per
    token ([json_fuel], enough by [decodeJSONFormat_spec]), the reader of comma
    separated values one per byte ([flag_text_read_back]); the buffer of
    diagnostics keeps 256 records.  A wait for a file lock ends after the
    number of rounds that [Kernel] gives, or with its context.

    ** Not modelled

    - The engine of SQLite: a transaction is atomic and a statement does what the
      definition of its name says.  Its journal files after a crash, and other
      processes between two statements.
    - Log calls of [certs], JSON forms (except where they decide a comparison), accessors
      that return a field, [Verify] and [CertPool], which only call [x509].
    - Other processes that change a store between two operations, and what a
      power failure leaves on a disk.  Links are nodes, but two names of one
      directory are not identified.  A nil element of a map of records, which
      JSON could produce, is not represented.
    - Two forms of one IPv4 address are not told apart when a document is read
      back, and stored text is taken to be UTF-8.
    - The texts of the errors of [account] and [service], and what the commands
      do: the theorems speak of the commands that are run and of the answers.
      What systemd makes of percent and dollar signs in a unit.
    - The locks of [config]: its operations are taken one after another.  The
      names that the causes of its errors quote, and the time and the caller of
      a log record.
    - Of [console]: the mutex of a printer, whose effect is the order of the
      writes; the layout of a JSON line, of which the entry is modelled; file
      options without a function.  Of [host], what fills the answers of the two
      interfaces. *)
From stdpp Require Export prelude gmap strings list sorting fin_maps.
From Stdlib Require Export ZArith Lia.
From Stdlib Require Import Ascii.

#[global] Open Scope Z_scope.

(** String concatenation computes on constructors. *)
#[global] Arguments String.append !_ _ /.

(** ** Procedures over a history of host calls

    Every effect of the program goes through an interface of the host (the
    operating system, a store, a clock).  A procedure is a function of the
    list of calls made so far, oldest first, that returns its value and the
    list extended with its own calls.  What the host answers is a function of
    that history, so one parameter covers every host, also one that changes
    between two calls. *)
Definition stm (W A : Type) : Type := W → A * W.

#[global] Instance stm_ret {W} : MRet (stm W) := λ A a w, (a, w).
#[global] Instance stm_bind {W} : MBind (stm W) :=
  λ A B f m w, let '(a, w') := m w in f a w'.

Abbreviation proc Ev := (stm (list Ev)).

(** One call: the event is appended, the answer comes from the host. *)
Definition perform {Ev A} (ev : Ev) (answer : list Ev → A) : proc Ev A :=
  λ h, (answer h, h ++ [ev]).

Declare Scope go_scope.
Delimit Scope go_scope with go.
#[global] Open Scope go_scope.

(** [let! x := m else e => h in k] is Go's
    [x, err := m; if err != nil { h }; k]. *)
Notation "'let!' x ':=' m 'else' e '=>' h 'in' k" :=
  (mbind (λ r : sum _ _, match r with inl e => h | inr x => k end) m)
  (at level 100, x pattern, e name, m at level 100, h at level 100,
   k at level 200, right associativity,
   format "'let!'  x  ':='  m  'else'  e  '=>'  h  'in' '//' k") : go_scope.

(** [check! m else e => h in k] is Go's [if err := m; err != nil { h }; k],
    where [None] is the nil error. *)
Notation "'check!' m 'else' e '=>' h 'in' k" :=
  (mbind (λ r : option _, match r with Some e => h | None => k end) m)
  (at level 100, e name, m at level 100, h at level 100,
   k at level 200, right associativity,
   format "'check!'  m  'else'  e  '=>'  h  'in' '//' k") : go_scope.

(** A [for] loop over a slice whose body either leaves the function with
    [inl r] or goes on with the state [inr s]. *)
Fixpoint for_each {W A S R} (body : A → S → stm W (R + S)) (l : list A) (s : S)
    : stm W (R + S) :=
  match l with
  | [] => mret (inr s)
  | a :: l' =>
      r ← body a s;
      match r with
      | inl x => mret (inl x)
      | inr s' => for_each body l' s'
      end
  end.

Section proc_logic.
Context {Ev : Type}.
Implicit Types (P : Ev → Prop) (h t : list Ev).

(** [ensures m Q]: from every history, [m] only extends it, by calls [t]
    such that [Q] holds of the value and [t]. *)
Definition ensures {A} (m : proc Ev A) (Q : A → list Ev → Prop) : Prop :=
  ∀ h, ∃ t, (m h).2 = h ++ t ∧ Q (m h).1 t.

(** Every call that [m] makes satisfies [P]. *)
Definition emits {A} (P : Ev → Prop) (m : proc Ev A) : Prop :=
  ensures m (λ _ t, Forall P t).

Lemma ensures_ret {A} (a : A) (Q : A → list Ev → Prop) :
  Q a [] → ensures (mret a) Q.
Proof. intros HQ h. exists []. by rewrite app_nil_r. Qed.

Lemma ensures_perform {A} ev (answer : list Ev → A) (Q : A → list Ev → Prop) :
  (∀ a, Q a [ev]) → ensures (perform ev answer) Q.
Proof. intros HQ h. exists [ev]. split; [done | apply HQ]. Qed.

Lemma ensures_bind {A B} (m : proc Ev A) (f : A → proc Ev B)
    (R : A → list Ev → Prop) (Q : B → list Ev → Prop) :
  ensures m R →
  (∀ a t1, R a t1 → ensures (f a) (λ b t2, Q b (t1 ++ t2))) →
  ensures (m ≫= f) Q.
Proof.
  intros Hm Hf h. destruct (Hm h) as (t1 & E1 & HR).
  unfold mbind, stm_bind. destruct (m h) as [a h1] eqn:Em. simpl in *. subst h1.
  destruct (Hf a t1 HR (h ++ t1)) as (t2 & E2 & HQ).
  exists (t1 ++ t2). by rewrite app_assoc.
Qed.

Lemma ensures_mono {A} (m : proc Ev A) (Q Q' : A → list Ev → Prop) :
  ensures m Q → (∀ a t, Q a t → Q' a t) → ensures m Q'.
Proof. intros Hm HQ h. destruct (Hm h) as (t & ? & ?). eauto. Qed.

Lemma ensures_run {A} (m : proc Ev A) (Q : A → list Ev → Prop) h a h' :
  ensures m Q → m h = (a, h') → ∃ t, h' = h ++ t ∧ Q a t.
Proof. intros Hm E. destruct (Hm h) as (t & H1 & H2). rewrite E in H1, H2. eauto. Qed.

Lemma emits_ret {A} P (a : A) : emits P (mret a).
Proof. apply ensures_ret. constructor. Qed.

Lemma emits_perform {A} P ev (answer : list Ev → A) :
  P ev → emits P (perform ev answer).
Proof. intros HP. apply ensures_perform. intros _. by constructor. Qed.

Lemma emits_bind {A B} P (m : proc Ev A) (f : A → proc Ev B) :
  emits P m → (∀ a, emits P (f a)) → emits P (m ≫= f).
Proof.
  intros Hm Hf. eapply ensures_bind; [apply Hm|].
  intros a t1 H1. eapply ensures_mono; [apply Hf|].
  intros b t2 H2. by apply Forall_app.
Qed.

Lemma emits_mono {A} P P' (m : proc Ev A) :
  emits P m → (∀ ev, P ev → P' ev) → emits P' m.
Proof.
  intros Hm HP. eapply ensures_mono; [apply Hm|].
  intros a t Ht. eapply Forall_impl; [apply Ht|apply HP].
Qed.

Lemma emits_for_each {A S R} P (body : A → S → proc Ev (R + S)) l s :
  (∀ a s', a ∈ l → emits P (body a s')) → emits P (for_each body l s).
Proof.
  revert s. induction l as [|a l IH]; intros s Hb; simpl; [apply emits_ret|].
  apply emits_bind; [apply Hb; left|]. intros [r|s'].
  - apply emits_ret.
  - apply IH. intros. apply Hb. by right.
Qed.

Lemma emits_run {A} P (m : proc Ev A) h a h' :
  emits P m → m h = (a, h') → ∃ t, h' = h ++ t ∧ Forall P t.
Proof. intros Hm. by apply (ensures_run m (λ _ t, Forall P t)). Qed.
End proc_logic.

Section returns_logic.
Context {W : Type}.

(** Every value that [m] returns satisfies [Q]. *)
Definition returns {A} (m : stm W A) (Q : A → Prop) : Prop := ∀ w, Q (m w).1.

Lemma returns_ret {A} (a : A) (Q : A → Prop) : Q a → returns (mret a) Q.
Proof. by intros ? h. Qed.

Lemma returns_any {A} (m : stm W A) : returns m (λ _, True).
Proof. done. Qed.

Lemma returns_bind {A B} (m : stm W A) (f : A → stm W B) (R : A → Prop) Q :
  returns m R → (∀ a, R a → returns (f a) Q) → returns (m ≫= f) Q.
Proof.
  intros Hm Hf h. specialize (Hm h). unfold mbind, stm_bind.
  destruct (m h) as [a h1]. apply Hf, Hm.
Qed.

Lemma returns_bind_any {A B} (m : stm W A) (f : A → stm W B) Q :
  (∀ a, returns (f a) Q) → returns (m ≫= f) Q.
Proof. intros Hf. eapply returns_bind; [apply returns_any|auto]. Qed.

Lemma returns_run {A} (m : stm W A) (Q : A → Prop) h a h' :
  returns m Q → m h = (a, h') → Q a.
Proof. intros Hm E. specialize (Hm h). by rewrite E in Hm. Qed.

Lemma bind_run {A B} (m : stm W A) (f : A → stm W B) h b h' :
  (m ≫= f) h = (b, h') → ∃ a h1, m h = (a, h1) ∧ f a h1 = (b, h').
Proof. unfold mbind, stm_bind. destruct (m h) as [a h1]. eauto. Qed.

Lemma run_bind {A B} (m : stm W A) (f : A → stm W B) h a h1 :
  m h = (a, h1) → (m ≫= f) h = f a h1.
Proof. intros E. unfold mbind, stm_bind. by rewrite E. Qed.

Lemma run_ret {A B} (a : A) (f : A → stm W B) h : (mret a ≫= f) h = f a h.
Proof. done. Qed.
End returns_logic.

(** [step_post R Q m w]: the run of [m] from [w] ends in a world related to [w]
    by [R], with a value that satisfies [Q]. *)
Section step_logic.
Context {W : Type} (R : W → W → Prop) `{!PreOrder R}.

Definition step_post {A} (Q : A → Prop) (m : stm W A) (w : W) : Prop :=
  R w (m w).2 ∧ Q (m w).1.

Lemma step_ret {A} (Q : A → Prop) a w : Q a → step_post Q (mret a) w.
Proof. by split. Qed.

Lemma step_bind {A B} (P : A → Prop) (Q : B → Prop) (m : stm W A) (f : A → stm W B) w :
  step_post P m w → (∀ a w', R w w' → P a → step_post Q (f a) w') → step_post Q (m ≫= f) w.
Proof.
  intros [Hr Hp] Hf. unfold step_post, mbind, stm_bind in *.
  destruct (m w) as [a w'] eqn:E. cbn in *. destruct (Hf a w' Hr Hp) as [Hr' Hq].
  split; [by etransitivity|done].
Qed.

Lemma step_mono {A} (P Q : A → Prop) (m : stm W A) w :
  step_post P m w → (∀ a, P a → Q a) → step_post Q m w.
Proof. intros [? ?] HPQ. split; auto. Qed.

Lemma step_run {A} (Q : A → Prop) (m : stm W A) w a w' :
  step_post Q m w → m w = (a, w') → R w w' ∧ Q a.
Proof. intros [? ?] E. by rewrite E in *. Qed.

(** The invariant of a loop speaks about the elements that were handled. *)
Lemma step_for_each {A S E} (I : list A → S → Prop) (body : A → S → stm W (E + S)) l s w :
  I [] s →
  (∀ p a q s w', l = p ++ a :: q → R w w' → I p s →
    step_post (λ r, match r with inl _ => True | inr s' => I (p ++ [a]) s' end) (body a s) w') →
  step_post (λ r, match r with inl _ => True | inr s' => I l s' end) (for_each body l s) w.
Proof.
  intros H0 Hb. assert (∀ q p s w', l = p ++ q → R w w' → I p s →
    step_post (λ r, match r with inl _ => True | inr s' => I l s' end) (for_each body q s) w') as Hgo.
  { induction q as [|a q IH]; intros p s' w' -> Hr Hi; cbn [for_each].
    - apply step_ret. by rewrite app_nil_r.
    - eapply step_bind; [by eapply Hb|]. intros [e|s1] w1 Hr1 Hi1; [by apply step_ret|].
      apply (IH (p ++ [a])); [by rewrite <- app_assoc|by etransitivity|done]. }
  by apply (Hgo l []).
Qed.
End step_logic.

(** ** Automation

    [emits] is the database of the "which calls can this procedure make"
    lemmas; [go_emits] walks through a procedure's binds, branches and loops
    and closes the leaves with it. *)
Create HintDb emits discriminated.
#[export] Hint Resolve emits_ret : emits.

Ltac go_emits_step :=
  first
    [ progress intros
    | apply emits_ret
    | solve [eauto with emits]
    | apply emits_bind
    | apply emits_for_each
    | apply emits_perform
    | case_match ].
Ltac go_emits := repeat go_emits_step.

(** [go_returns] does the same for [returns]: it descends to the values the
    procedure can return. *)
Ltac go_returns_step :=
  first
    [ progress intros
    | apply returns_ret
    | apply returns_bind_any
    | case_match ].
Ltac go_returns := repeat go_returns_step.

(** [inv_run H] opens one bind of a run [H : (m ≫= f) h = (b, h')]. *)
Ltac inv_run H :=
  let a := fresh "r" in let h1 := fresh "h" in let E := fresh "E" in
  apply bind_run in H as (a & h1 & E & H).

(** Split the boolean tests of the code. *)
Ltac bool_simpl :=
  repeat match goal with
  | H : (_ && _)%bool = true |- _ => apply andb_true_iff in H as [? ?]
  | H : (_ || _)%bool = false |- _ => apply orb_false_iff in H as [? ?]
  | H : negb _ = true |- _ => apply negb_true_iff in H
  | H : negb _ = false |- _ => apply negb_false_iff in H
  | H : bool_decide _ = true |- _ => apply bool_decide_eq_true in H
  | H : bool_decide _ = false |- _ => apply bool_decide_eq_false in H
  end.

(** ** Lists and options *)

(** The first error of a sequence of checks, Go's early returns. *)
Fixpoint first_error {E} (checks : list (option E)) : option E :=
  match checks with
  | [] => None
  | Some e :: _ => Some e
  | None :: l => first_error l
  end.

Lemma first_error_None {E} (checks : list (option E)) :
  first_error checks = None ↔ Forall (λ c, c = None) checks.
Proof.
  induction checks as [|[e|] l IH]; simpl.
  - split; [constructor|done].
  - split; [done|]. intros H. inversion H. congruence.
  - rewrite IH. split; [by constructor|]. intros H. by inversion H.
Qed.

Lemma existsb_elem_of {A} (f : A → bool) l :
  existsb f l = true ↔ ∃ x, x ∈ l ∧ f x = true.
Proof.
  rewrite existsb_exists. split; intros (x & Hx & ?); exists x;
    (split; [by apply list_elem_of_In|done]).
Qed.

Lemma forallb_Forall {A} (f : A → bool) l :
  forallb f l = true ↔ Forall (λ x, f x = true) l.
Proof.
  induction l as [|x l IH]; simpl; [split; [constructor|done]|].
  rewrite andb_true_iff, IH, Forall_cons. done.
Qed.

(** ** Text of numbers, for the small encoders of the witnesses *)

Fixpoint bits (p : positive) : string :=
  match p with xH => "" | xO q => String "0" (bits q) | xI q => String "1" (bits q) end.
Fixpoint unbits (s : string) : positive :=
  match s with EmptyString => xH | String c t => if Ascii.eqb c "1" then xI (unbits t) else xO (unbits t) end.
Lemma unbits_bits p : unbits (bits p) = p.
Proof. induction p as [p IH|p IH|]; cbn; by rewrite ?IH. Qed.
