(* ===== verification/GoStrings.v ===== *)
(** * The functions of Go's [strings] and [strconv] packages that the program uses

    A Go string is a sequence of bytes, which is what [string] is.  The
    character sets the program passes to [ContainsAny], [IndexAny] and [Trim]
    are ASCII, for which the byte-wise reading is exact; functions that look
    at runes are in [Utf8]. *)
From S2P Require Import Prelude.
From Stdlib Require Export Ascii.
From stdpp Require Import pretty.

#[local] Open Scope stdpp_scope.
#[local] Open Scope Z_scope.

(** The numeric value of a byte. *)
Definition ord (c : ascii) : Z := Z.of_N (N_of_ascii c).
Definition chr (z : Z) : ascii := ascii_of_N (Z.to_N z).

Lemma ord_bounds c : 0 ≤ ord c < 256.
Proof.
  unfold ord. pose proof (N_ascii_bounded c). lia.
Qed.

Lemma chr_ord c : chr (ord c) = c.
Proof. unfold chr, ord. rewrite N2Z.id. apply ascii_N_embedding. Qed.

Lemma ord_chr z : 0 ≤ z < 256 → ord (chr z) = z.
Proof. intros ?. unfold chr, ord. rewrite N_ascii_embedding; lia. Qed.

#[global] Instance ord_inj : Inj (=) (=) ord.
Proof. intros a b E. rewrite <- (chr_ord a), <- (chr_ord b). by rewrite E. Qed.

Definition slen (s : string) : nat := String.length s.

Fixpoint chars (s : string) : list ascii :=
  match s with
  | EmptyString => []
  | String c s' => c :: chars s'
  end.

Fixpoint unchars (l : list ascii) : string :=
  match l with
  | [] => EmptyString
  | c :: l' => String c (unchars l')
  end.

Lemma unchars_chars s : unchars (chars s) = s.
Proof. induction s as [|c s IH]; simpl; [done|by rewrite IH]. Qed.
Lemma chars_unchars l : chars (unchars l) = l.
Proof. induction l as [|c l IH]; simpl; [done|by rewrite IH]. Qed.
Lemma chars_app a b : chars (a +:+ b) = chars a ++ chars b.
Proof. induction a as [|c a IH]; simpl; [done|by rewrite IH]. Qed.
Lemma unchars_app a b : unchars (a ++ b) = unchars a +:+ unchars b.
Proof. induction a as [|c a IH]; simpl; [done|by rewrite IH]. Qed.
#[global] Instance chars_inj : Inj (=) (=) chars.
Proof. intros a b E. rewrite <- (unchars_chars a), E. apply unchars_chars. Qed.

Lemma sapp_assoc (a b c : string) : (a +:+ b) +:+ c = a +:+ (b +:+ c).
Proof. induction a as [|x a IH]; simpl; [done|by rewrite IH]. Qed.
Lemma sapp_nil_r (a : string) : a +:+ "" = a.
Proof. induction a as [|x a IH]; simpl; [done|by rewrite IH]. Qed.
Lemma sapp_inv_l (a b c : string) : a +:+ b = a +:+ c → b = c.
Proof. induction a as [|x a IH]; simpl; [done|]. intros [=]. auto. Qed.
Lemma slen_app (a b : string) : slen (a +:+ b) = (slen a + slen b)%nat.
Proof. unfold slen. induction a as [|x a IH]; simpl; [done|by rewrite IH]. Qed.
#[global] Instance sapp_inj_r (a : string) : Inj (=) (=) (String.append a).
Proof. intros b c. apply sapp_inv_l. Qed.

(** [s[:n]] and [s[n:]]. *)
Fixpoint stake (n : nat) (s : string) : string :=
  match n, s with
  | S n', String c s' => String c (stake n' s')
  | _, _ => EmptyString
  end.
Fixpoint sdrop (n : nat) (s : string) : string :=
  match n, s with
  | O, _ => s
  | S n', String _ s' => sdrop n' s'
  | S _, EmptyString => EmptyString
  end.

Lemma stake_sdrop n s : stake n s +:+ sdrop n s = s.
Proof. revert s. induction n as [|n IH]; intros [|c s]; simpl; try done. by rewrite IH. Qed.
Lemma sdrop_app (a b : string) : sdrop (slen a) (a +:+ b) = b.
Proof. induction a as [|c a IH]; simpl; [by destruct b|done]. Qed.
Lemma stake_app (a b : string) : stake (slen a) (a +:+ b) = a.
Proof. induction a as [|c a IH]; simpl; [by destruct b|by rewrite IH]. Qed.

(** ** Prefixes, suffixes, substrings *)

Fixpoint HasPrefix (s pre : string) {struct pre} : bool :=
  match pre, s with
  | EmptyString, _ => true
  | String p pre', String c s' => Ascii.eqb p c && HasPrefix s' pre'
  | String _ _, EmptyString => false
  end.

Lemma HasPrefix_spec s pre : HasPrefix s pre = true ↔ ∃ t, s = pre +:+ t.
Proof.
  revert s. induction pre as [|p pre IH]; intros s; simpl.
  - split; [eauto|by destruct s].
  - destruct s as [|c s]; [split; [done|intros [? [=]]]|].
    cbn [HasPrefix]. rewrite andb_true_iff, Ascii.eqb_eq, IH. split.
    + intros [-> [t ->]]. by exists t.
    + intros [t [= -> ->]]. eauto.
Qed.

Lemma HasPrefix_app a b : HasPrefix (a +:+ b) a = true.
Proof. apply HasPrefix_spec. eauto. Qed.

Definition TrimPrefix (s pre : string) : string :=
  if HasPrefix s pre then sdrop (slen pre) s else s.

Lemma TrimPrefix_app a b : TrimPrefix (a +:+ b) a = b.
Proof. unfold TrimPrefix. by rewrite HasPrefix_app, sdrop_app. Qed.

Definition HasSuffix (s suf : string) : bool :=
  Nat.leb (slen suf) (slen s) && String.eqb (sdrop (slen s - slen suf) s) suf.

Lemma HasSuffix_spec s suf : HasSuffix s suf = true ↔ ∃ t, s = t +:+ suf.
Proof.
  unfold HasSuffix. rewrite andb_true_iff, Nat.leb_le, String.eqb_eq. split.
  - intros [_ E]. exists (stake (slen s - slen suf) s).
    rewrite <- E at 2. by rewrite stake_sdrop.
  - intros [t ->]. rewrite slen_app.
    replace (slen t + slen suf - slen suf)%nat with (slen t) by lia.
    rewrite sdrop_app. split; [lia|done].
Qed.

Lemma HasSuffix_app a b : HasSuffix (a +:+ b) b = true.
Proof. apply HasSuffix_spec. eauto. Qed.

Definition TrimSuffix (s suf : string) : string :=
  if HasSuffix s suf then stake (slen s - slen suf) s else s.

Fixpoint Contains (s sub : string) : bool :=
  HasPrefix s sub ||
  match s with
  | EmptyString => false
  | String _ s' => Contains s' sub
  end.

Lemma Contains_spec s sub : Contains s sub = true ↔ ∃ a b, s = a +:+ sub +:+ b.
Proof.
  induction s as [|c s IH]; cbn [Contains]; rewrite orb_true_iff, HasPrefix_spec.
  - split.
    + intros [[t E]|?]; [exists "", t; done|done].
    + intros (a & b & E). left. exists b. destruct a; [done|discriminate].
  - rewrite IH. split.
    + intros [[t E]|(a & b & ->)]; [by exists "", t|by exists (String c a), b].
    + intros (a & b & E). destruct a as [|x a]; [left; by exists b|].
      simpl in E. injection E as -> ->. right. by exists a, b.
Qed.

(** [strings.Index]: the first position of [sub], [None] for -1. *)
Fixpoint Index (s sub : string) : option nat :=
  if HasPrefix s sub then Some O else
  match s with
  | EmptyString => None
  | String _ s' => S <$> Index s' sub
  end.

Definition in_set (set : string) (c : ascii) : bool := existsb (Ascii.eqb c) (chars set).

Lemma in_set_spec set c : in_set set c = true ↔ c ∈ chars set.
Proof.
  unfold in_set. rewrite existsb_elem_of. split.
  - intros (x & Hx & E). apply Ascii.eqb_eq in E. by subst.
  - intros H. exists c. split; [done|apply Ascii.eqb_refl].
Qed.

(** [strings.ContainsAny] with an ASCII set. *)
Definition ContainsAny (s set : string) : bool := existsb (in_set set) (chars s).

Lemma ContainsAny_false s set :
  ContainsAny s set = false ↔ ∀ c, c ∈ chars s → c ∉ chars set.
Proof.
  rewrite <- not_true_iff_false. unfold ContainsAny. rewrite existsb_elem_of. split.
  - intros H c Hc Hs. apply H. exists c. by rewrite in_set_spec.
  - intros H (c & Hc & Hs). apply in_set_spec in Hs. by eapply H.
Qed.

(** [strings.IndexAny] with an ASCII set. *)
Fixpoint IndexAny (s set : string) : option nat :=
  match s with
  | EmptyString => None
  | String c s' => if in_set set c then Some O else S <$> IndexAny s' set
  end.

(** [strings.LastIndexByte]. *)
Fixpoint LastIndexByte (s : string) (b : ascii) : option nat :=
  match s with
  | EmptyString => None
  | String c s' =>
      match LastIndexByte s' b with
      | Some n => Some (S n)
      | None => if Ascii.eqb c b then Some O else None
      end
  end.

(** ** Splitting and joining *)

(** [strings.Split] with a one-byte separator. *)
Fixpoint Split (s : string) (sep : ascii) : list string :=
  match s with
  | EmptyString => [""]
  | String c s' =>
      if Ascii.eqb c sep then "" :: Split s' sep else
      match Split s' sep with
      | [] => [String c ""]
      | w :: ws => String c w :: ws
      end
  end.

Definition Join (l : list string) (sep : string) : string := String.concat sep l.
#[global] Arguments Join : simpl never.

Lemma Split_not_nil s sep : Split s sep ≠ [].
Proof.
  destruct s as [|c s]; simpl; [done|].
  destruct (Ascii.eqb c sep); [done|]. by destruct (Split s sep).
Qed.

Lemma Join_cons x y l sep : Join (x :: y :: l) sep = x +:+ sep +:+ Join (y :: l) sep.
Proof. done. Qed.

Lemma Join_Split s sep : Join (Split s sep) (String sep "") = s.
Proof.
  induction s as [|c s IH]; simpl; [done|].
  pose proof (Split_not_nil s sep) as Hne.
  destruct (Ascii.eqb_spec c sep) as [->|Hc].
  - destruct (Split s sep) as [|w ws] eqn:E; [done|].
    rewrite Join_cons. simpl. by rewrite IH.
  - destruct (Split s sep) as [|w ws] eqn:E; [done|].
    destruct ws as [|w' ws]; [by rewrite <- IH|].
    rewrite Join_cons in *. simpl in *. by rewrite IH.
Qed.

Lemma Split_no_sep s sep : sep ∉ chars s → Split s sep = [s].
Proof.
  induction s as [|c s IH]; simpl; [done|].
  rewrite not_elem_of_cons. intros [Hne Hs].
  destruct (Ascii.eqb_spec c sep); [congruence|]. by rewrite IH.
Qed.

Lemma Split_app s t sep :
  sep ∉ chars s → Split (s +:+ String sep t) sep = s :: Split t sep.
Proof.
  induction s as [|c s IH]; simpl; intros Hs.
  - by rewrite Ascii.eqb_refl.
  - apply not_elem_of_cons in Hs as [Hne Hs].
    destruct (Ascii.eqb_spec c sep); [congruence|]. by rewrite IH.
Qed.

Lemma Split_Join l sep :
  l ≠ [] → Forall (λ w, sep ∉ chars w) l → Split (Join l (String sep "")) sep = l.
Proof.
  induction l as [|x l IH]; [done|]. intros _ Hl.
  apply Forall_cons in Hl as [Hx Hl]. destruct l as [|y l].
  - by apply Split_no_sep.
  - rewrite Join_cons. cbn [String.append]. by rewrite Split_app, IH.
Qed.

Lemma Split_no_sep_in s sep w : w ∈ Split s sep → sep ∉ chars w.
Proof.
  revert w. induction s as [|c s IH]; simpl; intros w.
  - rewrite list_elem_of_singleton. intros ->. apply not_elem_of_nil.
  - destruct (Ascii.eqb_spec c sep) as [->|Hc].
    + intros [->|Hw]%elem_of_cons; [apply not_elem_of_nil|auto].
    + destruct (Split s sep) as [|v vs] eqn:E.
      * rewrite list_elem_of_singleton. intros ->. simpl.
        rewrite list_elem_of_singleton. congruence.
      * intros [->|Hw]%elem_of_cons.
        -- simpl. rewrite not_elem_of_cons. split; [congruence|]. apply IH. left.
        -- apply IH. by right.
Qed.

(** [strings.Cut] with a one-byte separator. *)
Fixpoint Cut (s : string) (sep : ascii) : option (string * string) :=
  match s with
  | EmptyString => None
  | String c s' =>
      if Ascii.eqb c sep then Some ("", s') else
      match Cut s' sep with
      | Some (a, b) => Some (String c a, b)
      | None => None
      end
  end.

(** [strings.NewReplacer] with one-byte patterns, and [strings.ReplaceAll] of
    a one-byte pattern: every byte is replaced on its own. *)
Fixpoint replace_bytes (f : ascii → string) (s : string) : string :=
  match s with
  | EmptyString => ""
  | String c s' => f c +:+ replace_bytes f s'
  end.

Lemma replace_bytes_app f a b :
  replace_bytes f (a +:+ b) = replace_bytes f a +:+ replace_bytes f b.
Proof. induction a as [|c a IH]; simpl; [done|]. by rewrite IH, sapp_assoc. Qed.

Fixpoint Repeat (s : string) (n : nat) : string :=
  match n with O => "" | S n' => s +:+ Repeat s n' end.

(** ** [strconv] *)

(** [strconv.Itoa] and [strconv.FormatBool]. *)
Definition Itoa (z : Z) : string := pretty z.
Definition FormatBool (b : bool) : string := if b then "true" else "false".

Inductive num_err := ErrSyntax | ErrRange.

Definition digit (c : ascii) : option Z :=
  if (48 <=? ord c) && (ord c <=? 57) then Some (ord c - 48) else None.

(** The digits of a decimal number; [None] at the first other byte. *)
Fixpoint digits (s : string) (acc : Z) : option Z :=
  match s with
  | EmptyString => Some acc
  | String c s' =>
      match digit c with
      | Some d => digits s' (acc * 10 + d)
      | None => None
      end
  end.

Definition max_int64 : Z := 2 ^ 63 - 1.
Definition min_int64 : Z := - 2 ^ 63.

(** [strconv.Atoi] (and [ParseInt] in base 10) on 64-bit integers. *)
Definition Atoi (s : string) : num_err + Z :=
  let '(neg, body) :=
    match s with
    | String "+" b => (false, b)
    | String "-" b => (true, b)
    | _ => (false, s)
    end in
  match body with
  | EmptyString => inl ErrSyntax
  | _ =>
      match digits body 0 with
      | None => inl ErrSyntax
      | Some n =>
          let z := if neg : bool then - n else n in
          if (min_int64 <=? z) && (z <=? max_int64) then inr z else inl ErrRange
      end
  end.

Lemma digits_app a b acc :
  digits (a +:+ b) acc = (digits a acc ≫= digits b).
Proof.
  revert acc. induction a as [|c a IH]; intros acc; simpl; [done|].
  destruct (digit c); [apply IH|done].
Qed.

Lemma digit_pretty_N_char x :
  (x < 10)%N → digit (pretty_N_char x) = Some (Z.of_N x).
Proof.
  intros Hx.
  assert (x ∈ [0;1;2;3;4;5;6;7;8;9]%N) as Hin.
  { rewrite !elem_of_cons, elem_of_nil. lia. }
  rewrite !elem_of_cons, elem_of_nil in Hin.
  by repeat destruct Hin as [->|Hin].
Qed.

(** The digits that [pretty] puts in front of [s] stand for [x]. *)
Lemma digits_pretty_N_go x s acc :
  acc = 0 →
  digits (pretty_N_go x s) acc = digits s (Z.of_N x).
Proof.
  intros ->. revert s. induction (N.lt_wf_0 x) as [x _ IH]; intros s.
  destruct (decide (x = 0)%N) as [->|Hx]; [by rewrite pretty_N_go_0|].
  rewrite pretty_N_go_step by lia. rewrite IH by (apply N.div_lt; lia). simpl.
  rewrite digit_pretty_N_char by (apply N.mod_lt; lia). f_equal.
  pose proof (N.div_mod x 10). lia.
Qed.

Lemma digits_pretty_N (x : N) : digits (pretty x) 0 = Some (Z.of_N x).
Proof.
  unfold pretty, pretty_N. case_decide as Hx; [by subst|].
  by rewrite digits_pretty_N_go.
Qed.

Lemma pretty_N_head (x : N) :
  ∃ c s, pretty x = String c s ∧ digit c ≠ None.
Proof.
  pose proof (digits_pretty_N x) as H.
  assert (pretty x ≠ "") as Hne.
  { unfold pretty, pretty_N. case_decide as Hx; [done|].
    rewrite pretty_N_go_step by lia.
    assert (∀ y s, s ≠ "" → pretty_N_go y s ≠ "") as Hg.
    { intros y. induction (N.lt_wf_0 y) as [y _ IH]; intros s Hs.
      destruct (decide (y = 0)%N) as [->|Hy]; [by rewrite pretty_N_go_0|].
      rewrite pretty_N_go_step by lia. apply IH; [apply N.div_lt; lia|done]. }
    by apply Hg. }
  destruct (pretty x) as [|c s]; [done|]. exists c, s. split; [done|].
  simpl in H. by destruct (digit c).
Qed.

(** Parsing what [Itoa] prints gives the number back, on every 64-bit integer. *)
Lemma Atoi_Itoa z : min_int64 ≤ z ≤ max_int64 → Atoi (Itoa z) = inr z.
Proof.
  intros Hz. unfold Itoa.
  assert (∀ n : N, min_int64 ≤ Z.of_N n ≤ max_int64 → Atoi (pretty n) = inr (Z.of_N n)) as Hpos.
  { intros n Hn. destruct (pretty_N_head n) as (c & s & E & Hc).
    pose proof (digits_pretty_N n) as Hd. rewrite E in *. unfold Atoi.
    destruct (decide (c = "+"%char)) as [->|H1]; [by destruct Hc|].
    destruct (decide (c = "-"%char)) as [->|H2]; [by destruct Hc|].
    assert ((match String c s with
             | String "+" b => (false, b)
             | String "-" b => (true, b)
             | _ => (false, String c s)
             end) = (false, String c s)) as ->.
    { destruct c as [[] [] [] [] [] [] [] []]; done. }
    cbv iota beta. rewrite Hd.
    assert ((min_int64 <=? Z.of_N n) && (Z.of_N n <=? max_int64) = true) as ->;
      [apply andb_true_iff; split; apply Z.leb_le; lia|done]. }
  destruct z as [|p|p]; [done|by apply (Hpos (Npos p))|].
  change (pretty (Z.neg p)) with (String "-" (pretty (Npos p))).
  unfold Atoi. cbv iota beta.
  destruct (pretty_N_head (Npos p)) as (c & s & E & _). rewrite E.
  pose proof (digits_pretty_N (Npos p)) as Hd. rewrite E in Hd. rewrite Hd.
  assert ((min_int64 <=? - Z.of_N (N.pos p)) && (- Z.of_N (N.pos p) <=? max_int64) = true) as ->;
    [apply andb_true_iff; split; apply Z.leb_le; lia|done].
Qed.

Lemma Atoi_bounds s z : Atoi s = inr z → min_int64 ≤ z ≤ max_int64.
Proof.
  unfold Atoi.
  destruct (match s with
            | String "+" b => (false, b)
            | String "-" b => (true, b)
            | _ => (false, s)
            end) as [neg body].
  destruct body; [done|]. destruct (digits _ 0); [|done].
  destruct (_ && _) eqn:E; [|done]. intros [= <-].
  apply andb_true_iff in E as [?%Z.leb_le ?%Z.leb_le]. lia.
Qed.

(** ** Sorting *)

(** [sort.Strings] sorts by bytes. *)
Definition sort_strings (l : list string) : list string := merge_sort String.le l.

Lemma sort_strings_perm l : sort_strings l ≡ₚ l.
Proof. apply merge_sort_Permutation. Qed.

Lemma sort_strings_sorted l : StronglySorted String.le (sort_strings l).
Proof. apply StronglySorted_merge_sort; apply _. Qed.

Lemma sort_strings_eq l k : sort_strings l = sort_strings k ↔ l ≡ₚ k.
Proof.
  split.
  - intros E. by rewrite <- (sort_strings_perm l), E, sort_strings_perm.
  - intros E. eapply (StronglySorted_unique String.le); [apply sort_strings_sorted..|].
    by rewrite !sort_strings_perm.
Qed.
