(* ===== verification/GoPath.v ===== *)
(** * [path/filepath] on Unix

    The lexical path functions that the program calls, on the components of a
    path, and what they do to absolute paths whose components are plain names. *)
From S2P Require Import Prelude.
From S2P Require Import GoStrings.
#[local] Open Scope stdpp_scope.
#[local] Open Scope Z_scope.

Definition sep : ascii := "/".
Definition seps : string := "/".

Definition IsAbs (p : string) : bool := HasPrefix p "/".

(** One step of [filepath.Clean] over the components, the output reversed. *)
Definition clean_step (rooted : bool) (out : list string) (c : string) : list string :=
  if String.eqb c "" || String.eqb c "." then out
  else if String.eqb c ".." then
    match out with
    | top :: rest => if String.eqb top ".." then c :: out else rest
    | [] => if rooted then [] else [c]
    end
  else c :: out.

Definition clean_comps (rooted : bool) (comps : list string) : list string :=
  reverse (foldl (clean_step rooted) [] comps).

(** [filepath.Clean]. *)
Definition Clean (p : string) : string :=
  let rooted := IsAbs p in
  let out := clean_comps rooted (Split p sep) in
  if rooted then "/" +:+ Join out seps
  else match out with [] => "." | _ => Join out seps end.

(** [filepath.Join]: empty elements are ignored. *)
Definition PJoin (elems : list string) : string :=
  match filter (λ e, e ≠ "") elems with
  | [] => ""
  | es => Clean (Join es seps)
  end.

Fixpoint trim_right (c : ascii) (s : string) : string :=
  match s with
  | EmptyString => ""
  | String x s' =>
      match trim_right c s' with
      | EmptyString => if Ascii.eqb x c then "" else String x ""
      | t => String x t
      end
  end.

(** [filepath.Base]. *)
Definition Base (p : string) : string :=
  if String.eqb p "" then "." else
  match trim_right sep p with
  | EmptyString => "/"
  | q => List.last (Split q sep) ""
  end.

(** [filepath.Dir]: what stands before the last separator, cleaned. *)
Definition Dir (p : string) : string :=
  match LastIndexByte p sep with
  | Some i => Clean (stake (S i) p)
  | None => "."
  end.

(** [filepath.Ext]: from the last dot of the last element. *)
Definition Ext (p : string) : string :=
  let e := List.last (Split p sep) "" in
  match LastIndexByte e "." with
  | Some i => sdrop i e
  | None => ""
  end.

(** ** Absolute paths made of plain names *)

Definition plain (c : string) : Prop :=
  c ≠ "" ∧ c ≠ "." ∧ c ≠ ".." ∧ sep ∉ chars c.

Definition abs_path (l : list string) : string := "/" +:+ Join l seps.

Lemma clean_step_plain rooted out c : plain c → clean_step rooted out c = c :: out.
Proof.
  intros (H1 & H2 & H3 & _). unfold clean_step.
  destruct (String.eqb_spec c ""), (String.eqb_spec c "."), (String.eqb_spec c "..");
    simpl; congruence.
Qed.

Lemma foldl_clean_plain rooted out l :
  Forall plain l → foldl (clean_step rooted) out l = reverse l ++ out.
Proof.
  revert out. induction l as [|c l IH]; intros out; [done|].
  intros [Hc Hl]%Forall_cons. cbn [foldl]. rewrite clean_step_plain by done.
  rewrite IH by done. by rewrite reverse_cons, <- app_assoc.
Qed.

Lemma clean_comps_plain rooted l : Forall plain l → clean_comps rooted l = l.
Proof.
  intros Hl. unfold clean_comps.
  by rewrite foldl_clean_plain, app_nil_r, reverse_involutive.
Qed.

Lemma plain_no_sep l : Forall plain l → Forall (λ w, sep ∉ chars w) l.
Proof. intros Hl. eapply Forall_impl; [exact Hl|]. by intros c (_ & _ & _ & ?). Qed.

Lemma Split_Join_plain l : Forall plain l → l ≠ [] → Split (Join l seps) sep = l.
Proof. intros ??. apply Split_Join; [done|by apply plain_no_sep]. Qed.

Lemma Split_abs_path l :
  Forall plain l → Split (abs_path l) sep = "" :: (if decide (l = []) then [""] else l).
Proof.
  intros Hl. change (Split (abs_path l) sep) with ("" :: Split (Join l seps) sep).
  f_equal. case_decide as E; [by subst|]. by apply Split_Join_plain.
Qed.

Lemma Clean_abs_path l : Forall plain l → Clean (abs_path l) = abs_path l.
Proof.
  intros Hl. unfold Clean. change (IsAbs (abs_path l)) with true. cbn iota.
  rewrite Split_abs_path by done. unfold clean_comps. cbn [foldl].
  change (clean_step true [] "") with (@nil string).
  case_decide as E; [by subst|]. rewrite foldl_clean_plain by done.
  by rewrite app_nil_r, reverse_involutive.
Qed.

(** Cleaning an absolute path leaves only plain names. *)
Lemma clean_rooted_plain out comps :
  Forall plain out → Forall (λ w, sep ∉ chars w) comps →
  Forall plain (foldl (clean_step true) out comps).
Proof.
  revert out. induction comps as [|c comps IH]; intros out Hout; [done|].
  intros [Hc Hcs]%Forall_cons. cbn [foldl]. apply IH; [|done].
  unfold clean_step.
  destruct (String.eqb_spec c ""), (String.eqb_spec c "."), (String.eqb_spec c "..");
    simpl; try done.
  - destruct out as [|top rest]; [done|].
    apply Forall_cons in Hout as [Ht Hr].
    destruct (String.eqb_spec top "..") as [->|]; [|done]. by destruct Ht as (_ & _ & ? & _).
  - constructor; [by repeat split|done].
Qed.

Lemma Clean_abs p :
  IsAbs p = true → ∃ l, Forall plain l ∧ Clean p = abs_path l.
Proof.
  intros Hp. unfold Clean. rewrite Hp. eexists. split; [|done].
  unfold clean_comps. apply Forall_reverse, clean_rooted_plain; [done|].
  apply Forall_forall. intros w. apply Split_no_sep_in.
Qed.

(** The clean absolute paths, in the two ways the program tests for them. *)
Lemma clean_abs_iff p :
  IsAbs p = true ∧ Clean p = p ↔ ∃ l, Forall plain l ∧ p = abs_path l.
Proof.
  split.
  - intros [Ha Hc]. destruct (Clean_abs p Ha) as (l & Hl & E). exists l. split; congruence.
  - intros (l & Hl & ->). split; [done|by apply Clean_abs_path].
Qed.

Lemma Join_app l r s :
  l ≠ [] → r ≠ [] → Join (l ++ r) s = Join l s +:+ s +:+ Join r s.
Proof.
  intros Hl Hr. induction l as [|x l IH]; [done|]. destruct l as [|y l].
  - destruct r as [|z r]; [done|]. by rewrite <- Join_cons.
  - cbn [app]. rewrite !Join_cons. cbn [app] in IH. rewrite IH by done.
    by rewrite !sapp_assoc.
Qed.

Lemma Join_plain_not_empty r : Forall plain r → r ≠ [] → Join r seps ≠ "".
Proof.
  intros Hr Hne. destruct r as [|x r]; [done|].
  apply Forall_cons in Hr as [(Hx & _) _]. destruct x as [|c x]; [done|].
  destruct r; [done|]. rewrite Join_cons. done.
Qed.

(** Joining a relative path of plain names to a clean absolute directory stays
    below that directory: nothing is dropped and nothing escapes. *)
Lemma PJoin_below l r :
  Forall plain l → Forall plain r → r ≠ [] →
  PJoin [abs_path l; Join r seps] = abs_path (l ++ r).
Proof.
  intros Hl Hr Hne. unfold PJoin.
  rewrite filter_cons_True by done.
  rewrite filter_cons_True by (by apply Join_plain_not_empty).
  rewrite filter_nil.
  assert (Join [abs_path l; Join r seps] seps = abs_path l +:+ "/" +:+ Join r seps) as -> by done.
  destruct (decide (l = [])) as [->|Hl'].
  - (* the root directory: the doubled separator is dropped *)
    unfold Clean.
    change (IsAbs (abs_path [] +:+ "/" +:+ Join r seps)) with true. cbn iota.
    change (Split (abs_path [] +:+ "/" +:+ Join r seps) sep)
      with ("" :: "" :: Split (Join r seps) sep).
    rewrite Split_Join_plain by done.
    unfold clean_comps. cbn [foldl].
    change (clean_step true (clean_step true [] "") "") with (@nil string).
    rewrite foldl_clean_plain by done. by rewrite app_nil_r, reverse_involutive.
  - assert (abs_path l +:+ "/" +:+ Join r seps = abs_path (l ++ r)) as ->.
    { unfold abs_path. rewrite (Join_app l r) by done. by rewrite sapp_assoc. }
    apply Clean_abs_path. by apply Forall_app.
Qed.

Lemma abs_path_below l r : r ≠ [] → l ≠ [] → abs_path (l ++ r) = abs_path l +:+ "/" +:+ Join r seps.
Proof. intros ??. unfold abs_path. rewrite Join_app by done. by rewrite sapp_assoc. Qed.

(** ** [filepath.Abs] *)

(** [filepath.Abs] in the working directory [wd]. *)
Definition Abs (wd p : string) : string := if IsAbs p then Clean p else PJoin [wd; p].

(** The components of the absolute path, the last one first. *)
Definition rcomps (wd p : string) : list string :=
  foldl (clean_step true) (if IsAbs p then [] else foldl (clean_step true) [] (Split wd sep)) (Split p sep).

Lemma rcomps_plain wd p : Forall plain (rcomps wd p).
Proof.
  assert (∀ q, Forall (λ w, sep ∉ chars w) (Split q sep)) as Hs
    by (intros q; apply Forall_forall; intros w; apply Split_no_sep_in).
  apply clean_rooted_plain; [|done]. destruct (IsAbs p); [done|]. by apply clean_rooted_plain.
Qed.

Lemma Split_join_sep a b : Split (a +:+ "/" +:+ b) sep = Split a sep ++ Split b sep.
Proof.
  pose proof (Split_not_nil a sep) as Ha. pose proof (Split_not_nil b sep) as Hb.
  rewrite <- (Join_Split a sep) at 1. rewrite <- (Join_Split b sep) at 1.
  change (String sep "") with seps. change "/" with seps. rewrite <- Join_app by done.
  apply Split_Join.
  - intros [? _]%app_eq_nil. done.
  - apply Forall_app. split; apply Forall_forall; intros w; apply Split_no_sep_in.
Qed.

Lemma IsAbs_app a b : IsAbs a = true → IsAbs (a +:+ b) = true.
Proof. unfold IsAbs. rewrite !HasPrefix_spec. intros [t ->]. exists (t +:+ b). by rewrite sapp_assoc. Qed.

Lemma IsAbs_app_ne a b : a ≠ "" → IsAbs (a +:+ b) = IsAbs a.
Proof.
  destruct a as [|c a]; [done|]. intros _. unfold IsAbs. cbn [String.append HasPrefix].
  by destruct (a +:+ b), a.
Qed.

Lemma Abs_rcomps wd p : IsAbs wd = true → Abs wd p = abs_path (reverse (rcomps wd p)).
Proof.
  intros Hw. unfold Abs, rcomps. destruct (IsAbs p) eqn:Hp.
  { unfold Clean. by rewrite Hp. }
  assert (wd ≠ "") as Hne by (by intros ->).
  unfold PJoin. rewrite filter_cons_True by done.
  destruct (decide (p = "")) as [->|Hpe].
  - rewrite filter_cons_False, filter_nil by auto. change (Join [wd] seps) with wd.
    unfold Clean, clean_comps. by rewrite Hw.
  - rewrite filter_cons_True, filter_nil by done.
    change (Join [wd; p] seps) with (wd +:+ "/" +:+ p).
    unfold Clean, clean_comps. rewrite (IsAbs_app wd) by done. by rewrite Split_join_sep, foldl_app.
Qed.

Lemma abs_path_inj l k : Forall plain l → Forall plain k → abs_path l = abs_path k → l = k.
Proof.
  intros Hl Hk E. apply (f_equal (λ p, Split p sep)) in E. rewrite !Split_abs_path in E by done.
  injection E as E. case_decide as H1; case_decide as H2; subst; try done; subst.
  - apply Forall_cons in Hk as [(? & _) _]. done.
  - apply Forall_cons in Hl as [(? & _) _]. done.
Qed.

(** *** Cleaning first makes no difference *)

Definition plain_or_up (c : string) : Prop := c = ".." ∨ plain c.

Lemma clean_step_up out c :
  sep ∉ chars c → Forall plain_or_up out → Forall plain_or_up (clean_step false out c).
Proof.
  intros Hc Ho. unfold clean_step.
  destruct (String.eqb_spec c ""), (String.eqb_spec c "."), (String.eqb_spec c ".."); cbn; try done; subst.
  - destruct out as [|top rest]; [constructor; [by left|constructor]|].
    apply Forall_cons in Ho as [Ht Hr]. destruct (String.eqb top ".."); [|done].
    constructor; [by left|]. by constructor.
  - constructor; [right; by repeat split|done].
Qed.

Lemma foldl_clean_up l : Forall (λ w, sep ∉ chars w) l → Forall plain_or_up (foldl (clean_step false) [] l).
Proof.
  induction l as [|c l IH] using rev_ind; intros Hl; [constructor|].
  apply Forall_app in Hl as [Hl [Hc _]%Forall_cons]. rewrite foldl_app. by apply clean_step_up; [|apply IH].
Qed.

Lemma clean_step_back out top : top ≠ ".." → clean_step true (top :: out) ".." = out.
Proof. intros Hne. unfold clean_step. cbn. by destruct (String.eqb_spec top ".."). Qed.

Lemma foldl_clean_relative out l :
  Forall (λ w, sep ∉ chars w) l →
  foldl (clean_step true) out (reverse (foldl (clean_step false) [] l)) = foldl (clean_step true) out l.
Proof.
  induction l as [|c l IH] using rev_ind; intros Hl; [done|].
  apply Forall_app in Hl as [Hl _]. specialize (IH Hl). pose proof (foldl_clean_up l Hl) as Hup.
  rewrite !foldl_app. cbn [foldl]. rewrite <- IH.
  set (R := foldl (clean_step false) [] l) in *. clearbody R. clear IH l Hl.
  unfold clean_step at 2. destruct (String.eqb_spec c "") as [->|]; [done|].
  destruct (String.eqb_spec c ".") as [->|]; [done|]. cbn [orb].
  destruct (String.eqb_spec c "..") as [->|].
  - destruct R as [|top rest]; [done|]. apply Forall_cons in Hup as [Ht _].
    rewrite !reverse_cons. destruct (String.eqb_spec top "..") as [->|Hne].
    + by rewrite !reverse_cons, !foldl_app.
    + destruct Ht as [->|Ht]; [done|]. rewrite foldl_app. cbn [foldl].
      rewrite (clean_step_plain _ _ top) by done.
      by rewrite clean_step_back.
  - by rewrite reverse_cons, foldl_app.
Qed.

Lemma Split_Join_up l :
  Forall plain_or_up l → l ≠ [] → Split (Join l seps) sep = l ∧ IsAbs (Join l seps) = false.
Proof.
  intros Hl Hne. split.
  - apply Split_Join; [done|]. eapply Forall_impl; [exact Hl|]. intros c [->|(_ & _ & _ & ?)]; [|done].
    cbn. intros Hin. apply list_elem_of_In in Hin. by destruct Hin as [?|[?|[]]].
  - destruct l as [|c l]; [done|]. apply Forall_cons in Hl as [Hc _].
    assert (c ≠ "" ∧ IsAbs c = false) as [Hce Ha].
    { destruct Hc as [->|(H1 & _ & _ & Hs)]; [done|]. split; [done|]. destruct c as [|x c]; [done|].
      unfold IsAbs. cbn [HasPrefix]. destruct (Ascii.eqb_spec "/" x) as [<-|]; [|done].
      destruct Hs. cbn. left. }
    destruct l as [|d l]; [done|]. rewrite Join_cons. by rewrite IsAbs_app_ne.
Qed.

Lemma rcomps_Clean wd p : rcomps wd (Clean p) = rcomps wd p.
Proof.
  assert (Forall (λ w, sep ∉ chars w) (Split p sep)) as Hs
    by (apply Forall_forall; intros w; apply Split_no_sep_in).
  destruct (IsAbs p) eqn:Hp.
  - pose proof (Abs_rcomps "/" p eq_refl) as E. unfold Abs in E. rewrite Hp in E. rewrite E.
    unfold rcomps at 1. change (IsAbs (abs_path _)) with true. cbn iota.
    assert (rcomps "/" p = rcomps wd p) as -> by (unfold rcomps; by rewrite Hp).
    pose proof (rcomps_plain wd p) as Hpl. apply Forall_reverse in Hpl. rewrite Split_abs_path by done.
    cbn [foldl]. change (clean_step true [] "") with (@nil string).
    case_decide as E2; [|by rewrite foldl_clean_plain, reverse_involutive, app_nil_r].
    apply (f_equal reverse) in E2. by rewrite reverse_involutive in E2.
  - unfold Clean, clean_comps. rewrite Hp. pose proof (foldl_clean_up _ Hs) as Hup.
    pose proof (λ out, foldl_clean_relative out _ Hs) as Hrel.
    set (R := foldl (clean_step false) [] (Split p sep)) in *. clearbody R.
    apply Forall_reverse in Hup. unfold rcomps at 2. rewrite Hp, <- Hrel.
    set (L := reverse R) in *. clearbody L. destruct L as [|c L]; [done|].
    destruct (Split_Join_up (c :: L) Hup ltac:(done)) as [E1 E2]. unfold rcomps. by rewrite E2, E1.
Qed.

(** A name in a directory, the way [filepath.Join] and [os.CreateTemp] write
    it. *)
Lemma rcomps_below wd p n : p ≠ "" → plain n → rcomps wd (p +:+ "/" +:+ n) = n :: rcomps wd p.
Proof.
  intros Hp Hn. unfold rcomps. rewrite IsAbs_app_ne, Split_join_sep, foldl_app by done.
  rewrite (Split_no_sep n) by apply Hn. cbn [foldl]. by rewrite clean_step_plain.
Qed.

Lemma rcomps_PJoin wd p n : p ≠ "" → plain n → rcomps wd (PJoin [p; n]) = n :: rcomps wd p.
Proof.
  intros Hp Hn. unfold PJoin. rewrite !filter_cons_True, filter_nil by (done || apply Hn).
  rewrite rcomps_Clean. by apply (rcomps_below wd p n).
Qed.

Lemma Clean_ne p : Clean p ≠ "".
Proof.
  unfold Clean. destruct (IsAbs p); [done|].
  assert (Forall (λ w, sep ∉ chars w) (Split p sep)) as Hs
    by (apply Forall_forall; intros w; apply Split_no_sep_in).
  pose proof (foldl_clean_up _ Hs) as Hup. apply Forall_reverse in Hup. unfold clean_comps.
  destruct (reverse _) as [|c l]; [done|]. apply Forall_cons in Hup as [Hc _].
  assert (c ≠ "") as Hce by (destruct Hc as [->|(? & _)]; done).
  destruct l; [done|]. rewrite Join_cons. by destruct c.
Qed.

Lemma PJoin_ne p n : p ≠ "" → PJoin [p; n] ≠ "".
Proof.
  intros Hp. unfold PJoin. rewrite filter_cons_True by done. apply Clean_ne.
Qed.
