(* ===== verification/Utf8.v ===== *)
(** * Runes: [unicode/utf8], [unicode] and the rune-wise functions of [strings]

    Go's [for _, r := range s] and [\[\]rune(s)] decode UTF-8 and give the rune
    U+FFFD for each byte that is not part of a well-formed sequence.  The case
    tables for runes above U+007F come with the Go release; they are the
    operations of the class [Unicode], the only thing here that is not
    computed. *)
From S2P Require Import Prelude.
From S2P Require Import GoStrings.
#[local] Open Scope stdpp_scope.
#[local] Open Scope Z_scope.

Definition RuneError : Z := 65533.

Definition cont (b : Z) : bool := (128 <=? b) && (b <=? 191).

(** The second byte that may follow a three-byte or four-byte lead. *)
Definition second_ok (b0 b1 : Z) : bool :=
  if b0 =? 224 then (160 <=? b1) && (b1 <=? 191)
  else if b0 =? 237 then (128 <=? b1) && (b1 <=? 159)
  else if b0 =? 240 then (144 <=? b1) && (b1 <=? 191)
  else if b0 =? 244 then (128 <=? b1) && (b1 <=? 143)
  else cont b1.

Definition in_range (lo b hi : Z) : bool := (lo <=? b) && (b <=? hi).

(** The runes of a string, each with the bytes it was decoded from. *)
Fixpoint chunks (s : string) : list (Z * string) :=
  match s with
  | EmptyString => []
  | String a s1 =>
      let b0 := ord a in
      if b0 <? 128 then (b0, String a "") :: chunks s1 else
      match s1 with
      | EmptyString => (RuneError, String a "") :: chunks s1
      | String b s2 =>
          let b1 := ord b in
          if in_range 194 b0 223 && cont b1
          then ((b0 - 192) * 64 + (b1 - 128), String a (String b "")) :: chunks s2
          else
          match s2 with
          | EmptyString => (RuneError, String a "") :: chunks s1
          | String c s3 =>
              let b2 := ord c in
              if in_range 224 b0 239 && second_ok b0 b1 && cont b2
              then ((b0 - 224) * 4096 + (b1 - 128) * 64 + (b2 - 128),
                    String a (String b (String c ""))) :: chunks s3
              else
              match s3 with
              | EmptyString => (RuneError, String a "") :: chunks s1
              | String d s4 =>
                  let b3 := ord d in
                  if in_range 240 b0 244 && second_ok b0 b1 && cont b2 && cont b3
                  then ((b0 - 240) * 262144 + (b1 - 128) * 4096 + (b2 - 128) * 64 + (b3 - 128),
                        String a (String b (String c (String d "")))) :: chunks s4
                  else (RuneError, String a "") :: chunks s1
              end
          end
      end
  end.

Definition runes (s : string) : list Z := map fst (chunks s).
Definition RuneCount (s : string) : nat := length (chunks s).

(** [utf8.AppendRune]: surrogates and values out of range are encoded as
    U+FFFD. *)
Definition valid_rune (r : Z) : bool :=
  in_range 0 r 55295 || in_range 57344 r 1114111.

Definition encode_rune (r : Z) : string :=
  let r := if valid_rune r then r else RuneError in
  if r <? 128 then String (chr r) ""
  else if r <? 2048 then String (chr (192 + r / 64)) (String (chr (128 + r mod 64)) "")
  else if r <? 65536 then
    String (chr (224 + r / 4096))
      (String (chr (128 + r / 64 mod 64)) (String (chr (128 + r mod 64)) ""))
  else
    String (chr (240 + r / 262144))
      (String (chr (128 + r / 4096 mod 64))
        (String (chr (128 + r / 64 mod 64)) (String (chr (128 + r mod 64)) ""))).

(** [string(\[\]rune)]. *)
Fixpoint encode (rs : list Z) : string :=
  match rs with [] => "" | r :: rs' => encode_rune r +:+ encode rs' end.

(** ** Classes of runes *)

Class Unicode := {
  uni_lower : Z → Z;
  uni_upper : Z → Z;
  uni_is_upper : Z → bool;
  uni_is_lower : Z → bool;
  uni_is_digit : Z → bool;
  uni_fold_eq : Z → Z → bool;
}.

Definition is_upper_ascii (r : Z) : bool := in_range 65 r 90.
Definition is_lower_ascii (r : Z) : bool := in_range 97 r 122.
Definition is_digit_ascii (r : Z) : bool := in_range 48 r 57.
Definition is_letter_ascii (r : Z) : bool := is_upper_ascii r || is_lower_ascii r.

Definition lower_ascii (r : Z) : Z := if is_upper_ascii r then r + 32 else r.
Definition upper_ascii (r : Z) : Z := if is_lower_ascii r then r - 32 else r.

(** [unicode.IsControl]: only Latin-1 has control characters. *)
Definition IsControl (r : Z) : bool := in_range 0 r 31 || in_range 127 r 159.

(** [unicode.IsSpace]: the White_Space property. *)
Definition IsSpace (r : Z) : bool :=
  in_range 9 r 13 || (r =? 32) || (r =? 133) || (r =? 160) || (r =? 5760)
  || in_range 8192 r 8202 || (r =? 8232) || (r =? 8233) || (r =? 8239)
  || (r =? 8287) || (r =? 12288).

Section unicode.
Context `{Unicode}.

Definition to_lower (r : Z) : Z := if r <? 128 then lower_ascii r else uni_lower r.
Definition to_upper (r : Z) : Z := if r <? 128 then upper_ascii r else uni_upper r.
Definition IsUpper (r : Z) : bool := if r <? 128 then is_upper_ascii r else uni_is_upper r.
Definition IsLower (r : Z) : bool := if r <? 128 then is_lower_ascii r else uni_is_lower r.
Definition IsDigit (r : Z) : bool := if r <? 128 then is_digit_ascii r else uni_is_digit r.

(** [strings.ToLower] and [strings.ToUpper] map every rune. *)
Definition ToLower (s : string) : string := encode (map to_lower (runes s)).
Definition ToUpper (s : string) : string := encode (map to_upper (runes s)).

Definition fold_eq (r1 r2 : Z) : bool :=
  if (r1 <? 128) && (r2 <? 128) then lower_ascii r1 =? lower_ascii r2
  else (r1 =? r2) || uni_fold_eq r1 r2.

(** [strings.EqualFold]. *)
Definition EqualFold (s t : string) : bool :=
  Nat.eqb (length (runes s)) (length (runes t)) &&
  forallb (λ p, fold_eq p.1 p.2) (zip (runes s) (runes t)).
End unicode.

(** [strings.TrimSpace]: drop the white-space runes at both ends. *)
Fixpoint drop_while {A} (f : A → bool) (l : list A) : list A :=
  match l with
  | [] => []
  | x :: l' => if f x then drop_while f l' else l
  end.

Fixpoint bytes_of (l : list (Z * string)) : string :=
  match l with [] => "" | c :: l' => c.2 +:+ bytes_of l' end.

Definition TrimSpace (s : string) : string :=
  let is_sp := λ c : Z * string, IsSpace c.1 in
  bytes_of (reverse (drop_while is_sp (reverse (drop_while is_sp (chunks s))))).

(** [strings.Fields]: the maximal runs of runes that are not white space. *)
Fixpoint fields_go (cur : string) (l : list (Z * string)) : list string :=
  match l with
  | [] => if String.eqb cur "" then [] else [cur]
  | (r, b) :: l' =>
      if IsSpace r
      then if String.eqb cur "" then fields_go "" l' else cur :: fields_go "" l'
      else fields_go (cur +:+ b) l'
  end.
Definition Fields (s : string) : list string := fields_go "" (chunks s).

(** ** ASCII strings *)

Definition ascii_string (s : string) : Prop := Forall (λ c, ord c < 128) (chars s).

Lemma chunks_cons_ascii c s :
  ord c < 128 → chunks (String c s) = (ord c, String c "") :: chunks s.
Proof. intros Hc. cbn [chunks]. by rewrite (proj2 (Z.ltb_lt _ _) Hc). Qed.

Lemma chunks_ascii s :
  ascii_string s → chunks s = map (λ c, (ord c, String c "")) (chars s).
Proof.
  induction s as [|c s IH]; [done|].
  intros [Hc Hs]%Forall_cons. rewrite chunks_cons_ascii by done. cbn. f_equal. by apply IH.
Qed.

Lemma bytes_of_app a b : bytes_of (a ++ b) = bytes_of a +:+ bytes_of b.
Proof. induction a as [|[r x] a IH]; simpl; [done|]. by rewrite IH, sapp_assoc. Qed.

Lemma in_range_true lo b hi : in_range lo b hi = true ↔ lo ≤ b ≤ hi.
Proof. unfold in_range. rewrite andb_true_iff, !Z.leb_le. lia. Qed.
Lemma in_range_false lo b hi : in_range lo b hi = false ↔ b < lo ∨ hi < b.
Proof. rewrite <- not_true_iff_false, in_range_true. lia. Qed.

(** An induction principle that follows the decoder: an ASCII byte, a
    multi-byte sequence (whose rune and bytes are all above U+007F), or a
    stray byte. *)
Lemma chunks_ind (P : string → list (Z * string) → Prop) :
  P "" [] →
  (∀ c s, ord c < 128 → P s (chunks s) →
    P (String c s) ((ord c, String c "") :: chunks s)) →
  (∀ r c w s, 128 ≤ r → Forall (λ x, 128 ≤ ord x) (c :: chars w) → P s (chunks s) →
    P (String c w +:+ s) ((r, String c w) :: chunks s)) →
  ∀ s, P s (chunks s).
Proof.
  intros H0 H1 H2 s.
  remember (slen s) as n eqn:En. revert s En.
  induction (lt_wf n) as [n _ IH]; intros s ->.
  assert (∀ t, (slen t < slen s)%nat → P t (chunks t)) as IH' by (intros t ?; by eapply IH).
  clear IH. destruct s as [|a s1]; [done|].
  unfold slen in IH'. cbn [String.length] in IH'.
  destruct (ord a <? 128) eqn:E0.
  { apply Z.ltb_lt in E0. rewrite chunks_cons_ascii by done. apply H1; [done|].
    apply IH'. unfold slen. lia. }
  apply Z.ltb_ge in E0.
  assert (P (String a s1) ((RuneError, String a "") :: chunks s1)) as Hbad.
  { change (String a s1) with (String a "" +:+ s1). apply H2.
    - unfold RuneError. lia.
    - by repeat constructor.
    - apply IH'. unfold slen. lia. }
  cbn [chunks]. rewrite (proj2 (Z.ltb_ge _ _) E0).
  destruct s1 as [|b s2]; [exact Hbad|].
  assert (∀ x, cont x = true → 128 ≤ x < 192) as Hcont.
  { intros x Hx. unfold cont in Hx. bool_simpl. lia. }
  assert (∀ x, second_ok (ord a) x = true →
            128 ≤ x < 192 ∧ (ord a = 224 → 160 ≤ x) ∧ (ord a = 240 → 144 ≤ x)) as Hsec.
  { intros x. unfold second_ok.
    destruct (ord a =? 224) eqn:?, (ord a =? 237) eqn:?, (ord a =? 240) eqn:?,
      (ord a =? 244) eqn:?; intros Hx; try apply Hcont in Hx; bool_simpl; lia. }
  destruct (in_range 194 (ord a) 223 && cont (ord b)) eqn:E1.
  { bool_simpl. match goal with H : in_range _ _ _ = true |- _ => apply in_range_true in H end.
    pose proof (Hcont (ord b) ltac:(done)).
    change (String a (String b s2)) with (String a (String b "") +:+ s2).
    apply H2; [lia|repeat constructor; lia|]. apply IH'. unfold slen. simpl. lia. }
  destruct s2 as [|c s3]; [exact Hbad|].
  destruct (in_range 224 (ord a) 239 && second_ok (ord a) (ord b) && cont (ord c)) eqn:E2.
  { bool_simpl. match goal with H : in_range _ _ _ = true |- _ => apply in_range_true in H end.
    pose proof (Hcont (ord c) ltac:(done)). pose proof (Hsec (ord b) ltac:(done)).
    change (String a (String b (String c s3))) with (String a (String b (String c "")) +:+ s3).
    apply H2; [lia|repeat constructor; lia|]. apply IH'. unfold slen. simpl. lia. }
  destruct s3 as [|d s4]; [exact Hbad|].
  destruct (in_range 240 (ord a) 244 && second_ok (ord a) (ord b) && cont (ord c) && cont (ord d)) eqn:E3.
  { bool_simpl. match goal with H : in_range _ _ _ = true |- _ => apply in_range_true in H end.
    pose proof (Hcont (ord c) ltac:(done)). pose proof (Hcont (ord d) ltac:(done)).
    pose proof (Hsec (ord b) ltac:(done)).
    change (String a (String b (String c (String d s4))))
      with (String a (String b (String c (String d ""))) +:+ s4).
    apply H2; [lia|repeat constructor; lia|]. apply IH'. unfold slen. simpl. lia. }
  exact Hbad.
Qed.

(** Decoding loses no byte. *)
Lemma bytes_of_chunks s : bytes_of (chunks s) = s.
Proof.
  apply (chunks_ind (λ s l, bytes_of l = s)); [done|..]; intros; cbn in *; congruence.
Qed.

(** A test on runes that refuses everything above U+007F is a test on bytes. *)
Lemma forallb_runes_ascii (f : Z → bool) s :
  (∀ r, 128 ≤ r → f r = false) →
  forallb f (runes s) = forallb (λ c, f (ord c)) (chars s).
Proof.
  intros Hf. unfold runes.
  apply (chunks_ind (λ s l, forallb f (map fst l) = forallb (λ c, f (ord c)) (chars s))).
  - done.
  - intros c t _ IH. cbn. by rewrite IH.
  - intros r c w t Hr Hw _. rewrite chars_app. cbn [map fst forallb chars app].
    apply Forall_cons in Hw as [Hc _]. by rewrite !Hf.
Qed.

Lemma forallb_runes_ascii_string (f : Z → bool) s :
  (∀ r, 128 ≤ r → f r = false) → forallb f (runes s) = true → ascii_string s.
Proof.
  intros Hf. rewrite forallb_runes_ascii by done. rewrite forallb_Forall.
  intros Hs. eapply Forall_impl; [exact Hs|]. intros c Hc.
  destruct (decide (ord c < 128)); [done|]. simpl in Hc. rewrite Hf in Hc; [done|lia].
Qed.

Lemma runes_ascii s : ascii_string s → runes s = map ord (chars s).
Proof. intros Hs. unfold runes. rewrite chunks_ascii by done. by rewrite map_map. Qed.

Lemma encode_app a b : encode (a ++ b) = encode a +:+ encode b.
Proof. induction a as [|r a IH]; simpl; [done|]. by rewrite IH, sapp_assoc. Qed.

(** Encoding a valid rune and decoding it again gives it back. *)
Lemma chunks_encode_rune r s :
  valid_rune r = true → chunks (encode_rune r +:+ s) = (r, encode_rune r) :: chunks s.
Proof.
  intros Hv. unfold encode_rune. rewrite Hv.
  unfold valid_rune in Hv. rewrite orb_true_iff, !in_range_true in Hv.
  destruct (r <? 128) eqn:E1.
  { apply Z.ltb_lt in E1. cbn [String.append]. rewrite chunks_cons_ascii; rewrite ord_chr; lia || done. }
  apply Z.ltb_ge in E1. destruct (r <? 2048) eqn:E2.
  { apply Z.ltb_lt in E2.
    assert (2 ≤ r / 64 ≤ 31) by (Z.div_mod_to_equations; lia).
    pose proof (Z.mod_pos_bound r 64).
    cbn [String.append chunks]. rewrite !ord_chr by lia.
    rewrite (proj2 (Z.ltb_ge _ _)) by lia.
    rewrite (proj2 (andb_true_iff _ _)).
    - do 2 f_equal. Z.div_mod_to_equations. lia.
    - split; [apply in_range_true; lia|]. apply in_range_true. lia. }
  apply Z.ltb_ge in E2. destruct (r <? 65536) eqn:E3.
  { apply Z.ltb_lt in E3.
    assert (0 ≤ r / 4096 ≤ 15) by (Z.div_mod_to_equations; lia).
    pose proof (Z.mod_pos_bound (r / 64) 64). pose proof (Z.mod_pos_bound r 64).
    cbn [String.append chunks]. rewrite !ord_chr by lia.
    rewrite (proj2 (Z.ltb_ge _ _)) by lia.
    assert (in_range 194 (224 + r / 4096) 223 = false) as -> by (apply in_range_false; lia).
    cbn [andb].
    assert (in_range 224 (224 + r / 4096) 239 = true) as -> by (apply in_range_true; lia).
    assert (cont (128 + r mod 64) = true) as -> by (apply in_range_true; lia).
    assert (second_ok (224 + r / 4096) (128 + r / 64 mod 64) = true) as ->.
    { unfold second_ok, cont.
      destruct (224 + r / 4096 =? 224) eqn:?; [apply in_range_true; Z.div_mod_to_equations; lia|].
      destruct (224 + r / 4096 =? 237) eqn:?; [apply in_range_true; Z.div_mod_to_equations; lia|].
      destruct (224 + r / 4096 =? 240) eqn:?; [lia|].
      destruct (224 + r / 4096 =? 244) eqn:?; [lia|]. apply in_range_true. lia. }
    cbn [andb]. do 2 f_equal. Z.div_mod_to_equations. lia. }
  apply Z.ltb_ge in E3.
  assert (0 ≤ r / 262144 ≤ 4) by (Z.div_mod_to_equations; lia).
  pose proof (Z.mod_pos_bound (r / 4096) 64). pose proof (Z.mod_pos_bound (r / 64) 64).
  pose proof (Z.mod_pos_bound r 64).
  cbn [String.append chunks]. rewrite !ord_chr by lia.
  rewrite (proj2 (Z.ltb_ge _ _)) by lia.
  assert (in_range 194 (240 + r / 262144) 223 = false) as -> by (apply in_range_false; lia).
  assert (in_range 224 (240 + r / 262144) 239 = false) as -> by (apply in_range_false; lia).
  cbn [andb].
  assert (in_range 240 (240 + r / 262144) 244 = true) as -> by (apply in_range_true; lia).
  assert (cont (128 + r mod 64) = true) as -> by (apply in_range_true; lia).
  assert (cont (128 + r / 64 mod 64) = true) as -> by (apply in_range_true; lia).
  assert (second_ok (240 + r / 262144) (128 + r / 4096 mod 64) = true) as ->.
  { unfold second_ok, cont.
    destruct (240 + r / 262144 =? 224) eqn:?; [lia|].
    destruct (240 + r / 262144 =? 237) eqn:?; [lia|].
    destruct (240 + r / 262144 =? 240) eqn:?; [apply in_range_true; Z.div_mod_to_equations; lia|].
    destruct (240 + r / 262144 =? 244) eqn:?; [apply in_range_true; Z.div_mod_to_equations; lia|].
    apply in_range_true. lia. }
  cbn [andb]. do 2 f_equal. Z.div_mod_to_equations. lia.
Qed.

Lemma runes_encode rs : Forall (λ r, valid_rune r = true) rs → runes (encode rs) = rs.
Proof.
  induction rs as [|r rs IH]; [done|]. intros [Hr Hrs]%Forall_cons.
  unfold runes in *. cbn [encode]. rewrite chunks_encode_rune by done.
  cbn. f_equal. by apply IH.
Qed.

(** Every rune that decoding gives can be encoded. *)
Lemma runes_valid s : Forall (λ r, valid_rune r = true) (runes s).
Proof.
  unfold runes. rewrite Forall_map.
  remember (slen s) as n eqn:En. revert s En.
  induction (lt_wf n) as [n _ IH]; intros s ->.
  assert (∀ t, (slen t < slen s)%nat →
    Forall (λ x, valid_rune (fst x) = true) (chunks t)) as IH' by (intros t ?; by eapply IH).
  clear IH. destruct s as [|a s1]; [constructor|]. pose proof (ord_bounds a).
  unfold slen in IH'. cbn [String.length] in IH'. cbn [chunks].
  unfold valid_rune, in_range, cont, second_ok in *.
  repeat (case_match; repeat constructor; cbn [fst];
    try (apply IH'; unfold slen; simpl; lia));
  bool_simpl; repeat match goal with
  | x : ascii |- _ => lazymatch goal with
      | _ : 0 ≤ ord x < 256 |- _ => fail | _ => pose proof (ord_bounds x) end end;
  bool_simpl; try lia.
  all: unfold cont, in_range in *; bool_simpl; lia.
Qed.

(** *** Decoding a part of a string

    The rune at the front and how many bytes it takes. *)
Definition first_rune (a : ascii) (s1 : string) : Z * nat :=
  let b0 := ord a in
  if b0 <? 128 then (b0, 1%nat) else
  match s1 with
  | EmptyString => (RuneError, 1%nat)
  | String b s2 =>
      if in_range 194 b0 223 && cont (ord b) then ((b0 - 192) * 64 + (ord b - 128), 2%nat) else
      match s2 with
      | EmptyString => (RuneError, 1%nat)
      | String c s3 =>
          if in_range 224 b0 239 && second_ok b0 (ord b) && cont (ord c)
          then ((b0 - 224) * 4096 + (ord b - 128) * 64 + (ord c - 128), 3%nat) else
          match s3 with
          | EmptyString => (RuneError, 1%nat)
          | String d s4 =>
              if in_range 240 b0 244 && second_ok b0 (ord b) && cont (ord c) && cont (ord d)
              then ((b0 - 240) * 262144 + (ord b - 128) * 4096 + (ord c - 128) * 64
                    + (ord d - 128), 4%nat)
              else (RuneError, 1%nat)
          end
      end
  end.

(** One unfolding of the decoder. *)
Lemma chunks_unfold a s1 :
  chunks (String a s1) =
      let b0 := ord a in
      if b0 <? 128 then (b0, String a "") :: chunks s1 else
      match s1 with
      | EmptyString => (RuneError, String a "") :: chunks s1
      | String b s2 =>
          let b1 := ord b in
          if in_range 194 b0 223 && cont b1
          then ((b0 - 192) * 64 + (b1 - 128), String a (String b "")) :: chunks s2
          else
          match s2 with
          | EmptyString => (RuneError, String a "") :: chunks s1
          | String c s3 =>
              let b2 := ord c in
              if in_range 224 b0 239 && second_ok b0 b1 && cont b2
              then ((b0 - 224) * 4096 + (b1 - 128) * 64 + (b2 - 128),
                    String a (String b (String c ""))) :: chunks s3
              else
              match s3 with
              | EmptyString => (RuneError, String a "") :: chunks s1
              | String d s4 =>
                  let b3 := ord d in
                  if in_range 240 b0 244 && second_ok b0 b1 && cont b2 && cont b3
                  then ((b0 - 240) * 262144 + (b1 - 128) * 4096 + (b2 - 128) * 64 + (b3 - 128),
                        String a (String b (String c (String d "")))) :: chunks s4
                  else (RuneError, String a "") :: chunks s1
              end
          end
      end.
Proof. reflexivity. Qed.

Lemma chunks_first a s1 :
  let '(r, n) := first_rune a s1 in
  chunks (String a s1) = (r, stake n (String a s1)) :: chunks (sdrop n (String a s1)) ∧
  (1 ≤ n ≤ slen (String a s1))%nat.
Proof.
  rewrite chunks_unfold. unfold first_rune, slen.
  destruct (ord a <? 128); [split; [reflexivity|cbn; lia]|].
  destruct s1 as [|b s2]; [split; [reflexivity|cbn; lia]|].
  destruct (in_range 194 (ord a) 223 && cont (ord b)); [split; [reflexivity|cbn; lia]|].
  destruct s2 as [|c s3]; [split; [reflexivity|cbn; lia]|].
  destruct (in_range 224 (ord a) 239 && second_ok (ord a) (ord b) && cont (ord c));
    [split; [reflexivity|cbn; lia]|].
  destruct s3 as [|d s4]; [split; [reflexivity|cbn; lia]|].
  destruct (in_range 240 (ord a) 244 && second_ok (ord a) (ord b) && cont (ord c) && cont (ord d));
    (split; [reflexivity|cbn; lia]).
Qed.

Lemma first_rune_cut a x1 y r n :
  first_rune a (x1 +:+ y) = (r, n) → (n ≤ S (slen x1))%nat → first_rune a x1 = (r, n).
Proof.
  unfold first_rune, slen. destruct x1 as [|b [|c [|d x4]]]; cbn [String.append String.length];
    intros E Hn; repeat (case_match; try discriminate); simplify_eq; done || lia.
Qed.

Lemma slen_stake n s : (n ≤ slen s)%nat → slen (stake n s) = n.
Proof.
  unfold slen. revert n. induction s as [|c s IH]; intros [|n] Hn; cbn in *; [done|lia|done|].
  f_equal. apply IH. lia.
Qed.

Lemma stake_sdrop_app n x y :
  (n ≤ slen x)%nat → stake n (x +:+ y) = stake n x ∧ sdrop n (x +:+ y) = sdrop n x +:+ y.
Proof.
  unfold slen. revert n. induction x as [|c x IH]; intros [|n] Hn; cbn in *; [by destruct y|lia|done|].
  destruct (IH n) as [-> ->]; [lia|done].
Qed.

(** The first rune is decoded alike when the string is cut behind it. *)
Lemma chunks_cut x y r b l :
  chunks (x +:+ y) = (r, b) :: l → (slen b ≤ slen x)%nat →
  ∃ x', x = b +:+ x' ∧ chunks x = (r, b) :: chunks x' ∧ l = chunks (x' +:+ y).
Proof.
  intros E Hb. destruct x as [|a x1].
  { exfalso. cbn [String.append] in E. destruct y as [|a y1]; [done|].
    pose proof (chunks_first a y1) as Hf. destruct (first_rune a y1) as [r' n].
    destruct Hf as [Ef Hn]. rewrite Ef in E. injection E as _ <- _.
    rewrite slen_stake in Hb by lia. cbn in Hb. lia. }
  cbn [String.append] in E. pose proof (chunks_first a (x1 +:+ y)) as Hf.
  destruct (first_rune a (x1 +:+ y)) as [r' n] eqn:Efr. destruct Hf as [Ef Hn].
  rewrite Ef in E. injection E as -> <- <-. rewrite slen_stake in Hb by lia.
  pose proof (first_rune_cut _ _ _ _ _ Efr) as Efx. cbn in Hb. specialize (Efx Hb).
  pose proof (chunks_first a x1) as Hg. rewrite Efx in Hg. destruct Hg as [Eg Hn'].
  destruct (stake_sdrop_app n (String a x1) y) as [Es Ed]; [lia|].
  cbn [String.append] in Es, Ed. rewrite Es, Ed. exists (sdrop n (String a x1)).
  split; [by rewrite stake_sdrop|]. by rewrite Eg.
Qed.

Lemma chunks_bytes_nonempty s r b l : chunks s = (r, b) :: l → (0 < slen b)%nat.
Proof.
  apply (chunks_ind (λ s cs, cs = (r, b) :: l → (0 < slen b)%nat)); [done|..];
    intros; simplify_eq; cbn; lia.
Qed.

(** Decoding commutes with taking a contiguous part. *)
Lemma chunks_prefix l1 l2 s : chunks s = l1 ++ l2 → chunks (bytes_of l1) = l1.
Proof.
  revert s. induction l1 as [|[r b] l1 IH]; intros s E; [done|].
  assert (s = bytes_of ((r, b) :: l1) +:+ bytes_of l2) as Es.
  { by rewrite <- bytes_of_app, <- (bytes_of_chunks s), E. }
  rewrite Es in E. destruct (chunks_cut _ _ _ _ _ E) as (x' & Ex & Ec & El).
  { cbn [bytes_of snd]. rewrite slen_app. lia. }
  cbn [bytes_of snd] in Ex. apply sapp_inv_l in Ex. subst x'. rewrite Ec. f_equal.
  by apply (IH (bytes_of l1 +:+ bytes_of l2)).
Qed.

Lemma chunks_suffix l1 l2 s : chunks s = l1 ++ l2 → chunks (bytes_of l2) = l2.
Proof.
  revert s. induction l1 as [|[r b] l1 IH]; intros s E.
  - cbn in E. by rewrite <- E, bytes_of_chunks.
  - assert (s = b +:+ bytes_of (l1 ++ l2)) as Es by (by rewrite <- (bytes_of_chunks s), E).
    rewrite Es in E. destruct (chunks_cut (b +:+ bytes_of (l1 ++ l2)) "" r b (l1 ++ l2)) as (x' & Ex & _ & El).
    + by rewrite sapp_nil_r.
    + rewrite slen_app. lia.
    + apply sapp_inv_l in Ex. subst x'. rewrite sapp_nil_r in El. by eapply IH.
Qed.

Lemma chunks_part l1 l2 l3 s : chunks s = l1 ++ l2 ++ l3 → chunks (bytes_of l2) = l2.
Proof.
  intros E. apply (chunks_prefix l2 l3 (bytes_of (l2 ++ l3))). by eapply chunks_suffix.
Qed.

Lemma drop_while_split {A} (f : A → bool) l :
  ∃ p, l = p ++ drop_while f l ∧ match drop_while f l with [] => True | x :: _ => f x = false end.
Proof.
  induction l as [|x l (p & E & Hf)]; [by exists []|]. cbn. destruct (f x) eqn:Ex.
  - exists (x :: p). cbn. by rewrite <- E.
  - by exists [].
Qed.

Lemma drop_while_id {A} (f : A → bool) l :
  match l with [] => True | x :: _ => f x = false end → drop_while f l = l.
Proof. destruct l; [done|]. cbn. by intros ->. Qed.

(** The runes that trimming keeps: a contiguous part that neither starts nor
    ends with white space. *)
Definition trimmed (l : list (Z * string)) : Prop :=
  match l with [] => True | x :: _ => IsSpace x.1 = false end ∧
  match reverse l with [] => True | x :: _ => IsSpace x.1 = false end.

Lemma TrimSpace_part s :
  ∃ p q l, chunks s = p ++ l ++ q ∧ trimmed l ∧ TrimSpace s = bytes_of l ∧ chunks (TrimSpace s) = l.
Proof.
  unfold TrimSpace. set (f := λ c : Z * string, IsSpace c.1).
  destruct (drop_while_split f (chunks s)) as (p & E1 & H1).
  set (l1 := drop_while f (chunks s)) in *.
  destruct (drop_while_split f (reverse l1)) as (q & E2 & H2).
  set (l2 := drop_while f (reverse l1)) in *.
  assert (l1 = reverse l2 ++ reverse q) as E3.
  { rewrite <- (reverse_involutive l1), E2. by rewrite reverse_app. }
  exists p, (reverse q), (reverse l2). rewrite E1, E3. split; [done|].
  assert (trimmed (reverse l2)) as Ht.
  { split; [|rewrite reverse_involutive; exact H2].
    rewrite E3 in H1. destruct (reverse l2); [done|]. exact H1. }
  split; [done|]. split; [done|]. rewrite E3 in E1. by eapply chunks_part.
Qed.

Lemma TrimSpace_trimmed s : trimmed (chunks s) → TrimSpace s = s.
Proof.
  intros [H1 H2]. unfold TrimSpace. set (f := λ c : Z * string, IsSpace c.1).
  rewrite (drop_while_id f (chunks s)) by exact H1.
  rewrite (drop_while_id f (reverse (chunks s))) by exact H2.
  by rewrite reverse_involutive, bytes_of_chunks.
Qed.

Lemma TrimSpace_idem s : TrimSpace (TrimSpace s) = TrimSpace s.
Proof.
  destruct (TrimSpace_part s) as (p & q & l & _ & Ht & _ & E). apply TrimSpace_trimmed. by rewrite E.
Qed.

(** Trimming can only remove runes. *)
Lemma TrimSpace_runes_subset s r : r ∈ runes (TrimSpace s) → r ∈ runes s.
Proof.
  destruct (TrimSpace_part s) as (p & q & l & E & _ & _ & El). unfold runes. rewrite El, E.
  rewrite !map_app, !elem_of_app. auto.
Qed.

Lemma TrimSpace_length s : (slen (TrimSpace s) ≤ slen s)%nat.
Proof.
  destruct (TrimSpace_part s) as (p & q & l & E & _ & -> & _).
  rewrite <- (bytes_of_chunks s), E, !bytes_of_app, !slen_app. lia.
Qed.

(** ** Laws of the case tables

    What the program relies on of Unicode's simple lower-case mapping: it maps
    runes to runes, a lower-cased rune stays as it is, and white space is not
    affected. *)
Class UnicodeLaws `{Unicode} := {
  uni_lower_valid r : valid_rune r = true → 128 ≤ r → valid_rune (uni_lower r) = true;
  uni_lower_idem r : valid_rune r = true → 128 ≤ r → to_lower (uni_lower r) = uni_lower r;
  uni_lower_space r : valid_rune r = true → 128 ≤ r → IsSpace (uni_lower r) = IsSpace r;
}.

(** Tables without any letter above U+007F satisfy them. *)
Definition ascii_tables : Unicode := {|
  uni_lower r := r; uni_upper r := r; uni_is_upper _ := false; uni_is_lower _ := false;
  uni_is_digit _ := false; uni_fold_eq _ _ := false |}.

Lemma ascii_tables_laws : @UnicodeLaws ascii_tables.
Proof.
  constructor; [done| |done]. intros r _ Hr. unfold to_lower. cbn.
  by rewrite (proj2 (Z.ltb_ge r 128)).
Qed.

Lemma lower_ascii_idem r : lower_ascii (lower_ascii r) = lower_ascii r.
Proof.
  unfold lower_ascii, is_upper_ascii. destruct (in_range 65 r 90) eqn:E; [|by rewrite E].
  apply in_range_true in E. by rewrite (proj2 (in_range_false 65 (r + 32) 90)) by lia.
Qed.

Lemma lower_ascii_bounds r : 0 ≤ r < 128 → 0 ≤ lower_ascii r < 128.
Proof.
  intros Hr. unfold lower_ascii, is_upper_ascii. destruct (in_range 65 r 90) eqn:E; [|done].
  apply in_range_true in E. lia.
Qed.

Lemma valid_rune_pos r : valid_rune r = true → 0 ≤ r.
Proof. unfold valid_rune. rewrite orb_true_iff, !in_range_true. lia. Qed.

Lemma valid_rune_ascii r : 0 ≤ r < 128 → valid_rune r = true.
Proof. intros. unfold valid_rune. rewrite orb_true_iff, !in_range_true. lia. Qed.

Lemma IsSpace_graphic r : 33 ≤ r ≤ 126 → IsSpace r = false.
Proof.
  intros Hr. unfold IsSpace. rewrite !orb_false_iff, !in_range_false, !Z.eqb_neq. lia.
Qed.

Lemma drop_while_keep {A} (f : A → bool) l x : x ∈ l → f x = false → x ∈ drop_while f l.
Proof.
  intros Hx Hf. induction l as [|y l IH]; [done|]. cbn. destruct (f y) eqn:Ey; [|done].
  apply elem_of_cons in Hx as [->|Hx]; [congruence|by apply IH].
Qed.

(** A string with a visible first character is not blank. *)
Lemma TrimSpace_visible c s : 33 ≤ ord c ≤ 126 → TrimSpace (String c s) ≠ "".
Proof.
  intros Hc. unfold TrimSpace. set (f := λ x : Z * string, IsSpace x.1).
  rewrite chunks_cons_ascii by lia.
  assert (f (ord c, String c "") = false) as Hf by (by apply IsSpace_graphic).
  cbn [drop_while]. rewrite Hf. set (l := _ :: chunks s).
  assert ((ord c, String c "") ∈ drop_while f (reverse l)) as Hin
    by (apply drop_while_keep; [apply elem_of_reverse; left|done]).
  apply elem_of_reverse, list_elem_of_split in Hin as (a & b & ->). rewrite bytes_of_app. cbn.
  intros Hn. apply (f_equal slen) in Hn. rewrite slen_app in Hn. cbn in Hn. lia.
Qed.

Section lower.
Context `{UnicodeLaws}.

Lemma to_lower_valid r : valid_rune r = true → valid_rune (to_lower r) = true.
Proof.
  intros Hv. unfold to_lower. destruct (Z.ltb_spec r 128).
  - apply valid_rune_ascii, lower_ascii_bounds. split; [by apply valid_rune_pos|done].
  - by apply uni_lower_valid.
Qed.

Lemma to_lower_idem r : valid_rune r = true → to_lower (to_lower r) = to_lower r.
Proof.
  intros Hv. pose proof (valid_rune_pos r Hv). unfold to_lower at 2 3.
  destruct (Z.ltb_spec r 128) as [Hr|Hr].
  - unfold to_lower. pose proof (lower_ascii_bounds r ltac:(lia)).
    rewrite (proj2 (Z.ltb_lt _ _)) by lia. apply lower_ascii_idem.
  - by apply uni_lower_idem.
Qed.

Lemma to_lower_space r : valid_rune r = true → IsSpace (to_lower r) = IsSpace r.
Proof.
  intros Hv. unfold to_lower. destruct (Z.ltb_spec r 128) as [Hr|Hr]; [|by apply uni_lower_space].
  unfold lower_ascii, is_upper_ascii. destruct (in_range 65 r 90) eqn:E; [|done].
  apply in_range_true in E. by rewrite !IsSpace_graphic by lia.
Qed.

Lemma runes_ToLower s : runes (ToLower s) = map to_lower (runes s).
Proof.
  unfold ToLower. apply runes_encode. rewrite Forall_map.
  eapply Forall_impl; [apply (runes_valid s)|]. intros r. apply to_lower_valid.
Qed.

Lemma ToLower_idem s : ToLower (ToLower s) = ToLower s.
Proof.
  unfold ToLower at 1. rewrite runes_ToLower, map_map. unfold ToLower. f_equal.
  apply map_ext_in. intros r Hr%list_elem_of_In. apply to_lower_idem.
  pose proof (runes_valid s) as Hv. rewrite Forall_forall in Hv. by apply Hv.
Qed.

(** Trimming and lower-casing commute far enough: what was trimmed before
    lower-casing needs no trimming after it. *)
Lemma chunks_encode rs :
  Forall (λ r, valid_rune r = true) rs → chunks (encode rs) = map (λ r, (r, encode_rune r)) rs.
Proof.
  intros Hv. induction rs as [|r rs IH]; [done|]. apply Forall_cons in Hv as [Hr Hrs].
  cbn [encode]. rewrite chunks_encode_rune by done. cbn. f_equal. by apply IH.
Qed.

Lemma TrimSpace_ToLower s : TrimSpace s = s → TrimSpace (ToLower s) = ToLower s.
Proof.
  intros Hs. apply TrimSpace_trimmed. destruct (TrimSpace_part s) as (_ & _ & l & _ & [H1 H2] & _ & El).
  rewrite Hs in El. subst l. unfold ToLower.
  pose proof (runes_valid s) as Hv. unfold runes in *.
  rewrite chunks_encode by (rewrite !Forall_map; rewrite Forall_map in Hv;
    eapply Forall_impl; [exact Hv|]; intros c ?; by apply to_lower_valid).
  rewrite map_map, map_map. rewrite Forall_map in Hv. unfold trimmed.
  split.
  - destruct (chunks s) as [|c cs]; [done|]. apply Forall_cons in Hv as [Hc _].
    cbn. by rewrite to_lower_space.
  - rewrite <- fmap_reverse. apply Forall_reverse in Hv. destruct (reverse (chunks s)) as [|c cs]; [done|].
    apply Forall_cons in Hv as [Hc _]. cbn. by rewrite to_lower_space.
Qed.
End lower.

(** Lower-casing of ASCII text works byte by byte. *)
Definition lower_char (c : ascii) : ascii := chr (lower_ascii (ord c)).

Lemma encode_ascii l : Forall (λ c, ord c < 128) l → encode (map ord l) = unchars l.
Proof.
  induction l as [|c l IH]; [done|]. intros [Hc Hl]%Forall_cons. cbn.
  pose proof (ord_bounds c). unfold encode_rune. rewrite valid_rune_ascii by lia.
  rewrite (proj2 (Z.ltb_lt _ _)) by lia. rewrite chr_ord. cbn. f_equal. by apply IH.
Qed.

Lemma ToLower_ascii `{Unicode} s : ascii_string s → ToLower s = unchars (map lower_char (chars s)).
Proof.
  intros Hs. unfold ToLower. rewrite runes_ascii by done. rewrite map_map.
  rewrite <- encode_ascii.
  - f_equal. rewrite map_map. apply map_ext_in. intros c Hc%list_elem_of_In.
    unfold ascii_string in Hs. rewrite Forall_forall in Hs. specialize (Hs c Hc).
    pose proof (ord_bounds c). unfold to_lower. rewrite (proj2 (Z.ltb_lt _ _)) by lia.
    unfold lower_char. rewrite ord_chr; [done|]. pose proof (lower_ascii_bounds (ord c)). lia.
  - rewrite Forall_map. eapply Forall_impl; [exact Hs|]. intros c Hc. cbn in Hc |- *.
    pose proof (ord_bounds c). pose proof (lower_ascii_bounds (ord c)).
    unfold lower_char. rewrite ord_chr; lia.
Qed.

(** *** Fields *)

Lemma fields_go_spec p lcur l s w :
  chunks s = p ++ lcur ++ l → Forall (λ c, IsSpace c.1 = false) lcur →
  w ∈ fields_go (bytes_of lcur) l →
  w ≠ "" ∧ Forall (λ r, IsSpace r = false) (runes w) ∧
  ∃ a b, chunks s = a ++ chunks w ++ b.
Proof.
  revert p lcur. induction l as [|[r b] l IH]; intros p lcur E Hl Hw; cbn [fields_go] in Hw.
  - destruct (String.eqb_spec (bytes_of lcur) ""); [by apply elem_of_nil in Hw|].
    apply list_elem_of_singleton in Hw as ->. pose proof (chunks_part _ _ _ _ E) as Ec.
    split; [done|]. unfold runes. rewrite Ec, Forall_map. split; [done|]. by exists p, [].
  - destruct (IsSpace r) eqn:Er.
    + assert (w ∈ fields_go "" l → w ≠ "" ∧ Forall (λ r, IsSpace r = false) (runes w) ∧
        ∃ a b, chunks s = a ++ chunks w ++ b) as Hgo.
      { apply (IH (p ++ lcur ++ [(r, b)]) []); [|constructor].
        rewrite E. by rewrite <- !app_assoc. }
      destruct (String.eqb_spec (bytes_of lcur) ""); [by apply Hgo|].
      apply elem_of_cons in Hw as [->|Hw]; [|by apply Hgo].
      pose proof (chunks_part p lcur ((r, b) :: l) s) as Ec. rewrite E in Ec. specialize (Ec eq_refl).
      split; [done|]. unfold runes. rewrite Ec, Forall_map. split; [done|]. by exists p, ((r, b) :: l).
    + apply (IH p (lcur ++ [(r, b)])).
      * rewrite E. by rewrite <- !app_assoc.
      * apply Forall_app. split; [done|]. by repeat constructor.
      * rewrite bytes_of_app. cbn. by rewrite sapp_nil_r.
Qed.

Lemma Fields_spec s w :
  w ∈ Fields s →
  w ≠ "" ∧ Forall (λ r, IsSpace r = false) (runes w) ∧ ∃ a b, chunks s = a ++ chunks w ++ b.
Proof. by apply (fields_go_spec [] [] (chunks s) s w). Qed.

Lemma chunks_app_ascii a b : ascii_string a → chunks (a +:+ b) = chunks a ++ chunks b.
Proof.
  induction a as [|c a IH]; [done|]. intros [Hc Ha]%Forall_cons.
  cbn [String.append]. rewrite !chunks_cons_ascii by done. cbn. f_equal. by apply IH.
Qed.

(** Words without white space, joined by single spaces, are read back. *)
Lemma Fields_Join l :
  Forall (λ w, w ≠ "" ∧ ascii_string w ∧ Forall (λ r, IsSpace r = false) (runes w)) l →
  Fields (Join l " ") = l.
Proof.
  unfold Fields. induction l as [|w l IH]; [done|]. intros [(Hne & Ha & Hs) Hl]%Forall_cons.
  assert (∀ cur rest, fields_go cur (chunks w ++ rest) = fields_go (cur +:+ w) rest) as Hgo.
  { clear -Ha Hs. induction w as [|c w IHw]; intros cur rest; [by rewrite sapp_nil_r|].
    apply Forall_cons in Ha as [Hc Ha]. unfold runes in *. rewrite chunks_cons_ascii in * by done.
    cbn in Hs |- *. apply Forall_cons in Hs as [Hsc Hs]. rewrite Hsc, IHw by done.
    by rewrite sapp_assoc. }
  destruct l as [|w' l].
  - change (Join [w] " ") with w. rewrite <- (app_nil_r (chunks w)), Hgo. cbn.
    destruct (String.eqb_spec w ""); done.
  - rewrite Join_cons, chunks_app_ascii by done. rewrite Hgo. cbn [String.append].
    rewrite chunks_cons_ascii by (vm_compute; done). cbn [fields_go].
    change (IsSpace (ord " ")) with true. cbn iota.
    destruct (String.eqb_spec w ""); [done|]. f_equal. by apply IH.
Qed.
