(* ===== verification/Errx.v ===== *)
(** * Package [errx]: semantic classification of errors

    [Kind] is the classification; [Error] the immutable wrapper with its
    constructor options; [kindOf] and [walk] inspect an unwrap graph that lives
    in a heap, so that shared and cyclic errors are the ones of the code. *)
From S2P Require Import Prelude.
From S2P Require Import GoStrings.
#[local] Open Scope stdpp_scope.
#[local] Open Scope Z_scope.

(** ** kind.go: a [Kind] is a [uint8], declared values are 0 to 10. *)
Abbreviation Kind := Z (only parsing).
Definition Unknown : Kind := 0.
Definition Invalid : Kind := 1.
Definition Validation : Kind := 2.
Definition Unauthenticated : Kind := 3.
Definition Forbidden : Kind := 4.
Definition NotFound : Kind := 5.
Definition Conflict : Kind := 6.
Definition RateLimited : Kind := 7.
Definition Unavailable : Kind := 8.
Definition Timeout : Kind := 9.
Definition Internal : Kind := 10.

Definition Valid (k : Kind) : bool := k <=? Internal.

Definition Kind_String (k : Kind) : string :=
  if k =? Unknown then "unknown"
  else if k =? Invalid then "invalid"
  else if k =? Validation then "validation"
  else if k =? Unauthenticated then "unauthenticated"
  else if k =? Forbidden then "forbidden"
  else if k =? NotFound then "not_found"
  else if k =? Conflict then "conflict"
  else if k =? RateLimited then "rate_limited"
  else if k =? Unavailable then "unavailable"
  else if k =? Timeout then "timeout"
  else if k =? Internal then "internal"
  else "unknown".

(** ** Error values and the heap

    An [error] is nil, a typed nil, a pointer into the heap, or a value that is
    not a pointer.  What inspection sees of a live object is its [Kind()], when
    it is [Classified], and which of the two [Unwrap] methods it has. *)
Definition visit : Type := (nat * Z)%type.

Inductive value :=
  | VNil
  | VTypedNil (typ : nat)
  | VPtr (key : visit)
  | VVal (kind : option Kind) (un : unwrapping)
with unwrapping :=
  | NoUnwrap
  | Unwrap1 (child : value)
  | UnwrapN (children : list value).

Definition object : Type := (option Kind * unwrapping)%type.
Definition heap : Type := gmap visit object.

Definition isNilError (err : value) : bool :=
  match err with VNil | VTypedNil _ => true | _ => false end.

(** [markSeen]: whether the pointer was met before, and the new set. *)
Definition markSeen (err : value) (seen : gset visit) : bool * gset visit :=
  match err with
  | VPtr key => if decide (key ∈ seen) then (true, seen) else (false, {[key]} ∪ seen)
  | _ => (false, seen)
  end.

Definition deref (hp : heap) (err : value) : option object :=
  match err with
  | VPtr key => hp !! key
  | VVal kind un => Some (kind, un)
  | _ => None
  end.

(** The classification test both inspections start with. *)
Definition classified (kind : option Kind) : option Kind :=
  match kind with
  | Some k => if Valid k && negb (k =? Unknown) then Some k else None
  | None => None
  end.

(** ** inspect.go *)

(** The loop of [kindOf] over the children of a joined error. *)
Fixpoint kindOf_children (rec : value → gset visit → option ((Kind * bool) * gset visit))
    (children : list value) (kind : Kind) (found : bool) (seen : gset visit)
    : option ((Kind * bool) * gset visit) :=
  match children with
  | [] => Some ((kind, found), seen)
  | child :: rest =>
      '((childKind, ok), seen) ← rec child seen;
      if negb ok then kindOf_children rec rest kind found seen
      else if negb found then kindOf_children rec rest childKind true seen
      else if negb (childKind =? kind) then Some ((Unknown, false), seen)
      else kindOf_children rec rest kind found seen
  end.

(** [kindOf] with a bound on the depth of the recursion; [None] says that the
    bound was reached. *)
Fixpoint kindOf (n : nat) (hp : heap) (err : value) (seen : gset visit)
    : option ((Kind * bool) * gset visit) :=
  match n with
  | O => None
  | S n' =>
      if isNilError err then Some ((Unknown, false), seen) else
      let '(again, seen) := markSeen err seen in
      if again : bool then Some ((Unknown, false), seen) else
      match deref hp err with
      | None => Some ((Unknown, false), seen)
      | Some (kind, un) =>
          match classified kind with
          | Some k => Some ((k, true), seen)
          | None =>
              match un with
              | UnwrapN children =>
                  kindOf_children (kindOf n' hp) children Unknown false seen
              | Unwrap1 child => kindOf n' hp child seen
              | NoUnwrap => Some ((Unknown, false), seen)
              end
          end
      end
  end.

(** The state that [KindsOf]'s closure [walk] updates. *)
Record walk_state := { w_seen : gset visit; w_found : gset Z; w_kinds : list Kind }.

Definition add_kind (kind : option Kind) (st : walk_state) : walk_state :=
  match classified kind with
  | Some k =>
      if decide (k ∈ w_found st) then st
      else {| w_seen := w_seen st; w_found := {[k]} ∪ w_found st; w_kinds := w_kinds st ++ [k] |}
  | None => st
  end.

Fixpoint walk_children (rec : value → walk_state → option walk_state)
    (children : list value) (st : walk_state) : option walk_state :=
  match children with
  | [] => Some st
  | child :: rest => st ← rec child st; walk_children rec rest st
  end.

Fixpoint walk (n : nat) (hp : heap) (current : value) (st : walk_state) : option walk_state :=
  match n with
  | O => None
  | S n' =>
      if isNilError current then Some st else
      let '(again, seen) := markSeen current (w_seen st) in
      let st := {| w_seen := seen; w_found := w_found st; w_kinds := w_kinds st |} in
      if again : bool then Some st else
      match deref hp current with
      | None => Some st
      | Some (kind, un) =>
          let st := add_kind kind st in
          match un with
          | UnwrapN children => walk_children (walk n' hp) children st
          | Unwrap1 child => walk n' hp child st
          | NoUnwrap => Some st
          end
      end
  end.

(** *** How deep the recursion can go

    Nesting of non-pointer values counts once per value, each heap object
    counts once for as long as it has not been seen. *)
Fixpoint vdepth (v : value) : nat :=
  match v with
  | VVal _ un => S (udepth un)
  | _ => O
  end
with udepth (un : unwrapping) : nat :=
  match un with
  | NoUnwrap => O
  | Unwrap1 c => vdepth c
  | UnwrapN cs => (fix go l := match l with [] => O | c :: l' => Nat.max (vdepth c) (go l') end) cs
  end.

Definition object_cost (p : visit * object) : nat := S (udepth p.2.2).
Definition heap_cost (hp : heap) (seen : gset visit) : nat :=
  sum_list_with object_cost (map_to_list (filter (λ p, p.1 ∉ seen) hp)).

Definition fuel_for (hp : heap) (err : value) : nat := S (vdepth err + heap_cost hp ∅).

(** [KindOf] and [KindsOf] start with empty sets; the bound is never reached
    ([KindOf_total], [KindsOf_total]). *)
Definition KindOf (hp : heap) (err : value) : Kind * bool :=
  match kindOf (fuel_for hp err) hp err ∅ with
  | Some (r, _) => r
  | None => (Unknown, false)
  end.

Definition KindsOf (hp : heap) (err : value) : list Kind :=
  match walk (fuel_for hp err) hp err {| w_seen := ∅; w_found := ∅; w_kinds := [] |} with
  | Some st => w_kinds st
  | None => []
  end.

Definition IsKind (hp : heap) (err : value) (want : Kind) : bool :=
  let '(kind, ok) := KindOf hp err in ok && (kind =? want).

Module Err.

(** ** error.go *)

Record Error := { message : string; kind : Kind; cause : value; unwrap : bool }.
Record options := { o_kind : Kind; o_cause : value; o_unwrap : bool }.

(** An option either fails or updates the configuration; [None] is the nil
  function value. *)
Definition Option : Type := options → string + options.

Inductive panic :=
| PanicNilOption
| PanicInvalidOption (err : string)
| PanicInvalidKind (k : Kind)
| PanicNoMessageOrCause.

Definition WithKind (k : Kind) : Option := λ config,
if negb (Valid k) then inl ("invalid kind " +:+ Itoa k)
else inr {| o_kind := k; o_cause := o_cause config; o_unwrap := o_unwrap config |}.

Definition WithCause (c : value) : Option := λ config,
if isNilError c then inl "cause must not be nil"
else inr {| o_kind := o_kind config; o_cause := c; o_unwrap := o_unwrap config |}.

Definition WithoutUnwrap : Option := λ config,
inr {| o_kind := o_kind config; o_cause := o_cause config; o_unwrap := false |}.

Fixpoint apply_options (opts : list (option Option)) (config : options) : panic + options :=
match opts with
| [] => inr config
| None :: _ => inl PanicNilOption
| Some opt :: rest =>
    match opt config with
    | inl err => inl (PanicInvalidOption err)
    | inr config => apply_options rest config
    end
end.

Definition is_nil (v : value) : bool := match v with VNil => true | _ => false end.

Definition New (msg : string) (opts : list (option Option)) : panic + Error :=
match apply_options opts {| o_kind := Unknown; o_cause := VNil; o_unwrap := true |} with
| inl p => inl p
| inr config =>
    if negb (Valid (o_kind config)) then inl (PanicInvalidKind (o_kind config))
    else if String.eqb msg "" && is_nil (o_cause config) then inl PanicNoMessageOrCause
    else inr {| message := msg; kind := o_kind config; cause := o_cause config;
                unwrap := o_unwrap config |}
end.

(** The methods, with a nil receiver allowed; [text] is the dynamic call of the
  cause's own [Error] method. *)
Definition Error_Error (text : value → string) (e : option Error) : string :=
match e with
| None => "<nil>"
| Some e =>
    if String.eqb (message e) "" && negb (is_nil (cause e)) then text (cause e)
    else if is_nil (cause e) || negb (unwrap e) then message e
    else message e +:+ ": " +:+ text (cause e)
end.

Definition Error_Kind (e : option Error) : Kind :=
match e with None => Unknown | Some e => kind e end.

Definition Error_Unwrap (e : option Error) : value :=
match e with
| None => VNil
| Some e => if negb (unwrap e) then VNil else cause e
end.

(** What inspection sees of a live [*Error]. *)
Definition Error_object (e : Error) : object :=
(Some (Error_Kind (Some e)), Unwrap1 (Error_Unwrap (Some e))).

End Err.

(** ** What inspection promises

    [classifies hp v r ks]: the documented classification of [v], together with
    the pointers of its unwrap graph.  The nearest declared kind other than
    [Unknown] wins, and the classified branches of a joined error must agree. *)
Definition join_kinds (rs : list (option Kind)) : option Kind :=
  match omap id rs with
  | [] => None
  | k :: ks => if forallb (Z.eqb k) ks then Some k else None
  end.

Definition own_key (v : value) : list visit := match v with VPtr key => [key] | _ => [] end.

Inductive classifies (hp : heap) : value → option Kind → list visit → Prop :=
  | classifies_nil v :
      isNilError v = true → classifies hp v None []
  | classifies_leaf v k :
      deref hp v = Some (k, NoUnwrap) → classifies hp v (classified k) (own_key v)
  | classifies_wrap v k c r ks :
      deref hp v = Some (k, Unwrap1 c) → classifies hp c r ks →
      classifies hp v (match classified k with Some k => Some k | None => r end)
        (own_key v ++ ks)
  | classifies_join v k cs rs ks :
      deref hp v = Some (k, UnwrapN cs) → classifies_list hp cs rs ks →
      classifies hp v (match classified k with Some k => Some k | None => join_kinds rs end)
        (own_key v ++ ks)
with classifies_list (hp : heap) : list value → list (option Kind) → list visit → Prop :=
  | classifies_none : classifies_list hp [] [] []
  | classifies_more c cs r rs ks ks' :
      classifies hp c r ks → classifies_list hp cs rs ks' →
      classifies_list hp (c :: cs) (r :: rs) (ks ++ ks').

Scheme classifies_mut := Induction for classifies Sort Prop
  with classifies_list_mut := Induction for classifies_list Sort Prop.

(** The result pair of [KindOf] that stands for a classification. *)
Definition result_of (r : option Kind) : Kind * bool :=
  match r with Some k => (k, true) | None => (Unknown, false) end.

(** The errors that an object wraps. *)
Definition children (un : unwrapping) : list value :=
  match un with NoUnwrap => [] | Unwrap1 c => [c] | UnwrapN cs => cs end.

(** [has_kind hp v k]: some object in the unwrap graph of [v] has kind [k]. *)
Inductive has_kind (hp : heap) : value → Kind → Prop :=
  | has_kind_here v k0 un k :
      deref hp v = Some (k0, un) → classified k0 = Some k → has_kind hp v k
  | has_kind_below v k0 un c k :
      deref hp v = Some (k0, un) → c ∈ children un → has_kind hp c k → has_kind hp v k.

(** ** Termination on every heap *)

Lemma heap_cost_mark hp seen key o :
  key ∉ seen → hp !! key = Some o →
  heap_cost hp seen = (object_cost (key, o) + heap_cost hp ({[key]} ∪ seen))%nat.
Proof.
  intros Hk Ho. unfold heap_cost.
  assert (filter (λ p, p.1 ∉ {[key]} ∪ seen) hp = delete key (filter (λ p, p.1 ∉ seen) hp)) as ->.
  { apply map_eq. intros i. apply option_eq. intros x.
    rewrite lookup_delete_Some, !map_lookup_filter_Some. simpl.
    rewrite not_elem_of_union, not_elem_of_singleton. clear. intuition congruence. }
  assert (filter (λ p, p.1 ∉ seen) hp !! key = Some o) as Hf by (by apply map_lookup_filter_Some).
  rewrite <- (map_to_list_delete _ _ _ Hf). done.
Qed.

Lemma heap_cost_mono hp seen seen' :
  seen ⊆ seen' → (heap_cost hp seen' ≤ heap_cost hp seen)%nat.
Proof.
  intros Hs. unfold heap_cost.
  assert (map_to_list (filter (λ p, p.1 ∉ seen') hp) ⊆+ map_to_list (filter (λ p, p.1 ∉ seen) hp))
    as (l & ->)%submseteq_Permutation.
  { apply map_to_list_submseteq, map_subseteq_spec. intros i x.
    rewrite !map_lookup_filter_Some. simpl. intros [? ?]. split; [done|set_solver]. }
  rewrite sum_list_with_app. lia.
Qed.

Lemma udepth_children c cs : c ∈ cs → (vdepth c ≤ udepth (UnwrapN cs))%nat.
Proof.
  induction cs as [|c' cs IH]; [by intros ?%elem_of_nil|].
  intros [->|Hc]%elem_of_cons; cbn; [lia|]. specialize (IH Hc). cbn in IH. lia.
Qed.

(** What an unseen, not nil value costs: its object is paid for. *)
Lemma mark_cost hp err seen k un :
  isNilError err = false → (markSeen err seen).1 = false → deref hp err = Some (k, un) →
  (udepth un + heap_cost hp (markSeen err seen).2 < vdepth err + heap_cost hp seen)%nat.
Proof.
  intros _ Hm Hd. destruct err as [| |key|k' un']; try done; simpl in *.
  - case_decide as Hs; [done|]. simpl in *.
    rewrite (heap_cost_mark hp seen key (k, un)) by done. unfold object_cost. simpl. lia.
  - injection Hd as -> ->. lia.
Qed.

Lemma mark_seen_mono err seen : seen ⊆ (markSeen err seen).2.
Proof. destruct err; simpl; try set_solver. case_decide; set_solver. Qed.

Lemma kindOf_children_total (hp : heap)
    (rec : value → gset visit → option ((Kind * bool) * gset visit))
    (cs : list value) (k : Kind) (found : bool) (seen : gset visit) (bound : nat) :
  (∀ c seen', c ∈ cs → (vdepth c + heap_cost hp seen' < bound)%nat →
    ∃ r seen'', rec c seen' = Some (r, seen'') ∧ seen' ⊆ seen'') →
  (udepth (UnwrapN cs) + heap_cost hp seen < bound)%nat →
  ∃ r seen', kindOf_children rec cs k found seen = Some (r, seen') ∧ seen ⊆ seen'.
Proof.
  revert k found seen. induction cs as [|c cs IH]; intros k found seen Hrec Hb; [by eauto|].
  destruct (Hrec c seen) as ([ck ok] & seen1 & E1 & Hs1); [left|cbn in Hb; lia|].
  assert (∀ k' f', ∃ r seen', kindOf_children rec cs k' f' seen1 = Some (r, seen') ∧ seen ⊆ seen') as Hgo.
  { intros k' f'. destruct (IH k' f' seen1) as (r & s' & ? & ?).
    - intros c' s' Hc'. apply Hrec. by right.
    - pose proof (heap_cost_mono hp _ _ Hs1). cbn in *. lia.
    - exists r, s'. split; [done|set_solver]. }
  cbn [kindOf_children]. rewrite E1. simpl.
  destruct ok; simpl; [|apply Hgo]. destruct found; simpl; [|apply Hgo].
  destruct (ck =? k); simpl; [apply Hgo|eauto].
Qed.

Lemma kindOf_total n hp err seen :
  (vdepth err + heap_cost hp seen < n)%nat →
  ∃ r seen', kindOf n hp err seen = Some (r, seen') ∧ seen ⊆ seen'.
Proof.
  revert err seen. induction n as [|n IH]; intros err seen Hn; [lia|].
  cbn [kindOf]. destruct (isNilError err) eqn:Enil; [by eauto|].
  pose proof (mark_seen_mono err seen) as Hmono. pose proof (mark_cost hp err seen) as Hcost.
  destruct (markSeen err seen) as [again seen1]. simpl in *.
  destruct again; [by eauto|].
  destruct (deref hp err) as [[k un]|] eqn:Ed; [|by eauto].
  specialize (Hcost k un Enil eq_refl eq_refl).
  destruct (classified k); [by eauto|].
  destruct un as [|c|cs]; [by eauto| |].
  - cbn [udepth] in Hcost. destruct (IH c seen1) as (r & s' & ? & ?); [lia|].
    exists r, s'. split; [done|set_solver].
  - destruct (kindOf_children_total hp (kindOf n hp) cs Unknown false seen1 n) as (r & s' & ? & ?);
      [intros; apply IH; lia|lia|]. exists r, s'. split; [done|set_solver].
Qed.

Lemma kindOf_children_mono (rec rec' : value → gset visit → option ((Kind * bool) * gset visit)) :
  (∀ c s r, rec c s = Some r → rec' c s = Some r) →
  ∀ cs k f s r, kindOf_children rec cs k f s = Some r → kindOf_children rec' cs k f s = Some r.
Proof.
  intros Hrec cs. induction cs as [|c cs IH]; intros k f s r; [done|].
  cbn [kindOf_children]. destruct (rec c s) as [[[ck ok] s1]|] eqn:E; [|done].
  rewrite (Hrec _ _ _ E). simpl.
  destruct ok, f; simpl; try apply IH. destruct (ck =? k); simpl; [apply IH|done].
Qed.

Lemma kindOf_mono n m hp err seen r :
  (n ≤ m)%nat → kindOf n hp err seen = Some r → kindOf m hp err seen = Some r.
Proof.
  revert m err seen r. induction n as [|n IH]; intros m err seen r Hm; [done|].
  destruct m as [|m]; [lia|]. cbn [kindOf].
  destruct (isNilError err); [done|]. destruct (markSeen err seen) as [[] s]; [done|].
  destruct (deref hp err) as [[k un]|]; [|done]. destruct (classified k); [done|].
  destruct un as [|c|cs]; [done| |].
  - apply IH. lia.
  - apply kindOf_children_mono. intros. apply IH; [lia|done].
Qed.

(** [KindOf] returns on every error graph, cyclic or shared: with the depth
    bound [fuel_for], or any larger one, the recursion ends and gives the same
    answer. *)
Theorem KindOf_total hp err m :
  ∃ seen, kindOf (fuel_for hp err + m) hp err ∅ = Some (KindOf hp err, seen).
Proof.
  destruct (kindOf_total (fuel_for hp err) hp err ∅) as (r & seen & E & _);
    [unfold fuel_for; lia|].
  exists seen. unfold KindOf. rewrite E. eapply kindOf_mono; [|done]. lia.
Qed.

(** *** The classification *)

Lemma deref_not_nil hp v o : deref hp v = Some o → isNilError v = false.
Proof. by destruct v. Qed.

Lemma mark_fresh v seen :
  (∀ key, key ∈ own_key v → key ∉ seen) →
  markSeen v seen = (false, list_to_set (own_key v) ∪ seen).
Proof.
  intros Hf. destruct v as [| |key|]; simpl; try (f_equal; set_solver).
  case_decide as Hs; [|f_equal; set_solver]. exfalso. apply (Hf key); set_solver.
Qed.

(** The loop of a joined error computes [join_kinds], when the results so far
    are those before [rs]. *)
Definition loop_result (kind : Kind) (found : bool) (rs : list (option Kind)) : Kind * bool :=
  if found then
    if forallb (Z.eqb kind) (omap id rs) then (kind, true) else (Unknown, false)
  else result_of (join_kinds rs).

Lemma loop_result_cons kind found r rs :
  (found = false → kind = Unknown) →
  loop_result kind found (r :: rs) =
    match r with
    | None => loop_result kind found rs
    | Some k =>
        if negb found then loop_result k true rs
        else if negb (k =? kind) then (Unknown, false)
        else loop_result kind found rs
    end.
Proof.
  intros _. unfold loop_result, join_kinds. destruct r as [k|]; [|by destruct found].
  cbn. destruct found; cbn.
  - rewrite (Z.eqb_sym kind k). by destruct (k =? kind).
  - by destruct (forallb (Z.eqb k) (omap id rs)).
Qed.

(** The set bookkeeping of two consecutive visits. *)
Definition grows (seen seen' : gset visit) (ks : list visit) : Prop :=
  seen ⊆ seen' ∧ seen' ⊆ seen ∪ list_to_set ks.

Lemma grows_refl seen ks : grows seen seen ks.
Proof. split; set_solver. Qed.

Lemma grows_app seen s1 s2 ks ks' :
  grows seen s1 ks → grows s1 s2 ks' → grows seen s2 (ks ++ ks').
Proof. unfold grows. rewrite list_to_set_app_L. intros [? ?] [? ?]. split; set_solver. Qed.

Lemma grows_app_l seen s1 ks ks' : grows seen s1 ks → grows seen s1 (ks ++ ks').
Proof. intros. eapply grows_app; [done|apply grows_refl]. Qed.

Lemma grows_fresh seen s1 ks ks' :
  grows seen s1 ks → NoDup (ks ++ ks') → (∀ key, key ∈ ks ++ ks' → key ∉ seen) →
  ∀ key, key ∈ ks' → key ∉ s1.
Proof.
  intros [_ Hs] (_ & Hd & _)%NoDup_app Hf key Hk Hs1.
  apply Hs, elem_of_union in Hs1 as [Hs1|Hs1%elem_of_list_to_set].
  - by apply (Hf key); [apply elem_of_app; right|].
  - by apply (Hd key).
Qed.

Lemma grows_mark v seen : grows seen (list_to_set (own_key v) ∪ seen) (own_key v).
Proof. split; set_solver. Qed.

(** Opening an object that has not been seen. *)
Lemma kindOf_open hp v k un n seen :
  deref hp v = Some (k, un) → (∀ key, key ∈ own_key v → key ∉ seen) →
  let seen1 := list_to_set (own_key v) ∪ seen in
  kindOf (S n) hp v seen =
    match classified k with
    | Some k' => Some ((k', true), seen1)
    | None =>
        match un with
        | UnwrapN cs => kindOf_children (kindOf n hp) cs Unknown false seen1
        | Unwrap1 c => kindOf n hp c seen1
        | NoUnwrap => Some ((Unknown, false), seen1)
        end
    end ∧
  ((vdepth v + heap_cost hp seen < S n)%nat → (udepth un + heap_cost hp seen1 < n)%nat).
Proof.
  intros Hd Hf seen1. pose proof (mark_cost hp v seen k un (deref_not_nil _ _ _ Hd)) as Hcost.
  cbn [kindOf]. rewrite (deref_not_nil _ _ _ Hd). rewrite mark_fresh in * by done.
  rewrite Hd. specialize (Hcost eq_refl Hd). cbn in Hcost. split; [done|]. subst seen1. lia.
Qed.

Definition run_ok (hp : heap) (v : value) (r : option Kind) (ks : list visit) : Prop :=
  ∀ n seen, (vdepth v + heap_cost hp seen < n)%nat → NoDup ks →
  (∀ key, key ∈ ks → key ∉ seen) →
  ∃ seen', kindOf n hp v seen = Some (result_of r, seen') ∧ grows seen seen' ks.

Definition run_list_ok (hp : heap) (cs : list value) (rs : list (option Kind)) (ks : list visit) : Prop :=
  ∀ n seen kind found, (udepth (UnwrapN cs) + heap_cost hp seen < n)%nat → NoDup ks →
  (∀ key, key ∈ ks → key ∉ seen) → (found = false → kind = Unknown) →
  ∃ seen', kindOf_children (kindOf n hp) cs kind found seen =
      Some (loop_result kind found rs, seen') ∧ grows seen seen' ks.

Lemma run_ok_open hp v k un r ks :
  deref hp v = Some (k, un) →
  (∀ n seen, (udepth un + heap_cost hp seen < n)%nat → NoDup ks →
    (∀ key, key ∈ ks → key ∉ seen) →
    ∃ seen', match un with
      | UnwrapN cs => kindOf_children (kindOf n hp) cs Unknown false seen
      | Unwrap1 c => kindOf n hp c seen
      | NoUnwrap => Some ((Unknown, false), seen)
      end = Some (result_of r, seen') ∧ grows seen seen' ks) →
  run_ok hp v (match classified k with Some k => Some k | None => r end) (own_key v ++ ks).
Proof.
  intros Hd Hsub [|n] seen Hn Hnd Hf; [lia|].
  destruct (kindOf_open hp v k un n seen Hd) as [E Hcost];
    [intros; apply Hf, elem_of_app; by left|].
  specialize (Hcost Hn). rewrite E. pose proof (grows_mark v seen) as Hg.
  destruct (classified k) as [k'|]; [eexists; split; [done|by apply grows_app_l]|].
  destruct (Hsub n (list_to_set (own_key v) ∪ seen)) as (seen' & E' & Hg'); [done|..].
  - by apply NoDup_app in Hnd as (_ & _ & ?).
  - by eapply grows_fresh.
  - exists seen'. split; [done|]. by eapply grows_app.
Qed.

Lemma run_list_ok_cons hp c cs r rs ks ks' :
  run_ok hp c r ks → run_list_ok hp cs rs ks' → run_list_ok hp (c :: cs) (r :: rs) (ks ++ ks').
Proof.
  intros IHc IHcs n seen kind found Hn Hnd Hf Hk.
  pose proof Hnd as (Hnd1 & _ & Hnd2)%NoDup_app.
  destruct (IHc n seen) as (s1 & E1 & Hg1);
    [cbn in Hn; lia|done|intros; apply Hf, elem_of_app; by left|].
  assert (∀ kind found, (found = false → kind = Unknown) → ∃ seen',
    kindOf_children (kindOf n hp) cs kind found s1 = Some (loop_result kind found rs, seen') ∧
    grows seen seen' (ks ++ ks')) as Hgo.
  { intros kind' found' Hk'. destruct (IHcs n s1 kind' found') as (s2 & E2 & Hg2);
      [pose proof (heap_cost_mono hp _ _ (proj1 Hg1)); cbn in *; lia|done|
       by eapply grows_fresh|done|].
    exists s2. split; [done|by eapply grows_app]. }
  cbn [kindOf_children]. rewrite E1, loop_result_cons by done. cbn.
  destruct r as [k|]; cbn; [|by apply Hgo].
  destruct found; cbn; [|by apply Hgo]. destruct (k =? kind); cbn; [by apply Hgo|].
  exists s1. split; [done|by apply grows_app_l].
Qed.

Lemma kindOf_run hp v r ks : classifies hp v r ks → run_ok hp v r ks.
Proof.
  revert v r ks. apply (classifies_mut hp (λ v r ks _, run_ok hp v r ks)
    (λ cs rs ks _, run_list_ok hp cs rs ks)).
  - intros v Hnil [|n] seen Hn _ _; [lia|]. exists seen. cbn [kindOf]. rewrite Hnil.
    split; [done|apply grows_refl].
  - intros v k Hd. rewrite <- (app_nil_r (own_key v)).
    replace (classified k) with (match classified k with Some k => Some k | None => None end)
      by (by destruct (classified k)).
    eapply run_ok_open; [done|]. intros. eexists. split; [done|apply grows_refl].
  - intros v k c r ks Hd _ IH. by eapply run_ok_open.
  - intros v k cs rs ks Hd _ IH. eapply run_ok_open; [done|].
    intros n seen Hn Hnd Hf. by apply (IH n seen Unknown false).
  - intros n seen kind found Hn _ _ Hk. exists seen. cbn.
    split; [destruct found; [done|by rewrite Hk]|apply grows_refl].
  - intros. by apply run_list_ok_cons.
Qed.

(** C36: on an unwrap graph in which no pointer is reached twice, [KindOf] is the
    documented classification: the nearest declared kind wins, and a joined
    error has a kind only when its classified branches agree. *)
Theorem KindOf_refines hp v r ks :
  classifies hp v r ks → NoDup ks → KindOf hp v = result_of r.
Proof.
  intros Hc Hnd. destruct (kindOf_run hp v r ks Hc (fuel_for hp v) ∅) as (s & E & _);
    [unfold fuel_for; lia|done|intros; apply not_elem_of_empty|]. unfold KindOf. by rewrite E.
Qed.

(** *** [KindOf] answers with a kind of the graph *)

Lemma kindOf_children_sound (P : Kind → Prop)
    (rec : value → gset visit → option ((Kind * bool) * gset visit)) cs kind found seen k s' :
  (∀ c s k s', c ∈ cs → rec c s = Some ((k, true), s') → P k) →
  (found = true → P kind) →
  kindOf_children rec cs kind found seen = Some ((k, true), s') → P k.
Proof.
  revert kind found seen. induction cs as [|c cs IH]; intros kind found seen Hrec Hk E.
  - cbn in E. injection E as <- -> _. by apply Hk.
  - cbn [kindOf_children] in E. destruct (rec c seen) as [[[ck ok] s1]|] eqn:Ec; [|done].
    cbn in E. assert (ok = true → P ck) as Hck.
    { intros ->. eapply Hrec; [left|done]. }
    assert (∀ c s k s', c ∈ cs → rec c s = Some ((k, true), s') → P k) as Hrec'.
    { intros c' s0 k0 s0' Hc. apply (Hrec c' s0 k0 s0'). by right. }
    destruct ok; cbn in E; [|by apply (IH _ _ _ Hrec' Hk E)].
    destruct found; cbn in E; [|by apply (IH _ _ _ Hrec' Hck E)].
    destruct (ck =? kind); cbn in E; [by apply (IH _ _ _ Hrec' Hk E)|done].
Qed.

Lemma kindOf_sound n hp v seen k s' :
  kindOf n hp v seen = Some ((k, true), s') → has_kind hp v k.
Proof.
  revert v seen k s'. induction n as [|n IH]; intros v seen k s' E; [done|].
  cbn [kindOf] in E. destruct (isNilError v); [done|].
  destruct (markSeen v seen) as [[] s1]; [done|].
  destruct (deref hp v) as [[k0 un]|] eqn:Ed; [|done].
  destruct (classified k0) as [k1|] eqn:Ek.
  - injection E as <- _. by eapply has_kind_here.
  - destruct un as [|c|cs]; [done| |].
    + eapply has_kind_below; [exact Ed|by apply list_elem_of_singleton|]. by eapply IH.
    + refine (kindOf_children_sound (has_kind hp v) (kindOf n hp) cs Unknown false s1 k s' _ _ E); [|done].
      intros c s k' s'' Hc E'. eapply has_kind_below; [exact Ed|exact Hc|]. by eapply IH.
Qed.

(** Whatever [KindOf] answers on any graph, shared or cyclic, the kind is one
    that an error of the graph declares, and [IsKind] accepts exactly that kind. *)
Theorem KindOf_sound hp v k :
  KindOf hp v = (k, true) →
  has_kind hp v k ∧ ∀ want, IsKind hp v want = true ↔ want = k.
Proof.
  intros E. split.
  - unfold KindOf in E. destruct (kindOf _ hp v ∅) as [[r s]|] eqn:Er; [|done].
    subst r. by eapply kindOf_sound.
  - intros want. unfold IsKind. rewrite E. cbn. rewrite Z.eqb_eq. intuition congruence.
Qed.

(** *** [KindsOf] collects every kind once *)

Lemma walk_children_total (hp : heap) (rec : value → walk_state → option walk_state) cs st bound :
  (∀ c st, c ∈ cs → (vdepth c + heap_cost hp (w_seen st) < bound)%nat →
    ∃ st', rec c st = Some st' ∧ w_seen st ⊆ w_seen st') →
  (udepth (UnwrapN cs) + heap_cost hp (w_seen st) < bound)%nat →
  ∃ st', walk_children rec cs st = Some st' ∧ w_seen st ⊆ w_seen st'.
Proof.
  revert st. induction cs as [|c cs IH]; intros st Hrec Hb; [by eauto|].
  destruct (Hrec c st) as (st1 & E1 & Hs1); [left|cbn in Hb; lia|].
  cbn [walk_children]. rewrite E1. cbn. destruct (IH st1) as (st2 & E2 & Hs2).
  - intros c' s' Hc'. apply Hrec. by right.
  - pose proof (heap_cost_mono hp _ _ Hs1). cbn in *. lia.
  - exists st2. split; [done|]. by transitivity (w_seen st1).
Qed.

Lemma add_kind_seen k st : w_seen (add_kind k st) = w_seen st.
Proof. unfold add_kind. destruct (classified k); [case_decide|]; done. Qed.

Lemma walk_total n hp v st :
  (vdepth v + heap_cost hp (w_seen st) < n)%nat →
  ∃ st', walk n hp v st = Some st' ∧ w_seen st ⊆ w_seen st'.
Proof.
  revert v st. induction n as [|n IH]; intros v st Hn; [lia|].
  cbn [walk]. destruct (isNilError v) eqn:Enil; [by eauto|].
  pose proof (mark_seen_mono v (w_seen st)) as Hmono. pose proof (mark_cost hp v (w_seen st)) as Hcost.
  destruct (markSeen v (w_seen st)) as [again seen1]. cbn in *.
  destruct again; [by eauto|].
  destruct (deref hp v) as [[k un]|] eqn:Ed; [|by eauto].
  specialize (Hcost k un Enil eq_refl eq_refl).
  set (st1 := add_kind k _). assert (w_seen st1 = seen1) as Hst1 by apply add_kind_seen.
  assert (∃ st', match un with
    | UnwrapN cs => walk_children (walk n hp) cs st1
    | Unwrap1 c => walk n hp c st1
    | NoUnwrap => Some st1 end = Some st' ∧ seen1 ⊆ w_seen st') as (st' & -> & ?).
  { destruct un as [|c|cs].
    - exists st1. by rewrite Hst1.
    - rewrite <- Hst1. apply IH. cbn [udepth] in Hcost. rewrite Hst1. lia.
    - rewrite <- Hst1. apply walk_children_total with (hp := hp) (bound := n); [|rewrite Hst1; lia].
      intros. apply IH. lia. }
  exists st'. split; [done|]. by transitivity seen1.
Qed.

(** What has been visited: [covered] values contribute nothing new. *)
Definition kind_found (st : walk_state) (k : option Kind) : Prop :=
  ∀ k', classified k = Some k' → k' ∈ w_found st.

Inductive covered (hp : heap) (st : walk_state) : value → Prop :=
  | covered_absent v : deref hp v = None → covered hp st v
  | covered_ptr key : key ∈ w_seen st → covered hp st (VPtr key)
  | covered_val k un :
      kind_found st k → (∀ c, c ∈ children un → covered hp st c) → covered hp st (VVal k un).

Definition object_covered (hp : heap) (st : walk_state) (o : object) : Prop :=
  kind_found st o.1 ∧ ∀ c, c ∈ children o.2 → covered hp st c.

(** What one visit does to the state: it only grows, kinds that appear are
    kinds of the graph, and every pointer that was marked is covered. *)
Record visited (hp : heap) (root : Kind → Prop) (st st' : walk_state) : Prop := {
  visited_seen : w_seen st ⊆ w_seen st';
  visited_found : w_found st ⊆ w_found st';
  visited_sound : ∀ k, k ∈ w_found st' → k ∈ w_found st ∨ root k;
  visited_closed : ∀ key o, key ∈ w_seen st' → key ∉ w_seen st → hp !! key = Some o →
    object_covered hp st' o;
}.

Lemma covered_mono hp st st' v :
  w_seen st ⊆ w_seen st' → w_found st ⊆ w_found st' → covered hp st v → covered hp st' v.
Proof.
  intros Hs Hf Hc. induction Hc as [v|key|k un Hk _ IH].
  - by apply covered_absent.
  - apply covered_ptr. by apply Hs.
  - apply covered_val; [|done]. intros k' ?. by apply Hf, Hk.
Qed.

Lemma object_covered_mono hp st st' o :
  w_seen st ⊆ w_seen st' → w_found st ⊆ w_found st' →
  object_covered hp st o → object_covered hp st' o.
Proof.
  intros Hs Hf [Hk Hc]. split.
  - intros k ?. by apply Hf, Hk.
  - intros c ?. eapply covered_mono; [done|done|by apply Hc].
Qed.

Lemma visited_refl hp root st : visited hp root st st.
Proof. split; [done|done|by left|done]. Qed.

Lemma visited_trans hp root st st1 st2 :
  visited hp root st st1 → visited hp root st1 st2 → visited hp root st st2.
Proof.
  intros [s1 f1 k1 c1] [s2 f2 k2 c2]. split.
  - by transitivity (w_seen st1).
  - by transitivity (w_found st1).
  - intros k [Hk|?]%k2; [by apply k1|by right].
  - intros key o Hk Hn Ho. destruct (decide (key ∈ w_seen st1)) as [Hin|].
    + eapply object_covered_mono; [exact s2|exact f2|by eapply c1].
    + by eapply c2.
Qed.

Lemma visited_weaken hp (root root' : Kind → Prop) st st' :
  (∀ k, root k → root' k) → visited hp root st st' → visited hp root' st st'.
Proof. intros Hr [? ? Hk ?]. split; [done|done| |done]. intros k [?|?]%Hk; auto. Qed.

Lemma add_kind_visited hp k st :
  visited hp (λ k', classified k = Some k') st (add_kind k st) ∧ kind_found (add_kind k st) k.
Proof.
  unfold add_kind, kind_found. destruct (classified k) as [k'|] eqn:Ek.
  - case_decide as Hd.
    + split; [apply visited_refl|]. by intros ? [= <-].
    + split; [|intros ? [= <-]; cbn; set_solver]. split; cbn; [done|set_solver| |done].
      intros j [->%elem_of_singleton|]%elem_of_union; auto.
  - split; [apply visited_refl|done].
Qed.

Lemma walk_children_visited hp root (rec : value → walk_state → option walk_state) cs st st' :
  (∀ c st st', c ∈ cs → rec c st = Some st' → visited hp root st st' ∧ covered hp st' c) →
  walk_children rec cs st = Some st' →
  visited hp root st st' ∧ ∀ c, c ∈ cs → covered hp st' c.
Proof.
  revert st. induction cs as [|c cs IH]; intros st Hrec E; cbn [walk_children] in E.
  - injection E as <-. split; [apply visited_refl|]. intros c Hc. by apply elem_of_nil in Hc.
  - destruct (rec c st) as [st1|] eqn:E1; [|done]. cbn in E.
    destruct (Hrec c st st1) as [Hv1 Hc1]; [left|done|].
    destruct (IH st1) as [Hv2 Hc2]; [intros; apply Hrec; [by right|done]|done|].
    split; [by eapply visited_trans|]. intros c' [->|?]%elem_of_cons; [|by apply Hc2].
    eapply covered_mono; [apply Hv2..|done].
Qed.

Lemma walk_visited n hp v st st' :
  walk n hp v st = Some st' → visited hp (has_kind hp v) st st' ∧ covered hp st' v.
Proof.
  revert v st st'. induction n as [|n IH]; intros v st st' E; [done|].
  cbn [walk] in E. destruct (isNilError v) eqn:Enil.
  { injection E as <-. split; [apply visited_refl|]. apply covered_absent. by destruct v. }
  destruct (markSeen v (w_seen st)) as [again seen1] eqn:Em.
  set (st0 := {| w_seen := seen1; w_found := w_found st; w_kinds := w_kinds st |}) in E.
  destruct again.
  { injection E as <-. destruct v as [| |key|]; try done. cbn in Em.
    case_decide as Hs; [|done]. injection Em as <-. subst st0.
    split; [by destruct st; apply visited_refl|by apply covered_ptr]. }
  destruct (deref hp v) as [[k un]|] eqn:Ed.
  2:{ injection E as <-. split; [|by apply covered_absent].
    destruct v as [| |key|]; try done; cbn in Em.
    case_decide; [done|]. injection Em as <-. split; cbn; [set_solver|done|by left|].
    intros key' o [->%elem_of_singleton|?]%elem_of_union ??; cbn in Ed; congruence. }
  destruct (add_kind_visited hp k st0) as [Hv0 Hk0].
  set (st1 := add_kind k st0) in *. assert (w_seen st1 = seen1) as Hs1 by apply add_kind_seen.
  assert (visited hp (has_kind hp v) st1 st' ∧ ∀ c, c ∈ children un → covered hp st' c) as [Hv Hc].
  { assert (∀ c st st', c ∈ children un → walk n hp c st = Some st' →
      visited hp (has_kind hp v) st st' ∧ covered hp st' c) as Hrec.
    { intros c s s' Hc [? ?]%IH. split; [|done]. eapply visited_weaken; [|done].
      intros. by eapply has_kind_below. }
    destruct un as [|c|cs]; cbn [children] in *.
    - injection E as <-. split; [apply visited_refl|]. intros c Hc. by apply elem_of_nil in Hc.
    - destruct (Hrec c st1 st') as [? ?]; [left|done|]. split; [done|].
      intros c' ->%list_elem_of_singleton. done.
    - by apply (walk_children_visited hp _ (walk n hp)) with (st := st1). }
  assert (object_covered hp st' (k, un)) as Hobj.
  { split; [|done]. intros k' Hk'. apply Hv, Hk0, Hk'. }
  assert (visited hp (has_kind hp v) st0 st') as Hv'.
  { eapply visited_trans; [|exact Hv]. eapply visited_weaken; [|exact Hv0].
    intros k' Hk'. by eapply has_kind_here. }
  destruct v as [| |key|k' un']; try done; cbn in Em, Ed.
  - case_decide as Hs; [done|]. injection Em as <-. subst st0. destruct Hv' as [v1 v2 v3 v4]. cbn in *.
    split; [|apply covered_ptr, v1; set_solver]. split; [set_solver|done|done|].
    intros key' o Hk Hn Ho. destruct (decide (key' = key)) as [->|]; [congruence|].
    apply (v4 key' o); [done| |done]. set_solver.
  - injection Em as <-. injection Ed as -> ->. destruct st. split; [done|].
    destruct Hobj. by apply covered_val.
Qed.

Lemma walk_kinds n hp v st st' :
  NoDup (w_kinds st) → w_found st = list_to_set (w_kinds st) →
  walk n hp v st = Some st' → NoDup (w_kinds st') ∧ w_found st' = list_to_set (w_kinds st').
Proof.
  revert v st st'. induction n as [|n IH]; intros v st st' Hn Hf E; [done|].
  cbn [walk] in E. destruct (isNilError v); [by injection E as <-|].
  destruct (markSeen v (w_seen st)) as [[] s1]; [by injection E as <-|].
  destruct (deref hp v) as [[k un]|]; [|by injection E as <-].
  set (st0 := {| w_seen := s1; w_found := w_found st; w_kinds := w_kinds st |}) in E.
  assert (NoDup (w_kinds (add_kind k st0)) ∧
    w_found (add_kind k st0) = list_to_set (w_kinds (add_kind k st0))) as [Hn1 Hf1].
  { unfold add_kind. destruct (classified k) as [k'|]; [|done]. case_decide as Hd; [done|].
    cbn in *. rewrite Hf in Hd. split; [|rewrite list_to_set_app_L, Hf; cbn; set_solver].
    apply NoDup_app. split; [done|]. split; [|apply NoDup_singleton].
    intros x Hx ->%list_elem_of_singleton. apply Hd. by apply elem_of_list_to_set. }
  destruct un as [|c|cs]; [by injection E as <-|by eapply IH|].
  revert E Hn1 Hf1. generalize (add_kind k st0). clear Hn Hf. induction cs as [|c cs IHcs]; intros s E ??.
  - by injection E as <-.
  - cbn [walk_children] in E. destruct (walk n hp c s) as [s2|] eqn:Ec; [|done].
    destruct (IH c s s2) as [? ?]; [done..|]. by eapply IHcs.
Qed.

Lemma covered_complete hp st v k :
  (∀ key o, key ∈ w_seen st → hp !! key = Some o → object_covered hp st o) →
  covered hp st v → has_kind hp v k → k ∈ w_found st.
Proof.
  intros Hcl Hcv Hk. revert Hcv. induction Hk as [v k0 un k Hd Hk|v k0 un c k Hd Hc _ IH]; intros Hcv.
  - inversion Hcv as [? Hn|key Hs|k' un' Hf _]; subst; [congruence| |].
    + by apply (Hcl _ _ Hs Hd).
    + injection Hd as -> ->. by apply Hf.
  - apply IH. inversion Hcv as [? Hn|key Hs|k' un' _ Hf]; subst; [congruence| |].
    + by apply (Hcl _ _ Hs Hd).
    + injection Hd as -> ->. by apply Hf.
Qed.

(** [KindsOf] returns on every graph the kinds that some error of it
    declares, all of them and each once, also when errors are shared or wrap
    themselves. *)
Theorem KindsOf_exact hp v :
  NoDup (KindsOf hp v) ∧ ∀ k, k ∈ KindsOf hp v ↔ has_kind hp v k.
Proof.
  set (st0 := {| w_seen := ∅; w_found := ∅; w_kinds := [] |}).
  destruct (walk_total (fuel_for hp v) hp v st0) as (st & E & _); [unfold fuel_for; cbn; lia|].
  unfold KindsOf. fold st0. rewrite E.
  destruct (walk_visited _ _ _ _ _ E) as [[_ _ Hsound Hclosed] Hcov].
  destruct (walk_kinds _ _ _ st0 st (NoDup_nil_2) eq_refl E) as [Hnd Hf].
  split; [done|]. intros k.
  assert (k ∈ w_kinds st ↔ k ∈ w_found st) as -> by (by rewrite Hf, elem_of_list_to_set).
  split.
  - intros [Hk|?]%Hsound; [|done]. by apply elem_of_empty in Hk.
  - apply covered_complete; [|done]. intros key o Hk Ho. apply (Hclosed key o); [done| |done].
    apply not_elem_of_empty.
Qed.

(** *** Construction *)

(** The constructor options, as data. *)
Inductive option_spec :=
  | SpecKind (k : Kind)
  | SpecCause (c : value)
  | SpecWithoutUnwrap.

Definition spec_option (o : option_spec) : Err.Option :=
  match o with
  | SpecKind k => Err.WithKind k
  | SpecCause c => Err.WithCause c
  | SpecWithoutUnwrap => Err.WithoutUnwrap
  end.

Definition spec_ok (o : option_spec) : bool :=
  match o with
  | SpecKind k => Valid k
  | SpecCause c => negb (isNilError c)
  | SpecWithoutUnwrap => true
  end.

(** The last option of each sort decides. *)
Definition last_kind (os : list option_spec) : Kind :=
  default Unknown (last (omap (λ o, match o with SpecKind k => Some k | _ => None end) os)).
Definition last_cause (os : list option_spec) : value :=
  default VNil (last (omap (λ o, match o with SpecCause c => Some c | _ => None end) os)).
Definition without_unwrap (os : list option_spec) : bool :=
  existsb (λ o, match o with SpecWithoutUnwrap => true | _ => false end) os.

Lemma last_default {A} (d x : A) l : default d (last (x :: l)) = default x (last l).
Proof. rewrite last_cons. by destruct (last l). Qed.

Lemma apply_options_spec os config :
  forallb spec_ok os = true →
  Err.apply_options (map (λ o, Some (spec_option o)) os) config =
  inr {| Err.o_kind := default (Err.o_kind config)
           (last (omap (λ o, match o with SpecKind k => Some k | _ => None end) os));
         Err.o_cause := default (Err.o_cause config)
           (last (omap (λ o, match o with SpecCause c => Some c | _ => None end) os));
         Err.o_unwrap := Err.o_unwrap config && negb (without_unwrap os) |}.
Proof.
  revert config. induction os as [|o os IH]; intros config Hok.
  - destruct config. cbn. by rewrite andb_true_r.
  - cbn in Hok. apply andb_true_iff in Hok as [Ho Hok]. destruct o as [k|c|]; cbn in *.
    + unfold Err.WithKind. rewrite Ho. cbn.
      rewrite IH by done. cbn. by rewrite last_default.
    + unfold Err.WithCause. apply negb_true_iff in Ho. rewrite Ho. cbn.
      rewrite IH by done. cbn. by rewrite last_default.
    + rewrite IH by done. cbn. by rewrite andb_false_r.
Qed.

Lemma last_valid os :
  forallb spec_ok os = true → Valid (last_kind os) = true.
Proof.
  unfold last_kind. intros Hok.
  destruct (last (omap _ os)) as [k|] eqn:E; [|done]. cbn.
  apply last_Some_elem_of, list_elem_of_omap in E as (o & Ho & Ek).
  apply forallb_Forall in Hok. rewrite Forall_forall in Hok. specialize (Hok o Ho).
  destruct o; simplify_eq. done.
Qed.

(** [New] with acceptable options builds exactly the error that the last
    option of each sort describes, and it panics only for an empty message
    without a cause; the object it builds is then inspected with the kind given
    last, or through its cause when that kind is [Unknown] and unwrapping was
    not disabled. *)
Theorem New_spec msg os :
  forallb spec_ok os = true →
  let e := {| Err.message := msg; Err.kind := last_kind os; Err.cause := last_cause os;
              Err.unwrap := negb (without_unwrap os) |} in
  Err.New msg (map (λ o, Some (spec_option o)) os) =
    (if String.eqb msg "" && Err.is_nil (last_cause os) then inl Err.PanicNoMessageOrCause else inr e) ∧
  ∀ hp key, hp !! key = Some (Err.Error_object e) →
    ∀ k, has_kind hp (VPtr key) k ↔
      (last_kind os = k ∧ k ≠ Unknown ∨
       without_unwrap os = false ∧ has_kind hp (last_cause os) k).
Proof.
  intros Hok e. pose proof (last_valid os Hok) as Hv. split.
  - unfold Err.New. rewrite apply_options_spec by done. cbn [Err.o_kind Err.o_cause Err.o_unwrap].
    fold (last_kind os) (last_cause os). by rewrite Hv.
  - intros hp key Hk k. unfold Err.Error_object, e in Hk. cbn in Hk. split.
    + intros Hh. inversion Hh as [? k0 un ? Hd Hc|? k0 un c ? Hd Hin Hc]; subst; cbn in Hd;
        rewrite Hk in Hd; injection Hd as <- <-.
      * left. unfold classified in Hc. rewrite Hv in Hc. cbn in Hc.
        destruct (Z.eqb_spec (last_kind os) Unknown); [done|]. injection Hc as <-. done.
      * right. cbn in Hin. apply list_elem_of_singleton in Hin as ->.
        destruct (without_unwrap os); cbn in Hc; [|done]. by inversion Hc.
    + intros [[<- Hne]|[Hu Hc]].
      * eapply has_kind_here; [exact Hk|]. unfold classified. rewrite Hv. cbn.
        by destruct (Z.eqb_spec (last_kind os) Unknown).
      * eapply has_kind_below; [exact Hk|by apply list_elem_of_singleton|]. by rewrite Hu.
Qed.

(** *** Concrete graphs *)

(** A wrapped error of kind [NotFound] below an unclassified wrapper. *)
Definition sample_heap : heap :=
  list_to_map [((0%nat, 1), (None, Unwrap1 (VPtr (0%nat, 2))));
               ((0%nat, 2), (Some NotFound, Unwrap1 (VPtr (0%nat, 3))));
               ((0%nat, 3), (Some Conflict, NoUnwrap))].

Lemma KindOf_refines_witness :
  KindOf sample_heap (VPtr (0%nat, 1)) = (NotFound, true).
Proof.
  apply (KindOf_refines sample_heap (VPtr (0%nat, 1)) (Some NotFound)
    [(0%nat, 1); (0%nat, 2); (0%nat, 3)]).
  - apply (classifies_wrap sample_heap (VPtr (0%nat, 1)) None (VPtr (0%nat, 2))
      (Some NotFound) [(0%nat, 2); (0%nat, 3)]); [vm_compute; reflexivity|].
    apply (classifies_wrap sample_heap (VPtr (0%nat, 2)) (Some NotFound) (VPtr (0%nat, 3))
      (Some Conflict) [(0%nat, 3)]); [vm_compute; reflexivity|].
    apply (classifies_leaf sample_heap (VPtr (0%nat, 3)) (Some Conflict)).
    vm_compute. reflexivity.
  - apply (bool_decide_unpack _). vm_compute. exact I.
Defined.

Lemma KindOf_sound_witness :
  has_kind sample_heap (VPtr (0%nat, 1)) NotFound ∧
  ∀ want, IsKind sample_heap (VPtr (0%nat, 1)) want = true ↔ want = NotFound.
Proof. apply KindOf_sound. vm_compute. reflexivity. Defined.

Lemma New_spec_witness :
  forallb spec_ok [SpecKind Timeout; SpecCause (VPtr (0%nat, 3))] = true ∧
  Err.New "late" (map (λ o, Some (spec_option o)) [SpecKind Timeout; SpecCause (VPtr (0%nat, 3))]) =
  inr {| Err.message := "late"; Err.kind := Timeout; Err.cause := VPtr (0%nat, 3); Err.unwrap := true |}.
Proof.
  split; [reflexivity|].
  destruct (New_spec "late" [SpecKind Timeout; SpecCause (VPtr (0%nat, 3))]) as [E _]; [reflexivity|].
  exact E.
Defined.

(** An error that two branches share is inspected once only, so [KindOf] is not
    a function of what the errors say: with the same unwrap tree, a shared
    pointer gives no kind where two equal errors give [NotFound]. *)
Theorem KindOf_sharing :
  let p := VPtr (0%nat, 1) in
  let leaf k := VVal (Some k) NoUnwrap in
  let join cs := VVal None (UnwrapN cs) in
  let hp : heap := {[ (0%nat, 1) := (Some NotFound, NoUnwrap) ]} in
  KindOf hp (join [join [p; leaf Conflict]; p]) = (Unknown, false) ∧
  KindOf hp (join [join [leaf NotFound; leaf Conflict]; leaf NotFound]) = (NotFound, true) ∧
  KindOf hp p = KindOf hp (leaf NotFound).
Proof. vm_compute. repeat split. Qed.
