(* ===== verification/Text.v ===== *)
(** * Package [text]: identifiers and truncation

    [Slugify], the prefix and suffix helpers and [Truncate] of [text.go], with
    the reading of a slug as the words of its input. *)
From S2P Require Import Prelude.
From S2P Require Import GoStrings.
From S2P Require Import Utf8.
#[local] Open Scope stdpp_scope.
#[local] Open Scope Z_scope.

Inductive Case := Lower | Upper | Preserve.

(** The class [[a-zA-Z0-9]] of [nonAlnum].  Every byte of a rune above U+007F
    is outside of it, so runs of other runes are runs of other bytes. *)
Definition alnum (c : ascii) : bool :=
  is_letter_ascii (ord c) || is_digit_ascii (ord c).

(** [nonAlnum.ReplaceAllString(input, sep)] for a separator without [$]. *)
Fixpoint replace_runs (sep : string) (in_run : bool) (s : string) : string :=
  match s with
  | EmptyString => ""
  | String c s' =>
      if alnum c then String c (replace_runs sep false s')
      else if in_run then replace_runs sep true s'
      else sep +:+ replace_runs sep true s'
  end.

(** [strings.Trim] with an ASCII cutset. *)
Fixpoint trim_left (set s : string) : string :=
  match s with
  | EmptyString => ""
  | String c s' => if in_set set c then trim_left set s' else s
  end.
Fixpoint trim_right (set s : string) : string :=
  match s with
  | EmptyString => ""
  | String c s' =>
      let r := trim_right set s' in
      if String.eqb r "" && in_set set c then "" else String c r
  end.
Definition Trim (s set : string) : string := trim_right set (trim_left set s).

Definition Slugify `{Unicode} (input sep : string) (casing : Case) : string :=
  let input := match casing with
    | Lower => ToLower input
    | Upper => ToUpper input
    | Preserve => input
    end in
  Trim (replace_runs sep false input) sep.

Definition StripPrefix (input pre : string) : string :=
  if negb (HasPrefix input pre) then input else
  let s := TrimPrefix input pre in
  match s with
  | String c s' => if (Ascii.eqb c "_" || Ascii.eqb c "-" || Ascii.eqb c ".")%char then s' else s
  | EmptyString => s
  end.

Definition EnsurePrefix (s pre : string) : string := if HasPrefix s pre then s else pre +:+ s.
Definition EnsureSuffix (s suf : string) : string := if HasSuffix s suf then s else s +:+ suf.

(** [None] is the panic of slicing with a negative bound. *)
Definition Truncate (s : string) (max : Z) (tail : string) : option string :=
  if Z.of_nat (RuneCount s) <=? max then Some s else
  let tailLen := Z.of_nat (RuneCount tail) in
  if max <=? tailLen
  then if max <? 0 then None else Some (encode (take (Z.to_nat max) (runes tail)))
  else Some (encode (take (Z.to_nat (max - tailLen)) (runes s)) +:+ tail).

(** ** Words

    The maximal alphanumeric runs of a string; [cur] is the run being read. *)
Fixpoint words (cur s : string) : list string :=
  match s with
  | EmptyString => if String.eqb cur "" then [] else [cur]
  | String c s' =>
      if alnum c then words (cur +:+ String c "") s'
      else if String.eqb cur "" then words "" s' else cur :: words "" s'
  end.

Definition word (w : string) : Prop := w ≠ "" ∧ Forall (λ c, alnum c = true) (chars w).

Lemma sapp_eq_nil a b : a +:+ b = "" → a = "" ∧ b = "".
Proof. destruct a; [done|discriminate]. Qed.

Lemma words_word cur s :
  Forall (λ c, alnum c = true) (chars cur) → Forall word (words cur s).
Proof.
  revert cur. induction s as [|c s IH]; intros cur Hc; cbn [words].
  - destruct (String.eqb_spec cur ""); [constructor|]. by repeat constructor.
  - destruct (alnum c) eqn:Ec.
    + apply IH. rewrite chars_app. apply Forall_app. split; [done|]. by constructor.
    + destruct (String.eqb_spec cur ""); [apply IH; constructor|].
      constructor; [by split|]. apply IH. constructor.
Qed.

Lemma words_app_alnum cur w s :
  Forall (λ c, alnum c = true) (chars w) → words cur (w +:+ s) = words (cur +:+ w) s.
Proof.
  revert cur. induction w as [|c w IH]; intros cur Hw; [by rewrite sapp_nil_r|].
  apply Forall_cons in Hw as [Hc Hw]. cbn [String.append words]. rewrite Hc.
  rewrite IH by done. by rewrite sapp_assoc.
Qed.

(** Reading the words of joined words gives them back. *)
Lemma words_Join l (d : ascii) :
  alnum d = false → Forall word l → words "" (Join l (String d "")) = l.
Proof.
  intros Hd. induction l as [|w l IH]; [done|]. intros [[Hne Hw] Hl]%Forall_cons.
  destruct l as [|w' l].
  - unfold Join. cbn. rewrite <- (sapp_nil_r w) at 1. rewrite words_app_alnum by done. cbn.
    destruct (String.eqb_spec w ""); [done|]. done.
  - rewrite Join_cons. rewrite words_app_alnum by done. cbn [String.append words]. rewrite Hd.
    destruct (String.eqb_spec w ""); [done|]. f_equal. by apply IH.
Qed.

Lemma word_last w : word w → ∃ w' c, w = w' +:+ String c "" ∧ alnum c = true.
Proof.
  intros [Hne Hw]. induction w as [|c w IH]; [done|]. apply Forall_cons in Hw as [Hc Hw].
  destruct (decide (w = "")) as [->|Hn]; [by exists "", c|].
  destruct IH as (w' & c' & E & ?); [done|done|]. exists (String c w'), c'. by rewrite E.
Qed.

Lemma trim_right_keep set a c :
  in_set set c = false → trim_right set (a +:+ String c "") = a +:+ String c "".
Proof.
  intros Hc. induction a as [|x a IH]; cbn.
  - by rewrite Hc.
  - rewrite IH. destruct (String.eqb_spec (a +:+ String c "") "") as [E|]; [|done].
    by apply sapp_eq_nil in E as [_ ?].
Qed.

Lemma Join_single w d : Join [w] d = w.
Proof. done. Qed.

(** What [replace_runs] writes: the words with one separator in between, and at
    most one separator at each end. *)
Definition gap (d : ascii) (b : bool) : string := if b then String d "" else "".

Lemma replace_runs_shape (d : ascii) b s :
  ∃ z1 l z2, replace_runs (String d "") b s = gap d z1 +:+ Join l (String d "") +:+ gap d z2 ∧
    Forall word l ∧ (l = [] → z2 = false) ∧ (b = true → z1 = false).
Proof.
  revert b. induction s as [|c s IH]; intros b; cbn [replace_runs].
  - exists false, [], false. done.
  - destruct (alnum c) eqn:Ec; [|destruct b].
    + destruct (IH false) as (z1 & l & z2 & -> & Hl & Hz & _). exists false.
      assert (word (String c "")) as Hc by (by repeat constructor).
      destruct z1; [|destruct l as [|w l]].
      * destruct l as [|w l].
        -- rewrite (Hz eq_refl). exists [String c ""], true. split_and!; [done|by constructor|done|done].
        -- exists (String c "" :: w :: l), z2. rewrite Join_cons. cbn [gap String.append].
           split_and!; [done|by constructor|done|done].
      * rewrite (Hz eq_refl). exists [String c ""], false. split_and!; [done|by constructor|done|done].
      * exists (String c w :: l), z2. apply Forall_cons in Hl as [[_ Hw] Hl].
        split_and!; [by destruct l| |done|done]. constructor; [|done]. split; [done|by constructor].
    + destruct (IH true) as (z1 & l & z2 & -> & Hl & Hz & Hb). rewrite (Hb eq_refl).
      exists false, l, z2. done.
    + destruct (IH true) as (z1 & l & z2 & -> & Hl & Hz & Hb). rewrite (Hb eq_refl).
      exists true, l, z2. done.
Qed.

Lemma words_replace_runs d b cur s :
  alnum d = false → (b = true → cur = "") → words cur (replace_runs (String d "") b s) = words cur s.
Proof.
  intros Hd. revert b cur. induction s as [|c s IH]; intros b cur Hb; cbn [replace_runs]; [done|].
  cbn [words]. destruct (alnum c) eqn:Ec.
  - cbn [words]. rewrite Ec. by apply IH.
  - destruct b.
    + rewrite (Hb eq_refl). cbn. by apply IH.
    + cbn [String.append words]. rewrite Hd. destruct (String.eqb_spec cur ""); [by apply IH|].
      f_equal. by apply IH.
Qed.

Lemma word_first w : word w → ∃ c w', w = String c w' ∧ alnum c = true.
Proof. intros [Hne Hw]. destruct w as [|c w]; [done|]. apply Forall_cons in Hw as [? _]. eauto. Qed.

(** The ends of joined words are alphanumeric. *)
Lemma Join_words_ends l (d : ascii) :
  Forall word l → l ≠ [] →
  (∃ c t, Join l (String d "") = String c t ∧ alnum c = true) ∧
  (∃ c t, Join l (String d "") = t +:+ String c "" ∧ alnum c = true).
Proof.
  induction l as [|w l IH]; [done|]. intros [Hw Hl]%Forall_cons _.
  destruct (word_first w Hw) as (c & w' & -> & Hc).
  destruct l as [|v l].
  - split; [by exists c, w'|]. destruct (word_last _ Hw) as (t & c' & E & ?). exists c', t. by rewrite Join_single.
  - rewrite Join_cons. split; [by eexists c, _|].
    destruct (IH Hl ltac:(done)) as [_ (c' & t & -> & ?)].
    exists c', (String c w' +:+ String d "" +:+ t). split; [|done]. by rewrite !sapp_assoc.
Qed.

Lemma in_set_one d c : in_set (String d "") c = Ascii.eqb c d.
Proof. unfold in_set. cbn. by rewrite orb_false_r. Qed.

Lemma trim_right_gap d a z :
  trim_right (String d "") (a +:+ gap d z) = trim_right (String d "") a.
Proof.
  destruct z; [|by rewrite sapp_nil_r]. induction a as [|x a IH]; cbn [String.append gap trim_right].
  - by rewrite in_set_one, Ascii.eqb_refl.
  - cbn [gap] in IH. by rewrite IH.
Qed.

(** Trimming removes exactly the separators at the ends. *)
Lemma Trim_shape d z1 l z2 :
  alnum d = false → Forall word l → (l = [] → z2 = false) →
  Trim (gap d z1 +:+ Join l (String d "") +:+ gap d z2) (String d "") = Join l (String d "").
Proof.
  intros Hd Hl Hz. unfold Trim.
  assert (∀ c, alnum c = true → in_set (String d "") c = false) as Hset.
  { intros c Hc. rewrite in_set_one. destruct (Ascii.eqb_spec c d); [congruence|done]. }
  destruct (decide (l = [])) as [->|Hne].
  - rewrite (Hz eq_refl). destruct z1; [|done]. cbn [String.append gap trim_left].
    by rewrite in_set_one, Ascii.eqb_refl.
  - destruct (Join_words_ends l d Hl Hne) as [(c & t & E & Hc) (c' & t' & E' & Hc')].
    assert (∀ b, trim_left (String d "") (gap d b +:+ Join l (String d "") +:+ gap d z2) =
      Join l (String d "") +:+ gap d z2) as Hleft.
    { assert (trim_left (String d "") (Join l (String d "") +:+ gap d z2) =
        Join l (String d "") +:+ gap d z2) as Hself.
      { rewrite E. cbn [String.append trim_left]. by rewrite Hset. }
      intros [|]; [|done]. cbn [gap String.append trim_left].
      by rewrite in_set_one, Ascii.eqb_refl. }
    rewrite Hleft, trim_right_gap, E'. apply trim_right_keep. by apply Hset.
Qed.

Lemma Slugify_words `{Unicode} (d : ascii) s casing :
  alnum d = false →
  Slugify s (String d "") casing =
  Join (words "" (match casing with Lower => ToLower s | Upper => ToUpper s | Preserve => s end))
    (String d "").
Proof.
  intros Hd. unfold Slugify. set (input := match casing with Lower => _ | _ => _ end).
  destruct (replace_runs_shape d false input) as (z1 & l & z2 & E & Hl & Hz & _).
  rewrite E, Trim_shape by done. f_equal.
  rewrite <- (words_replace_runs d false "" input) by done. rewrite E.
  assert (∀ t, words "" (gap d z1 +:+ t) = words "" t) as ->.
  { intros t. destruct z1; [|done]. cbn [gap String.append words]. by rewrite Hd. }
  destruct z2.
  - clear E Hz. induction l as [|w l IH]; [change (Join [] (String d "")) with ""; cbn [String.append words gap]; by rewrite Hd|].
    apply Forall_cons in Hl as [[Hne Hw] Hl]. destruct l as [|w' l].
    + rewrite Join_single, words_app_alnum by done. cbn [String.append words gap]. rewrite Hd.
      destruct (String.eqb_spec w ""); done.
    + rewrite Join_cons, !sapp_assoc, words_app_alnum by done. cbn [String.append words gap]. rewrite Hd.
      destruct (String.eqb_spec w ""); [done|]. f_equal. by apply IH.
  - rewrite sapp_nil_r. by rewrite words_Join.
Qed.

(** A slug is the alphanumeric runs of the case-converted input, joined by
    one separator each and by nothing at the ends, so slugging a slug again
    without case conversion changes nothing. *)
Theorem Slugify_spec `{Unicode} (d : ascii) s casing :
  alnum d = false →
  let r := Slugify s (String d "") casing in
  ∃ ws, Forall word ws ∧ r = Join ws (String d "") ∧
    ws = words "" (match casing with Lower => ToLower s | Upper => ToUpper s | Preserve => s end) ∧
    Slugify r (String d "") Preserve = r.
Proof.
  intros Hd r. eexists. split_and!; [|by apply Slugify_words|done|].
  - apply words_word. constructor.
  - unfold r. rewrite !Slugify_words by done. rewrite words_Join; [done|done|].
    apply words_word. constructor.
Qed.

(** The runes of an encoded prefix followed by any string. *)
Lemma chunks_encode_app rs s :
  Forall (λ r, valid_rune r = true) rs →
  chunks (encode rs +:+ s) = map (λ r, (r, encode_rune r)) rs ++ chunks s.
Proof.
  induction rs as [|r rs IH]; [done|]. intros [Hr Hrs]%Forall_cons. cbn [encode].
  rewrite sapp_assoc, chunks_encode_rune by done. cbn. by rewrite IH.
Qed.

Lemma Slugify_spec_witness :
  let _ := ascii_tables in let r := Slugify "Hello,  World! 2" "-" Lower in
  r = "hello-world-2" ∧
  ∃ ws, Forall word ws ∧ r = Join ws "-" ∧ ws = words "" (ToLower "Hello,  World! 2") ∧
    Slugify r "-" Preserve = r.
Proof. split; [by vm_compute|]. apply (@Slugify_spec ascii_tables "-" _ Lower). reflexivity. Defined.

(** With a bound that is not negative [Truncate] does not panic, its result
    has at most [max] runes, a string within the bound is returned as it is,
    and a longer one keeps its first runes, followed by the tail when that
    fits, with exactly [max] runes in all. *)
Theorem Truncate_spec s max tail :
  0 ≤ max →
  ∃ r, Truncate s max tail = Some r ∧ Z.of_nat (RuneCount r) ≤ max ∧
    (Z.of_nat (RuneCount s) ≤ max → r = s) ∧
    (max < Z.of_nat (RuneCount s) → Z.of_nat (RuneCount tail) < max →
     Z.of_nat (RuneCount r) = max ∧
     runes r = take (Z.to_nat (max - Z.of_nat (RuneCount tail))) (runes s) ++ runes tail).
Proof.
  intros Hmax. unfold Truncate.
  destruct (Z.leb_spec (Z.of_nat (RuneCount s)) max) as [Hs|Hs].
  { exists s. split_and!; [done|done|done|lia]. }
  pose proof (runes_valid s) as Hvs. pose proof (runes_valid tail) as Hvt.
  assert (length (runes s) = RuneCount s) as Hls by apply length_map.
  assert (length (runes tail) = RuneCount tail) as Hlt by apply length_map.
  destruct (Z.leb_spec max (Z.of_nat (RuneCount tail))) as [Ht|Ht].
  - rewrite (proj2 (Z.ltb_ge max 0)) by lia. eexists. split; [done|].
    assert (RuneCount (encode (take (Z.to_nat max) (runes tail))) = Z.to_nat max) as ->.
    { unfold RuneCount. rewrite <- (length_map fst), <- (sapp_nil_r (encode _)).
      rewrite chunks_encode_app by (by apply Forall_take). rewrite app_nil_r, !length_map, length_take. lia. }
    split_and!; lia.
  - eexists. split; [done|].
    set (k := Z.to_nat (max - Z.of_nat (RuneCount tail))).
    assert (Forall (λ r, valid_rune r = true) (take k (runes s))) as Hv by (by apply Forall_take).
    assert (RuneCount (encode (take k (runes s)) +:+ tail) = (k + RuneCount tail)%nat) as Hc.
    { unfold RuneCount at 1. rewrite chunks_encode_app by done.
      rewrite length_app, length_map, length_take. unfold RuneCount. unfold k in *. lia. }
    rewrite Hc. split_and!; [unfold k; lia|lia|]. intros _ _. split; [unfold k; lia|].
    unfold runes at 1. rewrite chunks_encode_app by done. rewrite map_app, map_map. cbn.
    by rewrite map_id.
Qed.

Lemma Truncate_spec_witness :
  0 ≤ 6 ∧ Truncate "certificate" 6 "..." = Some "cer...".
Proof.
  split; [lia|]. destruct (Truncate_spec "certificate" 6 "...") as (r & E & _); [lia|].
  rewrite E. vm_compute in E. by injection E as <-.
Defined.

(** *** Prefixes and suffixes *)

(** [EnsurePrefix] and [EnsureSuffix] add what is missing once: the result has
    the affix, applying them again changes nothing, and [StripPrefix] undoes a
    prefix that was added to a string without a leading separator. *)
Theorem Ensure_affix s a :
  (HasPrefix (EnsurePrefix s a) a = true ∧ EnsurePrefix (EnsurePrefix s a) a = EnsurePrefix s a) ∧
  (HasSuffix (EnsureSuffix s a) a = true ∧ EnsureSuffix (EnsureSuffix s a) a = EnsureSuffix s a) ∧
  (HasPrefix s a = false → HasPrefix s "_" = false → HasPrefix s "-" = false →
   HasPrefix s "." = false → StripPrefix (EnsurePrefix s a) a = s).
Proof.
  assert (HasPrefix (EnsurePrefix s a) a = true) as Hp.
  { unfold EnsurePrefix. destruct (HasPrefix s a) eqn:E; [done|]. apply HasPrefix_app. }
  assert (HasSuffix (EnsureSuffix s a) a = true) as Hs.
  { unfold EnsureSuffix. destruct (HasSuffix s a) eqn:E; [done|]. apply HasSuffix_app. }
  split_and!; [done| |done| |].
  - unfold EnsurePrefix at 1. by rewrite Hp.
  - unfold EnsureSuffix at 1. by rewrite Hs.
  - intros Ha H1 H2 H3. unfold StripPrefix. rewrite Hp. cbn [negb].
    unfold EnsurePrefix. rewrite Ha, TrimPrefix_app.
    destruct s as [|c s]; [done|]. cbn [HasPrefix] in H1, H2, H3. rewrite andb_true_r in *.
    rewrite Ascii.eqb_sym in H1, H2, H3. by rewrite H1, H2, H3.
Qed.
