(* ===== verification/Errors.v ===== *)
(** * Errors of the host

    The errors that the operating system and Go's standard library hand to the
    program.  The sentinel errors that the code compares with are named; every
    other one is known by its text. *)
From S2P Require Import Prelude.

Inductive sys_error :=
  | ErrNotExist
  | ErrExist
  | ErrPermission
  | ErrExecNotFound
  | Canceled
  | DeadlineExceeded
  | ErrSyntax
  | ErrRange
  | ErrNoRows
  | SysError (text : string).

#[global] Instance sys_error_eq_dec : EqDecision sys_error.
Proof. solve_decision. Defined.
