(* ===== verification/GoNet.v ===== *)
(** * Hexadecimal text, [net.IP], [net.IPNet] and [url.URL]

    What the program uses of [encoding/hex], [net] and [net/url].  An address
    is its bytes, and nil is the empty address. *)
From S2P Require Import Prelude.
From S2P Require Import GoStrings.
From S2P Require Import Errors.
From S2P Require Import Utf8.
#[local] Open Scope stdpp_scope.
#[local] Open Scope Z_scope.

(** ** Hexadecimal *)

Definition hex_digit (n : Z) : ascii := if n <? 10 then chr (48 + n) else chr (87 + n).

Fixpoint hex_go (fuel : nat) (z : Z) (acc : string) : string :=
  match fuel with
  | O => acc
  | S fuel' =>
      let acc := String (hex_digit (z mod 16)) acc in
      if z / 16 =? 0 then acc else hex_go fuel' (z / 16) acc
  end.

(** [big.Int.Text(16)] of a number that is not negative. *)
Definition hex_text (z : Z) : string := hex_go (S (Z.to_nat (Z.log2 z))) z "".

(** [hex.EncodeToString]. *)
Fixpoint HexEncode (s : string) : string :=
  match s with
  | EmptyString => ""
  | String c s' => String (hex_digit (ord c / 16)) (String (hex_digit (ord c mod 16)) (HexEncode s'))
  end.

Definition is_hex (c : ascii) : bool :=
  let z := ord c in
  ((48 <=? z) && (z <=? 57)) || ((97 <=? z) && (z <=? 102)) || ((65 <=? z) && (z <=? 70)).

(** The error of [hex.DecodeString]. *)
Fixpoint HexDecode_error (s : string) : option sys_error :=
  match s with
  | EmptyString => None
  | String a EmptyString =>
      if is_hex a then Some (SysError "encoding/hex: odd length hex string")
      else Some (SysError "encoding/hex: invalid byte")
  | String a (String b s') =>
      if is_hex a && is_hex b then HexDecode_error s'
      else Some (SysError "encoding/hex: invalid byte")
  end.

(** The big-endian number of a byte string, [new(big.Int).SetBytes]. *)
Definition be_number (s : string) : Z := foldl (λ acc c, acc * 256 + ord c) 0 (chars s).

(** ** Addresses *)
Definition IP : Type := string.

Definition v4_in_6 : string := unchars (replicate 10 (chr 0) ++ [chr 255; chr 255]).

Definition To4 (ip : IP) : option IP :=
  if Nat.eqb (slen ip) 4 then Some ip
  else if Nat.eqb (slen ip) 16 && HasPrefix ip v4_in_6 then Some (sdrop 12 ip)
  else None.

(** [ip.To16() == nil]. *)
Definition To16_nil (ip : IP) : bool := negb (Nat.eqb (slen ip) 4 || Nat.eqb (slen ip) 16).

Definition dotted (ip : IP) : string := Join (map (λ c, Itoa (ord c)) (chars ip)) ".".

Fixpoint groups (l : list ascii) : list Z :=
  match l with
  | a :: b :: l' => (ord a * 256 + ord b) :: groups l'
  | _ => []
  end.

Fixpoint zero_run (l : list Z) : nat :=
  match l with
  | z :: l' => if z =? 0 then S (zero_run l') else O
  | [] => O
  end.

(** The first of the longest runs of at least two zero groups: its start and
    length, or length 0. *)
Fixpoint longest_zero_run (i : nat) (l : list Z) (best : nat * nat) : nat * nat :=
  match l with
  | [] => best
  | _ :: l' =>
      let n := zero_run l in
      longest_zero_run (S i) l' (if Nat.leb 2 n && Nat.ltb best.2 n then (i, n) else best)
  end.

Definition colons (l : list Z) : string := Join (map hex_text l) ":".

Definition v6_text (ip : IP) : string :=
  let gs := groups (chars ip) in
  let '(start, n) := longest_zero_run 0 gs (0%nat, 0%nat) in
  if Nat.eqb n 0 then colons gs
  else colons (take start gs) +:+ "::" +:+ colons (drop (start + n) gs).

Definition IP_String (ip : IP) : string :=
  if String.eqb ip "" then "<nil>" else
  match To4 ip with
  | Some v4 => dotted v4
  | None => if Nat.eqb (slen ip) 16 then v6_text ip else "?" +:+ HexEncode ip
  end.

(** The short form of an address. *)
Definition canonical (ip : IP) : IP := match To4 ip with Some v4 => v4 | None => ip end.

Lemma canonical_cases y :
  (slen y = 4%nat ∧ canonical y = y) ∨
  (∃ z, y = v4_in_6 +:+ z ∧ slen z = 4%nat ∧ canonical y = z) ∨
  (canonical y = y ∧ slen y ≠ 4%nat ∧ (slen y = 16%nat → HasPrefix y v4_in_6 = false)).
Proof.
  unfold canonical, To4. destruct (Nat.eqb_spec (slen y) 4); [by left|right].
  destruct (Nat.eqb_spec (slen y) 16) as [E|]; cbn [andb]; [|by right].
  destruct (HasPrefix y v4_in_6) eqn:Ep; [left|by right]. apply HasPrefix_spec in Ep as [z ->]. exists z.
  rewrite slen_app in E. change (slen v4_in_6) with 12%nat in *. split; [done|]. split; [lia|].
  change 12%nat with (slen v4_in_6). by rewrite sdrop_app.
Qed.

Lemma mapped_length z : slen z = 4%nat → slen (v4_in_6 +:+ z) = 16%nat.
Proof. intros Hz. rewrite slen_app, Hz. done. Qed.
Lemma mapped_drop z : sdrop 12 (v4_in_6 +:+ z) = z.
Proof. change 12%nat with (slen v4_in_6). apply sdrop_app. Qed.

Lemma canonical_four ip : slen ip = 4%nat → canonical ip = ip.
Proof. intros E. unfold canonical, To4. by rewrite E. Qed.
(** Both forms of an address have one text. *)
Lemma IP_String_canonical ip : IP_String (canonical ip) = IP_String ip.
Proof.
  destruct (canonical_cases ip) as [[_ ->]|[(z & -> & Lz & ->)|(-> & _)]]; [done| |done].
  unfold IP_String, To4. rewrite Lz, mapped_length, HasPrefix_app, mapped_drop by done. cbn [Nat.eqb andb].
  destruct (String.eqb_spec z "") as [->|_]; [done|]. done.
Qed.
Lemma To16_canonical ip : To16_nil (canonical ip) = To16_nil ip.
Proof.
  destruct (canonical_cases ip) as [[_ ->]|[(z & -> & Lz & ->)|(-> & _)]]; [done| |done].
  unfold To16_nil. by rewrite Lz, mapped_length.
Qed.
Lemma canonical_empty ip : String.eqb (canonical ip) "" = String.eqb ip "".
Proof.
  destruct (canonical_cases ip) as [[_ ->]|[(z & -> & Lz & ->)|(-> & _)]]; [done| |done].
  by destruct (String.eqb_spec z "") as [->|_].
Qed.

Record IPNet := { net_IP : IP; net_Mask : string }.

Definition networkNumberAndMask (n : IPNet) : IP * string :=
  let ip := match To4 (net_IP n) with
    | Some v4 => Some v4
    | None => if Nat.eqb (slen (net_IP n)) 16 then Some (net_IP n) else None
    end in
  match ip with
  | None => ("", "")
  | Some ip =>
      let m := net_Mask n in
      if Nat.eqb (slen m) 4 then (if Nat.eqb (slen ip) 4 then (ip, m) else ("", ""))
      else if Nat.eqb (slen m) 16
           then (ip, if Nat.eqb (slen ip) 4 then sdrop 12 m else m)
      else ("", "")
  end.

Fixpoint masked_equal (nn m ip : list ascii) : bool :=
  match nn, m, ip with
  | a :: nn', b :: m', c :: ip' =>
      (Z.land (ord a) (ord b) =? Z.land (ord c) (ord b)) && masked_equal nn' m' ip'
  | [], _, _ => true
  | _, _, _ => false
  end.

Definition IPNet_Contains (n : IPNet) (ip : IP) : bool :=
  let '(nn, m) := networkNumberAndMask n in
  let ip := default ip (To4 ip) in
  Nat.eqb (slen ip) (slen nn) && masked_equal (chars nn) (chars m) (chars ip).

(** ** URLs

    The program reads the scheme and the text of a URL; [url.Parse] is a
    parameter. *)
Record URL := { Scheme : string; URL_String : string }.
Class URLParser := { url_Parse : string → sys_error + URL }.

#[global] Instance IPNet_eq_dec : EqDecision IPNet.
Proof. solve_decision. Defined.
#[global] Instance URL_eq_dec : EqDecision URL.
Proof. solve_decision. Defined.

Example ip_texts :
  map IP_String [unchars (map chr [192; 168; 0; 1]);
    unchars (map chr [0x20; 1; 0xd; 0xb8; 0; 0; 0; 0; 0; 0; 0; 0; 0; 0; 0; 1])] =
  ["192.168.0.1"; "2001:db8::1"].
Proof. vm_compute. reflexivity. Qed.

(** * Hexadecimal text

    What is encoded can be decoded, and the text of a number is in lower
    case. *)
(** Digits and the letters a to f. *)
Definition lower_hex (c : ascii) : Prop := 48 ≤ ord c ≤ 57 ∨ 97 ≤ ord c ≤ 102.

Lemma hex_digit_lower n : 0 ≤ n < 16 → lower_hex (hex_digit n).
Proof. intros Hn. unfold hex_digit, lower_hex. destruct (Z.ltb_spec n 10); rewrite ord_chr; lia. Qed.

Lemma lower_hex_is_hex c : lower_hex c → is_hex c = true.
Proof. unfold lower_hex, is_hex. intros Hc. rewrite !orb_true_iff, !andb_true_iff, !Z.leb_le. lia. Qed.

Lemma HexDecode_HexEncode s : HexDecode_error (HexEncode s) = None.
Proof.
  induction s as [|c s IH]; [done|]. cbn [HexEncode HexDecode_error]. pose proof (ord_bounds c).
  rewrite !lower_hex_is_hex; [done| |]; apply hex_digit_lower; split;
    first [apply Z.div_pos; lia|apply Z.div_lt_upper_bound; lia|apply Z.mod_pos_bound; lia].
Qed.

Lemma hex_go_lower fuel z acc : 0 ≤ z → Forall lower_hex (chars acc) → Forall lower_hex (chars (hex_go fuel z acc)).
Proof.
  revert z acc. induction fuel as [|fuel IH]; intros z acc Hz Hacc; cbn [hex_go]; [done|].
  assert (Forall lower_hex (chars (String (hex_digit (z mod 16)) acc))).
  { constructor; [|done]. apply hex_digit_lower, Z.mod_pos_bound. lia. }
  destruct (_ =? 0); [done|]. apply IH; [|done]. apply Z.div_pos; lia.
Qed.

Lemma ToLower_keep `{Unicode} s :
  Forall (λ c, ord c < 128 ∧ to_lower (ord c) = ord c) (chars s) → ToLower s = s.
Proof.
  intros Hs. assert (ascii_string s) as Ha by (eapply Forall_impl; [exact Hs|naive_solver]).
  unfold ToLower. rewrite runes_ascii by done. rewrite map_map.
  assert (map (λ x, to_lower (ord x)) (chars s) = map ord (chars s)) as ->.
  { clear Ha. induction Hs as [|c l [_ Hc] _ IH]; [done|]. cbn. by rewrite Hc, IH. }
  rewrite encode_ascii by done. apply unchars_chars.
Qed.

Lemma ToLower_hex `{Unicode} z : 0 ≤ z → ToLower (hex_text z) = hex_text z.
Proof.
  intros Hz. apply ToLower_keep. eapply Forall_impl; [apply hex_go_lower; [done|constructor]|].
  intros c Hc. unfold lower_hex in Hc. split; [lia|]. unfold to_lower.
  rewrite (proj2 (Z.ltb_lt _ _)) by lia. unfold lower_ascii, is_upper_ascii.
  by rewrite (proj2 (in_range_false 65 (ord c) 90)) by lia.
Qed.

Lemma hex_text_ne z : hex_text z ≠ "".
Proof.
  unfold hex_text. cbn [hex_go]. destruct (_ =? 0); [done|].
  generalize (Z.to_nat (Z.log2 z)) (z / 16) (hex_digit (z mod 16)). intros n z' c.
  assert (∀ n z acc, acc ≠ "" → hex_go n z acc ≠ "") as Hgo; [|by apply Hgo].
  clear. intros n. induction n as [|n IH]; intros z acc Hacc; cbn [hex_go]; [done|].
  destruct (_ =? 0); [done|]. by apply IH.
Qed.
