(* ===== verification/Account.v ===== *)
(** * Package [account]: local accounts

    [account.go], [errors.go], [operation.go] and [backend.go]: the declared
    account, the comparison with an observed one, and the operation that looks,
    checks, applies and looks again.  The operating system is the class
    [AccountHost]; a platform backend is a record of procedures. *)
From S2P Require Import Prelude.
From S2P Require Import GoStrings.
From S2P Require Import GoPath.
From S2P Require Import Utf8.
From S2P Require Import Errors.
#[local] Open Scope stdpp_scope.
#[local] Open Scope Z_scope.

(** ** Data *)

Record AccountRecord := {
  Name : string;
  UID : string;
  GID : string;
  Group : string;
  Home : string;
  Shell : string;
  Groups : list string;
  Hidden : bool;
}.
Definition zero_record : AccountRecord := Build_AccountRecord "" "" "" "" "" "" [] false.

Definition NoLoginShell : string := "/usr/sbin/nologin".

(** The policies are numbers, so that unknown ones are represented. *)
Abbreviation HomePolicy := Z (only parsing).
Definition LeaveHomeUnchanged : HomePolicy := 0.
Definition RequireHome : HomePolicy := 1.
Definition EnsureHome : HomePolicy := 2.
Abbreviation ExistingPolicy := Z (only parsing).
Definition Verify : ExistingPolicy := 0.
Definition Reconcile : ExistingPolicy := 1.

(** Pointers and slices may be nil. *)
Record Spec := {
  s_Name : string;
  s_UID : option Z;
  s_Group : string;
  s_GID : option Z;
  s_Groups : option (list string);
  s_Home : string;
  s_HomePolicy : HomePolicy;
  s_HomeMode : Z;
  s_Shell : string;
  s_Hidden : option bool;
  s_Existing : ExistingPolicy;
}.

Record Change := { Field : string; Before : string; After : string }.

Record EnsureResult := { Created : bool; Changed : list Change; Account : AccountRecord }.
Definition zero_result : EnsureResult := Build_EnsureResult false [] zero_record.

(** ** errors.go, and what [errx.New] and the host return *)

Inductive error :=
  | NotFoundError (Key : string) (Cause : option error)
  | PrivilegeError (Capability : string) (Cause : option error)
  | DriftError (Changes : list Change)
  | UnsupportedError (Capability : string)
  | ValidationError (Message : string) (Cause : option error)
  | ErrxError (Message : string) (Cause : list error)
  | UnknownGroupError (name : string)
  | Sys (e : sys_error).

(** [errors.As] for a [NotFoundError] and for an unknown group. *)
Fixpoint As (target : error → bool) (e : error) : bool :=
  target e ||
  match e with
  | NotFoundError _ (Some c) | PrivilegeError _ (Some c) | ValidationError _ (Some c) => As target c
  | ErrxError _ l => existsb (As target) l
  | _ => false
  end.
Definition AsNotFound : error → bool := As (λ e, match e with NotFoundError _ _ => true | _ => false end).
Definition isUnknownGroup : error → bool := As (λ e, match e with UnknownGroupError _ => true | _ => false end).

(** ** The operating system *)

Record User := { Uid : string; Gid : string; Username : string }.
Record GroupEntry := { g_Gid : string; g_Name : string }.
(** [os.FileInfo]; the owner is absent when the metadata is of another type. *)
Record StatInfo := { st_dir : bool; st_perm : Z; st_owner : option (Z * Z) }.

Inductive call :=
  | CtxErr
  | LookupUser (name : string)
  | LookupUserId (id : string)
  | LookupGroup (name : string)
  | LookupGroupId (id : string)
  | GroupIds (user : string)
  | Command (name : string) (args : list string)
  | Stat (path : string)
  | Mkdir (path : string) (mode : Z)
  | Chown (path : string) (uid gid : Z)
  | Chmod (path : string) (mode : Z).

#[global] Instance call_eq_dec : EqDecision call.
Proof. solve_decision. Defined.

Abbreviation history := (list call).

(** What the system answers, from the calls so far. *)
Class AccountHost := {
  a_ctx : history → option sys_error;
  a_user : history → call → sys_error + User;
  a_group : history → call → error + GroupEntry;
  a_groupIds : history → string → sys_error + list string;
  (** The combined output of a command, and how it failed. *)
  a_command : history → string → list string → string * option sys_error;
  a_stat : history → string → sys_error + option StatInfo;
  a_do : history → call → option sys_error;
}.

Abbreviation io A := (proc call A).

Section host.
Context `{AccountHost}.

Definition ctx_Err : io (option sys_error) := perform CtxErr a_ctx.
Definition user_Lookup (name : string) : io (sys_error + User) :=
  perform (LookupUser name) (λ h, a_user h (LookupUser name)).
Definition user_LookupId (id : string) : io (sys_error + User) :=
  perform (LookupUserId id) (λ h, a_user h (LookupUserId id)).
Definition user_LookupGroup (name : string) : io (error + GroupEntry) :=
  perform (LookupGroup name) (λ h, a_group h (LookupGroup name)).
Definition user_LookupGroupId (id : string) : io (error + GroupEntry) :=
  perform (LookupGroupId id) (λ h, a_group h (LookupGroupId id)).
Definition user_GroupIds (u : User) : io (sys_error + list string) :=
  perform (GroupIds (Username u)) (λ h, a_groupIds h (Username u)).
Definition run_output (name : string) (args : list string) : io (string * option sys_error) :=
  perform (Command name args) (λ h, a_command h name args).
Definition os_Stat (path : string) : io (sys_error + option StatInfo) := perform (Stat path) (λ h, a_stat h path).
Definition os_do (c : call) : io (option sys_error) := perform c (λ h, a_do h c).

(** ** backend.go *)

Definition wrap (message : string) (cause : error) : error := ErrxError message [cause].

Definition commandOutput (name : string) (args : list string) : io (error + string) :=
  '(out, err) ← run_output name args;
  match err with
  | None => mret (inr out)
  | Some e =>
      check! ctx_Err else c => mret (inl (ErrxError ("account: command cancelled: " +:+ name) [Sys c; Sys e])) in
      mret (inl (wrap ("account: command failed: " +:+ name +:+ " " +:+ Join args " " +:+ ": " +:+ TrimSpace out) (Sys e)))
  end.

Definition runCommand (name : string) (args : list string) : io (option error) :=
  r ← commandOutput name args;
  mret (match r with inl e => Some e | inr _ => None end).

Definition homeExists (path : string) : io (error + bool) :=
  check! ctx_Err else e => mret (inl (wrap "account: home inspection cancelled" (Sys e))) in
  r ← os_Stat path;
  mret (match r with
        | inr _ => inr true
        | inl e => if bool_decide (e = ErrNotExist) then inr false
                   else inl (wrap ("account: inspecting home " +:+ path) (Sys e))
        end).

Definition perm (m : Z) : Z := Z.land m 511.
Definition homeMode (s : Spec) : Z := if negb (s_HomeMode s =? 0) then perm (s_HomeMode s) else 493.

Definition home_not_directory : error :=
  DriftError [{| Field := "home directory"; Before := "non-directory"; After := "directory" |}].

Definition ensureHomeDirectory (path : string) (mode : Z) : io (option error) :=
  err ← os_do (Mkdir path mode);
  match err with
  | None => mret None
  | Some e =>
      if negb (bool_decide (e = ErrExist)) then mret (Some (wrap ("account: creating home " +:+ path) (Sys e))) else
      let! info := os_Stat path
        else e => mret (Some (wrap ("account: inspecting existing home " +:+ path) (Sys e))) in
      mret (match info with
            | Some i => if st_dir i then None else Some home_not_directory
            | None => Some home_not_directory
            end)
  end.

(** [FileMode.String] of permission bits. *)
Definition mode_string (m : Z) : string :=
  unchars ("-"%char ::
    map (λ '(i, c), if Z.testbit m (8 - Z.of_nat i) then c else "-"%char)
      (imap pair (chars "rwxrwxrwx"))).

Definition home_error (path : string) (uid gid mode : Z) (info : option StatInfo) : option error :=
  match info with
  | None => Some (ErrxError ("account: verifying home " +:+ path +:+ ": empty file information") [])
  | Some info =>
      if negb (st_dir info) then Some home_not_directory
      else if negb (perm (st_perm info) =? perm mode)
      then Some (DriftError [{| Field := "home mode"; Before := mode_string (perm (st_perm info));
                                After := mode_string (perm mode) |}])
      else
      match st_owner info with
      | None => Some (wrap ("account: verifying home ownership " +:+ path)
                        (ErrxError "unexpected home filesystem metadata" []))
      | Some (u, g) =>
          if negb (u =? uid) || negb (g =? gid)
          then Some (DriftError [{| Field := "home ownership"; Before := Itoa u +:+ ":" +:+ Itoa g;
                                    After := Itoa uid +:+ ":" +:+ Itoa gid |}])
          else None
      end
  end.

Definition verifyHome (path : string) (uid gid mode : Z) : io (option error) :=
  let! info := os_Stat path else e => mret (Some (wrap ("account: verifying home " +:+ path) (Sys e))) in
  mret (home_error path uid gid mode info).
End host.

Definition without (values : list string) (value : string) : list string :=
  filter (λ candidate, candidate ≠ value) values.

(** ** operation.go: specifications *)

Definition local_bad : string := unchars (map chr [58; 47; 92; 0; 32; 9; 10]).
Definition validLocalName (value : string) : bool :=
  negb (String.eqb value "") && negb (HasPrefix value "-") && negb (ContainsAny value local_bad).

Fixpoint check_groups (groups seen : list string) : option error :=
  match groups with
  | [] => None
  | g :: rest =>
      if negb (validLocalName g)
      then Some (ValidationError "supplementary group must be a simple local group name" None)
      else if existsb (String.eqb g) seen
      then Some (ValidationError "supplementary groups must be unique" None)
      else check_groups rest (g :: seen)
  end.

Definition invalid (message : string) : option error := Some (ValidationError message None).

Definition negative (v : option Z) : bool := match v with Some z => z <? 0 | None => false end.
Definition given {A} (v : option A) : bool := match v with Some _ => true | None => false end.

Definition validate (s : Spec) : option error :=
  if negb (validLocalName (s_Name s)) then invalid "name must be a simple local account name"
  else if negb (s_Existing s =? Verify) && negb (s_Existing s =? Reconcile)
  then invalid "unknown existing policy"
  else if negb (s_HomePolicy s =? LeaveHomeUnchanged) && negb (s_HomePolicy s =? RequireHome)
          && negb (s_HomePolicy s =? EnsureHome)
  then invalid "unknown home policy"
  else if negative (s_UID s) then invalid "UID must not be negative"
  else if negative (s_GID s) then invalid "GID must not be negative"
  else if given (s_GID s) && String.eqb (s_Group s) "" then invalid "GID requires a primary group"
  else
  match check_groups (default [] (s_Groups s)) [] with
  | Some e => Some e
  | None =>
      if negb (s_HomePolicy s =? LeaveHomeUnchanged) &&
         (String.eqb (s_Home s) "" || negb (IsAbs (s_Home s)) || negb (String.eqb (Clean (s_Home s)) (s_Home s)))
      then invalid "home must be a clean absolute path"
      else if negb (s_HomeMode s =? 0) && negb (perm (s_HomeMode s) =? s_HomeMode s)
      then invalid "home mode may contain permissions only"
      else None
  end.

Definition from_absent (field after : string) : Change := {| Field := field; Before := "absent"; After := after |}.
Definition when_given {A} (v : option A) (f : A → list Change) : list Change :=
  match v with Some a => f a | None => [] end.
Definition when (b : bool) (l : list Change) : list Change := if b then l else [].

Definition creationChanges (s : Spec) : list Change :=
  [from_absent "account" "present"]
  ++ when_given (s_UID s) (λ u, [from_absent "uid" (Itoa u)])
  ++ when (negb (String.eqb (s_Group s) "")) [from_absent "group" (s_Group s)]
  ++ when_given (s_GID s) (λ g, [from_absent "gid" (Itoa g)])
  ++ when (negb (s_HomePolicy s =? LeaveHomeUnchanged)) [from_absent "home" (s_Home s)]
  ++ when (negb (String.eqb (s_Shell s) "")) [from_absent "shell" (s_Shell s)]
  ++ when_given (s_Groups s) (λ l, [from_absent "groups" (Join l ",")]).

Definition nul : string := String "000" "".
Definition sameStrings (a b : list string) : bool :=
  String.eqb (Join (sort_strings a) nul) (Join (sort_strings b) nul).

Definition add (field a b : string) : list Change :=
  if negb (String.eqb a b) then [{| Field := field; Before := a; After := b |}] else [].

Definition compare (s : Spec) (r : AccountRecord) : list Change :=
  when_given (s_UID s) (λ u, add "uid" (UID r) (Itoa u))
  ++ when (negb (String.eqb (s_Group s) "")) (add "group" (Group r) (s_Group s))
  ++ when_given (s_GID s) (λ g, add "gid" (GID r) (Itoa g))
  ++ when (negb (s_HomePolicy s =? LeaveHomeUnchanged)) (add "home" (Home r) (s_Home s))
  ++ when (negb (String.eqb (s_Shell s) "")) (add "shell" (Shell r) (s_Shell s))
  ++ when_given (s_Groups s) (λ l,
       if negb (sameStrings (Groups r) l)
       then [{| Field := "groups"; Before := Join (Groups r) ","; After := Join l "," |}] else []).

(** [host.OS]. *)
Abbreviation OS := string (only parsing).
Definition Linux : OS := "linux".
Definition Darwin : OS := "darwin".
Definition IsUnix (o : OS) : bool := String.eqb o Linux || String.eqb o Darwin.

Definition compareFor (platform : OS) (s : Spec) (r : AccountRecord) : list Change :=
  compare s r ++
  when_given (s_Hidden s) (λ v,
    when (String.eqb platform Darwin && negb (Bool.eqb (Hidden r) v))
      [{| Field := "hidden"; Before := FormatBool (Hidden r); After := FormatBool v |}]).

(** ** operation.go: the operation *)

(** The [backend] interface. *)
Record backend := {
  bk_lookup : string → bool → io (error + AccountRecord);
  bk_homeExists : string → io (error + bool);
  bk_preflight : Spec → bool → io (option error);
  (** The completed changes, and the error that ended the work. *)
  bk_apply : Spec → option AccountRecord → io (list Change * option error);
}.

Record operation := { platform : OS; root : bool; deps : backend }.

Section operation.
Context `{AccountHost} (o : operation).

Definition lookup (key : string) (byID : bool) : io (error + AccountRecord) :=
  check! ctx_Err else e => mret (inl (wrap "account: lookup cancelled" (Sys e))) in
  if String.eqb key "" then mret (inl (ValidationError "lookup key is required" None))
  else if negb (IsUnix (platform o)) then mret (inl (UnsupportedError (platform o)))
  else bk_lookup (deps o) key byID.

Abbreviation answer := (io (EnsureResult * option error)).

Definition home_absent : Change := {| Field := "home directory"; Before := "absent"; After := "present" |}.
Definition with_changes (res : EnsureResult) (l : list Change) : EnsureResult :=
  {| Created := Created res; Changed := l; Account := Account res |}.
Definition with_account (res : EnsureResult) (r : AccountRecord) : EnsureResult :=
  {| Created := Created res; Changed := Changed res; Account := r |}.

(** What both branches do once everything is checked: apply, look again,
    compare, and look at the home directory when [home] says so. *)
Definition apply_and_verify (spec : Spec) (existing : option AccountRecord) (res : EnsureResult)
    (cancelled : string) (home : bool) : answer :=
  check! ctx_Err else e => mret (res, Some (wrap cancelled (Sys e))) in
  '(completed, err) ← bk_apply (deps o) spec existing;
  let res := with_changes res completed in
  match err with
  | Some e => mret (res, Some e)
  | None =>
      let! r := bk_lookup (deps o) (s_Name spec) false else e => mret (res, Some e) in
      let res := with_account res r in
      match compareFor (platform o) spec r with
      | (_ :: _) as remaining => mret (res, Some (DriftError remaining))
      | [] =>
          if negb home then mret (res, None) else
          let! exists_ := bk_homeExists (deps o) (s_Home spec) else e => mret (res, Some e) in
          mret (res, if exists_ : bool then None else Some (DriftError [home_absent]))
      end
  end.

Definition run_create (spec : Spec) (apply : bool) : answer :=
  if String.eqb (s_Group spec) ""
  then mret (zero_result, Some (ValidationError "creating an account requires an explicit primary group" None)) else
  check! bk_preflight (deps o) spec false else e => mret (zero_result, Some e) in
  let res := {| Created := true;
    Changed := creationChanges spec ++
      when_given (s_Hidden spec) (λ v, when (String.eqb (platform o) Darwin) [from_absent "hidden" (FormatBool v)]);
    Account := zero_record |} in
  if negb (root o) then mret (res, Some (PrivilegeError "create local account" None))
  else if negb apply then mret (res, None)
  else apply_and_verify spec None res "account: create cancelled" (negb (s_HomePolicy spec =? LeaveHomeUnchanged)).

(** The home directory as a change to make. *)
Definition home_changes (spec : Spec) : io (error + list Change) :=
  if s_HomePolicy spec =? LeaveHomeUnchanged then mret (inr []) else
  let! exists_ := bk_homeExists (deps o) (s_Home spec) else e => mret (inl e) in
  mret (inr (if exists_ : bool then [] else [home_absent])).

Definition run_existing (spec : Spec) (record : AccountRecord) (apply : bool) : answer :=
  let changes := compareFor (platform o) spec record in
  check! bk_preflight (deps o) spec true else e => mret (zero_result, Some e) in
  let! home := home_changes spec
    else e => mret ({| Created := false; Changed := changes; Account := record |}, Some e) in
  let changes := changes ++ home in
  let res := {| Created := false; Changed := changes; Account := record |} in
  match changes with
  | [] => mret (res, None)
  | _ =>
      if (s_Existing spec =? Verify) || (s_HomePolicy spec =? RequireHome)
      then mret (res, Some (DriftError changes))
      else if negb (root o) then mret (res, Some (PrivilegeError "reconcile local account" None))
      else if negb apply then mret (res, None)
      else apply_and_verify spec (Some record) res "account: reconcile cancelled" (s_HomePolicy spec =? EnsureHome)
  end.

Definition run (spec : Spec) (apply : bool) : answer :=
  check! ctx_Err else e => mret (zero_result, Some (wrap "account: operation cancelled" (Sys e))) in
  match validate spec with
  | Some e => mret (zero_result, Some e)
  | None =>
      if negb (IsUnix (platform o)) then mret (zero_result, Some (UnsupportedError (platform o))) else
      r ← bk_lookup (deps o) (s_Name spec) false;
      match r with
      | inl e => if negb (AsNotFound e) then mret (zero_result, Some e) else run_create spec apply
      | inr record => run_existing spec record apply
      end
  end.

(** account.go *)
Definition Lookup (name : string) := lookup name false.
Definition LookupID (uid : string) := lookup uid true.
Definition Check_ (spec : Spec) : answer := run spec false.
Definition Ensure (spec : Spec) : answer := run spec true.
End operation.
