(* ===== verification/AccountPlatforms.v ===== *)
(** * The platform backends of [account]

    [backend_linux_impl.go], which drives the shadow-utils commands, and
    [backend_darwin_impl.go], which drives the local Directory Service. *)
From S2P Require Import Prelude.
From S2P Require Import GoStrings.
From S2P Require Import GoPath.
From S2P Require Import Utf8.
From S2P Require Import Errors.
From S2P Require Import Account.
#[local] Open Scope stdpp_scope.
#[local] Open Scope Z_scope.

(** ** What both lookups do before they differ *)
Section common.
Context `{AccountHost}.

Definition find_user (key : string) (byID : bool) : io (error + User) :=
  let! u := (if byID then user_LookupId key else user_Lookup key)
    else e => mret (inl (NotFoundError key (Some (Sys e)))) in
  mret (inr u).

Definition one_group (u : User) (id : string) (groups : list string) : io (error + list string) :=
  if String.eqb id (Gid u) then mret (inr groups) else
  let! group := user_LookupGroupId id
    else e => mret (inl (wrap ("account: resolving group " +:+ id) e)) in
  mret (inr (groups ++ [g_Name group])).

(** The user, the name of the primary group and those of the others. *)
Definition find_account (key : string) (byID : bool) : io (error + (User * string * list string)) :=
  check! ctx_Err else e => mret (inl (wrap "account: lookup cancelled" (Sys e))) in
  let! u := find_user key byID else e => mret (inl e) in
  let! primary := user_LookupGroupId (Gid u)
    else e => mret (inl (wrap ("account: resolving primary group " +:+ Gid u) e)) in
  let! ids := user_GroupIds u
    else e => mret (inl (wrap ("account: resolving groups for " +:+ Username u) (Sys e))) in
  let! groups := for_each (one_group u) ids [] else e => mret (inl e) in
  mret (inr (u, g_Name primary, groups)).

Definition account_of (u : User) (primary : string) (groups : list string) (home shell : string)
    (hidden : bool) : AccountRecord :=
  {| Name := Username u; UID := Uid u; GID := Gid u; Group := primary; Home := home; Shell := shell;
     Groups := groups; Hidden := hidden |}.

Definition group_drift (before : string) (gid : Z) : error :=
  DriftError [{| Field := "group gid"; Before := before; After := Itoa gid |}].

(** The group is looked up again and has the identifier that was asked for. *)
Definition verify_gid (what : string) (group : string) (gid : option Z) : io (option error) :=
  let! verified := user_LookupGroup group
    else e => mret (Some (wrap ("account: verifying " +:+ what +:+ " group " +:+ group) e)) in
  mret (match gid with
        | Some g => if negb (String.eqb (g_Gid verified) (Itoa g)) then Some (group_drift (g_Gid verified) g) else None
        | None => None
        end).

Definition num_error (e : num_err) : error :=
  Sys (match e with GoStrings.ErrSyntax => ErrSyntax | GoStrings.ErrRange => ErrRange end).

(** Two numbers, or the errors of those that are none. *)
Definition both (a b : num_err + Z) : list error + (Z * Z) :=
  match a, b with
  | inr a, inr b => inr (a, b)
  | inl e, inr _ | inr _, inl e => inl [num_error e]
  | inl e, inl f => inl [num_error e; num_error f]
  end.

Definition ensure_home (look : string → bool → io (error + AccountRecord)) (s : Spec) : io (option error) :=
  check! ensureHomeDirectory (s_Home s) (homeMode s) else e => mret (Some e) in
  let! record := look (s_Name s) false else e => mret (Some e) in
  match both (Atoi (UID record)) (Atoi (GID record)) with
  | inl causes =>
      mret (Some (ErrxError ("account: malformed account identifiers for " +:+ s_Name s) causes))
  | inr (uid, gid) =>
      check! os_do (Chown (s_Home s) uid gid)
        else e => mret (Some (wrap ("account: owning home " +:+ s_Home s) (Sys e))) in
      check! os_do (Chmod (s_Home s) (homeMode s))
        else e => mret (Some (wrap ("account: chmod home " +:+ s_Home s) (Sys e))) in
      verifyHome (s_Home s) uid gid (homeMode s)
  end.

Definition group_changes (s : Spec) : list Change :=
  [from_absent "group record" (s_Group s)]
  ++ when_given (s_GID s) (λ g, [from_absent "group record gid" (Itoa g)]).

(** The part of [apply] after the preparation: the group, the account, and the
    home directory; the completed changes are returned also with an error. *)
Definition apply_steps (s : Spec) (existing : option AccountRecord)
    (ensureGroup : io (error + bool)) (change_account : io (option error))
    (home : io (option error)) : io (list Change * option error) :=
  let! createdGroup := ensureGroup else e => mret ([], Some e) in
  let completed := if createdGroup : bool then group_changes s else [] in
  check! change_account else e => mret (completed, Some e) in
  let completed := completed ++
    match existing with None => creationChanges s | Some r => compare s r end in
  if negb (s_HomePolicy s =? EnsureHome) then mret (completed, None) else
  let! wasPresent := homeExists (s_Home s) else e => mret (completed, Some e) in
  check! home else e => mret (completed, Some e) in
  mret (completed ++ (if wasPresent : bool then [] else [home_absent]), None).
End common.

(** ** backend_linux_impl.go *)
Module LinuxBackend.
Section linux.
Context `{AccountHost}.

Definition lookup (key : string) (byID : bool) : io (error + AccountRecord) :=
  let! (u, primary, groups) := find_account key byID else e => mret (inl e) in
  let! out := commandOutput "getent" ["passwd"; Username u] else e => mret (inl e) in
  mret (match Split (TrimSpace out) ":" with
        | [name; _; _; _; _; home; shell] =>
            if String.eqb name (Username u) then inr (account_of u primary groups home shell false)
            else inl (ErrxError ("account: malformed passwd record for " +:+ Username u) [])
        | _ => inl (ErrxError ("account: malformed passwd record for " +:+ Username u) [])
        end).

(** [checkCapabilities]: the flags that are looked for in the help text. *)
Definition needed (s : Spec) (modifying : bool) : list string :=
  let l := if modifying then ["--uid"; "--gid"; "--home"; "--shell"; "--groups"]
           else ["--uid"; "--gid"; "--home-dir"; "--shell"; "--groups"; "--no-create-home"] in
  let l := if given (s_UID s) then l else without l "--uid" in
  let l := if s_HomePolicy s =? LeaveHomeUnchanged then without (without l "--home-dir") "--home"
           else without l "--no-create-home" in
  let l := if (s_HomePolicy s =? EnsureHome) && negb modifying then l ++ ["--create-home"] else l in
  let l := if String.eqb (s_Shell s) "" then without l "--shell" else l in
  if given (s_Groups s) then l else without l "--groups".

Definition unsupported (command flag : string) : error :=
  UnsupportedError ("Linux " +:+ command +:+ " " +:+ flag).

Definition missing_flag (command out : string) (flags : list string) : option error :=
  first_error (map (λ flag, if Contains out flag then None else Some (unsupported command flag)) flags).

Definition capabilities (command : string) : io (error + string) :=
  let! out := commandOutput command ["--help"]
    else e => mret (inl (wrap ("account: inspecting Linux " +:+ command +:+ " capabilities") e)) in
  mret (inr out).

Definition checkCapabilities (s : Spec) (modifying : bool) : io (option error) :=
  let command := if modifying then "usermod" else "useradd" in
  let! out := capabilities command else e => mret (Some e) in
  match missing_flag command out (needed s modifying) with
  | Some e => mret (Some e)
  | None =>
      let! out := capabilities "groupadd" else e => mret (Some e) in
      if given (s_GID s) && negb (Contains out "--gid") then mret (Some (unsupported "groupadd" "--gid")) else
      if negb (given (s_GID s) && modifying) then mret None else
      let! out := capabilities "groupmod" else e => mret (Some e) in
      mret (if negb (Contains out "--gid") then Some (unsupported "groupmod" "--gid") else None)
  end.

Definition preflight (s : Spec) (modifying : bool) : io (option error) := checkCapabilities s modifying.

Definition option_args {A} (v : option A) (f : A → list string) : list string :=
  match v with Some a => f a | None => [] end.

(** The identifier of an existing group is changed. *)
Definition change_gid (s : Spec) (gid : Z) : io (error + bool) :=
  let! out := capabilities "groupmod" else e => mret (inl e) in
  if negb (Contains out "--gid") then mret (inl (unsupported "groupmod" "--gid")) else
  check! runCommand "groupmod" ["--gid"; Itoa gid; s_Group s] else e => mret (inl e) in
  check! verify_gid "reconciled" (s_Group s) (Some gid) else e => mret (inl e) in
  mret (inr false).

Definition ensureGroup (s : Spec) : io (error + bool) :=
  if String.eqb (s_Group s) "" then mret (inr false) else
  r ← user_LookupGroup (s_Group s);
  match r with
  | inr group =>
      match s_GID s with
      | Some gid => if negb (String.eqb (g_Gid group) (Itoa gid)) then change_gid s gid else mret (inr false)
      | None => mret (inr false)
      end
  | inl e =>
      if negb (isUnknownGroup e) then mret (inl (wrap ("account: resolving group " +:+ s_Group s) e)) else
      check! runCommand "groupadd" (option_args (s_GID s) (λ g, ["--gid"; Itoa g]) ++ [s_Group s])
        else e => mret (inl e) in
      check! verify_gid "created" (s_Group s) (s_GID s) else e => mret (inl e) in
      mret (inr true)
  end.

Definition when_args (b : bool) (l : list string) : list string := if b then l else [].

Definition create_args (s : Spec) : list string :=
  option_args (s_UID s) (λ u, ["--uid"; Itoa u])
  ++ ["--gid"; s_Group s]
  ++ when_args (negb (String.eqb (s_Home s) "")) ["--home-dir"; s_Home s]
  ++ [if s_HomePolicy s =? EnsureHome then "--create-home" else "--no-create-home"]
  ++ when_args (negb (String.eqb (s_Shell s) "")) ["--shell"; s_Shell s]
  ++ option_args (s_Groups s) (λ l, ["--groups"; Join l ","])
  ++ [s_Name s].

Definition create (s : Spec) : io (option error) := runCommand "useradd" (create_args s).

Definition modify_args (s : Spec) : list string :=
  option_args (s_UID s) (λ u, ["--uid"; Itoa u])
  ++ when_args (negb (String.eqb (s_Group s) "")) ["--gid"; s_Group s]
  ++ when_args (negb (s_HomePolicy s =? LeaveHomeUnchanged)) ["--home"; s_Home s]
  ++ when_args (negb (String.eqb (s_Shell s) "")) ["--shell"; s_Shell s]
  ++ option_args (s_Groups s) (λ l, ["--groups"; Join l ","]).

Definition modify (s : Spec) : io (option error) :=
  match modify_args s with
  | [] => mret None
  | args => runCommand "usermod" (args ++ [s_Name s])
  end.

Definition ensureHome (s : Spec) : io (option error) := ensure_home lookup s.

Definition apply (s : Spec) (existing : option AccountRecord) : io (list Change * option error) :=
  check! ctx_Err else e => mret ([], Some (wrap "account: reconcile cancelled" (Sys e))) in
  check! preflight s (given existing) else e => mret ([], Some e) in
  apply_steps s existing (ensureGroup s)
    (match existing with None => create s | Some _ => modify s end) (ensureHome s).

Definition linuxBackend : backend :=
  {| bk_lookup := lookup; bk_homeExists := homeExists; bk_preflight := preflight; bk_apply := apply |}.
End linux.
End LinuxBackend.

(** ** backend_darwin_impl.go *)
Module DarwinBackend.
Section darwin.
Context `{AccountHost}.

(** The lines [key: value] of a record; a later line replaces an earlier one. *)
Definition property (line : string) : option (string * string) :=
  match Split (TrimSpace line) ":" with
  | key :: ((_ :: _) as rest) => Some (key, TrimSpace (Join rest ":"))
  | _ => None
  end.
Definition properties (out : string) : gmap string string :=
  foldl (λ m line, match property line with Some (k, v) => <[k:=v]> m | None => m end) ∅ (Split out "010").
Definition value (m : gmap string string) (k : string) : string := default "" (m !! k).

Definition record_of (u : User) (primary : string) (groups : list string) (values : gmap string string)
    : error + AccountRecord :=
  if String.eqb (value values "NFSHomeDirectory") "" || String.eqb (value values "UserShell") ""
  then inl (ErrxError ("account: malformed Directory Service record for " +:+ Username u) [])
  else inr (account_of u primary groups (value values "NFSHomeDirectory") (value values "UserShell")
              (String.eqb (value values "IsHidden") "1" || String.eqb (value values "IsHidden") "true")).

Definition lookup (key : string) (byID : bool) : io (error + AccountRecord) :=
  let! (u, primary, groups) := find_account key byID else e => mret (inl e) in
  let! out := commandOutput "dscl" ["."; "-read"; "/Users/" +:+ Username u; "NFSHomeDirectory"; "UserShell"; "IsHidden"]
    else e => mret (inl e) in
  mret (record_of u primary groups (properties out)).

Definition preflight (s : Spec) (modifying : bool) : io (option error) :=
  r ← commandOutput "dscl" ["-help"];
  match r with
  | inl e => mret (Some (wrap "account: inspecting macOS Directory Service capabilities" e))
  | inr _ =>
      if String.eqb (s_Group s) "" && negb (given (s_Groups s)) then mret None else
      r ← commandOutput "dseditgroup" ["-help"];
      mret (match r with
            | inl e => Some (wrap "account: inspecting macOS group capabilities" e)
            | inr _ => None
            end)
  end.

(** The identifier in a line of a listing. *)
Definition listed_id (line : string) : option Z :=
  match Fields line with
  | (_ :: _ :: _) as fields =>
      match Atoi (List.last fields "") with
      | inr id => if 500 <=? id then Some id else None
      | inl _ => None
      end
  | _ => None
  end.

Definition id_limit : Z := 2 ^ 31 - 1.

(** The loop over the identifiers from [id] on; [fuel] more of them are tried
    than there are used ones. *)
Fixpoint free_id (fuel : nat) (used : list Z) (id : Z) : option Z :=
  match fuel with
  | O => None
  | S fuel' =>
      if id_limit <=? id then None
      else if existsb (Z.eqb id) used then free_id fuel' used (id + 1) else Some id
  end.

Definition used_ids (out : string) : list Z := omap listed_id (Split out "010").

Definition allocateID (node attribute capability : string) : io (error + Z) :=
  let! out := commandOutput "dscl" ["."; "-list"; node; attribute]
    else e => mret (inl (wrap "account: listing macOS local UIDs" e)) in
  mret (match free_id (S (length (used_ids out))) (used_ids out) 500 with
        | Some id => inr id
        | None => inl (UnsupportedError capability)
        end).

Definition allocateUID : io (error + Z) := allocateID "/Users" "UniqueID" "macOS local UID allocation".
Definition allocateGID : io (error + Z) := allocateID "/Groups" "PrimaryGroupID" "macOS local GID allocation".

Definition dscl_create (path attribute v : string) : io (option error) :=
  runCommand "dscl" ["."; "-create"; path; attribute; v].

Definition create_group (s : Spec) : io (error + bool) :=
  check! runCommand "dseditgroup" ["-o"; "create"; s_Group s] else e => mret (inl e) in
  let! gid := (match s_GID s with Some g => mret (inr g) | None => allocateGID end) else e => mret (inl e) in
  check! dscl_create ("/Groups/" +:+ s_Group s) "PrimaryGroupID" (Itoa gid) else e => mret (inl e) in
  check! verify_gid "created" (s_Group s) (Some gid) else e => mret (inl e) in
  mret (inr true).

Definition ensureGroup (s : Spec) : io (error + bool) :=
  if String.eqb (s_Group s) "" then mret (inr false) else
  r ← user_LookupGroup (s_Group s);
  match r with
  | inr group =>
      match s_GID s with
      | Some gid =>
          if negb (String.eqb (g_Gid group) (Itoa gid))
          then check! dscl_create ("/Groups/" +:+ s_Group s) "PrimaryGroupID" (Itoa gid) else e => mret (inl e) in
               check! verify_gid "reconciled" (s_Group s) (Some gid) else e => mret (inl e) in
               mret (inr false)
          else mret (inr false)
      | None => mret (inr false)
      end
  | inl e =>
      if negb (isUnknownGroup e) then mret (inl (wrap ("account: resolving group " +:+ s_Group s) e))
      else create_group s
  end.

(** An attribute that is set when there is a value for it. *)
Definition set_user (s : Spec) (attribute : string) (v : option string) : io (option error) :=
  match v with
  | Some v => dscl_create ("/Users/" +:+ s_Name s) attribute v
  | None => mret None
  end.

Definition nonempty (v : string) : option string := if String.eqb v "" then None else Some v.

Definition setAttributes (s : Spec) : io (option error) :=
  check! set_user s "IsHidden" ((λ v : bool, if v then "1" else "0") <$> s_Hidden s) else e => mret (Some e) in
  check! set_user s "UniqueID" (Itoa <$> s_UID s) else e => mret (Some e) in
  check! (if String.eqb (s_Group s) "" then mret None else
          let! group := user_LookupGroup (s_Group s)
            else e => mret (Some (wrap ("account: resolving primary group " +:+ s_Group s) e)) in
          set_user s "PrimaryGroupID" (Some (g_Gid group))) else e => mret (Some e) in
  check! set_user s "NFSHomeDirectory"
           (if s_HomePolicy s =? LeaveHomeUnchanged then None else Some (s_Home s)) else e => mret (Some e) in
  set_user s "UserShell" (nonempty (s_Shell s)).

(** One command per group, up to the first that fails. *)
Definition edit_args (s : Spec) (flag group : string) : list string :=
  ["-o"; "edit"; flag; s_Name s; "-t"; "user"; group].
Definition edit_groups (s : Spec) (flag : string) (groups : list string) : io (option error) :=
  r ← for_each (λ group _, err ← runCommand "dseditgroup" (edit_args s flag group);
                  mret (match err with Some e => inl e | None => inr () end)) groups ();
  mret (match r with inl e => Some e | inr _ => None end).

Definition contains (values : list string) (v : string) : bool := existsb (String.eqb v) values.

Definition create (s : Spec) : io (option error) :=
  check! runCommand "dscl" ["."; "-create"; "/Users/" +:+ s_Name s] else e => mret (Some e) in
  check! setAttributes s else e => mret (Some e) in
  edit_groups s "-a" (default [] (s_Groups s)).

Definition added (want have : list string) : list string := filter (λ g, negb (contains have g)) want.

Definition modify (s : Spec) (existing : AccountRecord) : io (option error) :=
  check! setAttributes s else e => mret (Some e) in
  match s_Groups s with
  | None => mret None
  | Some groups =>
      check! edit_groups s "-a" (added groups (Groups existing)) else e => mret (Some e) in
      edit_groups s "-d" (added (Groups existing) groups)
  end.

Definition ensureHome (s : Spec) : io (option error) := ensure_home lookup s.

Definition with_uid (s : Spec) (uid : Z) : Spec := {|
  s_Name := s_Name s; s_UID := Some uid; s_Group := s_Group s; s_GID := s_GID s; s_Groups := s_Groups s;
  s_Home := s_Home s; s_HomePolicy := s_HomePolicy s; s_HomeMode := s_HomeMode s; s_Shell := s_Shell s;
  s_Hidden := s_Hidden s; s_Existing := s_Existing s |}.

Definition apply (s : Spec) (existing : option AccountRecord) : io (list Change * option error) :=
  check! ctx_Err else e => mret ([], Some (wrap "account: reconcile cancelled" (Sys e))) in
  let! s := (match existing, s_UID s with
             | None, None => let! uid := allocateUID else e => mret (inl e) in mret (inr (with_uid s uid))
             | _, _ => mret (inr s)
             end) else e => mret ([], Some e) in
  apply_steps s existing (ensureGroup s)
    (match existing with None => create s | Some r => modify s r end) (ensureHome s).

Definition darwinBackend : backend :=
  {| bk_lookup := lookup; bk_homeExists := homeExists; bk_preflight := preflight; bk_apply := apply |}.
End darwin.
End DarwinBackend.

(** ** backend.go: the backend of a platform *)
Section production.
Context `{AccountHost}.

Definition no_platform : error := UnsupportedError "platform".
Definition unsupportedBackend : backend :=
  {| bk_lookup _ _ := mret (inl no_platform); bk_homeExists _ := mret (inl no_platform);
     bk_preflight _ _ := mret (Some no_platform); bk_apply _ _ := mret ([], Some no_platform) |}.

Definition platformBackend (p : OS) : backend :=
  if String.eqb p Linux then LinuxBackend.linuxBackend
  else if String.eqb p Darwin then DarwinBackend.darwinBackend
  else unsupportedBackend.

(** What [host] says about the platform and the user is given. *)
Definition productionDeps (p : OS) (is_root : bool) : operation :=
  {| platform := p; root := is_root; deps := platformBackend p |}.
End production.
