(* ===== verification/AccountFacts.v ===== *)
(** * What account operations guarantee

    The comparison as a proposition, what a successful operation has verified,
    which operations leave the system alone, and the commands of the platform
    backends. *)
From stdpp Require Import pretty.
From S2P Require Import Prelude.
From S2P Require Import GoStrings.
From S2P Require Import GoPath.
From S2P Require Import Utf8.
From S2P Require Import Errors.
From S2P Require Import Account.
From S2P Require Import AccountPlatforms.
#[local] Open Scope stdpp_scope.
#[local] Open Scope Z_scope.

(** ** The comparison *)

(** Names that a joined list keeps apart. *)
Definition separable (v : string) : Prop := v ≠ "" ∧ "000"%char ∉ chars v.

Lemma sameStrings_perm a b :
  Forall separable a → Forall separable b → sameStrings a b = true ↔ a ≡ₚ b.
Proof.
  intros Ha Hb. unfold sameStrings. rewrite String.eqb_eq, <- sort_strings_eq.
  rewrite <- (sort_strings_perm a) in Ha. rewrite <- (sort_strings_perm b) in Hb.
  generalize dependent (sort_strings a). generalize dependent (sort_strings b). clear a b. intros b Hb a Ha.
  split; [|by intros ->]. intros E.
  assert (∀ l, Forall separable l → l ≠ [] → Split (Join l nul) "000" = l) as Hs.
  { intros l Hl Hne. apply Split_Join; [done|]. eapply Forall_impl; [exact Hl|]. by intros v [_ ?]. }
  assert (∀ l, Forall separable l → Join l nul = "" → l = []) as Hempty.
  { intros l Hl El. destruct l as [|v l]; [done|]. specialize (Hs (v :: l) Hl ltac:(done)). rewrite El in Hs.
    injection Hs as <- <-. apply Forall_cons in Hl as [[? _] _]. done. }
  destruct (decide (a = [])) as [->|Hna]; [by rewrite (Hempty b)|].
  destruct (decide (b = [])) as [->|Hnb]; [by rewrite (Hempty a)|].
  by rewrite <- (Hs a Ha Hna), <- (Hs b Hb Hnb), E.
Qed.

(** The account is as declared; what is not declared is free. *)
Record conforms (p : OS) (s : Spec) (r : AccountRecord) : Prop := {
  conforms_uid u : s_UID s = Some u → UID r = Itoa u;
  conforms_group : s_Group s ≠ "" → Group r = s_Group s;
  conforms_gid g : s_GID s = Some g → GID r = Itoa g;
  conforms_home : s_HomePolicy s ≠ LeaveHomeUnchanged → Home r = s_Home s;
  conforms_shell : s_Shell s ≠ "" → Shell r = s_Shell s;
  conforms_groups l : s_Groups s = Some l → Groups r ≡ₚ l;
  conforms_hidden b : p = Darwin → s_Hidden s = Some b → Hidden r = b;
}.

Lemma add_nil f a b : add f a b = [] ↔ a = b.
Proof. unfold add. by destruct (String.eqb_spec a b). Qed.
Lemma when_nil b l : when b l = [] ↔ (b = true → l = []).
Proof. destruct b; cbn; naive_solver. Qed.
Lemma when_given_nil {A} (v : option A) f : when_given v f = [] ↔ ∀ a, v = Some a → f a = [].
Proof. destruct v; cbn; naive_solver. Qed.

Lemma check_groups_valid l seen : check_groups l seen = None → Forall (λ g, validLocalName g = true) l.
Proof.
  revert seen. induction l as [|g l IH]; intros seen; cbn; [constructor|].
  destruct (validLocalName g) eqn:E; cbn; [|done]. case_match; [done|]. constructor; [done|]. by eapply IH.
Qed.

Lemma local_separable v : validLocalName v = true → separable v.
Proof.
  unfold validLocalName. intros E. bool_simpl. split; [by intros ->|]. intros Hin.
  match goal with X : ContainsAny _ _ = false |- _ => rewrite ContainsAny_false in X; apply (X "000"%char) in Hin end.
  apply Hin, (bool_decide_unpack _). by vm_compute.
Qed.

(** The comparison of an account with its specification reports no change
    exactly when the account is as declared: every declared field is equal, and
    the supplementary groups are the declared ones in any order.  Group names
    are taken to be non-empty and without NUL bytes. *)
Theorem compareFor_spec p s r :
  validate s = None → Forall separable (Groups r) → compareFor p s r = [] ↔ conforms p s r.
Proof.
  intros Hv Hr. assert (∀ l, s_Groups s = Some l → Forall separable l) as Hs.
  { intros l El. unfold validate in Hv. repeat (case_match; try done).
    match goal with X : check_groups _ _ = None |- _ => rewrite El in X; apply check_groups_valid in X; rename X into Hg end.
    eapply Forall_impl; [exact Hg|]. intros v. apply local_separable. }
  unfold compareFor, compare. rewrite !app_nil, !when_nil, !when_given_nil, !negb_true_iff.
  setoid_rewrite add_nil. rewrite Z.eqb_neq, !String.eqb_neq.
  assert ((∀ a, s_Groups s = Some a → (if negb (sameStrings (Groups r) a)
      then [{| Field := "groups"; Before := Join (Groups r) ","; After := Join a "," |}] else []) = []) ↔
    ∀ l, s_Groups s = Some l → Groups r ≡ₚ l) as ->.
  { split; intros Hg l El; specialize (Hg l El); pose proof (sameStrings_perm (Groups r) l Hr (Hs l El)) as Hp.
    - destruct (sameStrings (Groups r) l); [by apply Hp|done].
    - apply Hp in Hg. by rewrite Hg. }
  assert ((∀ v, s_Hidden s = Some v → when (String.eqb p Darwin && negb (Bool.eqb (Hidden r) v))
      [{| Field := "hidden"; Before := FormatBool (Hidden r); After := FormatBool v |}] = []) ↔
    ∀ b, p = Darwin → s_Hidden s = Some b → Hidden r = b) as ->.
  { split.
    - intros Hh b -> Hb. specialize (Hh b Hb). rewrite String.eqb_refl in Hh. by destruct (Hidden r), b.
    - intros Hh v Hv'. destruct (String.eqb_spec p Darwin) as [->|]; [|done]. rewrite (Hh v) by done.
      by rewrite Bool.eqb_reflx. }
  split.
  - intros ((H1' & H2' & H3' & H4' & H5' & H6') & H7'). by constructor.
  - intros []. auto 10.
Qed.

(** ** What success means *)
Section operation.
Context `{AccountHost} (o : operation).

(** The backend answered at some point of the run. *)
Definition answered {A} (m : io A) (a : A) : Prop := ∃ h h', m h = (a, h').

Definition verified (spec : Spec) (r : AccountRecord) : Prop :=
  answered (bk_lookup (deps o) (s_Name spec) false) (inr r) ∧
  compareFor (platform o) spec r = [] ∧
  (s_HomePolicy spec ≠ LeaveHomeUnchanged → answered (bk_homeExists (deps o) (s_Home spec)) (inr true)).

Lemma apply_and_verify_run spec existing res cancelled home h res' h' :
  apply_and_verify o spec existing res cancelled home h = ((res', None), h') →
  answered (bk_lookup (deps o) (s_Name spec) false) (inr (Account res')) ∧
  compareFor (platform o) spec (Account res') = [] ∧
  (home = true → answered (bk_homeExists (deps o) (s_Home spec)) (inr true)) ∧
  answered (bk_apply (deps o) spec existing) (Changed res', None).
Proof.
  unfold apply_and_verify. intros E. inv_run E. destruct r as [e|]; [done|].
  inv_run E. destruct r as [completed err]. destruct err as [e|]; [done|].
  inv_run E. destruct r as [e|r]; [done|]. cbn zeta in E.
  destruct (compareFor (platform o) spec r) as [|c l] eqn:Ec; [|done].
  assert (answered (bk_apply (deps o) spec existing) (completed, None)) as Ha by (by do 2 eexists).
  assert (answered (bk_lookup (deps o) (s_Name spec) false) (inr r)) as Hl by (by do 2 eexists).
  destruct home; cbn [negb] in E.
  - inv_run E. destruct r0 as [e|b]; [done|]. destruct b; [|done]. injection E as <- <-.
    split_and!; try done. by do 2 eexists.
  - injection E as <- <-. by split_and!.
Qed.

(** C28: what a successful operation has checked.  When [Ensure] returns
    without an error, the specification was valid, the account that it reports
    was read from the system, agrees with the specification, and the home
    directory was seen when there is a policy for it; the changes reported are
    those that the backend completed, or none if nothing had to be done. *)
Theorem Ensure_verified spec h res h' :
  Ensure o spec h = ((res, None), h') →
  validate spec = None ∧ IsUnix (platform o) = true ∧ verified spec (Account res) ∧
  (Changed res = [] ∨ ∃ existing, answered (bk_apply (deps o) spec existing) (Changed res, None)).
Proof.
  unfold Ensure, run. intros E. inv_run E. destruct r as [e|]; [done|].
  destruct (validate spec) as [e|] eqn:Ev; [done|]. split; [done|].
  destruct (IsUnix (platform o)); [|done]. split; [done|]. cbn [negb] in E.
  inv_run E. destruct r as [e|r].
  - destruct (AsNotFound e); [|done]. cbn [negb] in E. unfold run_create in E.
    destruct (String.eqb _ _); [done|]. inv_run E. destruct r as [e'|]; [done|].
    destruct (root o); [|done]. apply apply_and_verify_run in E as (Hl & Hc & Hh & Ha).
    split; [|right; by eexists]. split_and!; [done|done|]. intros Hne. apply Hh.
    by apply negb_true_iff, Z.eqb_neq.
  - unfold run_existing in E. inv_run E. destruct r0 as [e|]; [done|].
    apply bind_run in E as (rh & hh & Ehome & E). destruct rh as [e|home]; [done|].
    destruct (compareFor (platform o) spec r ++ home) as [|c l] eqn:Ec.
    + injection E as <- <-. cbn. split; [|by left]. apply app_nil in Ec as [Hc ->].
      split_and!; [by do 2 eexists|done|]. intros Hne. unfold home_changes in Ehome.
      rewrite (proj2 (Z.eqb_neq _ _) Hne) in Ehome. apply bind_run in Ehome as (rb & hb & Eb & Ehome).
      destruct rb as [e|[]]; [done| |done]. by do 2 eexists.
    + destruct (_ || _) eqn:Ep; [done|]. apply orb_false_iff in Ep as [_ Hreq].
      destruct (root o); [|done]. cbn [negb] in E.
      apply apply_and_verify_run in E as (Hl & Hcmp & Hh & Ha). split; [|right; by eexists].
      split_and!; [done|done|]. intros Hne. apply Hh. apply Z.eqb_eq. apply Z.eqb_neq in Hreq.
      unfold validate, LeaveHomeUnchanged, RequireHome, EnsureHome in *.
      repeat (case_match; try done). bool_simpl.
      repeat match goal with X : context [?a =? ?b] |- _ => destruct (Z.eqb_spec a b); try done end.
Qed.
End operation.

(** ** Which operations leave the system alone *)

(** The calls that change nothing: lookups, inspections and the commands that
    print. *)
Definition prints (name : string) (args : list string) : bool :=
  match args with
  | ["--help"] | ["-help"] => true
  | "." :: "-read" :: _ | "." :: "-list" :: _ => String.eqb name "dscl"
  | _ => String.eqb name "getent"
  end.
Definition reading (c : call) : Prop :=
  match c with
  | Command name args => prints name args = true
  | Mkdir _ _ | Chown _ _ _ | Chmod _ _ => False
  | _ => True
  end.

Section reads.
Context `{AccountHost}.

Lemma emits_commandOutput name args : prints name args = true → emits reading (commandOutput name args).
Proof.
  intros Hp. unfold commandOutput, run_output, ctx_Err. apply emits_bind; [by apply emits_perform|].
  intros [out [e|]]; go_emits. done.
Qed.
#[local] Hint Extern 0 (emits reading (commandOutput _ _)) => apply emits_commandOutput; done : emits.

Lemma emits_homeExists path : emits reading (homeExists path).
Proof. unfold homeExists, ctx_Err, os_Stat. by go_emits. Qed.

Lemma emits_find_account key byID : emits reading (find_account key byID).
Proof.
  unfold find_account, find_user, one_group, ctx_Err, user_LookupId, user_Lookup, user_LookupGroupId, user_GroupIds.
  by go_emits.
Qed.
#[local] Hint Resolve emits_find_account emits_homeExists : emits.

(** What a backend promises about the procedures that only look. *)
Record looking_backend (b : backend) : Prop := {
  looks_lookup key byID : emits reading (bk_lookup b key byID);
  looks_homeExists path : emits reading (bk_homeExists b path);
  looks_preflight s modifying : emits reading (bk_preflight b s modifying);
}.

Lemma linux_looking : looking_backend LinuxBackend.linuxBackend.
Proof.
  constructor; intros; cbn.
  - unfold LinuxBackend.lookup. go_emits.
  - go_emits.
  - unfold LinuxBackend.preflight, LinuxBackend.checkCapabilities, LinuxBackend.capabilities. go_emits.
Qed.

Lemma darwin_looking : looking_backend DarwinBackend.darwinBackend.
Proof.
  constructor; intros; cbn.
  - unfold DarwinBackend.lookup. go_emits.
  - go_emits.
  - unfold DarwinBackend.preflight. go_emits.
Qed.
#[local] Hint Resolve looks_lookup looks_homeExists looks_preflight : emits.

Lemma run_looks o spec apply :
  looking_backend (deps o) → apply = false ∨ root o = false → emits reading (run o spec apply).
Proof.
  intros Hb Ha. unfold run, run_create, run_existing, home_changes, ctx_Err.
  go_emits; try done; bool_simpl; destruct Ha; congruence.
Qed.

Lemma platform_looking p : looking_backend (platformBackend p).
Proof.
  unfold platformBackend. repeat case_match; [apply linux_looking|apply darwin_looking|].
  constructor; intros; apply emits_ret.
Qed.

(** C29: checking changes nothing.  Whatever the system answers, [Check], and
    [Ensure] without root, make no call on any platform but lookups, inspections
    and commands that print: no account, group or file is touched. *)
Theorem unapplied_reads p is_root spec apply :
  apply = false ∨ is_root = false →
  emits reading (run (productionDeps p is_root) spec apply).
Proof. intros Ha. apply run_looks; [apply platform_looking|done]. Qed.
End reads.

(** * The platform backends of [account]: commands and identifiers

    The options that the Linux backend passes and those that it has looked for,
    the identifiers that macOS accounts get, and the group commands that make
    the membership the declared one. *)
(** ** macOS: identifiers *)
Section ids.
Import DarwinBackend.
Implicit Types (used : list Z) (id : Z).

Definition least_free used start (r : option Z) : Prop :=
  match r with
  | Some id => start ≤ id < id_limit ∧ id ∉ used ∧ ∀ j, start ≤ j < id → j ∈ used
  | None => ∀ j, start ≤ j < id_limit → j ∈ used
  end.

(** More consecutive numbers than the list has elements are not all in it. *)
Lemma pigeonhole used start n :
  (∀ j, start ≤ j < start + Z.of_nat n → j ∈ used) → (n ≤ length used)%nat.
Proof.
  intros Hin. pose proof (length_seqZ start (Z.of_nat n)) as Hl. rewrite Nat2Z.id in Hl. rewrite <- Hl.
  apply submseteq_length, NoDup_submseteq; [apply NoDup_seqZ|].
  intros j. rewrite elem_of_seqZ. apply Hin.
Qed.

Lemma free_id_least fuel used start id :
  (length used < fuel + Z.to_nat (id - start))%nat → start ≤ id ≤ id_limit →
  (∀ j, start ≤ j < id → j ∈ used) →
  least_free used start (free_id fuel used id).
Proof.
  revert id. induction fuel as [|fuel IH]; intros id Hf Hid Hbelow; cbn [free_id].
  { exfalso. pose proof (pigeonhole used start (Z.to_nat (id - start))) as Hp.
    rewrite Z2Nat.id in Hp by lia. specialize (Hp ltac:(intros j Hj; apply Hbelow; lia)). lia. }
  destruct (Z.leb_spec id_limit id).
  { intros j Hj. apply Hbelow. lia. }
  destruct (existsb _ _) eqn:Eu.
  - apply IH; [lia|lia|]. intros j Hj. destruct (decide (j = id)) as [->|]; [|apply Hbelow; lia].
    apply existsb_exists in Eu as (x & Hx & ->%Z.eqb_eq). by apply list_elem_of_In.
  - split_and!; [lia|lia| |done]. intros Hin. rewrite <- not_true_iff_false in Eu. apply Eu, existsb_exists.
    exists id. split; [by apply list_elem_of_In|apply Z.eqb_refl].
Qed.

Context `{AccountHost}.

(** A new macOS account or group gets the least local identifier from 500
    on that no line of the listing ends with, below the limit of 32-bit
    identifiers; the search ends without one only when all of them are used. *)
Theorem allocateID_least node attribute capability out h h' :
  commandOutput "dscl" ["."; "-list"; node; attribute] h = (inr out, h') →
  ∃ r, allocateID node attribute capability h =
         (match r with Some id => inr id | None => inl (UnsupportedError capability) end, h') ∧
       least_free (used_ids out) 500 r.
Proof.
  intros E. exists (free_id (S (length (used_ids out))) (used_ids out) 500). split.
  - unfold allocateID, mbind, stm_bind. by rewrite E.
  - apply free_id_least; [lia|by vm_compute|]. lia.
Qed.
End ids.

(** ** macOS: supplementary groups *)
Section members.
Import DarwinBackend.
Context `{AccountHost}.

Lemma commandOutput_ok name args out h h' :
  commandOutput name args h = (inr out, h') → h' = h ++ [Command name args].
Proof.
  unfold commandOutput. intros E. inv_run E. destruct r as [o' e].
  unfold run_output, perform in E0. injection E0 as _ <-. destruct e as [e|].
  - inv_run E. by destruct r.
  - by injection E as _ <-.
Qed.

Lemma runCommand_ok name args h h' :
  runCommand name args h = (None, h') → h' = h ++ [Command name args].
Proof.
  unfold runCommand. intros E. inv_run E. destruct r as [e|out]; [done|]. injection E as <-.
  by eapply commandOutput_ok.
Qed.

Lemma edit_groups_ok s flag l h h' :
  edit_groups s flag l h = (None, h') → h' = h ++ map (λ g, Command "dseditgroup" (edit_args s flag g)) l.
Proof.
  unfold edit_groups. intros E. inv_run E. destruct r as [e|u]; [done|]. injection E as <-.
  revert h E0. induction l as [|g l IH]; intros h E; cbn [for_each map] in *.
  - injection E as _ <-. by rewrite app_nil_r.
  - inv_run E. inv_run E0. destruct r0 as [e|]; injection E0 as <- <-; [done|].
    apply runCommand_ok in E1 as ->. apply IH in E as ->. by rewrite <- app_assoc.
Qed.

Lemma elem_of_added want have g : g ∈ added want have ↔ g ∈ want ∧ g ∉ have.
Proof.
  unfold added. rewrite list_elem_of_filter. unfold contains. split.
  - intros [Hn Hin]. split; [done|]. intros Hh. apply negb_prop_elim in Hn. apply Hn, Is_true_true, existsb_exists.
    exists g. split; [by apply list_elem_of_In|apply String.eqb_refl].
  - intros [Hin Hn]. split; [|done]. apply negb_prop_intro. intros Hc. apply Hn.
    apply Is_true_true, existsb_exists in Hc as (x & Hx & ->%String.eqb_eq). by apply list_elem_of_In.
Qed.

(** After the attributes, a successful macOS reconciliation adds the user
    to the declared groups it is not in and removes it from the groups it is in
    that are not declared, one command each; so the membership becomes exactly
    the declared one, and no group is both added and removed. *)
Theorem modify_memberships s existing l h h' :
  modify s existing h = (None, h') → s_Groups s = Some l →
  ∃ h1 adds dels,
    setAttributes s h = (None, h1) ∧
    h' = h1 ++ map (λ g, Command "dseditgroup" (edit_args s "-a" g)) adds
            ++ map (λ g, Command "dseditgroup" (edit_args s "-d" g)) dels ∧
    (list_to_set (Groups existing) ∪ list_to_set adds) ∖ list_to_set dels =@{gset string} list_to_set l ∧
    list_to_set adds ## (list_to_set (Groups existing) ∪ list_to_set dels : gset string).
Proof.
  unfold modify. intros E El. inv_run E. destruct r as [e|]; [done|]. rewrite El in E.
  inv_run E. destruct r as [e|]; [done|].
  apply edit_groups_ok in E1 as ->. apply edit_groups_ok in E as ->.
  exists h0, (added l (Groups existing)), (added (Groups existing) l). rewrite <- app_assoc.
  split_and!; [done|done| |].
  - apply set_eq. intros g. rewrite elem_of_difference, elem_of_union, !elem_of_list_to_set, !elem_of_added.
    destruct (decide (g ∈ Groups existing)), (decide (g ∈ l)); naive_solver.
  - intros g. rewrite elem_of_union, !elem_of_list_to_set, !elem_of_added. naive_solver.
Qed.
End members.

(** ** Linux: options *)
Section options.
Import LinuxBackend.

Definition options (args : list string) : list string := filter (λ a, HasPrefix a "--") args.
Definition no_dash (v : string) : Prop := HasPrefix v "-" = false.

Lemma no_dash_option v : no_dash v → HasPrefix v "--" = false.
Proof.
  unfold no_dash. destruct v as [|c v]; [done|]. cbn [HasPrefix]. by destruct (Ascii.eqb "-" c).
Qed.
Lemma options_app a b : options (a ++ b) = options a ++ options b.
Proof. apply filter_app. Qed.
Lemma options_value v l : no_dash v → options (v :: l) = options l.
Proof. intros Hv%no_dash_option. unfold options. rewrite filter_cons_False; [done|]. rewrite Hv. intros []. Qed.
Lemma options_flag v l : HasPrefix v "--" = true → options (v :: l) = v :: options l.
Proof. intros Hv. unfold options. rewrite filter_cons_True; [done|]. by rewrite Hv. Qed.

Lemma no_dash_Itoa z : 0 ≤ z → no_dash (Itoa z).
Proof.
  intros Hz. unfold Itoa. rewrite <- (Z2N.id z) by done.
  assert (pretty (Z.of_N (Z.to_N z)) = pretty (Z.to_N z)) as -> by (by destruct (Z.to_N z)).
  destruct (pretty_N_head (Z.to_N z)) as (c & t & -> & Hc). unfold no_dash. cbn [HasPrefix].
  by destruct (Ascii.eqb_spec "-" c) as [<-|].
Qed.
Lemma no_dash_local v : validLocalName v = true → no_dash v.
Proof. unfold validLocalName. intros E. by bool_simpl. Qed.
Lemma no_dash_Join l : Forall (λ g, validLocalName g = true) l → no_dash (Join l ",").
Proof.
  destruct l as [|g l]; [done|]. intros [Hg _]%Forall_cons. apply no_dash_local in Hg as Hd.
  destruct g as [|c g]; [done|]. by destruct l.
Qed.

(** The values that [validate] does not look at. *)
Definition plain_values (s : Spec) : Prop := no_dash (s_Group s) ∧ no_dash (s_Home s) ∧ no_dash (s_Shell s).

Lemma validate_values s : validate s = None →
  no_dash (s_Name s) ∧ (∀ u, s_UID s = Some u → 0 ≤ u) ∧
  (∀ l, s_Groups s = Some l → Forall (λ g, validLocalName g = true) l).
Proof.
  unfold validate. intros Hv. repeat (case_match; try done). bool_simpl. split_and!.
  - by apply no_dash_local.
  - intros u Hu. rewrite Hu in *. cbn in *. lia.
  - intros l Hl. rewrite Hl in *. by eapply check_groups_valid.
Qed.

Definition flag_when (b : bool) (flag : string) : list string := if b then [flag] else [].
Definition nonblank (v : string) : bool := negb (String.eqb v "").

Lemma option_args_flag {A} (v : option A) flag (show : A → string) :
  HasPrefix flag "--" = true → (∀ a, v = Some a → no_dash (show a)) →
  options (option_args v (λ a, [flag; show a])) = flag_when (given v) flag.
Proof.
  intros Hf Hs. destruct v as [a|]; [|done]. cbn [option_args given flag_when].
  rewrite options_flag, options_value by auto. done.
Qed.
Lemma when_args_flag b flag v :
  HasPrefix flag "--" = true → no_dash v → options (when_args b [flag; v]) = flag_when b flag.
Proof.
  intros Hf Hs. destruct b; [|done]. cbn [when_args flag_when]. rewrite options_flag, options_value by auto. done.
Qed.

Lemma create_options s : validate s = None → plain_values s →
  options (create_args s) = flag_when (given (s_UID s)) "--uid" ++ ["--gid"]
    ++ flag_when (nonblank (s_Home s)) "--home-dir"
    ++ [if s_HomePolicy s =? EnsureHome then "--create-home" else "--no-create-home"]
    ++ flag_when (nonblank (s_Shell s)) "--shell" ++ flag_when (given (s_Groups s)) "--groups".
Proof.
  intros (Hn & Hu & Hg)%validate_values (Hgr & Hh & Hs). unfold create_args. rewrite !options_app.
  rewrite (option_args_flag (s_UID s)), (option_args_flag (s_Groups s)), !when_args_flag
    by (auto using no_dash_Itoa, no_dash_Join).
  rewrite (options_flag "--gid"), (options_value (s_Group s)), (options_value (s_Name s)) by auto.
  rewrite (options_flag (if s_HomePolicy s =? EnsureHome then "--create-home" else "--no-create-home")) by (by case_match).
  cbn [options]. by rewrite !app_nil_r.
Qed.

Lemma modify_options s : validate s = None → plain_values s →
  options (modify_args s ++ [s_Name s]) = flag_when (given (s_UID s)) "--uid"
    ++ flag_when (nonblank (s_Group s)) "--gid"
    ++ flag_when (negb (s_HomePolicy s =? LeaveHomeUnchanged)) "--home"
    ++ flag_when (nonblank (s_Shell s)) "--shell" ++ flag_when (given (s_Groups s)) "--groups".
Proof.
  intros (Hn & Hu & Hg)%validate_values (Hgr & Hh & Hs). unfold modify_args. rewrite !options_app.
  rewrite (option_args_flag (s_UID s)), (option_args_flag (s_Groups s)), !when_args_flag
    by (auto using no_dash_Itoa, no_dash_Join).
  rewrite (options_value (s_Name s)) by auto. cbn [options]. rewrite !app_nil_r. by rewrite <- ?app_assoc.
Qed.

(** The options that are passed without having been looked for. *)
Definition unchecked (s : Spec) (modifying : bool) : list string :=
  filter (λ f, f ∉ needed s modifying) (options (if modifying then modify_args s ++ [s_Name s] else create_args s)).

(** The options that the Linux backend passes are looked for in the help
    text of the command before anything is changed, with two exceptions: when an
    account is created with a home directory that is only required to exist,
    [--no-create-home] is not looked for, and when it is created with the home
    directory left alone but named, [--home-dir] is not.  No option for an
    existing account is passed unchecked. *)
Theorem unchecked_options s modifying :
  validate s = None → plain_values s →
  unchecked s modifying =
    if modifying then [] else
    flag_when ((s_HomePolicy s =? LeaveHomeUnchanged) && nonblank (s_Home s)) "--home-dir"
    ++ flag_when (s_HomePolicy s =? RequireHome) "--no-create-home".
Proof.
  intros Hv Hp. unfold unchecked.
  assert (s_HomePolicy s = LeaveHomeUnchanged ∨ s_HomePolicy s = RequireHome ∨ s_HomePolicy s = EnsureHome) as Hpol.
  { clear Hp. unfold validate, LeaveHomeUnchanged, RequireHome, EnsureHome in *. repeat (case_match; try done).
    bool_simpl. repeat match goal with X : context [?a =? ?b] |- _ => destruct (Z.eqb_spec a b); try done end; auto. }
  destruct modifying; [rewrite modify_options by done|rewrite create_options by done];
    unfold needed; unfold nonblank;
    destruct (given (s_UID s)), (given (s_Groups s)), (String.eqb (s_Home s) ""), (String.eqb (s_Group s) ""),
      (String.eqb (s_Shell s) ""), Hpol as [-> | [-> | ->]]; by vm_compute.
Qed.
End options.
