(* ===== verification/Service.v ===== *)
(** * [base64.RawURLEncoding]

    The URL alphabet without padding: three bytes are four digits, and a last
    group of two or three digits stands for one or two bytes. *)
From S2P Require Import Prelude.
From S2P Require Import GoStrings.
From S2P Require Import GoPath.
From S2P Require Import Utf8.
From S2P Require Import Errors.
From S2P Require Account.
#[local] Open Scope stdpp_scope.
#[local] Open Scope Z_scope.

(** The digit of a number below 64. *)
Definition b64_digit (z : Z) : ascii :=
  if z <? 26 then chr (65 + z)
  else if z <? 52 then chr (97 + (z - 26))
  else if z <? 62 then chr (48 + (z - 52))
  else if z =? 62 then "-" else "_".

Definition b64_value (c : ascii) : option Z :=
  let z := ord c in
  if (65 <=? z) && (z <=? 90) then Some (z - 65)
  else if (97 <=? z) && (z <=? 122) then Some (z - 97 + 26)
  else if (48 <=? z) && (z <=? 57) then Some (z - 48 + 52)
  else if z =? 45 then Some 62
  else if z =? 95 then Some 63 else None.

Definition dig (z : Z) : ascii := b64_digit (Z.land z 63).

Fixpoint b64_encode (l : list ascii) : list ascii :=
  match l with
  | a :: b :: c :: l' =>
      let v := ord a * 65536 + ord b * 256 + ord c in
      dig (Z.shiftr v 18) :: dig (Z.shiftr v 12) :: dig (Z.shiftr v 6) :: dig v :: b64_encode l'
  | [a; b] =>
      let v := ord a * 65536 + ord b * 256 in
      [dig (Z.shiftr v 18); dig (Z.shiftr v 12); dig (Z.shiftr v 6)]
  | [a] => let v := ord a * 65536 in [dig (Z.shiftr v 18); dig (Z.shiftr v 12)]
  | [] => []
  end.

Definition byte_of (z : Z) : ascii := chr (Z.land z 255).

(** The trailing bits of a last group are not looked at. *)
Fixpoint b64_decode (l : list Z) : option (list ascii) :=
  match l with
  | a :: b :: c :: d :: l' =>
      let v := a * 262144 + b * 4096 + c * 64 + d in
      rest ← b64_decode l';
      Some (byte_of (Z.shiftr v 16) :: byte_of (Z.shiftr v 8) :: byte_of v :: rest)
  | [a; b; c] =>
      let v := a * 262144 + b * 4096 + c * 64 in Some [byte_of (Z.shiftr v 16); byte_of (Z.shiftr v 8)]
  | [a; b] => let v := a * 262144 + b * 4096 in Some [byte_of (Z.shiftr v 16)]
  | [_] => None
  | [] => Some []
  end.

Definition EncodeToString (s : string) : string := unchars (b64_encode (chars s)).

(** [DecodeString]: line ends are skipped, another byte is an error. *)
Definition DecodeString (s : string) : option string :=
  digits ← mapM b64_value (filter (λ c, ord c ≠ 10 ∧ ord c ≠ 13) (chars s));
  unchars <$> b64_decode digits.

(** ** What was encoded is decoded *)

Lemma b64_value_digit z : 0 ≤ z < 64 → b64_value (b64_digit z) = Some z.
Proof.
  intros Hz. assert (z ∈ seqZ 0 64) as Hin by (apply elem_of_seqZ; lia). clear Hz. revert z Hin.
  apply Forall_forall. apply (bool_decide_unpack _). by vm_compute.
Qed.

Lemma digit_no_break z : 0 ≤ z < 64 → ord (b64_digit z) ∉ [10; 13; 32].
Proof.
  intros Hz. assert (z ∈ seqZ 0 64) as Hin by (apply elem_of_seqZ; lia). clear Hz. revert z Hin.
  apply Forall_forall. apply (bool_decide_unpack _). by vm_compute.
Qed.

Lemma land_63 z : Z.land z 63 = z mod 64.
Proof. change 63 with (Z.ones 6). by rewrite Z.land_ones. Qed.
Lemma land_255 z : Z.land z 255 = z mod 256.
Proof. change 255 with (Z.ones 8). by rewrite Z.land_ones. Qed.

Lemma dig_no_break z : ord (dig z) ∉ [10; 13; 32].
Proof. apply digit_no_break. rewrite land_63. apply Z.mod_pos_bound. lia. Qed.

(** Three steps of induction at once. *)
Lemma three_ind {A} (P : list A → Prop) :
  P [] → (∀ a, P [a]) → (∀ a b, P [a; b]) → (∀ a b c l, P l → P (a :: b :: c :: l)) → ∀ l, P l.
Proof.
  intros H0 H1 H2 H3. fix IH 1. intros [|a [|b [|c l]]]; [done|apply H1|apply H2|]. apply H3, IH.
Qed.

Lemma b64_encode_breaks l : Forall (λ c, ord c ∉ [10; 13; 32]) (b64_encode l).
Proof.
  induction l using three_ind; cbn [b64_encode]; repeat constructor; auto using dig_no_break.
Qed.

Lemma dig_value z : b64_value (dig z) = Some (z mod 64).
Proof.
  unfold dig. rewrite land_63, b64_value_digit; [done|]. apply Z.mod_pos_bound. lia.
Qed.

Ltac b64_arith :=
  unfold byte_of; rewrite ?land_255, ?Z.shiftr_div_pow2 by lia;
  repeat match goal with |- context [ord ?a] => pose proof (ord_bounds a); generalize dependent (ord a); intros end;
  Z.div_mod_to_equations; lia.

Lemma b64_roundtrip l :
  ∃ digits, mapM b64_value (b64_encode l) = Some digits ∧ b64_decode digits = Some l.
Proof.
  assert (∀ z a, z = ord a → byte_of z = a) as Hb.
  { intros z a ->. unfold byte_of. rewrite land_255, Z.mod_small by apply ord_bounds. apply chr_ord. }
  assert (∀ z w, z mod 256 = w mod 256 → byte_of z = byte_of w) as Hm.
  { intros z w E. unfold byte_of. by rewrite !land_255, E. }
  assert (∀ z a, z mod 256 = ord a → byte_of z = a) as Hc.
  { intros z a E. rewrite (Hm z (ord a)) by (by rewrite E, Z.mod_small by apply ord_bounds). by apply Hb. }
  induction l as [|a|a b|a b c l (ds & E & D)] using three_ind.
  - by exists [].
  - eexists. split; [cbn [b64_encode mapM]; rewrite !dig_value; reflexivity|].
    cbn -[Z.mul Z.add Z.modulo Z.shiftr byte_of]. do 2 f_equal. apply Hc. b64_arith.
  - eexists. split; [cbn [b64_encode mapM]; rewrite !dig_value; reflexivity|].
    cbn -[Z.mul Z.add Z.modulo Z.shiftr byte_of]. do 2 f_equal; [|f_equal]; apply Hc; b64_arith.
  - eexists. split; [cbn [b64_encode mapM]; rewrite !dig_value, E; reflexivity|].
    cbn -[Z.mul Z.add Z.modulo Z.shiftr byte_of]. rewrite D. cbn -[Z.mul Z.add Z.modulo Z.shiftr byte_of].
    do 2 f_equal; [|f_equal; [|f_equal]]; apply Hc; b64_arith.
Qed.

Lemma DecodeString_EncodeToString s : DecodeString (EncodeToString s) = Some s.
Proof.
  unfold DecodeString, EncodeToString. rewrite chars_unchars.
  assert (∀ l, Forall (λ c, ord c ∉ [10; 13; 32]) l → filter (λ c, ord c ≠ 10 ∧ ord c ≠ 13) l = l) as Hf.
  { induction 1 as [|c l Hc Hl IH]; [done|]. rewrite filter_cons_True, IH; [done|]. set_solver. }
  rewrite Hf by apply b64_encode_breaks. destruct (b64_roundtrip (chars s)) as (ds & -> & D).
  cbn. rewrite D. cbn. by rewrite unchars_chars.
Qed.

(** The text ends before the first line end or space. *)
Lemma EncodeToString_breaks s c : c ∈ chars (EncodeToString s) → ord c ∉ [10; 13; 32].
Proof.
  unfold EncodeToString. rewrite chars_unchars. revert c. apply Forall_forall, b64_encode_breaks.
Qed.

Example encode_examples : map EncodeToString ["Man"; "Ma"; "M"; ""] = ["TWFu"; "TWE"; "TQ"; ""].
Proof. by vm_compute. Qed.

(** * Package [service]: specifications

    [service.go] and [errors.go]: the options, the specification they make, its
    validation, the metadata that a definition carries, and the reasons for a
    change that are read off it. *)
(** ** Data *)

Abbreviation Scope_ := Z (only parsing).
Definition User : Scope_ := 0.
Definition System : Scope_ := 1.
Abbreviation RestartPolicy := Z (only parsing).
Definition RestartNever : RestartPolicy := 0.
Definition RestartOnFailure : RestartPolicy := 1.
Definition RestartAlways : RestartPolicy := 2.

Inductive ChangeReason :=
  | Missing | BinaryChanged | ArgumentsChanged | EnvironmentChanged | LogsChanged
  | RevisionChanged | DefinitionDrift | AccountChanged | DirectoriesChanged.
#[global] Instance ChangeReason_eq_dec : EqDecision ChangeReason.
Proof. solve_decision. Defined.

(** errors.go, with what [errx.New] and [fmt.Errorf] return, the errors of the
    account package and those of the host. *)
Inductive error :=
  | ValidationError (Message : string)
  | PrivilegeError (Capability : string)
  | UnsupportedError (Capability : string) (Cause : option error)
  | ErrxError (Message : string) (Cause : list error)
  | WrappedError (Message : string) (Cause : error)
  | AccountError (e : Account.error)
  | Sys (e : sys_error).

(** [errors.Is] with an error of the host. *)
Fixpoint Is (target : sys_error) (e : error) : bool :=
  match e with
  | Sys s => bool_decide (s = target)
  | ErrxError _ l => existsb (Is target) l
  | WrappedError _ c | UnsupportedError _ (Some c) => Is target c
  | AccountError a => Account.As (λ x, match x with Account.Sys s => bool_decide (s = target) | _ => false end) a
  | _ => false
  end.

(** Absent directories and maps are [None]; a directory that is declared
    without a name is [Some ""]. *)
Record specification := {
  sp_name : string;
  sp_description : string;
  sp_binary : string;
  sp_stdout : string;
  sp_stderr : string;
  sp_revision : string;
  sp_args : list string;
  sp_env : option (gmap string string);
  sp_scope : Scope_;
  sp_restart : RestartPolicy;
  sp_account : option Account.Spec;
  sp_runtimeDir : option string;
  sp_configDir : option string;
  sp_stateDir : option string;
  sp_logDir : option string;
  sp_configWritable : bool;
  sp_configReadDeclared : bool;
  sp_stdoutLog : option string;
  sp_stderrLog : option string;
}.

(** Update of one field, the others kept. *)
Definition set_name v s := {| sp_name := v; sp_description := sp_description s; sp_binary := sp_binary s;
  sp_stdout := sp_stdout s; sp_stderr := sp_stderr s; sp_revision := sp_revision s; sp_args := sp_args s;
  sp_env := sp_env s; sp_scope := sp_scope s; sp_restart := sp_restart s; sp_account := sp_account s;
  sp_runtimeDir := sp_runtimeDir s; sp_configDir := sp_configDir s; sp_stateDir := sp_stateDir s;
  sp_logDir := sp_logDir s; sp_configWritable := sp_configWritable s;
  sp_configReadDeclared := sp_configReadDeclared s; sp_stdoutLog := sp_stdoutLog s; sp_stderrLog := sp_stderrLog s |}.
Definition set_text description binary revision s := {| sp_name := sp_name s; sp_description := description;
  sp_binary := binary; sp_stdout := sp_stdout s; sp_stderr := sp_stderr s; sp_revision := revision;
  sp_args := sp_args s; sp_env := sp_env s; sp_scope := sp_scope s; sp_restart := sp_restart s;
  sp_account := sp_account s; sp_runtimeDir := sp_runtimeDir s; sp_configDir := sp_configDir s;
  sp_stateDir := sp_stateDir s; sp_logDir := sp_logDir s; sp_configWritable := sp_configWritable s;
  sp_configReadDeclared := sp_configReadDeclared s; sp_stdoutLog := sp_stdoutLog s; sp_stderrLog := sp_stderrLog s |}.
Definition set_run args env scope restart account s := {| sp_name := sp_name s;
  sp_description := sp_description s; sp_binary := sp_binary s; sp_stdout := sp_stdout s;
  sp_stderr := sp_stderr s; sp_revision := sp_revision s; sp_args := args; sp_env := env; sp_scope := scope;
  sp_restart := restart; sp_account := account; sp_runtimeDir := sp_runtimeDir s;
  sp_configDir := sp_configDir s; sp_stateDir := sp_stateDir s; sp_logDir := sp_logDir s;
  sp_configWritable := sp_configWritable s; sp_configReadDeclared := sp_configReadDeclared s;
  sp_stdoutLog := sp_stdoutLog s; sp_stderrLog := sp_stderrLog s |}.
Definition set_dirs runtime config state log s := {| sp_name := sp_name s; sp_description := sp_description s;
  sp_binary := sp_binary s; sp_stdout := sp_stdout s; sp_stderr := sp_stderr s; sp_revision := sp_revision s;
  sp_args := sp_args s; sp_env := sp_env s; sp_scope := sp_scope s; sp_restart := sp_restart s;
  sp_account := sp_account s; sp_runtimeDir := runtime; sp_configDir := config; sp_stateDir := state;
  sp_logDir := log; sp_configWritable := sp_configWritable s;
  sp_configReadDeclared := sp_configReadDeclared s; sp_stdoutLog := sp_stdoutLog s; sp_stderrLog := sp_stderrLog s |}.
Definition set_flags writable read out err s := {| sp_name := sp_name s; sp_description := sp_description s;
  sp_binary := sp_binary s; sp_stdout := sp_stdout s; sp_stderr := sp_stderr s; sp_revision := sp_revision s;
  sp_args := sp_args s; sp_env := sp_env s; sp_scope := sp_scope s; sp_restart := sp_restart s;
  sp_account := sp_account s; sp_runtimeDir := sp_runtimeDir s; sp_configDir := sp_configDir s;
  sp_stateDir := sp_stateDir s; sp_logDir := sp_logDir s; sp_configWritable := writable;
  sp_configReadDeclared := read; sp_stdoutLog := out; sp_stderrLog := err |}.
Definition set_streams stdout stderr s := {| sp_name := sp_name s; sp_description := sp_description s;
  sp_binary := sp_binary s; sp_stdout := stdout; sp_stderr := stderr; sp_revision := sp_revision s;
  sp_args := sp_args s; sp_env := sp_env s; sp_scope := sp_scope s; sp_restart := sp_restart s;
  sp_account := sp_account s; sp_runtimeDir := sp_runtimeDir s; sp_configDir := sp_configDir s;
  sp_stateDir := sp_stateDir s; sp_logDir := sp_logDir s; sp_configWritable := sp_configWritable s;
  sp_configReadDeclared := sp_configReadDeclared s; sp_stdoutLog := sp_stdoutLog s; sp_stderrLog := sp_stderrLog s |}.

Definition empty_spec : specification := {| sp_name := ""; sp_description := ""; sp_binary := "";
  sp_stdout := ""; sp_stderr := ""; sp_revision := ""; sp_args := []; sp_env := None; sp_scope := User;
  sp_restart := RestartNever; sp_account := None; sp_runtimeDir := None; sp_configDir := None;
  sp_stateDir := None; sp_logDir := None; sp_configWritable := false; sp_configReadDeclared := false;
  sp_stdoutLog := None; sp_stderrLog := None |}.

(** ** Checks of names *)

Definition dir_bad : string := unchars (map chr [92; 0; 13; 10; 9]).
Definition validRelativeDirectory (v : string) : bool :=
  if String.eqb v "" || IsAbs v || negb (String.eqb (Clean v) v) || ContainsAny v dir_bad then false
  else forallb (λ part, negb (String.eqb part "" || String.eqb part "." || String.eqb part "..")) (Split v "/").

Definition file_bad : string := unchars (map chr [47; 92; 0; 13; 10; 9]).
Definition validLogFilename (v : string) : bool :=
  negb (String.eqb v "") && String.eqb (Base v) v && String.eqb (Clean v) v && negb (ContainsAny v file_bad)
  && negb (String.eqb v ".") && negb (String.eqb v "..").

Definition name_rune (r : Z) : bool :=
  (r =? 46) || (r =? 45) || (r =? 95) || (r =? 58) || is_letter_ascii r || is_digit_ascii r.
Definition validServiceName (v : string) : bool :=
  if String.eqb v "" || String.eqb v "." || String.eqb v ".." || HasPrefix v "-" then false
  else forallb name_rune (runes v).

(** The first rune of a variable is no digit. *)
Definition env_start (r : Z) : bool := (r =? 95) || is_letter_ascii r.
Definition env_rune (r : Z) : bool := env_start r || is_digit_ascii r.
Definition validEnv (v : string) : bool :=
  match runes v with
  | [] => false
  | r :: rest => env_start r && forallb env_rune rest
  end.

(** ** Options *)

(** Options are functions on an unexported type, so these are all of them and
    [nil]. *)
Inductive Opt :=
  | NilOption
  | WithName (v : string)
  | WithDescription (v : string)
  | WithBinary (v : string)
  | WithArgs (v : list string)
  | WithEnvironment (v : option (gmap string string))
  | WithScope (v : Scope_)
  | WithRestartPolicy (v : RestartPolicy)
  | WithAccount (v : Account.Spec)
  | WithRuntimeDir (v : list string)
  | WithConfigDir (v : list string)
  | WithConfigDirWrite (v : list string)
  | WithStateDir (v : list string)
  | WithLogDir (v : list string)
  | WithStdoutLog (v : list string)
  | WithStderrLog (v : list string)
  | WithRevision (v : string).

Definition setDirectory (label : string) (values : list string) : error + string :=
  match values with
  | [] => inr ""
  | [v] => if negb (validRelativeDirectory v) then inl (ValidationError ("invalid " +:+ label)) else inr v
  | _ => inl (ValidationError (label +:+ " accepts at most one name"))
  end.

Definition directoryOption (label : string) (values : list string) (set : string → specification)
    : error + specification :=
  match setDirectory label values with inl e => inl e | inr v => inr (set v) end.

Definition logOption (label : string) (values : list string) (set : string → specification)
    : error + specification :=
  match values with
  | _ :: _ :: _ => inl (ValidationError (label +:+ " accepts at most one filename"))
  | _ =>
      let v := List.hd "" values in
      if negb (String.eqb v "") && negb (validLogFilename v) then inl (ValidationError ("invalid " +:+ label))
      else inr (set v)
  end.

Definition config_conflict : error :=
  ValidationError "config directory and config directory write cannot both be declared".

Definition apply_option (o : Opt) (s : specification) : error + specification :=
  match o with
  | NilOption => inl (ValidationError "nil option")
  | WithName v => inr (set_name v s)
  | WithDescription v => inr (set_text v (sp_binary s) (sp_revision s) s)
  | WithBinary v => inr (set_text (sp_description s) v (sp_revision s) s)
  | WithRevision v => inr (set_text (sp_description s) (sp_binary s) v s)
  | WithArgs v => inr (set_run v (sp_env s) (sp_scope s) (sp_restart s) (sp_account s) s)
  | WithEnvironment v => inr (set_run (sp_args s) v (sp_scope s) (sp_restart s) (sp_account s) s)
  | WithScope v => inr (set_run (sp_args s) (sp_env s) v (sp_restart s) (sp_account s) s)
  | WithRestartPolicy v => inr (set_run (sp_args s) (sp_env s) (sp_scope s) v (sp_account s) s)
  | WithAccount v => inr (set_run (sp_args s) (sp_env s) (sp_scope s) (sp_restart s) (Some v) s)
  | WithRuntimeDir v => directoryOption "runtime directory" v
      (λ d, set_dirs (Some d) (sp_configDir s) (sp_stateDir s) (sp_logDir s) s)
  | WithStateDir v => directoryOption "state directory" v
      (λ d, set_dirs (sp_runtimeDir s) (sp_configDir s) (Some d) (sp_logDir s) s)
  | WithLogDir v => directoryOption "log directory" v
      (λ d, set_dirs (sp_runtimeDir s) (sp_configDir s) (sp_stateDir s) (Some d) s)
  | WithConfigDir v =>
      if sp_configWritable s then inl config_conflict else
      directoryOption "config directory" v (λ d,
        set_flags (sp_configWritable s) true (sp_stdoutLog s) (sp_stderrLog s)
          (set_dirs (sp_runtimeDir s) (Some d) (sp_stateDir s) (sp_logDir s) s))
  | WithConfigDirWrite v =>
      if sp_configReadDeclared s then inl config_conflict else
      directoryOption "config directory" v (λ d,
        set_flags true (sp_configReadDeclared s) (sp_stdoutLog s) (sp_stderrLog s)
          (set_dirs (sp_runtimeDir s) (Some d) (sp_stateDir s) (sp_logDir s) s))
  | WithStdoutLog v => logOption "stdout log" v
      (λ f, set_flags (sp_configWritable s) (sp_configReadDeclared s) (Some f) (sp_stderrLog s) s)
  | WithStderrLog v => logOption "stderr log" v
      (λ f, set_flags (sp_configWritable s) (sp_configReadDeclared s) (sp_stdoutLog s) (Some f) s)
  end.

Fixpoint apply_options (opts : list Opt) (s : specification) : error + specification :=
  match opts with
  | [] => inr s
  | o :: rest => match apply_option o s with inl e => inl e | inr s' => apply_options rest s' end
  end.

(** ** Validation *)

Definition text_bad : string := unchars (map chr [0; 13; 10]).
Definition bad_text (v : string) : bool := ContainsAny v text_bad.

(** Only the choice among equal errors depends on the order of the map. *)
Definition bad_env (env : option (gmap string string)) : bool :=
  existsb (λ '(k, v), negb (validEnv k) || bad_text v) (map_to_list (default ∅ env)).

Definition validate (s : specification) : option error :=
  if negb (sp_scope s =? User) && negb (sp_scope s =? System) then Some (ValidationError "unknown scope")
  else if negb (sp_restart s =? RestartNever) && negb (sp_restart s =? RestartOnFailure)
          && negb (sp_restart s =? RestartAlways) then Some (ValidationError "unknown restart policy")
  else if String.eqb (sp_binary s) "" || negb (IsAbs (sp_binary s))
          || negb (String.eqb (Clean (sp_binary s)) (sp_binary s))
  then Some (ValidationError "binary must be a clean absolute path")
  else if HasPrefix (sp_binary s) "/tmp/" || Contains (sp_binary s) "/.dist/"
  then Some (ValidationError "binary must not be in a temporary or build-output path")
  else if negb (validServiceName (sp_name s)) then Some (ValidationError "invalid service name")
  else if bad_text (sp_description s) || bad_text (sp_revision s)
  then Some (ValidationError "description and revision must not contain control line breaks")
  else if (sp_scope s =? User) && (match sp_account s with Some _ => true | None => false end)
  then Some (ValidationError "account requires system scope")
  else if sp_configWritable s && (match sp_configDir s with None => true | Some _ => false end)
  then Some (ValidationError "config write requires config directory")
  else if bad_env (sp_env s) then Some (ValidationError "invalid environment")
  else if existsb bad_text (sp_args s)
  then Some (ValidationError "arguments must not contain control line breaks")
  else None.

(** ** Metadata *)

Record definitionMetadata := {
  Description : string;
  Binary : string;
  Args : list string;
  Environment : option (gmap string string);
  Account_ : string;
  Stdout : string;
  Stderr : string;
  Revision : string;
  Restart : RestartPolicy;
}.

Definition metadataFor (s : specification) : definitionMetadata := {|
  Description := sp_description s; Binary := sp_binary s; Args := sp_args s; Environment := sp_env s;
  Account_ := match sp_account s with Some a => Account.s_Name a | None => "" end;
  Stdout := sp_stdout s; Stderr := sp_stderr s; Revision := sp_revision s; Restart := sp_restart s |}.

(** [encoding/json] on the metadata. *)
Class MetadataJSON := {
  Marshal : definitionMetadata → string;
  Unmarshal : string → option definitionMetadata;
}.

(** Text that JSON keeps: what is not UTF-8 would be replaced. *)
Definition utf8 (s : string) : Prop := encode (runes s) = s.
Record json_text (m : definitionMetadata) : Prop := {
  json_strings : Forall utf8 [Description m; Binary m; Account_ m; Stdout m; Stderr m; Revision m];
  json_args : Forall utf8 (Args m);
  json_env k v : default ∅ (Environment m) !! k = Some v → utf8 k ∧ utf8 v;
  json_restart : 0 ≤ Restart m < 256;
}.
Class MetadataLaws `{MetadataJSON} : Prop := {
  Unmarshal_Marshal m : json_text m → Unmarshal (Marshal m) = Some m;
}.

Section metadata.
Context `{MetadataJSON}.

Definition metadataComment (s : specification) : string := EncodeToString (Marshal (metadataFor s)).

Definition marker : string := "compage-spec: ".
Definition stops : string := unchars (map chr [13; 10; 32]).

(** The text after the marker, up to a line end or a space. *)
Definition marked (old : string) : option string :=
  i ← Index old marker;
  let value := sdrop (i + slen marker) old in
  Some (match IndexAny value stops with Some j => stake j value | None => value end).

Definition previous (old : string) : option definitionMetadata :=
  value ← marked old; raw ← DecodeString value; Unmarshal raw.

Definition differ {A} `{EqDecision A} (a b : A) (r : ChangeReason) : list ChangeReason :=
  if bool_decide (a = b) then [] else [r].

Definition metadata_reasons (old wanted : definitionMetadata) : list ChangeReason :=
  let out :=
    differ (Binary old) (Binary wanted) BinaryChanged
    ++ differ (Args old) (Args wanted) ArgumentsChanged
    ++ differ (default ∅ (Environment old)) (default ∅ (Environment wanted)) EnvironmentChanged
    ++ differ (Stdout old, Stderr old) (Stdout wanted, Stderr wanted) LogsChanged
    ++ differ (Account_ old) (Account_ wanted) AccountChanged
    ++ differ (Revision old) (Revision wanted) RevisionChanged in
  out ++ (if bool_decide (out = []) then [DefinitionDrift]
          else differ (Description old) (Description wanted) DefinitionDrift).

Definition changeReasons (old : string) (s : specification) (changed missing : bool) : list ChangeReason :=
  if negb changed then []
  else if missing then [Missing]
  else match previous old with
       | None => [DefinitionDrift]
       | Some m => metadata_reasons m (metadataFor s)
       end.
End metadata.
