(* ===== verification/ServiceFiles.v ===== *)
(** * The host of [service], and what every backend does with it

    [backend.go]: the runner and the files, the helpers on definitions, and the
    [backend] interface. *)
From S2P Require Import Prelude.
From S2P Require Import GoStrings.
From S2P Require Import GoPath.
From S2P Require Import Utf8.
From S2P Require Import Errors.
From S2P Require Account.
From S2P Require AccountPlatforms.
From S2P Require Import Service.
#[local] Open Scope stdpp_scope.
#[local] Open Scope Z_scope.

(** ** The operating system *)

Inductive kind := Regular | Directory | Symlink | Irregular.
#[global] Instance kind_eq_dec : EqDecision kind.
Proof. solve_decision. Defined.

(** [os.FileInfo]; the owner is absent when the metadata is of another type. *)
Record FileInfo := { fi_kind : kind; fi_perm : Z; fi_owner : option (Z * Z) }.

Inductive call :=
  | CtxErr
  | Run (name : string) (args : list string)
  | ReadFile (path : string)
  | Stat (path : string)
  | Lstat (path : string)
  | CreateTemp (dir : string)
  | TmpChmod (tmp : string) (mode : Z)
  | TmpWrite (tmp data : string)
  | TmpSync (tmp : string)
  | TmpClose (tmp : string)
  | Rename (tmp path : string)
  | OpenDir (dir : string)
  | SyncDir (dir : string)
  | CloseDir (dir : string)
  | MkdirAll (path : string) (mode : Z)
  | Mkdir (path : string) (mode : Z)
  | Remove (path : string)
  | RemoveAll (path : string)
  | Chmod (path : string) (mode : Z)
  | Chown (path : string) (uid gid : Z)
  | AccountCall (c : Account.call).
#[global] Instance call_eq_dec : EqDecision call.
Proof. solve_decision. Defined.

Abbreviation history := (list call).

(** What the system answers, from the calls so far. *)
Class ServiceHost := {
  sv_ctx : history → option sys_error;
  (** The combined output of a command, and how it failed. *)
  sv_run : history → string → list string → string * option sys_error;
  sv_read : history → string → sys_error + string;
  sv_stat : history → call → sys_error + option FileInfo;
  sv_temp : history → string → sys_error + string;
  sv_do : history → call → option sys_error;
  (** The host as the account package sees it. *)
  sv_account : history → Account.AccountHost;
}.

Abbreviation io A := (proc call A).

Section host.
Context `{ServiceHost}.

Definition ctx_Err : io (option sys_error) := perform CtxErr sv_ctx.
Definition run_ (name : string) (args : list string) : io (string * option sys_error) :=
  perform (Run name args) (λ h, sv_run h name args).
Definition read (path : string) : io (sys_error + string) := perform (ReadFile path) (λ h, sv_read h path).
Definition stat (path : string) : io (sys_error + option FileInfo) :=
  perform (Stat path) (λ h, sv_stat h (Stat path)).
Definition lstat (path : string) : io (sys_error + option FileInfo) :=
  perform (Lstat path) (λ h, sv_stat h (Lstat path)).
Definition os_CreateTemp (dir : string) : io (sys_error + string) :=
  perform (CreateTemp dir) (λ h, sv_temp h dir).
Definition os_do (c : call) : io (option sys_error) := perform c (λ h, sv_do h c).

(** A procedure of the account package. *)
Definition account_io {A} (m : ∀ H : Account.AccountHost, Account.io A) : io A :=
  λ h, let '(a, t) := m (sv_account h) [] in (a, h ++ map AccountCall t).

(** The next call, if nothing has failed yet. *)
Definition unless_failed (e : option sys_error) (c : call) : io (option sys_error) :=
  match e with Some x => mret (Some x) | None => os_do c end.

Definition rename_synced (tmp path : string) : io (option sys_error) :=
  check! os_do (Rename tmp path) else e => mret (Some e) in
  check! os_do (OpenDir (Dir path)) else e => mret (Some e) in
  synced ← os_do (SyncDir (Dir path));
  _ ← os_do (CloseDir (Dir path));
  mret synced.

(** [osFiles.write]: the temporary file is removed whatever happens. *)
Definition write (path data : string) (mode : Z) : io (option sys_error) :=
  let! tmp := os_CreateTemp (Dir path) else e => mret (Some e) in
  err ← os_do (TmpChmod tmp mode);
  err ← unless_failed err (TmpWrite tmp data);
  err ← unless_failed err (TmpSync tmp);
  closed ← os_do (TmpClose tmp);
  result ← (match err, closed with
            | Some e, _ | None, Some e => mret (Some e)
            | None, None => rename_synced tmp path
            end);
  _ ← os_do (Remove tmp);
  mret result.

(** ** Definitions *)

Definition wrap (message : string) (cause : error) : error := ErrxError message [cause].
Definition wrap_sys (message : string) (cause : sys_error) : error := wrap message (Sys cause).
Definition plain_error (message : string) : error := ErrxError message [].

Definition rejectSymlink (path : string) : io (option error) :=
  r ← lstat path;
  mret (match r with
        | inl e => if bool_decide (e = ErrNotExist) then None
                   else Some (wrap_sys ("service: inspecting definition path " +:+ path) e)
        | inr None => Some (plain_error "service: inspecting definition path: empty file information")
        | inr (Some info) =>
            if bool_decide (fi_kind info = Symlink)
            then Some (ValidationError "service definition path must not be a symlink") else None
        end).

Definition failed (message : string) (m : io (option sys_error)) : io (option error) :=
  r ← m; mret (wrap_sys message <$> r).

Definition ensureDefinitionDirectory (path : string) : io (option error) :=
  failed ("service: creating definition directory " +:+ Dir path) (os_do (MkdirAll (Dir path) 493)).

Definition unavailableManager (e : sys_error) (name : string) : option error :=
  if bool_decide (e = ErrExecNotFound)
  then Some (UnsupportedError name (Some (wrap_sys ("service: resolving manager " +:+ name) e))) else None.

Definition command_error (name : string) (args : list string) (out : string) (e : sys_error) : error :=
  let message := "service: command failed: " +:+ name in
  let message := match args with [] => message | _ => message +:+ " " +:+ Join args " " end in
  let detail := TrimSpace out in
  let message := if String.eqb detail "" then message else message +:+ ": " +:+ detail in
  let wrapped := wrap_sys message e in
  if bool_decide (e = ErrExecNotFound) then UnsupportedError name (Some wrapped) else wrapped.

Definition commandOutput (name : string) (args : list string) : io (error + string) :=
  '(out, err) ← run_ name args;
  match err with
  | None => mret (inr out)
  | Some e =>
      check! ctx_Err else c => mret (inl (ErrxError ("service: command cancelled: " +:+ name) [Sys c; Sys e])) in
      mret (inl (command_error name args out e))
  end.

(** A command of which only success matters. *)
Definition command (name : string) (args : list string) : io (option error) :=
  r ← commandOutput name args;
  mret (match r with inl e => Some e | inr _ => None end).

Definition readDefinition (path : string) : io (error + string) :=
  r ← read path;
  mret (match r with inl e => inl (wrap_sys ("service: reading definition " +:+ path) e) | inr d => inr d end).
Definition writeDefinition (path data : string) (mode : Z) : io (option error) :=
  failed ("service: writing definition " +:+ path) (write path data mode).
Definition removeDefinition (path : string) : io (option error) :=
  failed ("service: removing definition " +:+ path) (os_do (Remove path)).
Definition setDefinitionOwner (path : string) (uid gid mode : Z) : io (option error) :=
  check! failed ("service: owning definition " +:+ path) (os_do (Chown path uid gid)) else e => mret (Some e) in
  failed ("service: setting definition mode " +:+ path) (os_do (Chmod path mode)).

Definition perm (m : Z) : Z := Z.land m 511.

Definition verifyDefinitionMode (path : string) (mode : Z) : io (option error) :=
  let! info := stat path else e => mret (Some (wrap_sys ("service: verifying definition " +:+ path) e)) in
  mret (match info with
        | None => Some (plain_error ("service: verifying definition " +:+ path +:+ ": empty file information"))
        | Some i => if negb (perm (fi_perm i) =? perm mode)
                    then Some (ValidationError "definition has unexpected mode") else None
        end).
Definition verifyDefinitionOwner (path : string) (uid gid : Z) : io (option error) :=
  let! info := stat path else e => mret (Some (wrap_sys ("service: verifying definition owner " +:+ path) e)) in
  mret (match info with
        | None => Some (plain_error ("service: verifying definition owner " +:+ path +:+ ": empty file information"))
        | Some i =>
            match fi_owner i with
            | None => Some (plain_error "service: unsupported definition ownership metadata")
            | Some (u, g) => if negb (u =? uid) || negb (g =? gid)
                             then Some (ValidationError "definition has unexpected ownership") else None
            end
        end).
End host.

(** ** The operation and its backend *)

(** [host.UserInfo]. *)
Record UserInfo := { u_UID : string; u_GID : string; u_Name : string; u_Home : string }.

Record AppDirectories := { Runtime : string; Config : string; State : string; Logs : string }.
Definition no_directories : AppDirectories := Build_AppDirectories "" "" "" "".

Record DirectoryChange := { Path : string; Created : bool }.

Record EnsureResult := {
  Installed : bool;
  Changed : bool;
  Reasons : list ChangeReason;
  RestartRequired : bool;
  Account : option Account.EnsureResult;
  Directories : AppDirectories;
  DirectoryChanges : list DirectoryChange;
}.
Definition zero_result : EnsureResult := Build_EnsureResult false false [] false None no_directories [].

Record Status := {
  st_Installed : bool;
  st_Enabled : bool;
  st_Loaded : bool;
  st_Running : bool;
  st_PID : Z;
  st_ExitCode : option Z;
  st_Detail : string;
}.
Definition zero_status : Status := Build_Status false false false false 0 None "".

(** The specification is the part that changes: the resolved logs are written
    to it. *)
Record operation := { op_spec : specification; op_platform : string; op_user : UserInfo; op_root : bool }.
Definition with_spec (o : operation) (s : specification) : operation :=
  {| op_spec := s; op_platform := op_platform o; op_user := op_user o; op_root := op_root o |}.

(** The [backend] interface, with [directoryProvider]. *)
Record backend := {
  bk_directoryBases : Scope_ → string → error + AppDirectories;
  bk_validate : specification → option error;
  bk_ensure : operation → io (EnsureResult * option error);
  bk_start : operation → io (option error);
  bk_restart : operation → io (option error);
  bk_stop : operation → io (option error);
  bk_uninstall : operation → io (option error);
  bk_status : operation → io (Status * option error);
}.
