(* ===== verification/ServicePlatforms.v ===== *)
(** * The platform backends of [service]

    [backend_linux_impl.go], which renders systemd units and drives [systemctl],
    and [backend_darwin_impl.go], which renders property lists and drives
    [launchctl]; [userDirectoryBases] of [directories.go]. *)
From S2P Require Import Prelude.
From S2P Require Import GoStrings.
From S2P Require Import GoPath.
From S2P Require Import Utf8.
From S2P Require Import Errors.
From S2P Require Account.
From S2P Require Import Service.
From S2P Require Import ServiceFiles.
#[local] Open Scope stdpp_scope.
#[local] Open Scope Z_scope.

Definition nl : string := String "010" "".
Definition dq : string := String "034" "".
Definition in_quotes (v : string) : string := dq +:+ v +:+ dq.

(** The concatenation of what a [strings.Builder] is given. *)
Definition text (l : list string) : string := Join l "".

Definition userDirectoryBases (home : string) : error + AppDirectories :=
  if String.eqb home "" || negb (IsAbs home) || negb (String.eqb (Clean home) home)
  then inl (ValidationError "invalid user home directory")
  else inr {| Runtime := home; Config := home; State := home; Logs := home |}.

Definition bases_for (system : AppDirectories) (scope : Scope_) (home : string) : error + AppDirectories :=
  if scope =? User then userDirectoryBases home
  else if negb (scope =? System) then inl (ValidationError "unknown scope")
  else inr system.

(** The variables in the order of their names. *)
Definition env_list (env : option (gmap string string)) : list (string * string) :=
  let m := default ∅ env in
  map (λ k, (k, default "" (m !! k))) (sort_strings (map fst (map_to_list m))).

Definition when_text (b : bool) (v : string) : string := if b then v else "".
Definition nonempty (v : string) : bool := negb (String.eqb v "").

(** [strconv.Atoi] with its error ignored. *)
Definition atoi_value (s : string) : Z :=
  match Atoi s with
  | inr z => z
  | inl GoStrings.ErrSyntax => 0
  | inl GoStrings.ErrRange => if HasPrefix s "-" then min_int64 else max_int64
  end.

(** The account that a system service runs as. *)
Definition runs_as (o : operation) : option string :=
  if sp_scope (op_spec o) =? System then Account.s_Name <$> sp_account (op_spec o) else None.

(** ** What both backends do to their definition *)
Section definition.
Context `{ServiceHost}.

(** The steps of [ensure] around the definition: [settle] follows the write,
    [loaded] asks the manager whether it runs an older one. *)
Definition ensure_definition `{MetadataJSON} (o : operation) (path want : string)
    (settle : io (option error)) (loaded : io bool) : io (EnsureResult * option error) :=
  check! rejectSymlink path else e => mret (zero_result, Some e) in
  check! (if sp_scope (op_spec o) =? User then ensureDefinitionDirectory path else mret None)
    else e => mret (zero_result, Some e) in
  r ← readDefinition path;
  let result changed missing old restart :=
    {| Installed := true; Changed := changed;
       Reasons := changeReasons old (op_spec o) changed missing; RestartRequired := restart;
       Account := None; Directories := no_directories; DirectoryChanges := [] |} in
  let replace missing old :=
    check! writeDefinition path want 420 else e => mret (zero_result, Some e) in
    check! settle else e => mret (zero_result, Some e) in
    restart ← loaded;
    mret (result true missing old restart, None) in
  match r with
  | inl e => if Is ErrNotExist e then replace true "" else mret (zero_result, Some e)
  | inr old => if String.eqb old want then mret (result false false old false, None) else replace false old
  end.

(** The removal of the definition: an absent one is no error. *)
Definition remove_definition (path : string) (after : io (option error)) : io (option error) :=
  check! rejectSymlink path else e => mret (Some e) in
  r ← removeDefinition path;
  match r with
  | Some e => if Is ErrNotExist e then after else mret (Some e)
  | None => after
  end.

(** Whether there is a definition, for [status]. *)
Definition definition_present (path : string) : io (error + bool) :=
  r ← stat path;
  mret (match r with
        | inr _ => inr true
        | inl e => if bool_decide (e = ErrNotExist) then inr false
                   else inl (wrap_sys ("service: inspecting definition " +:+ path) e)
        end).

(** [stop] does nothing when the definition is known to be absent. *)
Definition unless_absent (path : string) (m : io (option error)) : io (option error) :=
  r ← stat path;
  match r with
  | inl e => if bool_decide (e = ErrNotExist) then mret None else m
  | inr _ => m
  end.
End definition.

(** ** backend_linux_impl.go *)
Module SystemdBackend.
Section systemd.
Context `{ServiceHost} `{MetadataJSON}.

Definition minimumSystemdVersion : Z := 257.

Definition directoryBases : Scope_ → string → error + AppDirectories :=
  bases_for {| Runtime := "/run"; Config := "/etc"; State := "/var/lib"; Logs := "/var/log" |}.

Definition validate (s : specification) : option error :=
  if HasSuffix (sp_name s) ".service" then Some (ValidationError "name must not include .service suffix") else None.

Definition unit_name (o : operation) : string := sp_name (op_spec o) +:+ ".service".
Definition systemdPath (o : operation) : string :=
  if sp_scope (op_spec o) =? System then PJoin ["/etc/systemd/system"; unit_name o]
  else PJoin [u_Home (op_user o); ".config/systemd/user"; unit_name o].
Definition systemdArgs (o : operation) (a : list string) : list string :=
  if sp_scope (op_spec o) =? User then "--user" :: a else a.
Definition systemctl (o : operation) (a : list string) : io (option error) :=
  command "systemctl" (systemdArgs o a).

Definition version_error (out : string) : option error :=
  match Fields out with
  | first :: second :: _ =>
      if negb (String.eqb first "systemd") then Some (UnsupportedError "systemctl version" None) else
      match Atoi second with
      | inr v => if v <? minimumSystemdVersion
                 then Some (UnsupportedError ("systemd " +:+ Itoa minimumSystemdVersion) None) else None
      | inl _ => Some (UnsupportedError ("systemd " +:+ Itoa minimumSystemdVersion) None)
      end
  | _ => Some (UnsupportedError "systemctl version" None)
  end.
Definition checkSystemdVersion : io (option error) :=
  '(out, err) ← run_ "systemctl" ["--version"];
  mret (match err with
        | Some e => Some (UnsupportedError "systemctl" (Some (wrap_sys "service: inspecting systemd" e)))
        | None => version_error out
        end).

Definition quote_byte (c : ascii) : string :=
  if Ascii.eqb c "\" then "\\" else if Ascii.eqb c "034" then String "\" dq else String c "".
Definition quote (v : string) : string := in_quotes (replace_bytes quote_byte v).
Definition args (v : list string) : string := text (map (λ x, " " +:+ quote x) v).

Definition restart_text (r : RestartPolicy) : string :=
  if r =? RestartNever then "no" else if r =? RestartAlways then "always" else "on-failure".

(** The lines of the unit, each with the newline that ends it. *)
Definition unit_lines (o : operation) : list string :=
  let s := op_spec o in
  ["# compage-spec: " +:+ metadataComment s]
  ++ (if nonempty (sp_revision s) then ["# compage-revision: " +:+ sp_revision s] else [])
  ++ ["[Unit]"; "Description=" +:+ sp_description s; ""; "[Service]";
      "ExecStart=" +:+ quote (sp_binary s) +:+ args (sp_args s);
      "Restart=" +:+ restart_text (sp_restart s)]
  ++ (match runs_as o with Some a => ["User=" +:+ a] | None => [] end)
  ++ map (λ '(k, v), "Environment=" +:+ quote (k +:+ "=" +:+ v)) (env_list (sp_env s))
  ++ (if nonempty (sp_stdout s) then ["StandardOutput=append:" +:+ sp_stdout s] else [])
  ++ (if nonempty (sp_stderr s) then ["StandardError=append:" +:+ sp_stderr s] else [])
  ++ [""; "[Install]"; "WantedBy=" +:+ (if sp_scope s =? User then "default.target" else "multi-user.target")].
Definition renderSystemd (o : operation) : string := text (map (λ l, l +:+ nl) (unit_lines o)).

Definition unit_loaded (o : operation) : io bool :=
  '(out, err) ← run_ "systemctl" (systemdArgs o ["show"; "--property=LoadState"; unit_name o]);
  mret (match err with Some _ => false | None => String.eqb (TrimSpace out) "LoadState=loaded" end).

Definition ensure (o : operation) : io (EnsureResult * option error) :=
  check! checkSystemdVersion else e => mret (zero_result, Some e) in
  ensure_definition o (systemdPath o) (renderSystemd o) (systemctl o ["daemon-reload"]) (unit_loaded o).

Definition start (o : operation) : io (option error) :=
  check! checkSystemdVersion else e => mret (Some e) in
  systemctl o ["enable"; "--now"; unit_name o].
Definition restart (o : operation) : io (option error) :=
  check! checkSystemdVersion else e => mret (Some e) in
  systemctl o ["restart"; unit_name o].
Definition stop (o : operation) : io (option error) :=
  unless_absent (systemdPath o)
    (check! checkSystemdVersion else e => mret (Some e) in
     systemctl o ["disable"; "--now"; unit_name o]).
Definition uninstall (o : operation) : io (option error) :=
  check! checkSystemdVersion else e => mret (Some e) in
  _ ← stop o;
  remove_definition (systemdPath o) (systemctl o ["daemon-reload"]).

(** One line of [systemctl show]. *)
Definition status_line (s : Status) (line : string) : Status :=
  match Cut line "=" with
  | None => s
  | Some (key, value) =>
      if String.eqb key "LoadState" then
        Build_Status (st_Installed s) (st_Enabled s) (String.eqb value "loaded") (st_Running s) (st_PID s)
          (st_ExitCode s) (st_Detail s)
      else if String.eqb key "UnitFileState" then
        Build_Status (st_Installed s) (String.eqb value "enabled") (st_Loaded s) (st_Running s) (st_PID s)
          (st_ExitCode s) (st_Detail s)
      else if String.eqb key "ActiveState" then
        Build_Status (st_Installed s) (st_Enabled s) (st_Loaded s) (String.eqb value "active") (st_PID s)
          (st_ExitCode s) (st_Detail s)
      else if String.eqb key "MainPID" then
        Build_Status (st_Installed s) (st_Enabled s) (st_Loaded s) (st_Running s) (atoi_value value)
          (st_ExitCode s) (st_Detail s)
      else if String.eqb key "ExecMainStatus" then
        Build_Status (st_Installed s) (st_Enabled s) (st_Loaded s) (st_Running s) (st_PID s)
          (match Atoi value with inr c => Some c | inl _ => st_ExitCode s end) (st_Detail s)
      else s
  end.
Definition status_of (installed : bool) (out : string) : Status :=
  let s := foldl status_line (Build_Status installed false false false 0 None "") (Split (TrimSpace out) "010") in
  Build_Status (st_Installed s) (st_Enabled s) (st_Loaded s) (st_Running s) (st_PID s) (st_ExitCode s) (TrimSpace out).

Definition status (o : operation) : io (Status * option error) :=
  check! checkSystemdVersion else e => mret (zero_status, Some e) in
  let! installed := definition_present (systemdPath o) else e => mret (zero_status, Some e) in
  '(out, err) ← run_ "systemctl" (systemdArgs o
     ["show"; "--property=LoadState,UnitFileState,ActiveState,MainPID,ExecMainStatus"; unit_name o]);
  mret (match err with
        | Some x => match unavailableManager x "systemctl" with
                    | Some e => (zero_status, Some e)
                    | None => (Build_Status installed false false false 0 None "", None)
                    end
        | None => (status_of installed out, None)
        end).

Definition systemdBackend : backend := {|
  bk_directoryBases := directoryBases; bk_validate := validate; bk_ensure := ensure; bk_start := start;
  bk_restart := restart; bk_stop := stop; bk_uninstall := uninstall; bk_status := status |}.
End systemd.
End SystemdBackend.

(** ** backend_darwin_impl.go *)
Module LaunchdBackend.
Section launchd.
Context `{ServiceHost} `{MetadataJSON}.

Definition directoryBases : Scope_ → string → error + AppDirectories :=
  bases_for {| Runtime := "/private/var/run"; Config := "/Library/Application Support";
               State := "/Library/Application Support"; Logs := "/Library/Logs" |}.

Definition validate (s : specification) : option error :=
  if negb (Contains (sp_name s) ".") then Some (ValidationError "launchd label must contain a namespace dot") else None.

Definition plist_name (o : operation) : string := sp_name (op_spec o) +:+ ".plist".
Definition launchdPath (o : operation) : string :=
  if sp_scope (op_spec o) =? System then PJoin ["/Library/LaunchDaemons"; plist_name o]
  else PJoin [u_Home (op_user o); "Library/LaunchAgents"; plist_name o].
Definition domain (o : operation) : string :=
  if sp_scope (op_spec o) =? System then "system" else "gui/" +:+ u_UID (op_user o).
Definition target (o : operation) : string := domain o +:+ "/" +:+ sp_name (op_spec o).
Definition launchctl (a : list string) : io (option error) := command "launchctl" a.

Definition xml_byte (c : ascii) : string :=
  if Ascii.eqb c "&" then "&amp;" else if Ascii.eqb c "<" then "&lt;" else if Ascii.eqb c ">" then "&gt;"
  else if Ascii.eqb c "034" then "&quot;" else if Ascii.eqb c "039" then "&apos;" else String c "".
Definition xml (v : string) : string := replace_bytes xml_byte v.

Definition xml_element (name v : string) : string := "<" +:+ name +:+ ">" +:+ v +:+ "</" +:+ name +:+ ">".
Definition key (v : string) : string := xml_element "key" (xml v).
Definition str (v : string) : string := xml_element "string" (xml v).
Definition comment (v : string) : string := "<!-- " +:+ v +:+ " -->".

Definition keep_alive (r : RestartPolicy) : list string :=
  if r =? RestartAlways then ["<key>KeepAlive</key><true/>"]
  else if r =? RestartOnFailure
  then ["<key>KeepAlive</key><dict><key>SuccessfulExit</key><false/></dict>"] else [].

(** The lines of the property list, each with the newline that ends it. *)
Definition plist_lines (o : operation) : list string :=
  let s := op_spec o in
  ["<?xml version=" +:+ in_quotes "1.0" +:+ " encoding=" +:+ in_quotes "UTF-8" +:+ "?>";
   comment ("compage-spec: " +:+ metadataComment s)]
  ++ (if nonempty (sp_revision s) then [comment ("compage-revision: " +:+ xml (sp_revision s))] else [])
  ++ ["<plist version=" +:+ in_quotes "1.0" +:+ "><dict>"; key "Label" +:+ str (sp_name s);
      key "ProgramArguments" +:+ "<array>"; str (sp_binary s)]
  ++ map str (sp_args s)
  ++ ["</array>"]
  ++ (match env_list (sp_env s) with
      | [] => []
      | env => [key "EnvironmentVariables" +:+ "<dict>"] ++ map (λ '(k, v), key k +:+ str v) env ++ ["</dict>"]
      end)
  ++ (match runs_as o with Some a => [key "UserName" +:+ str a] | None => [] end)
  ++ (if nonempty (sp_stdout s) then [key "StandardOutPath" +:+ str (sp_stdout s)] else [])
  ++ (if nonempty (sp_stderr s) then [key "StandardErrorPath" +:+ str (sp_stderr s)] else [])
  ++ keep_alive (sp_restart s)
  ++ ["<key>RunAtLoad</key><true/>"; "</dict></plist>"].
Definition plist (o : operation) : string := text (map (λ l, l +:+ nl) (plist_lines o)).

Definition launchdLoaded (o : operation) : io (error + bool) :=
  '(_, err) ← run_ "launchctl" ["print"; target o];
  match err with
  | None => mret (inr true)
  | Some e =>
      check! ctx_Err else c => mret (inl (wrap_sys "service: checking launchd service" c)) in
      mret (match unavailableManager e "launchctl" with Some m => inl m | None => inr false end)
  end.

(** The owner and the mode of a definition for the whole system. *)
Definition settle (o : operation) (path : string) : io (option error) :=
  if negb (sp_scope (op_spec o) =? System) then mret None else
  check! setDefinitionOwner path 0 0 420 else e => mret (Some e) in
  check! verifyDefinitionMode path 420 else e => mret (Some e) in
  verifyDefinitionOwner path 0 0.

Definition ensure (o : operation) : io (EnsureResult * option error) :=
  ensure_definition o (launchdPath o) (plist o) (settle o (launchdPath o))
    (r ← launchdLoaded o; mret (match r with inr b => b | inl _ => false end)).

Definition bootstrap (o : operation) : io (option error) :=
  let! loaded := launchdLoaded o else e => mret (Some e) in
  if loaded : bool then mret None else launchctl ["bootstrap"; domain o; launchdPath o].

Definition start (o : operation) : io (option error) :=
  check! launchctl ["enable"; target o] else e => mret (Some e) in
  check! bootstrap o else e => mret (Some e) in
  launchctl ["kickstart"; target o].
Definition restart (o : operation) : io (option error) :=
  check! bootstrap o else e => mret (Some e) in
  launchctl ["kickstart"; "-k"; target o].
Definition stop (o : operation) : io (option error) :=
  unless_absent (launchdPath o)
    (check! launchctl ["disable"; target o] else e => mret (Some e) in
     launchctl ["bootout"; target o]).
Definition uninstall (o : operation) : io (option error) :=
  _ ← stop o;
  remove_definition (launchdPath o) (mret None).

(** One line of [launchctl print]: the process and the exit code. *)
Definition status_line (s : Z * option Z) (raw : string) : Z * option Z :=
  let line := TrimSpace raw in
  let pid := if HasPrefix line "pid =" then atoi_value (TrimSpace (TrimPrefix line "pid =")) else s.1 in
  let code := if HasPrefix line "last exit code ="
              then match Atoi (TrimSpace (TrimPrefix line "last exit code =")) with
                   | inr c => Some c | inl _ => s.2 end else s.2 in
  (pid, code).

Definition status (o : operation) : io (Status * option error) :=
  let! installed := definition_present (launchdPath o) else e => mret (zero_status, Some e) in
  '(out, err) ← run_ "launchctl" ["print"; target o];
  match (match err with Some x => unavailableManager x "launchctl" | None => None end) with
  | Some e => mret (zero_status, Some e)
  | None =>
      let '(pid, code) := foldl status_line (0, None) (Split out "010") in
      '(disabled, derr) ← run_ "launchctl" ["print-disabled"; domain o];
      let enabled := match derr with
                     | None => negb (Contains disabled (in_quotes (sp_name (op_spec o)) +:+ " => true"))
                     | Some _ => false
                     end in
      mret ({| st_Installed := installed; st_Enabled := enabled;
               st_Loaded := match err with None => true | Some _ => false end;
               st_Running := 0 <? pid; st_PID := pid; st_ExitCode := code; st_Detail := TrimSpace out |}, None)
  end.

Definition launchdBackend : backend := {|
  bk_directoryBases := directoryBases; bk_validate := validate; bk_ensure := ensure; bk_start := start;
  bk_restart := restart; bk_stop := stop; bk_uninstall := uninstall; bk_status := status |}.
End launchd.
End LaunchdBackend.

Section platform.
Context `{ServiceHost} `{MetadataJSON}.
Definition platformBackend (os : string) : error + backend :=
  if String.eqb os "linux" then inr SystemdBackend.systemdBackend
  else if String.eqb os "darwin" then inr LaunchdBackend.launchdBackend
  else inl (UnsupportedError os None).
End platform.
