(* ===== verification/ServiceOperation.v ===== *)
(** * The operations of [service]

    [directories.go]: where the directories of a service are, how they are made
    and removed; [operation.go]: ensuring, starting, stopping and removing a
    service; and the manager of [service.go]. *)
From S2P Require Import Prelude.
From S2P Require Import GoStrings.
From S2P Require Import GoPath.
From S2P Require Import Utf8.
From S2P Require Import Errors.
From S2P Require Account.
From S2P Require AccountPlatforms.
From S2P Require Import Service.
From S2P Require Import ServiceFiles.
From S2P Require Import ServicePlatforms.
#[local] Open Scope stdpp_scope.
#[local] Open Scope Z_scope.

(** ** Where the directories are *)

(** [PurgeOptions]. *)
Record PurgeOptions := { purge_Config : bool; purge_State : bool; purge_Logs : bool }.

Record managedDirectories := {
  d_paths : AppDirectories;
  d_runtime : bool;
  d_config : bool;
  d_state : bool;
  d_logs : bool;
  d_configWritable : bool;
}.

Definition given {A} (v : option A) : bool := match v with Some _ => true | None => false end.
Definition value (v : option string) : string := default "" v.

Definition or_name (name fallback : string) : string := if String.eqb name "" then fallback else name.
Definition directoryPath (s : specification) (base name : string) : string := PJoin [base; or_name name (sp_name s)].
Definition userChild (name fallback : string) : string := or_name name fallback.

Definition any_directory (s : specification) : bool :=
  given (sp_runtimeDir s) || given (sp_configDir s) || given (sp_stateDir s) || given (sp_logDir s)
  || given (sp_stdoutLog s) || given (sp_stderrLog s).
Definition any_log (s : specification) : bool :=
  given (sp_logDir s) || given (sp_stdoutLog s) || given (sp_stderrLog s).

Definition configName (s : specification) : string :=
  let n := match sp_configDir s with
           | Some d => if String.eqb d "" then "." +:+ sp_name s else d
           | None => "." +:+ sp_name s
           end in
  if (sp_scope s =? System) && negb (given (sp_configDir s)) then sp_name s else n.

Definition resolve_in (s : specification) (bases : AppDirectories) : managedDirectories :=
  let has_config := (sp_scope s =? User) || given (sp_configDir s) in
  let config := if has_config then PJoin [Config bases; configName s] else "" in
  let place (declared : bool) (base : string) (name : option string) (child : string) :=
    if negb declared then ""
    else if sp_scope s =? User then PJoin [config; userChild (value name) child]
    else directoryPath s base (value name) in
  {| d_paths := {| Runtime := place (given (sp_runtimeDir s)) (Runtime bases) (sp_runtimeDir s) "run";
                   Config := config;
                   State := place (given (sp_stateDir s)) (State bases) (sp_stateDir s) "lib";
                   Logs := place (any_log s) (Logs bases) (sp_logDir s) "log" |};
     d_runtime := given (sp_runtimeDir s); d_config := has_config; d_state := given (sp_stateDir s);
     d_logs := any_log s; d_configWritable := sp_configWritable s |}.

Definition no_managed (s : specification) : managedDirectories :=
  {| d_paths := no_directories; d_runtime := false; d_config := false; d_state := false; d_logs := false;
     d_configWritable := sp_configWritable s |}.

Definition resolveDirectories (s : specification) (b : backend) (home : string) : error + managedDirectories :=
  if negb (any_directory s) then inr (no_managed s) else
  match bk_directoryBases b (sp_scope s) home with
  | inl e => inl e
  | inr bases => inr (resolve_in s bases)
  end.

(** The paths from the root down to [path]. *)
Fixpoint prefixes (current : string) (parts : list string) : list string :=
  match parts with
  | [] => []
  | part :: rest => let next := PJoin [current; part] in next :: prefixes next rest
  end.
Definition splitAbsolute (path : string) : list string :=
  prefixes "/" (filter (λ p, p ≠ "") (Split (Clean path) "/")).

Definition resolvedLogPath (dir name fallback : string) : string := PJoin [dir; or_name name fallback].

(** ** Making and removing them *)
Section directories.
Context `{ServiceHost}.

Definition ownership_error : error := plain_error "service: unsupported directory ownership metadata".
Definition real_directory (info : option FileInfo) : option FileInfo :=
  match info with
  | Some i => if bool_decide (fi_kind i = Directory) then Some i else None
  | None => None
  end.

(** Whether the mode and the owner are the wanted ones. *)
Definition settled (i : FileInfo) (uid gid mode : Z) : option bool :=
  '(u, g) ← fi_owner i;
  Some ((perm (fi_perm i) =? perm mode) && (u =? uid) && (g =? gid)).

Definition directoryReconciliationNeeded (path : string) (uid gid mode : Z) : io (error + bool) :=
  r ← lstat path;
  mret (match r with
        | inl e => if bool_decide (e = ErrNotExist) then inr true
                   else inl (wrap_sys ("service: inspecting managed directory " +:+ path) e)
        | inr info =>
            match real_directory info with
            | None => inl (ValidationError ("managed directory must be a real directory: " +:+ path))
            | Some i => match settled i uid gid mode with
                        | None => inl ownership_error
                        | Some ok => inr (negb ok)
                        end
            end
        end).

Definition verify_info (path : string) (uid gid mode : Z) (info : option FileInfo) : option error :=
  match real_directory info with
  | None => Some (ValidationError ("managed directory has unexpected type: " +:+ path))
  | Some i => match settled i uid gid mode with
              | None => Some ownership_error
              | Some true => None
              | Some false => Some (ValidationError ("managed directory has unexpected ownership or mode: " +:+ path))
              end
  end.
Definition verifyManagedDirectory (path : string) (uid gid mode : Z) : io (option error) :=
  let! info := lstat path else e => mret (Some (wrap_sys ("service: verifying managed directory " +:+ path) e)) in
  mret (verify_info path uid gid mode info).

Definition traversableDirectory (info : FileInfo) (uid gid : Z) : option error :=
  if uid =? 0 then None else
  match fi_owner info with
  | None => Some ownership_error
  | Some (u, g) =>
      let mode := perm (fi_perm info) in
      let bit := if u =? uid then 64 else if g =? gid then 8 else 1 in
      if negb (Z.land mode bit =? 0) then None
      else Some (PrivilegeError "traverse managed directory ancestor")
  end.

Definition own_and_chmod (part : string) (uid gid mode : Z) : io (option error) :=
  check! failed ("service: owning directory " +:+ part) (os_do (Chown part uid gid)) else e => mret (Some e) in
  failed ("service: setting directory mode " +:+ part) (os_do (Chmod part mode)).

(** One component of the path; the last one answers whether it was made. *)
Definition ensure_part (uid gid mode : Z) (part : string) (final : bool) : io (error + bool) :=
  r ← lstat part;
  match r with
  | inl e =>
      if bool_decide (e = ErrNotExist) then
        check! failed ("service: creating directory " +:+ part) (os_do (Mkdir part mode)) else e => mret (inl e) in
        check! own_and_chmod part uid gid mode else e => mret (inl e) in
        mret (inr true)
      else mret (inl (wrap_sys ("service: inspecting directory " +:+ part) e))
  | inr info =>
      match real_directory info with
      | None => mret (inl (ValidationError
                             ("managed directory path contains a non-directory or symlink: " +:+ part)))
      | Some i =>
          if final then
            check! own_and_chmod part uid gid mode else e => mret (inl e) in mret (inr false)
          else mret (match traversableDirectory i uid gid with
                     | Some e => inl (wrap ("service: checking managed directory ancestor " +:+ part) e)
                     | None => inr false
                     end)
      end
  end.
Fixpoint ensure_parts (uid gid mode : Z) (parts : list string) : io (error + bool) :=
  match parts with
  | [] => mret (inr false)
  | [part] => ensure_part uid gid mode part true
  | part :: rest =>
      let! _ := ensure_part uid gid mode part false else e => mret (inl e) in
      ensure_parts uid gid mode rest
  end.
Definition ensureManagedDirectory (path : string) (uid gid mode : Z) : io (error + bool) :=
  ensure_parts uid gid mode (splitAbsolute path).

Definition ensureManagedLog (path : string) (uid gid : Z) (system : bool) : io (option error) :=
  r ← lstat path;
  let mode := if system then 432 else 384 in
  let settle :=
    check! failed ("service: owning log file " +:+ path) (os_do (Chown path uid gid)) else e => mret (Some e) in
    failed ("service: setting log file mode " +:+ path) (os_do (Chmod path mode)) in
  let irregular := ValidationError ("managed log file must be a regular file: " +:+ path) in
  match r with
  | inr None => mret (Some irregular)
  | inr (Some info) => if bool_decide (fi_kind info = Regular) then settle else mret (Some irregular)
  | inl e =>
      if bool_decide (e = ErrNotExist) then
        check! failed ("service: creating log file " +:+ path) (write path "" mode) else e => mret (Some e) in
        settle
      else mret (Some (wrap_sys ("service: inspecting log file " +:+ path) e))
  end.

(** The mode of a managed directory, and its owner. *)
Definition directory_mode (s : specification) (config writable : bool) : Z :=
  if sp_scope s =? User then 448 else if config && negb writable then 488 else 504.
Definition directory_owner (s : specification) (uid : Z) : Z := if sp_scope s =? System then 0 else uid.

Definition reconcile_directory (s : specification) (writable : bool) (uid gid : Z) (item : string * bool)
    (changes : list DirectoryChange) : io ((list DirectoryChange * error) + list DirectoryChange) :=
  let '(path, config) := item in
  if String.eqb path "" then mret (inr changes) else
  let mode := directory_mode s config writable in
  let owner := directory_owner s uid in
  let! needed := directoryReconciliationNeeded path owner gid mode else e => mret (inl (changes, e)) in
  let! created := ensureManagedDirectory path owner gid mode else e => mret (inl (changes, e)) in
  check! verifyManagedDirectory path owner gid mode else e => mret (inl (changes, e)) in
  mret (inr (if created || needed then changes ++ [{| Path := path; Created := created |}] else changes)).

(** A requested log file, whose path goes to the specification. *)
Definition reconcile_log (logs : string) (uid gid : Z) (request : option string) (name : string)
    (set : string → specification → specification) (s : specification) : io (error + specification) :=
  match request with
  | None => mret (inr s)
  | Some f =>
      let path := resolvedLogPath logs f name in
      check! ensureManagedLog path uid gid (sp_scope s =? System) else e => mret (inl e) in
      mret (inr (set path s))
  end.

Definition reconcile_logs (d : managedDirectories) (uid gid : Z) (s : specification)
    : io (specification * option error) :=
  if negb (d_logs d) then mret (s, None) else
  let logs := Logs (d_paths d) in
  r ← reconcile_log logs uid gid (sp_stdoutLog s) "out.log" (λ p s, set_streams p (sp_stderr s) s) s;
  match r with
  | inl e => mret (s, Some e)
  | inr s' =>
      r ← reconcile_log logs uid gid (sp_stderrLog s') "err.log" (λ p s, set_streams (sp_stdout s) p s) s';
      mret (match r with inl e => (s', Some e) | inr s'' => (s'', None) end)
  end.

Definition directory_items (d : managedDirectories) : list (string * bool) :=
  [(Config (d_paths d), true); (Runtime (d_paths d), false); (State (d_paths d), false); (Logs (d_paths d), false)].

Definition num_error (e : num_err) : error :=
  Sys (match e with GoStrings.ErrSyntax => ErrSyntax | GoStrings.ErrRange => ErrRange end).

(** The changes that were made, the specification with the resolved logs, and
    the error that ended the work. *)
Definition reconcileDirectories (s : specification) (d : managedDirectories) (uid gid : string)
    : io (list DirectoryChange * specification * option error) :=
  match Atoi uid, Atoi gid with
  | inl e, _ => mret ([], s, Some (wrap "service: invalid runtime UID" (num_error e)))
  | inr _, inl e => mret ([], s, Some (wrap "service: invalid runtime GID" (num_error e)))
  | inr u, inr g =>
      r ← for_each (reconcile_directory s (d_configWritable d) u g) (directory_items d) [];
      match r with
      | inl (changes, e) => mret (changes, s, Some e)
      | inr changes => '(s', err) ← reconcile_logs d u g s; mret (changes, s', err)
      end
  end.

(** [cleanupManaged]: only a path of real directories is removed. *)
Definition removable (component : string) (_ : unit) : io ((option error) + unit) :=
  r ← lstat component;
  mret (match r with
        | inl e => inl (if bool_decide (e = ErrNotExist) then None else Some (Sys e))
        | inr info =>
            match real_directory info with
            | None => inl (Some (ValidationError "refusing to remove a symlinked or non-directory managed path"))
            | Some _ => inr ()
            end
        end).
Definition cleanupManaged (path : string) : io (option error) :=
  if String.eqb path "" then mret None else
  r ← for_each removable (splitAbsolute path) ();
  match r with
  | inl answer => mret answer
  | inr _ =>
      e ← os_do (RemoveAll path);
      mret (match e with
            | Some x => Some (WrappedError ("service: removing managed directory " +:+ path) (Sys x))
            | None => None
            end)
  end.
End directories.

(** ** operation.go *)
Section operation.
Context `{ServiceHost} (b : backend).
Implicit Types (o : operation).

Definition systemPreflight (o : operation) : option error :=
  if (sp_scope (op_spec o) =? System) && negb (op_root o)
  then Some (PrivilegeError "manage system service") else None.

(** The guards of every operation. *)
Definition guarded {A} (o : operation) (cancelled : string) (fail : error → A) (m : io A) : io A :=
  check! ctx_Err else e => mret (fail (wrap_sys cancelled e)) in
  match systemPreflight o with
  | Some e => mret (fail e)
  | None => m
  end.

Fixpoint unique_from (seen reasons : list ChangeReason) : list ChangeReason :=
  match reasons with
  | [] => []
  | r :: rest => if bool_decide (r ∈ seen) then unique_from seen rest else r :: unique_from (r :: seen) rest
  end.
Definition uniqueReasons (reasons : list ChangeReason) : list ChangeReason := unique_from [] reasons.

(** [checkLogParents], which only the tests call. *)
Definition writableDirectory (info : FileInfo) (uid gid : string) : option error :=
  match fi_owner info with
  | None => Some (plain_error "service: unsupported log directory metadata")
  | Some (u, g) =>
      match Atoi uid, Atoi gid with
      | inl e, _ => Some (wrap "service: invalid runtime UID" (num_error e))
      | inr _, inl e => Some (wrap "service: invalid runtime GID" (num_error e))
      | inr wantUID, inr wantGID =>
          if wantUID =? 0 then None else
          let mode := perm (fi_perm info) in
          let bits := if u =? wantUID then 192 else if g =? wantGID then 24 else 3 in
          if Z.land mode bits =? bits then None else Some (PrivilegeError "write log directory")
      end
  end.
Definition check_log_parent (uid gid path : string) (_ : unit) : io (error + unit) :=
  if String.eqb path "" then mret (inr ()) else
  let parent := Dir path in
  let! info := stat parent else e => mret (inl (wrap_sys ("service: inspecting log directory " +:+ parent) e)) in
  mret (match real_directory info with
        | None => inl (ValidationError ("log parent must be an existing directory: " +:+ parent))
        | Some i => match writableDirectory i uid gid with
                    | Some e => inl (wrap ("service: checking log directory access " +:+ parent) e)
                    | None => inr ()
                    end
        end).
Definition checkLogParents (s : specification) (uid gid : string) : io (option error) :=
  r ← for_each (check_log_parent uid gid) [sp_stdout s; sp_stderr s] ();
  mret (match r with inl e => Some e | inr _ => None end).

Definition executable (info : option FileInfo) : bool :=
  match info with
  | Some i => bool_decide (fi_kind i = Regular) && negb (Z.land (perm (fi_perm i)) 73 =? 0)
  | None => false
  end.

Definition account_changed (a : Account.EnsureResult) : bool :=
  Account.Created a || negb (bool_decide (Account.Changed a = [])).

Definition account_ensure (o : operation) (a : Account.Spec) : io (Account.EnsureResult * option Account.error) :=
  account_io (λ H, @Account.Ensure H (@AccountPlatforms.productionDeps H (op_platform o) (op_root o)) a).

(** The runtime account, if one is declared: its result, and the reasons. *)
Definition ensure_account (o : operation)
    : io (option Account.EnsureResult * list ChangeReason * option error) :=
  match sp_account (op_spec o) with
  | None => mret (None, [], None)
  | Some a =>
      '(res, err) ← account_ensure o a;
      mret (Some res, if account_changed res then [AccountChanged] else [],
            (λ e, wrap "service: ensuring runtime account" (AccountError e)) <$> err)
  end.

Definition partial (a : option Account.EnsureResult) (reasons : list ChangeReason) (d : AppDirectories)
    (changes : list DirectoryChange) : EnsureResult :=
  {| Installed := false; Changed := negb (bool_decide (reasons = [])); Reasons := reasons;
     RestartRequired := false; Account := a; Directories := d; DirectoryChanges := changes |}.

(** The result of the backend with what was done before it. *)
Definition merged (x r : EnsureResult) : EnsureResult :=
  {| Installed := Installed x; Changed := Changed x || Changed r;
     Reasons := uniqueReasons (Reasons x ++ Reasons r); RestartRequired := RestartRequired x;
     Account := Account r; Directories := Directories r; DirectoryChanges := DirectoryChanges r |}.

(** The answer comes with the operation afterwards. *)
Definition ensure (o : operation) : io (EnsureResult * option error * operation) :=
  guarded o "service: ensure cancelled" (λ e, (zero_result, Some e, o))
   (let! info := stat (sp_binary (op_spec o))
      else e => mret (zero_result, Some (wrap_sys "service: inspecting binary" e), o) in
    if negb (executable info)
    then mret (zero_result, Some (ValidationError "binary must be a regular executable file"), o) else
    '(acct, reasons, err) ← ensure_account o;
    match err with
    | Some e => mret (partial acct reasons no_directories [], Some e, o)
    | None =>
        let '(uid, gid) := match acct with
                           | Some a => (Account.UID (Account.Account a), Account.GID (Account.Account a))
                           | None => (u_UID (op_user o), u_GID (op_user o))
                           end in
        match resolveDirectories (op_spec o) b (u_Home (op_user o)) with
        | inl e => mret (partial acct reasons no_directories [],
                         Some (wrap "service: resolving directories" e), o)
        | inr d =>
            '(changes, s', err) ← reconcileDirectories (op_spec o) d uid gid;
            let o' := with_spec o s' in
            let reasons := reasons ++ (if bool_decide (changes = []) then [] else [DirectoriesChanged]) in
            let r := partial acct reasons (d_paths d) changes in
            match err with
            | Some e => mret (r, Some e, o')
            | None =>
                '(x, e) ← bk_ensure b o';
                mret (merged x r, e, o')
            end
        end
    end).

Definition start (o : operation) : io (option error) :=
  guarded o "service: start cancelled" Some (bk_start b o).
Definition restart (o : operation) : io (option error) :=
  guarded o "service: restart cancelled" Some (bk_restart b o).
Definition stop (o : operation) : io (option error) :=
  guarded o "service: stop cancelled" Some (bk_stop b o).
Definition status (o : operation) : io (Status * option error) :=
  guarded o "service: status cancelled" (λ e, (zero_status, Some e)) (bk_status b o).

Definition uninstall (o : operation) : io (option error) :=
  guarded o "service: uninstall cancelled" Some
   (check! bk_uninstall b o else e => mret (Some e) in
    match resolveDirectories (op_spec o) b (u_Home (op_user o)) with
    | inl e => mret (Some e)
    | inr d => if d_runtime d then cleanupManaged (Runtime (d_paths d)) else mret None
    end).

Definition purge_items (d : managedDirectories) (options : PurgeOptions) : list (bool * bool * string) :=
  [(purge_Config options, d_config d, Config (d_paths d)); (purge_State options, d_state d, State (d_paths d));
   (purge_Logs options, d_logs d, Logs (d_paths d))].
Definition purge_item (item : bool * bool * string) (_ : unit) : io (error + unit) :=
  let '(selected, declared, path) := item in
  if negb selected then mret (inr ()) else
  if negb declared then mret (inl (ValidationError "cannot purge an undeclared managed directory")) else
  check! cleanupManaged path else e => mret (inl e) in
  mret (inr ()).
(** In user scope the other directories are inside that of the configuration. *)
Definition purge_refused (o : operation) (d : managedDirectories) (options : PurgeOptions) : bool :=
  (sp_scope (op_spec o) =? User) && purge_Config options
  && ((d_state d && negb (purge_State options)) || (d_logs d && negb (purge_Logs options))).
Definition purge (o : operation) (options : PurgeOptions) : io (option error) :=
  guarded o "service: purge cancelled" Some
   (match resolveDirectories (op_spec o) b (u_Home (op_user o)) with
    | inl e => mret (Some e)
    | inr d =>
        if purge_refused o d options
        then mret (Some (ValidationError
               "purging user config requires selecting its declared state and logs directories")) else
        r ← for_each purge_item (purge_items d options) ();
        mret (match r with inl e => Some e | inr _ => None end)
    end).
End operation.

(** ** service.go: the manager *)
Section manager.
Context `{ServiceHost} `{MetadataJSON}.

(** [New]; the platform, the user and whether it is root are given. *)
Definition New (os : string) (user : error + UserInfo) (is_root : bool) (opts : list Opt)
    : error + (operation * backend) :=
  match apply_options opts (set_run [] None User RestartOnFailure None empty_spec) with
  | inl e => inl e
  | inr s =>
      match platformBackend os with
      | inl e => inl e
      | inr b =>
          let s := if String.eqb (sp_name s) "" then set_name (Base (sp_binary s)) s else s in
          match validate s with
          | Some e => inl e
          | None =>
              match bk_validate b s with
              | Some e => inl e
              | None =>
                  if (sp_scope s =? System) && negb is_root
                  then inl (PrivilegeError "manage system service") else
                  match user with
                  | inl e => inl e
                  | inr u => inr ({| op_spec := s; op_platform := os; op_user := u; op_root := is_root |}, b)
                  end
              end
          end
      end
  end.

Definition Directories_ (os : string) (user : error + UserInfo) (name : string) (opts : list Opt)
    : error + AppDirectories :=
  match apply_options opts (set_name name empty_spec) with
  | inl e => inl e
  | inr s =>
      if negb (validServiceName (sp_name s)) then inl (ValidationError "invalid service name") else
      match platformBackend os with
      | inl e => inl e
      | inr b =>
          match bk_validate b s with
          | Some e => inl e
          | None =>
              match user with
              | inl e => inl e
              | inr u => match resolveDirectories s b (u_Home u) with
                         | inl e => inl e
                         | inr d => inr (d_paths d)
                         end
              end
          end
      end
  end.
End manager.
