(* ===== verification/ServiceFacts.v ===== *)
(** * What options and metadata of a service guarantee

    The specifications that options can make, the names that validation
    accepts, and the reasons that are read off the metadata of a definition. *)
From S2P Require Import Prelude.
From S2P Require Import GoStrings.
From S2P Require Import GoPath.
From S2P Require Import Utf8.
From S2P Require Import Errors.
From S2P Require Account.
From S2P Require Import Service.
From S2P Require Import ServiceFiles.
From S2P Require Import ServicePlatforms.
#[local] Open Scope stdpp_scope.
#[local] Open Scope Z_scope.

(** ** Relative directories and file names *)

(** A relative path of plain names without control characters or backslashes. *)
Definition relative (v : string) : Prop := ∃ parts, Forall plain parts ∧ parts ≠ [] ∧ v = Join parts seps.

Lemma validRelativeDirectory_relative v : validRelativeDirectory v = true → relative v.
Proof.
  unfold validRelativeDirectory. destruct (_ || _) eqn:E; [done|]. intros Hp.
  exists (Split v "/"). split_and!; [|apply Split_not_nil|by rewrite Join_Split].
  rewrite forallb_forall in Hp. apply Forall_forall. intros w Hw. specialize (Hp w). rewrite <- list_elem_of_In in Hp.
  specialize (Hp Hw). bool_simpl. repeat match goal with X : String.eqb _ _ = false |- _ => apply String.eqb_neq in X end.
  split_and!; [done..|]. by eapply Split_no_sep_in.
Qed.

Lemma validLogFilename_plain v : validLogFilename v = true → plain v.
Proof.
  unfold validLogFilename. intros E. bool_simpl.
  repeat match goal with
  | X : String.eqb _ _ = true |- _ => apply String.eqb_eq in X
  | X : String.eqb _ _ = false |- _ => apply String.eqb_neq in X
  | X : ContainsAny _ _ = false |- _ => rewrite ContainsAny_false in X
  end.
  split_and!; try done. intros Hin.
  match goal with X : ∀ c, _ → _ |- _ => apply X in Hin; apply Hin end.
  apply (bool_decide_unpack _). by vm_compute.
Qed.

(** ** The specifications that options make *)

Definition directory_ok (d : option string) : Prop :=
  match d with Some v => v = "" ∨ relative v | None => True end.
Definition log_ok (f : option string) : Prop :=
  match f with Some v => v = "" ∨ plain v | None => True end.

Record options_ok (s : specification) : Prop := {
  ok_runtime : directory_ok (sp_runtimeDir s);
  ok_config : directory_ok (sp_configDir s);
  ok_state : directory_ok (sp_stateDir s);
  ok_log : directory_ok (sp_logDir s);
  ok_stdout : log_ok (sp_stdoutLog s);
  ok_stderr : log_ok (sp_stderrLog s);
  ok_access : ¬ (sp_configWritable s = true ∧ sp_configReadDeclared s = true);
  ok_writable : sp_configWritable s = true → sp_configDir s ≠ None;
}.

Lemma setDirectory_ok label values d : setDirectory label values = inr d → d = "" ∨ relative d.
Proof.
  destruct values as [|v [|]]; cbn; intros E; simplify_eq; [by left|].
  destruct (validRelativeDirectory v) eqn:Ev; simplify_eq/=. right. by apply validRelativeDirectory_relative.
Qed.

Lemma directoryOption_ok label values set s :
  directoryOption label values set = inr s → ∃ d, s = set d ∧ (d = "" ∨ relative d).
Proof.
  unfold directoryOption. destruct (setDirectory label values) as [|d] eqn:E; intros; simplify_eq.
  exists d. split; [done|]. by eapply setDirectory_ok.
Qed.

Lemma logOption_ok label values set s :
  logOption label values set = inr s → ∃ f, s = set f ∧ (f = "" ∨ plain f).
Proof.
  intros E. assert (∃ f, negb (String.eqb f "") && negb (validLogFilename f) = false ∧ s = set f) as (f & Ef & ->).
  { destruct values as [|v [|]]; cbn -[validLogFilename] in E; [|case_match eqn:Ec|done]; simplify_eq;
      eexists; (split; [|reflexivity]); done. }
  exists f. split; [done|]. destruct (String.eqb_spec f ""); [by left|]. right.
  cbn in Ef. apply negb_false_iff in Ef. by apply validLogFilename_plain.
Qed.

Lemma apply_option_ok o s s' : options_ok s → apply_option o s = inr s' → options_ok s'.
Proof.
  intros Hs E. destruct Hs. destruct o; cbn [apply_option] in E; simplify_eq;
    try (case_match; [done|]);
    repeat match goal with
    | X : directoryOption _ _ _ = inr _ |- _ => apply directoryOption_ok in X as (? & -> & ?)
    | X : logOption _ _ _ = inr _ |- _ => apply logOption_ok in X as (? & -> & ?)
    end; constructor; cbn in *; naive_solver.
Qed.

Lemma empty_spec_ok : options_ok empty_spec.
Proof. constructor; cbn; naive_solver. Qed.

Lemma apply_options_ok opts s s' : options_ok s → apply_options opts s = inr s' → options_ok s'.
Proof.
  revert s. induction opts as [|o opts IH]; cbn; intros s Hs E; [by simplify_eq|].
  destruct (apply_option o s) as [|s1] eqn:Eo; [done|]. eapply IH; [|done]. by eapply apply_option_ok.
Qed.

(** The paths of the logs are not known before the directories are. *)
Definition no_streams (s : specification) : Prop := sp_stdout s = "" ∧ sp_stderr s = "".

Lemma apply_option_streams o s s' : no_streams s → apply_option o s = inr s' → no_streams s'.
Proof.
  intros Hs E. destruct o; cbn [apply_option] in E; simplify_eq; try (case_match; [done|]);
    repeat match goal with
    | X : directoryOption _ _ _ = inr _ |- _ => apply directoryOption_ok in X as (? & -> & ?)
    | X : logOption _ _ _ = inr _ |- _ => apply logOption_ok in X as (? & -> & ?)
    end; simplify_eq; exact Hs.
Qed.
Lemma apply_options_streams opts s s' : no_streams s → apply_options opts s = inr s' → no_streams s'.
Proof.
  revert s. induction opts as [|o opts IH]; cbn; intros s Hs E; [by simplify_eq|].
  destruct (apply_option o s) as [|s1] eqn:Eo; [done|]. eapply IH; [|done]. by eapply apply_option_streams.
Qed.

(** ** Names *)

Lemma name_rune_ascii r : 128 ≤ r → name_rune r = false.
Proof.
  intros Hr. unfold name_rune, is_letter_ascii, is_upper_ascii, is_lower_ascii, is_digit_ascii.
  rewrite !(proj2 (in_range_false _ _ _)) by lia.
  repeat match goal with |- context [r =? ?n] => rewrite (proj2 (Z.eqb_neq r n)) by lia end. done.
Qed.

Lemma service_name_bytes v : validServiceName v = true → ∀ c, c ∈ chars v → name_rune (ord c) = true.
Proof.
  unfold validServiceName. destruct (_ || _); [done|]. rewrite (forallb_runes_ascii _ _ name_rune_ascii).
  rewrite forallb_forall. intros Hv c Hc. apply Hv. by apply list_elem_of_In.
Qed.

Lemma service_name_plain v : validServiceName v = true → plain v.
Proof.
  intros Hv. pose proof (service_name_bytes v Hv) as Hb. unfold validServiceName in Hv.
  destruct (_ || _) eqn:E; [done|]. bool_simpl.
  repeat match goal with X : String.eqb _ _ = false |- _ => apply String.eqb_neq in X end.
  split_and!; try done. intros Hin. by specialize (Hb _ Hin).
Qed.

Lemma env_rune_ascii r : 128 ≤ r → env_rune r = false.
Proof.
  intros Hr. unfold env_rune, env_start, is_letter_ascii, is_upper_ascii, is_lower_ascii, is_digit_ascii.
  rewrite !(proj2 (in_range_false _ _ _)) by lia. by rewrite (proj2 (Z.eqb_neq r 95)) by lia.
Qed.

Lemma validEnv_bytes v : validEnv v = true → ∀ c, c ∈ chars v → env_rune (ord c) = true.
Proof.
  intros Hv. assert (forallb env_rune (runes v) = true) as Hf.
  { unfold validEnv in Hv. destruct (runes v) as [|r l]; [done|]. cbn [forallb]. bool_simpl.
    apply andb_true_iff. split; [|done]. unfold env_rune. by apply orb_true_iff; left. }
  rewrite (forallb_runes_ascii _ _ env_rune_ascii), forallb_forall in Hf.
  intros c Hc. apply Hf. by apply list_elem_of_In.
Qed.

Lemma validate_texts s : validate s = None →
  bad_text (sp_description s) = false ∧ bad_text (sp_revision s) = false ∧ bad_env (sp_env s) = false ∧
  Forall (λ a, bad_text a = false) (sp_args s) ∧ validServiceName (sp_name s) = true.
Proof.
  unfold validate. intros Hv. repeat (case_match; [done|]). bool_simpl. split_and!; try done.
  apply Forall_forall. intros a Ha. destruct (bad_text a) eqn:E; [|done].
  match goal with X : existsb bad_text _ = false |- _ => rewrite <- not_true_iff_false in X; destruct X end.
  apply existsb_exists. exists a. split; [by apply list_elem_of_In|done].
Qed.

(** ** Metadata *)
Section metadata.
Context `{MetadataLaws}.

Lemma IndexAny_none_app a b set : (∀ c, c ∈ chars a → c ∉ chars set) →
  IndexAny (a +:+ b) set = (λ n, slen a + n)%nat <$> IndexAny b set.
Proof.
  induction a as [|x a IH]; intros Ha; cbn [String.append IndexAny slen String.length].
  { by destruct (IndexAny b set). }
  assert (in_set set x = false) as ->.
  { apply not_true_iff_false. rewrite in_set_spec. apply Ha. left. }
  rewrite IH by (intros c Hc; apply Ha; by right). by destruct (IndexAny b set).
Qed.

(** A definition that starts with text without the marker, the marker, the
    metadata and a line end or a space. *)
Lemma previous_metadata pre s rest stop :
  (∀ t, Index (pre +:+ marker +:+ t) marker = Some (slen pre)) → stop ∈ chars stops →
  json_text (metadataFor s) →
  previous (pre +:+ marker +:+ metadataComment s +:+ String stop rest) = Some (metadataFor s).
Proof.
  intros Hi Hstop Hj.
  assert (marked (pre +:+ marker +:+ metadataComment s +:+ String stop rest) = Some (metadataComment s)) as Hm.
  { unfold marked. rewrite Hi. cbn -[slen marker stops metadataComment IndexAny stake].
    f_equal. rewrite <- slen_app. rewrite <- (sapp_assoc pre), sdrop_app.
    rewrite IndexAny_none_app.
    - assert (IndexAny (String stop rest) stops = Some O) as ->.
      { cbn [IndexAny]. by rewrite (proj2 (in_set_spec _ _)). }
      cbn. rewrite Nat.add_0_r. apply stake_app.
    - intros c Hc Hin. apply EncodeToString_breaks in Hc. apply Hc.
      revert Hin. unfold stops. rewrite chars_unchars. clear.
      intros Hin. repeat (apply elem_of_cons in Hin as [->|Hin]; [apply (bool_decide_unpack _); by vm_compute|]).
      by apply not_elem_of_nil in Hin. }
  unfold previous. rewrite Hm. cbn. unfold metadataComment. rewrite DecodeString_EncodeToString. cbn.
  by apply Unmarshal_Marshal.
Qed.

(** Why a definition with this metadata is replaced. *)
Definition reason_for (old wanted : definitionMetadata) (r : ChangeReason) : Prop :=
  match r with
  | BinaryChanged => Binary old ≠ Binary wanted
  | ArgumentsChanged => Args old ≠ Args wanted
  | EnvironmentChanged => default ∅ (Environment old) ≠ default ∅ (Environment wanted)
  | LogsChanged => (Stdout old, Stderr old) ≠ (Stdout wanted, Stderr wanted)
  | AccountChanged => Account_ old ≠ Account_ wanted
  | RevisionChanged => Revision old ≠ Revision wanted
  | DefinitionDrift =>
      Description old ≠ Description wanted ∨
      (Binary old = Binary wanted ∧ Args old = Args wanted ∧
       default ∅ (Environment old) = default ∅ (Environment wanted) ∧
       (Stdout old, Stderr old) = (Stdout wanted, Stderr wanted) ∧
       Account_ old = Account_ wanted ∧ Revision old = Revision wanted)
  | Missing | DirectoriesChanged => False
  end.

Lemma elem_of_differ {A} `{EqDecision A} (a b : A) r x : x ∈ differ a b r ↔ x = r ∧ a ≠ b.
Proof. unfold differ. case_bool_decide; set_solver. Qed.
Lemma differ_nil {A} `{EqDecision A} (a b : A) r : differ a b r = [] ↔ a = b.
Proof. unfold differ. by case_bool_decide. Qed.

Lemma metadata_reasons_spec old wanted r : r ∈ metadata_reasons old wanted ↔ reason_for old wanted r.
Proof.
  unfold metadata_reasons. rewrite elem_of_app, !elem_of_app, !elem_of_differ.
  case_bool_decide as E.
  - rewrite !app_nil, !differ_nil in E. destruct E as (E1 & E2 & E3 & E4 & E5 & E6).
    rewrite list_elem_of_singleton. destruct r; cbn; intuition congruence.
  - rewrite elem_of_differ. rewrite !app_nil, !differ_nil in E. destruct r; cbn; intuition congruence.
Qed.

Lemma changeReasons_metadata pre s0 s rest stop r :
  (∀ t, Index (pre +:+ marker +:+ t) marker = Some (slen pre)) → stop ∈ chars stops →
  json_text (metadataFor s0) →
  r ∈ changeReasons (pre +:+ marker +:+ metadataComment s0 +:+ String stop rest) s true false ↔
  reason_for (metadataFor s0) (metadataFor s) r.
Proof.
  intros Hi Hs Hj. unfold changeReasons. cbn [negb]. rewrite previous_metadata by done. apply metadata_reasons_spec.
Qed.
End metadata.

(** * What the rendered definitions say

    Reading the command and the escaped values back, the lines of a unit, and
    the reasons that a rendered definition gives for its replacement. *)
(** ** Quoted words *)

(** The words of a command line: quoted, with a backslash before the byte that
    it takes literally; [Some w] is the word that is being read. *)
Fixpoint command_words (word : option string) (s : string) : option (list string) :=
  match word, s with
  | None, EmptyString => Some []
  | None, String c s' =>
      if Ascii.eqb c " " then command_words None s'
      else if Ascii.eqb c "034" then command_words (Some "") s' else None
  | Some _, EmptyString => None
  | Some w, String c s' =>
      if Ascii.eqb c "\" then
        match s' with
        | String d s'' => command_words (Some (w +:+ String d "")) s''
        | EmptyString => None
        end
      else if Ascii.eqb c "034" then cons w <$> command_words None s'
      else command_words (Some (w +:+ String c "")) s'
  end.

Lemma sapp_cons (c : ascii) (s t : string) : String c s +:+ t = String c (s +:+ t).
Proof. done. Qed.

Lemma command_words_quoted v w s :
  command_words (Some w) (replace_bytes SystemdBackend.quote_byte v +:+ dq +:+ s) =
  cons (w +:+ v) <$> command_words None s.
Proof.
  revert w. induction v as [|c v IH]; intros w; cbn [replace_bytes].
  { by rewrite sapp_nil_r. }
  assert (w +:+ String c v = (w +:+ String c "") +:+ v) as -> by (by rewrite sapp_assoc).
  rewrite <- IH. unfold SystemdBackend.quote_byte.
  destruct (Ascii.eqb_spec c "\") as [->|H1]; [done|]. destruct (Ascii.eqb_spec c "034") as [->|H2]; [done|].
  cbn [String.append command_words]. by rewrite (proj2 (Ascii.eqb_neq c _) H1), (proj2 (Ascii.eqb_neq c _) H2).
Qed.

Lemma command_words_quote v s :
  command_words None (SystemdBackend.quote v +:+ s) = cons v <$> command_words None s.
Proof.
  unfold SystemdBackend.quote, in_quotes. rewrite !sapp_assoc.
  change (command_words None (dq +:+ ?x)) with (command_words (Some "") x). by rewrite command_words_quoted.
Qed.

Lemma text_cons x l : text (x :: l) = x +:+ text l.
Proof. unfold text. destruct l as [|y l]; [by rewrite sapp_nil_r|]. by rewrite Join_cons. Qed.
Lemma text_app l k : text (l ++ k) = text l +:+ text k.
Proof. induction l as [|x l IH]; [done|]. by rewrite <- app_comm_cons, !text_cons, IH, sapp_assoc. Qed.

Lemma command_words_args l : command_words None (SystemdBackend.args l) = Some l.
Proof.
  unfold SystemdBackend.args. induction l as [|x l IH]; [done|]. cbn [map]. rewrite text_cons, sapp_assoc.
  change (command_words None (" " +:+ ?x)) with (command_words None x). rewrite command_words_quote, IH. done.
Qed.

(** ** XML text *)

Definition entity (name : string) : option ascii :=
  if String.eqb name "amp" then Some "&"%char else if String.eqb name "lt" then Some "<"%char
  else if String.eqb name "gt" then Some ">"%char else if String.eqb name "quot" then Some "034"%char
  else if String.eqb name "apos" then Some "039"%char else None.

(** Character data with its entities replaced; [Some n] is the name that is
    being read. *)
Fixpoint character_data (name : option string) (s : string) : option string :=
  match name, s with
  | None, EmptyString => Some ""
  | Some _, EmptyString => None
  | None, String c s' =>
      if Ascii.eqb c "&" then character_data (Some "") s'
      else String c <$> character_data None s'
  | Some n, String c s' =>
      if Ascii.eqb c ";" then x ← entity n; String x <$> character_data None s'
      else character_data (Some (n +:+ String c "")) s'
  end.

Lemma character_data_xml v : character_data None (LaunchdBackend.xml v) = Some v.
Proof.
  unfold LaunchdBackend.xml. induction v as [|c v IH]; [done|]. cbn [replace_bytes].
  assert (character_data None (LaunchdBackend.xml_byte c +:+ replace_bytes LaunchdBackend.xml_byte v) =
          String c <$> character_data None (replace_bytes LaunchdBackend.xml_byte v)) as ->; [|by rewrite IH].
  unfold LaunchdBackend.xml_byte.
  destruct (Ascii.eqb_spec c "&") as [->|H1]; [done|]. destruct (Ascii.eqb_spec c "<") as [->|_]; [done|].
  destruct (Ascii.eqb_spec c ">") as [->|_]; [done|]. destruct (Ascii.eqb_spec c "034") as [->|_]; [done|].
  destruct (Ascii.eqb_spec c "039") as [->|_]; [done|].
  cbn [String.append character_data]. by rewrite (proj2 (Ascii.eqb_neq c _) H1).
Qed.

(** The bytes that end character data or an attribute. *)
Definition markup : list ascii := ["<"; ">"; "034"; "039"]%char.
Lemma xml_no_markup v c : c ∈ chars (LaunchdBackend.xml v) → c ∉ markup.
Proof.
  unfold LaunchdBackend.xml. induction v as [|x v IH]; cbn [replace_bytes]; [by intros ?%not_elem_of_nil|].
  rewrite chars_app, elem_of_app. intros [Hc|Hc]; [|by apply IH].
  clear IH. unfold LaunchdBackend.xml_byte in Hc.
  repeat (destruct (Ascii.eqb _ _) eqn:? in Hc;
          [revert c Hc; apply Forall_forall; apply (bool_decide_unpack _); vm_compute; exact I|]).
  cbn in Hc. apply list_elem_of_singleton in Hc as ->.
  repeat match goal with X : Ascii.eqb _ _ = false |- _ => apply Ascii.eqb_neq in X end.
  unfold markup. intros Hin. repeat (apply elem_of_cons in Hin as [->|Hin]; [done|]). by apply not_elem_of_nil in Hin.
Qed.

(** ** The lines of a unit *)

Lemma Split_lines l : Forall (λ x, "010"%char ∉ chars x) l →
  Split (text (map (λ x, x +:+ nl) l)) "010" = l ++ [""].
Proof.
  induction 1 as [|x l Hx Hl IH]; [done|]. cbn [map]. rewrite text_cons, sapp_assoc.
  change (nl +:+ ?t) with (String "010" t). by rewrite Split_app, IH.
Qed.

(** Text that stays on its line. *)
Definition one_line (v : string) : Prop := "010"%char ∉ chars v.

Ltac one_line_const := apply (bool_decide_unpack _); vm_compute; exact I.

Lemma one_line_app a b : one_line a → one_line b → one_line (a +:+ b).
Proof. unfold one_line. rewrite chars_app, elem_of_app. tauto. Qed.
Lemma one_line_replace f v : (∀ c, c ∈ chars v → one_line (f c)) → one_line (replace_bytes f v).
Proof.
  unfold one_line. induction v as [|c v IH]; cbn [replace_bytes]; [by intros _ ?%not_elem_of_nil|].
  intros Hf. rewrite chars_app, elem_of_app. intros [H|H].
  - eapply Hf, H. left.
  - revert H. apply IH. intros. apply Hf. by right.
Qed.
Lemma one_line_quote v : one_line v → one_line (SystemdBackend.quote v).
Proof.
  intros Hv. unfold SystemdBackend.quote, in_quotes. repeat apply one_line_app; [one_line_const| |one_line_const].
  apply one_line_replace. intros c Hc. unfold SystemdBackend.quote_byte.
  repeat (case_match; [one_line_const|]). unfold one_line. cbn. rewrite list_elem_of_singleton. by intros <-.
Qed.
Lemma one_line_bad_text v : bad_text v = false → one_line v.
Proof.
  unfold bad_text. rewrite ContainsAny_false. intros Hv Hin. apply (Hv _ Hin). one_line_const.
Qed.
Lemma one_line_text l : Forall one_line l → one_line (text l).
Proof.
  induction 1 as [|x l Hx Hl IH]; [one_line_const|]. rewrite text_cons. by apply one_line_app.
Qed.

Section render.
Context `{ServiceHost} `{MetadataLaws}.

Lemma one_line_metadata s : one_line (metadataComment s).
Proof. intros Hin. apply EncodeToString_breaks in Hin. apply Hin. left. Qed.

(** What validation leaves to the caller: the path of the binary, the account
    and the resolved log files. *)
Definition one_line_paths (s : specification) : Prop :=
  one_line (sp_binary s) ∧ one_line (sp_stdout s) ∧ one_line (sp_stderr s) ∧
  (∀ a, sp_account s = Some a → one_line (Account.s_Name a)).

Lemma env_one_line env k v : bad_env env = false → (k, v) ∈ env_list env → one_line (k +:+ "=" +:+ v).
Proof.
  unfold bad_env, env_list. intros Hb Hin. apply list_elem_of_fmap in Hin as (k' & E & Hk). injection E as -> ->.
  rewrite sort_strings_perm in Hk. apply list_elem_of_fmap in Hk as ([k v] & -> & Hkv). cbn [fst].
  rewrite <- not_true_iff_false in Hb. apply elem_of_map_to_list in Hkv as Hl. rewrite Hl. cbn [default].
  assert (negb (validEnv k) || bad_text v = false) as E.
  { apply not_true_iff_false. intros E. apply Hb, existsb_exists. exists (k, v).
    split; [by apply list_elem_of_In|done]. }
  apply orb_false_iff in E as [Hk Hv]. apply negb_false_iff in Hk.
  repeat apply one_line_app; [|one_line_const|by apply one_line_bad_text].
  intros Hin. by apply (validEnv_bytes _ Hk) in Hin.
Qed.

Lemma one_line_when (b : bool) v : one_line v → Forall one_line (if b then [v] else []).
Proof. destruct b; auto. Qed.

Lemma unit_lines_one_line o :
  validate (op_spec o) = None → one_line_paths (op_spec o) → Forall one_line (SystemdBackend.unit_lines o).
Proof.
  intros Hv (Hb & Ho & He & Ha). apply validate_texts in Hv as (Hd & Hr & Henv & Hargs & _).
  assert (∀ l v, one_line l → one_line v → one_line (l +:+ v)) as Hl by (intros; by apply one_line_app).
  unfold SystemdBackend.unit_lines. repeat (apply Forall_app; split).
  - constructor; [|done]. apply Hl; [one_line_const|apply one_line_metadata].
  - apply one_line_when, Hl; [one_line_const|by apply one_line_bad_text].
  - repeat (apply Forall_cons; split); try one_line_const; try done.
    + apply Hl; [one_line_const|by apply one_line_bad_text].
    + apply Hl; [one_line_const|]. apply Hl; [by apply one_line_quote|]. apply one_line_text.
      apply Forall_map. eapply Forall_impl; [exact Hargs|]. intros a Harg. apply Hl; [one_line_const|].
      by apply one_line_quote, one_line_bad_text.
    + apply Hl; [one_line_const|]. unfold SystemdBackend.restart_text. repeat case_match; one_line_const.
  - destruct (runs_as o) as [n|] eqn:Er; [|done]. constructor; [|done]. apply Hl; [one_line_const|].
    unfold runs_as in Er. destruct (_ =? System); [|done].
    destruct (sp_account (op_spec o)) as [a|]; [|done]. injection Er as <-. by apply Ha.
  - apply Forall_map, Forall_forall. intros [k v] Hin. apply Hl; [one_line_const|].
    apply one_line_quote. by eapply env_one_line.
  - apply one_line_when, Hl; [one_line_const|done].
  - apply one_line_when, Hl; [one_line_const|done].
  - repeat (apply Forall_cons; split); try one_line_const; try done.
    apply Hl; [one_line_const|]. case_match; one_line_const.
Qed.

(** Nothing that a service declares adds a line to its unit.  When
    validation accepts the specification, and the path of the binary, the
    account's name and the log files have no line end, the unit consists of
    exactly the intended lines, whatever the description, the arguments, the
    environment and the revision contain. *)
Theorem unit_has_its_lines o :
  validate (op_spec o) = None → one_line_paths (op_spec o) →
  Split (SystemdBackend.renderSystemd o) "010" = SystemdBackend.unit_lines o ++ [""].
Proof. intros Hv Hp. by apply Split_lines, unit_lines_one_line. Qed.

(** The definition of an operation on either platform. *)
Definition rendered (o : operation) (d : string) : Prop :=
  d = SystemdBackend.renderSystemd o ∨ d = LaunchdBackend.plist o.

Lemma text_lines_cons x l : text (map (λ l, l +:+ nl) (x :: l)) = x +:+ String "010" (text (map (λ l, l +:+ nl) l)).
Proof. cbn [map]. by rewrite text_cons, sapp_assoc. Qed.

Definition plist_start : string :=
  "<?xml version=" +:+ in_quotes "1.0" +:+ " encoding=" +:+ in_quotes "UTF-8" +:+ "?>" +:+ nl +:+ "<!-- ".

Lemma unit_start o : ∃ rest, SystemdBackend.renderSystemd o =
  "# " +:+ marker +:+ metadataComment (op_spec o) +:+ String "010" rest.
Proof.
  eexists. unfold SystemdBackend.renderSystemd, SystemdBackend.unit_lines. cbn [app]. rewrite text_lines_cons.
  reflexivity.
Qed.
Lemma plist_starts o : ∃ rest, LaunchdBackend.plist o =
  plist_start +:+ marker +:+ metadataComment (op_spec o) +:+ String " " rest.
Proof.
  eexists. unfold LaunchdBackend.plist, LaunchdBackend.plist_lines. cbn [app]. rewrite !text_lines_cons.
  unfold LaunchdBackend.comment, plist_start. rewrite !sapp_assoc. reflexivity.
Qed.

(** A definition tells why it has to be replaced.  The reasons that are
    read off the unit or the property list of an earlier specification are
    exactly the differences between that specification and the wanted one; a
    difference that has no reason of its own is reported as drift. *)
Theorem rendered_reasons o d s r :
  rendered o d → json_text (metadataFor (op_spec o)) →
  r ∈ changeReasons d s true false ↔ reason_for (metadataFor (op_spec o)) (metadataFor s) r.
Proof.
  intros [-> | ->] Hj.
  - destruct (unit_start o) as [rest ->]. apply changeReasons_metadata; [by intros t| |done].
    apply (bool_decide_unpack _). by vm_compute.
  - destruct (plist_starts o) as [rest ->]. apply changeReasons_metadata; [by intros t| |done].
    apply (bool_decide_unpack _). by vm_compute.
Qed.

(** Arguments are read back.  The command of a unit consists of the binary
    and the arguments, each quoted so that a reader of quoted words finds
    exactly them; and a value in a property list contains no markup and stands
    for itself. *)
Theorem arguments_read_back s v :
  command_words None (SystemdBackend.quote (sp_binary s) +:+ SystemdBackend.args (sp_args s)) =
    Some (sp_binary s :: sp_args s) ∧
  character_data None (LaunchdBackend.xml v) = Some v ∧
  (∀ c, c ∈ chars (LaunchdBackend.xml v) → c ∉ markup).
Proof.
  split; [|split; [apply character_data_xml|apply xml_no_markup]].
  by rewrite command_words_quote, command_words_args.
Qed.
End render.
