(* ===== verification/ServiceDirectoryFacts.v ===== *)
(** * The directories of a service

    Where they are, that making them has checked them, and what is removed. *)
From S2P Require Import Prelude.
From S2P Require Import GoStrings.
From S2P Require Import GoPath.
From S2P Require Import Utf8.
From S2P Require Import Errors.
From S2P Require Account.
From S2P Require Import Service.
From S2P Require Import ServiceFiles.
From S2P Require Import ServicePlatforms.
From S2P Require Import ServiceOperation.
From S2P Require Import ServiceFacts.
#[local] Open Scope stdpp_scope.
#[local] Open Scope Z_scope.

(** ** Strictly below a directory *)

Definition below (base p : string) : Prop :=
  ∃ l r, Forall plain l ∧ base = abs_path l ∧ Forall plain r ∧ r ≠ [] ∧ p = abs_path (l ++ r).

Definition rooted (base : string) : Prop := ∃ l, Forall plain l ∧ base = abs_path l.

Lemma plain_relative n : plain n → relative n.
Proof. intros Hn. exists [n]. split_and!; [by constructor|done|done]. Qed.

Lemma PJoin_relative base v : rooted base → relative v → below base (PJoin [base; v]).
Proof.
  intros (l & Hl & ->) (r & Hr & Hne & ->). exists l, r. rewrite PJoin_below by done. done.
Qed.
Lemma below_rooted base p : below base p → rooted p.
Proof. intros (l & r & Hl & _ & Hr & _ & ->). exists (l ++ r). split; [by apply Forall_app|done]. Qed.
Lemma below_trans a b c : below a b → below b c → below a c.
Proof.
  intros (l & r & Hl & -> & Hr & Hne & ->) (k & t & Hk & E & Ht & Htne & ->).
  apply abs_path_inj in E as <-; [|by apply Forall_app|done]. exists l, (r ++ t).
  rewrite <- app_assoc. split_and!; try done; [by apply Forall_app|]. by intros [? ?]%app_eq_nil.
Qed.

Lemma hidden_plain n : plain n → plain ("." +:+ n).
Proof.
  intros (H1 & H2 & _ & H4). cbn. split_and!; try done.
  - intros E. injection E. done.
  - intros E. injection E as E. by rewrite E in H2.
  - intros [?|?]%elem_of_cons; done.
Qed.

(** ** Where the directories are *)

Definition bases_list (bases : AppDirectories) : list string :=
  [Runtime bases; Config bases; State bases; Logs bases].
Definition paths_list (d : managedDirectories) : list string := bases_list (d_paths d).
Definition declared_list (d : managedDirectories) : list bool := [d_runtime d; d_config d; d_state d; d_logs d].

Lemma or_name_relative name fallback :
  name = "" ∨ relative name → plain fallback → relative (or_name name fallback).
Proof.
  unfold or_name. destruct (String.eqb_spec name "") as [->|]; [intros _; apply plain_relative|naive_solver].
Qed.
Lemma value_ok d : directory_ok d → value d = "" ∨ relative (value d).
Proof. destruct d; cbn; auto. Qed.

Section resolve.
Context (s : specification) (Hs : options_ok s) (Hn : plain (sp_name s)).

Lemma configName_relative : relative (configName s).
Proof.
  assert (relative ("." +:+ sp_name s)) as Hd by (by apply plain_relative, hidden_plain).
  assert (relative (sp_name s)) as Hr by (by apply plain_relative).
  pose proof (ok_config s Hs) as Hc. unfold configName.
  destruct (_ && _); [done|]. destruct (sp_configDir s) as [d|]; [|done].
  destruct (String.eqb_spec d ""); [done|]. cbn in Hc. naive_solver.
Qed.

(** A declared directory is strictly below a base directory of the platform;
    another one has no path. *)
Definition placed (bases : AppDirectories) (p : string) (declared : bool) : Prop :=
  if declared then Exists (λ base, below base p) (bases_list bases) else p = "".

Lemma resolve_placed bases :
  Forall rooted (bases_list bases) →
  Forall2 (placed bases) (paths_list (resolve_in s bases)) (declared_list (resolve_in s bases)).
Proof.
  unfold bases_list. intros Hb. rewrite !Forall_cons in Hb. destruct Hb as (Hbr & Hbc & Hbs & Hbl & _).
  assert (∀ child, plain child → ∀ d, directory_ok d → relative (userChild (value d) child)) as Hchild
    by (intros; apply or_name_relative; [by apply value_ok|done]).
  assert (∀ base d, rooted base → directory_ok d → below base (directoryPath s base (value d))) as Hsys
    by (intros; apply PJoin_relative; [done|apply or_name_relative; [by apply value_ok|done]]).
  assert (below (Config bases) (PJoin [Config bases; configName s])) as Hconf
    by (by apply PJoin_relative, configName_relative).
  assert (∀ child d, plain child → directory_ok d →
    below (Config bases) (PJoin [PJoin [Config bases; configName s]; userChild (value d) child])) as Huser.
  { intros child d Hc Hd. eapply below_trans; [exact Hconf|]. apply PJoin_relative; [by eapply below_rooted|auto]. }
  assert (plain "run" ∧ plain "lib" ∧ plain "log") as (Hrun & Hlib & Hlog).
  { split_and!; try done; apply (bool_decide_unpack _); by vm_compute. }
  destruct Hs. unfold resolve_in, paths_list, declared_list, placed, bases_list.
  cbn [d_paths d_runtime d_config d_state d_logs Runtime Config State Logs]. rewrite !Forall2_cons, Forall2_nil.
  split_and!; try done; destruct (sp_scope s =? User); cbn [orb]; try destruct (given _) eqn:?;
    try destruct (any_log s) eqn:?; cbn [negb]; try done; rewrite !Exists_cons; auto 6.
Qed.
End resolve.

(** The base directories of a platform are absolute and clean. *)
Lemma platform_bases `{ServiceHost} `{MetadataJSON} os b scope home bases :
  platformBackend os = inr b → bk_directoryBases b scope home = inr bases → Forall rooted (bases_list bases).
Proof.
  assert (∀ system, bases_for system scope home = inr bases →
    Forall rooted (bases_list system) → Forall rooted (bases_list bases)) as Hf.
  { intros system. unfold bases_for, userDirectoryBases. destruct (scope =? User).
    - destruct (_ || _) eqn:E; [done|]. intros [= <-] _. bool_simpl.
      assert (rooted home) as Hh.
      { apply clean_abs_iff. split; [done|by apply String.eqb_eq]. }
      unfold bases_list. cbn. auto 6.
    - destruct (_ =? _); [|done]. by intros [= <-]. }
  assert (∀ p, IsAbs p = true → Clean p = p → rooted p) as Hr by (intros; by apply clean_abs_iff).
  unfold platformBackend. intros Eb E.
  destruct (String.eqb os "linux"); [|destruct (String.eqb os "darwin"); [|done]]; injection Eb as <-;
    (eapply Hf; [exact E|]); unfold bases_list; cbn [Runtime Config State Logs];
    repeat apply List.Forall_cons; try apply List.Forall_nil; apply Hr; by vm_compute.
Qed.

(** ** Which directories contain one another *)

(** The directories that a purge can be asked for. *)
Inductive persistent := PConfig | PState | PLogs.
#[global] Instance persistent_eq_dec : EqDecision persistent.
Proof. solve_decision. Defined.

Definition declares (d : managedDirectories) (k : persistent) : bool :=
  match k with PConfig => d_config d | PState => d_state d | PLogs => d_logs d end.
Definition location (d : managedDirectories) (k : persistent) : string :=
  match k with PConfig => Config (d_paths d) | PState => State (d_paths d) | PLogs => Logs (d_paths d) end.
Definition base_of (bases : AppDirectories) (k : persistent) : string :=
  match k with PConfig => Config bases | PState => State bases | PLogs => Logs bases end.

(** [contains p q]: removing [p] removes [q]. *)
Definition contains (p q : string) : Prop := q = p ∨ below p q.

(** The pairs of directories that their names may nest in one another: the state
    and the logs of a user, which are both in the configuration, and the
    configuration and the state of a system service on macOS, which have one
    base. *)
Definition may_overlap (os : string) (scope : Scope_) (k k' : persistent) : Prop :=
  (scope = User ∧ k ≠ PConfig ∧ k' ≠ PConfig) ∨ (scope = System ∧ os = "darwin" ∧ k ≠ PLogs ∧ k' ≠ PLogs).

Lemma below_contains a p q : below a p → contains p q → below a q.
Proof. intros Ha [->|Hq]; [done|by eapply below_trans]. Qed.
Lemma below_irrefl p : ¬ below p p.
Proof.
  intros (l & r & Hl & -> & Hr & Hne & E). apply abs_path_inj in E; [|done|by apply Forall_app].
  apply Hne. by apply (app_inv_head l); rewrite app_nil_r.
Qed.

Lemma below_apart l k p : Forall plain l → Forall plain k → ¬ l `prefix_of` k → ¬ k `prefix_of` l →
  below (abs_path l) p → below (abs_path k) p → False.
Proof.
  intros Hl Hk Hlk Hkl (l' & r & Hl' & El & Hr & _ & ->) (k' & t & Hk' & Ek & Ht & _ & E).
  apply abs_path_inj in El as <-, Ek as <-; try done. apply abs_path_inj in E; [|by apply Forall_app..].
  destruct (prefix_weak_total l k (l ++ r)); [by apply prefix_app_r|rewrite E; by apply prefix_app_r|done..].
Qed.

Section layout.
Context `{ServiceHost} `{MetadataJSON} (s : specification) (Hs : options_ok s) (Hn : plain (sp_name s)).

Lemma user_child bases k : sp_scope s = User → rooted (Config bases) → declares (resolve_in s bases) k = true →
  k ≠ PConfig → below (Config (d_paths (resolve_in s bases))) (location (resolve_in s bases) k).
Proof.
  intros Hu Hb. unfold resolve_in, declares, location. cbn [d_paths d_config d_state d_logs Config State Logs].
  rewrite Hu. cbn [orb]. change (User =? User) with true. cbn [orb].
  assert (rooted (PJoin [Config bases; configName s])) as Hc.
  { eapply below_rooted, PJoin_relative; [done|]. by apply configName_relative. }
  assert (plain "lib" ∧ plain "log") as [Hlib Hlog].
  { split; (split_and!; [done..|]); apply (bool_decide_unpack _); by vm_compute. }
  destruct Hs, k; [done|intros -> _..]; cbn [negb]; apply PJoin_relative; try done;
    (apply or_name_relative; [by apply value_ok|done]).
Qed.

Lemma system_child bases k : sp_scope s = System → rooted (base_of bases k) → declares (resolve_in s bases) k = true →
  below (base_of bases k) (location (resolve_in s bases) k).
Proof.
  intros Hu Hb. unfold resolve_in, declares, location, base_of in *. cbn [d_paths d_config d_state d_logs Config State Logs].
  rewrite Hu. change (System =? User) with false. cbn [orb].
  destruct Hs, k; intros ->; cbn [negb]; apply PJoin_relative; try done;
    first [by apply configName_relative|apply or_name_relative; [by apply value_ok|done]].
Qed.

(** The bases of two directories of a system service are apart, but those of
    the configuration and the state on macOS. *)
Lemma system_apart os b home bases k k' p : platformBackend os = inr b →
  bk_directoryBases b System home = inr bases → k ≠ k' → ¬ may_overlap os System k k' →
  below (base_of bases k) p → below (base_of bases k') p → False.
Proof.
  intros Eb E Hne Hov.
  assert (∀ l m, bool_decide (Forall plain l ∧ Forall plain m ∧ ¬ l `prefix_of` m ∧ ¬ m `prefix_of` l) = true →
    below (abs_path l) p → below (abs_path m) p → False) as Hap.
  { intros l m Hb. apply bool_decide_eq_true in Hb as (?&?&?&?). by apply below_apart. }
  unfold platformBackend in Eb.
  destruct (String.eqb_spec os "linux") as [->|]; [|destruct (String.eqb_spec os "darwin") as [->|]; [|done]];
    injection Eb as <-; cbn in E; injection E as <-.
  - destruct k, k'; try done; cbn [base_of Config State Logs].
    + by apply (Hap ["etc"] ["var"; "lib"]).
    + by apply (Hap ["etc"] ["var"; "log"]).
    + by apply (Hap ["var"; "lib"] ["etc"]).
    + by apply (Hap ["var"; "lib"] ["var"; "log"]).
    + by apply (Hap ["var"; "log"] ["etc"]).
    + by apply (Hap ["var"; "log"] ["var"; "lib"]).
  - destruct k, k'; try done; cbn [base_of Config State Logs];
      first [by apply (Hap ["Library"; "Application Support"] ["Library"; "Logs"])
            |by apply (Hap ["Library"; "Logs"] ["Library"; "Application Support"])
            |exfalso; apply Hov; right; done].
Qed.
End layout.

(** ** What is removed *)
Section removal.
Context `{ServiceHost} `{MetadataJSON}.

Definition is_directory (answer : sys_error + option FileInfo) : Prop :=
  ∃ i, answer = inr (Some i) ∧ fi_kind i = Directory.

Lemma removable_run c h r h' : removable c () h = (r, h') →
  h' = h ++ [Lstat c] ∧ (r = inr () → is_directory (sv_stat h (Lstat c))).
Proof.
  unfold removable, lstat. intros E. inv_run E. unfold perform in E0. injection E0 as <- <-.
  injection E as <- <-. split; [done|]. destruct (sv_stat h (Lstat c)) as [e|[i|]]; try done.
  unfold real_directory. case_bool_decide; [|done]. intros _. by exists i.
Qed.

Lemma removable_all parts h r h' : for_each removable parts () h = (r, h') →
  match r with
  | inr _ => h' = h ++ map Lstat parts ∧
             ∀ i c, parts !! i = Some c → is_directory (sv_stat (h ++ map Lstat (take i parts)) (Lstat c))
  | inl _ => ∃ n, h' = h ++ map Lstat (take n parts)
  end.
Proof.
  revert h. induction parts as [|c parts IH]; intros h; cbn [for_each].
  { intros [= <- <-]. cbn. by rewrite app_nil_r. }
  intros E. inv_run E. apply removable_run in E0 as [-> Hd]. destruct r0 as [e|[]].
  { injection E as <- <-. by exists 1%nat. }
  apply IH in E. destruct r as [e|u].
  - destruct E as [n ->]. exists (S n). cbn. by rewrite <- app_assoc.
  - destruct E as [-> Hall]. split; [cbn; by rewrite <- app_assoc|].
    intros [|i] x; cbn; [intros [= <-]; rewrite app_nil_r; by apply Hd|].
    intros Hx. apply Hall in Hx. by rewrite <- app_assoc in Hx.
Qed.

(** no link is followed into a removal.  [cleanupManaged] either only
    looks, or has seen a real directory at every component of the path, in
    order, and then removes exactly that path. *)
Theorem cleanup_checks_path path h r h' :
  cleanupManaged path h = (r, h') →
  (∃ n, h' = h ++ map Lstat (take n (splitAbsolute path))) ∨
  (h' = h ++ map Lstat (splitAbsolute path) ++ [RemoveAll path] ∧
   ∀ i c, splitAbsolute path !! i = Some c →
     is_directory (sv_stat (h ++ map Lstat (take i (splitAbsolute path))) (Lstat c))).
Proof.
  unfold cleanupManaged. destruct (String.eqb path "").
  { intros [= <- <-]. left. exists O. cbn. by rewrite app_nil_r. }
  intros E. inv_run E. apply removable_all in E0. destruct r0 as [e|u].
  - injection E as <- <-. by left.
  - right. destruct E0 as [-> Hall]. inv_run E. unfold os_do, perform in E0. injection E0 as <- <-.
    injection E as <- <-. by rewrite <- app_assoc.
Qed.

(** ** Purging *)

Definition chosen (options : PurgeOptions) (k : persistent) : bool :=
  match k with PConfig => purge_Config options | PState => purge_State options | PLogs => purge_Logs options end.

(** The paths that a purge may remove. *)
Definition selected (d : managedDirectories) (options : PurgeOptions) (p : string) : Prop :=
  ∃ k, chosen options k = true ∧ declares d k = true ∧ p = location d k.

(** Every component of the path was just seen to be a real directory. *)
Definition vetted (h : history) (p : string) : Prop :=
  ∃ h0, h = h0 ++ map Lstat (splitAbsolute p) ∧
    ∀ i c, splitAbsolute p !! i = Some c → is_directory (sv_stat (h0 ++ map Lstat (take i (splitAbsolute p))) (Lstat c)).

(** [confined P h h']: from [h] to [h'], the context and paths are looked at, and
    what is removed has [P] and was vetted right before. *)
Inductive confined (P : string → Prop) (h : history) : history → Prop :=
  | confined_nil : confined P h h
  | confined_ctx h' : confined P h h' → confined P h (h' ++ [CtxErr])
  | confined_look h' p : confined P h h' → confined P h (h' ++ [Lstat p])
  | confined_remove h' p : confined P h h' → vetted h' p → P p → confined P h (h' ++ [RemoveAll p]).
#[local] Hint Constructors confined : core.

(** The path was removed, or a component of it was not there. *)
Definition gone (h : history) (p : string) : Prop :=
  ∃ a c b, h = a ++ c :: b ∧
    ((c = RemoveAll p ∧ sv_do a c = None) ∨ ∃ x, x ∈ splitAbsolute p ∧ c = Lstat x ∧ sv_stat a c = inl ErrNotExist).

Lemma confined_trans P h h1 h2 : confined P h h1 → confined P h1 h2 → confined P h h2.
Proof. intros H1 H2. induction H2; auto. Qed.
Lemma confined_extends P h h' : confined P h h' → ∃ t, h' = h ++ t.
Proof.
  intros Hc. induction Hc as [|h' _ (t & ->)|h' p _ (t & ->)|h' p _ (t & ->)]; [exists []; by rewrite app_nil_r|..];
    eexists; by rewrite <- app_assoc.
Qed.
Lemma confined_mono (P Q : string → Prop) h h' : (∀ p, P p → Q p) → confined P h h' → confined Q h h'.
Proof. intros HPQ Hc. induction Hc; auto. Qed.
Lemma confined_looks P h l : confined P h (h ++ map Lstat l).
Proof.
  induction l as [|p l IH] using rev_ind; [rewrite app_nil_r; auto|]. rewrite map_app, app_assoc. by constructor.
Qed.
Lemma gone_app h t p : gone h p → gone (h ++ t) p.
Proof. intros (a & c & b & -> & Hc). exists a, c, (b ++ t). split; [by rewrite <- app_assoc|done]. Qed.

Lemma removable_missing parts h h' : for_each removable parts () h = (inl None, h') →
  ∃ a x b, h' = a ++ Lstat x :: b ∧ x ∈ parts ∧ sv_stat a (Lstat x) = inl ErrNotExist.
Proof.
  revert h. induction parts as [|c parts IH]; intros h; cbn [for_each]; [done|].
  unfold removable at 1, lstat. intros E. inv_run E. inv_run E0. unfold perform in E1. injection E1 as <- <-.
  injection E0 as Er <-. destruct (sv_stat h (Lstat c)) as [e|info] eqn:Es.
  - case_bool_decide as He; subst r; [|done]. injection E as <-. exists h, c, []. subst e. split_and!; [done|left|done].
  - destruct (real_directory info); subst r; [|done].
    apply IH in E as (a & x & t & -> & Hx & Hs). exists a, x, t. split_and!; [done|by right|done].
Qed.

Lemma cleanup_confined (P : string → Prop) path h r h' : path ≠ "" → P path → cleanupManaged path h = (r, h') →
  confined P h h' ∧ (r = None → gone h' path).
Proof.
  intros Hne HP E. split.
  - apply cleanup_checks_path in E as [[n ->]|[-> Hd]]; [apply confined_looks|]. rewrite app_assoc.
    apply confined_remove; [apply confined_looks|by exists h|done].
  - intros ->. unfold cleanupManaged in E. rewrite (proj2 (String.eqb_neq _ _) Hne) in E. inv_run E. destruct r as [e|u].
    + injection E as -> <-. apply removable_missing in E0 as (a & x & t & -> & Hx & Hs).
      exists a, (Lstat x), t. split; [done|]. right. by exists x.
    + inv_run E. unfold os_do, perform in E1. injection E1 as <- <-. injection E as E <-.
      exists h0, (RemoveAll path), []. split; [done|]. left. split; [done|]. by destruct (sv_do _ _).
Qed.

Lemma purge_items_confined (P : string → Prop) items :
  (∀ p, (true, true, p) ∈ items → p ≠ "" ∧ P p) → ∀ h r h', for_each purge_item items () h = (r, h') →
  confined P h h' ∧ (r = inr () → ∀ declared p, (true, declared, p) ∈ items → declared = true ∧ gone h' p).
Proof.
  induction items as [|[[sel dec] p] items IH]; intros HP h r h'; cbn [for_each].
  { intros [= <- <-]. split; [auto|]. intros _ ? ? []%not_elem_of_nil. }
  assert (∀ q, (true, true, q) ∈ items → q ≠ "" ∧ P q) as HP' by (intros; apply HP; by right).
  intros E. inv_run E. unfold purge_item in E0. destruct sel; cbn [negb] in E0.
  2: { injection E0 as <- <-. apply IH in E as [Hc Hg]; [|done]. split; [done|]. intros Hr declared q [[=]|Hin]%elem_of_cons; eauto. }
  destruct dec; cbn [negb] in E0; [|injection E0 as <- <-; injection E as <- <-; split; [auto|done]].
  destruct (HP p) as [Hne Hp]; [left|]. inv_run E0. apply (cleanup_confined P) in E1 as [Hc Hg]; [|done..].
  destruct r1 as [e|]; injection E0 as <- <-; [injection E as <- <-; split; [auto|done]|].
  apply IH in E as [Hc' Hg']; [|done]. split; [by eapply confined_trans|]. intros Hr declared q [[= -> ->]|Hin]%elem_of_cons; [|auto].
  split; [done|]. apply confined_extends in Hc' as [t ->]. by apply gone_app, Hg.
Qed.

Lemma resolve_directories_placed os b s home d :
  platformBackend os = inr b → options_ok s → plain (sp_name s) →
  resolveDirectories s b home = inr d →
  ∃ bases, Forall2 (placed bases) (paths_list d) (declared_list d) ∧
    (bk_directoryBases b (sp_scope s) home = inr bases ∨ Forall (λ p, p = "") (paths_list d)).
Proof.
  intros Eb Hs Hn. unfold resolveDirectories. destruct (any_directory s); cbn [negb].
  - destruct (bk_directoryBases b (sp_scope s) home) as [e|bases] eqn:E; [done|]. intros [= <-].
    exists bases. split; [|by left]. apply resolve_placed; [done..|]. by eapply platform_bases.
  - intros [= <-]. exists no_directories. split; [by repeat constructor|right; by repeat constructor].
Qed.

(** What a purge keeps: a directory that is declared and was not chosen is not
    removed with one that was. *)
Lemma purge_keeps os b o options home d bases k k' :
  platformBackend os = inr b → options_ok (op_spec o) → plain (sp_name (op_spec o)) →
  bk_directoryBases b (sp_scope (op_spec o)) home = inr bases → d = resolve_in (op_spec o) bases →
  purge_refused o d options = false → chosen options k = true → declares d k = true →
  chosen options k' = false → declares d k' = true → contains (location d k) (location d k') →
  may_overlap os (sp_scope (op_spec o)) k k'.
Proof.
  intros Eb Hs Hn E -> Hr Hk Dk Hk' Dk' Hc. pose proof (platform_bases _ _ _ _ _ Eb E) as Hb.
  assert (∀ x, rooted (base_of bases x)) as Hroot.
  { unfold bases_list in Hb. rewrite !Forall_cons in Hb. destruct Hb as (_ & ? & ? & ? & _). by intros []. }
  assert (k ≠ k') as Hne by (intros ->; congruence).
  assert (sp_scope (op_spec o) = User ∨ sp_scope (op_spec o) = System) as [Hu|Hu].
  { unfold platformBackend in Eb. destruct (String.eqb os "linux"); [|destruct (String.eqb os "darwin"); [|done]];
      injection Eb as <-; cbn in E; unfold SystemdBackend.directoryBases, LaunchdBackend.directoryBases, bases_for in E;
      (destruct (Z.eqb_spec (sp_scope (op_spec o)) User); [by left|]);
      (destruct (Z.eqb_spec (sp_scope (op_spec o)) System); [by right|done]). }
  - left. split; [done|]. split; intros ->.
    + unfold purge_refused in Hr. rewrite Hu in Hr. change (User =? User) with true in Hr. cbn [chosen] in Hk. rewrite Hk in Hr.
      cbn [andb] in Hr. bool_simpl. repeat match goal with X : (_ || _) = false |- _ => apply orb_false_iff in X as [? ?] end.
      destruct k'; cbn [chosen declares] in *; [congruence|..]; rewrite Hk', Dk' in *; done.
    + eapply (below_irrefl (Config (d_paths (resolve_in (op_spec o) bases)))), below_contains; [|exact Hc].
      apply user_child; done || apply (Hroot PConfig).
  - destruct (decide (k ≠ PLogs ∧ k' ≠ PLogs ∧ os = "darwin")) as [(?&?&?)|Hov]; [by right|]. exfalso.
    assert (below (base_of bases k) (location (resolve_in (op_spec o) bases) k')) as Hb1.
    { eapply below_contains; [|exact Hc]. by apply system_child. }
    rewrite Hu in E. eapply (system_apart os b home bases k k'); [done..| |exact Hb1|by apply system_child].
    intros [[? _]|(_&?&?&?)]; [done|tauto].
Qed.

End removal.

(** ** Making them *)
Section reconcile.
Context `{ServiceHost}.

(** The system was asked about the path at some point, and a real directory
    with this owner and mode was there. *)
Definition seen (path : string) (uid gid mode : Z) : Prop :=
  ∃ h i, sv_stat h (Lstat path) = inr (Some i) ∧ fi_kind i = Directory ∧
    fi_owner i = Some (uid, gid) ∧ perm (fi_perm i) = perm mode.

Lemma verify_seen path uid gid mode h h' :
  verifyManagedDirectory path uid gid mode h = (None, h') → seen path uid gid mode.
Proof.
  unfold verifyManagedDirectory, lstat. intros E. inv_run E. unfold perform in E0. injection E0 as Hr _.
  destruct r as [e|info]; [done|]. injection E as E _. unfold verify_info, real_directory, settled in E.
  destruct info as [i|]; [|done]. case_bool_decide; [|done].
  destruct (fi_owner i) as [[u g]|] eqn:Eo; [|done]. cbn in E.
  destruct (_ && _) eqn:Eb; [|done]. bool_simpl.
  repeat match goal with X : (_ =? _) = true |- _ => apply Z.eqb_eq in X; subst end.
  exists h, i. done.
Qed.

Lemma reconcile_directory_ok s writable uid gid path config changes h changes' h' :
  reconcile_directory s writable uid gid (path, config) changes h = (inr changes', h') →
  (path ≠ "" → seen path (directory_owner s uid) gid (directory_mode s config writable)) ∧
  ∃ new, changes' = changes ++ new ∧ Forall (λ c, Path c = path) new.
Proof.
  unfold reconcile_directory. destruct (String.eqb_spec path "") as [->|Hne].
  { intros [= <- <-]. split; [done|]. exists []. by rewrite app_nil_r. }
  intros E. inv_run E. destruct r as [e|needed]; [done|]. inv_run E. destruct r as [e|created]; [done|].
  inv_run E. destruct r as [e|]; [done|]. apply verify_seen in E2. injection E as <- <-. split; [done|].
  destruct (_ || _); [by eexists; split; [reflexivity|constructor]|]. exists []. by rewrite app_nil_r.
Qed.

Lemma reconcile_directories_ok s writable uid gid items changes h changes' h' :
  for_each (reconcile_directory s writable uid gid) items changes h = (inr changes', h') →
  Forall (λ '(path, config), path ≠ "" →
    seen path (directory_owner s uid) gid (directory_mode s config writable)) items ∧
  ∃ new, changes' = changes ++ new ∧ Forall (λ c, Path c ∈ map fst items) new.
Proof.
  revert changes h. induction items as [|[path config] items IH]; intros changes h; cbn [for_each].
  { intros [= <- <-]. split; [done|]. exists []. by rewrite app_nil_r. }
  intros E. inv_run E. destruct r as [x|c1]; [done|].
  apply reconcile_directory_ok in E0 as (Hs & new & -> & Hnew).
  apply IH in E as (Hall & new' & -> & Hnew'). split; [by constructor|].
  exists (new ++ new'). rewrite app_assoc. split; [done|]. apply Forall_app. split.
  - eapply Forall_impl; [exact Hnew|]. intros c ->. left.
  - eapply Forall_impl; [exact Hnew'|]. intros c Hc. by right.
Qed.

(** Where a log goes that was asked for. *)
Definition log_path (d : managedDirectories) (request : option string) (name current : string) : string :=
  match request with
  | Some f => if d_logs d then resolvedLogPath (Logs (d_paths d)) f name else current
  | None => current
  end.

Lemma reconcile_log_ok logs uid gid request name set s h s' h' :
  reconcile_log logs uid gid request name set s h = (inr s', h') →
  s' = match request with Some f => set (resolvedLogPath logs f name) s | None => s end.
Proof.
  unfold reconcile_log. destruct request as [f|]; [|by intros [= <- <-]].
  intros E. inv_run E. destruct r; [done|]. by injection E as <- <-.
Qed.

(** Each declared directory was seen with the owner, the group and the mode that
    its kind and the scope ask for. *)
Definition directories_seen (s : specification) (d : managedDirectories) (u g : Z) : Prop :=
  Forall (λ '(path, config), path ≠ "" →
    seen path (directory_owner s u) g (directory_mode s config (d_configWritable d))) (directory_items d).

(** The specification with the resolved paths of the logs. *)
Definition with_logs (d : managedDirectories) (s : specification) : specification :=
  set_streams (log_path d (sp_stdoutLog s) "out.log" (sp_stdout s))
              (log_path d (sp_stderrLog s) "err.log" (sp_stderr s)) s.

Lemma with_logs_ok d s : options_ok s → options_ok (with_logs d s).
Proof. intros []. by constructor. Qed.

Lemma reconcile_verified s d uid gid h changes s' h' :
  reconcileDirectories s d uid gid h = ((changes, s', None), h') →
  ∃ u g, Atoi uid = inr u ∧ Atoi gid = inr g ∧ directories_seen s d u g ∧
    Forall (λ c, Path c ∈ paths_list d) changes ∧ s' = with_logs d s.
Proof.
  unfold reconcileDirectories. destruct (Atoi uid) as [?|u]; [done|]. destruct (Atoi gid) as [?|g]; [done|].
  intros E. inv_run E. destruct r as [[? ?]|c]; [done|]. inv_run E. destruct r as [s1 err].
  injection E as -> -> -> ->. exists u, g.
  apply reconcile_directories_ok in E0 as (Hall & new & -> & Hnew). split_and!; try done.
  - eapply Forall_impl; [exact Hnew|]. intros x Hx. unfold directory_items, paths_list, bases_list in *.
    cbn in Hx |- *. set_solver.
  - revert E1. clear. unfold reconcile_logs, with_logs, log_path. destruct (d_logs d); cbn [negb].
    + intros E. inv_run E. destruct r as [e|s1]; [done|]. apply reconcile_log_ok in E0.
      inv_run E. destruct r as [e|s2]; [done|]. injection E as <- <-. apply reconcile_log_ok in E1 as ->.
      subst s1. by destruct s as [? ? ? ? ? ? ? ? ? ? ? ? ? ? ? ? ? [|] [|]].
    + intros [= <- <-]. by destruct s as [? ? ? ? ? ? ? ? ? ? ? ? ? ? ? ? ? [|] [|]].
Qed.
End reconcile.

(** ** Where the defaults of a system service go wrong *)
Section system.
Context `{ServiceHost} `{MetadataJSON}.

(** The name for a system configuration without a name is that of a hidden
    directory: the branch that takes the dot away is never used. *)
Lemma system_config_hidden s bases :
  sp_scope s = System → sp_configDir s = Some "" →
  Config (d_paths (resolve_in s bases)) = PJoin [Config bases; "." +:+ sp_name s].
Proof. intros Es Ec. unfold resolve_in, configName. cbn [d_paths Config]. by rewrite Es, Ec. Qed.

(** two directories of a macOS system service can be one.  When the
    configuration and the state have the same name, they are the same path: no
    directory satisfies what [Ensure] wants of both, unless the configuration
    is writable, and a purge of the state alone removes the configuration. *)
Theorem launchd_state_is_config s name home d :
  sp_scope s = System → sp_configDir s = Some name → sp_stateDir s = Some name → name ≠ "" →
  resolveDirectories s LaunchdBackend.launchdBackend home = inr d →
  Config (d_paths d) = State (d_paths d) ∧
  selected d {| purge_Config := false; purge_State := true; purge_Logs := false |} (Config (d_paths d)) ∧
  (sp_configWritable s = false → ∀ i uid gid,
     settled i uid gid (directory_mode s true (d_configWritable d)) = Some true →
     settled i uid gid (directory_mode s false (d_configWritable d)) = Some false).
Proof.
  intros Es Ec Est Hne. unfold resolveDirectories, any_directory. rewrite Ec. cbn [given orb negb].
  rewrite orb_true_r. cbn [orb negb]. unfold LaunchdBackend.launchdBackend, LaunchdBackend.directoryBases, bases_for.
  cbn [bk_directoryBases]. rewrite Es. cbn. intros [= <-].
  assert (Config (d_paths (resolve_in s {| Runtime := "/private/var/run"; Config := "/Library/Application Support";
               State := "/Library/Application Support"; Logs := "/Library/Logs" |})) =
          State (d_paths (resolve_in s {| Runtime := "/private/var/run"; Config := "/Library/Application Support";
               State := "/Library/Application Support"; Logs := "/Library/Logs" |}))) as E.
  { unfold resolve_in, configName, directoryPath, or_name, value. cbn [d_paths Config State]. rewrite Es, Ec, Est.
    change (System =? User) with false. change (System =? System) with true.
    cbn [given orb andb negb]. rewrite ?(eq_refl : default "" (Some name) = name). by rewrite !(proj2 (String.eqb_neq name "") Hne). }
  split_and!; [exact E| |].
  - exists PState. split_and!; [done| |done]. unfold resolve_in. cbn [declares d_state]. by rewrite Est.
  - intros Hw i uid gid. unfold settled, directory_mode. cbn [d_configWritable resolve_in]. rewrite Es, Hw. cbn [negb andb].
    change (System =? User) with false. cbn iota. destruct (fi_owner i) as [[u g]|]; cbn [mbind option_bind]; [|done].
    intros [= Hb]. bool_simpl. f_equal.
    match goal with X : (perm (fi_perm i) =? _) = true |- _ => apply Z.eqb_eq in X; rewrite X end. done.
Qed.
End system.
