(* ===== verification/ServiceFlowFacts.v ===== *)
(** * What the operations of a service guarantee

    The operations that [New] makes, how a definition is written, what ensuring
    a service leaves behind, and the guard of system services. *)
From S2P Require Import Prelude.
From S2P Require Import GoStrings.
From S2P Require Import GoPath.
From S2P Require Import Utf8.
From S2P Require Import Errors.
From S2P Require Account.
From S2P Require Import Service.
From S2P Require Import ServiceFiles.
From S2P Require Import ServicePlatforms.
From S2P Require Import ServiceOperation.
From S2P Require Import ServiceFacts.
From S2P Require Import ServiceDirectoryFacts.
#[local] Open Scope stdpp_scope.
#[local] Open Scope Z_scope.

(** ** The type of an operation *)

Record specification_ok (s : specification) : Prop := {
  spec_options : options_ok s;
  spec_streams : no_streams s;
  spec_name : plain (sp_name s);
  spec_scope : sp_scope s = User ∨ sp_scope s = System;
  spec_restart : 0 ≤ sp_restart s ≤ 2;
  spec_binary : rooted (sp_binary s);
  spec_account : sp_account s ≠ None → sp_scope s = System;
}.

Lemma set_name_ok v s : options_ok s → options_ok (set_name v s).
Proof. intros []. by constructor. Qed.

Lemma validate_ok s : options_ok s → no_streams s → validate s = None → specification_ok s.
Proof.
  intros Hs Hst Hv. pose proof (validate_texts s Hv) as (_ & _ & _ & _ & Hn).
  unfold validate, User, System, RestartNever, RestartOnFailure, RestartAlways in Hv.
  repeat (case_match; [done|]). bool_simpl.
  constructor; try done.
  - by apply service_name_plain.
  - unfold User, System. destruct (Z.eqb_spec (sp_scope s) 0), (Z.eqb_spec (sp_scope s) 1); auto; done.
  - destruct (Z.eqb_spec (sp_restart s) 0), (Z.eqb_spec (sp_restart s) 1), (Z.eqb_spec (sp_restart s) 2); try lia; done.
  - apply clean_abs_iff. split; [done|by apply String.eqb_eq].
  - intros Ha. unfold System. destruct (Z.eqb_spec (sp_scope s) 0), (Z.eqb_spec (sp_scope s) 1), (sp_account s); done.
Qed.

Section manager.
Context `{ServiceHost} `{MetadataJSON}.

(** C31: every manager has a well-formed specification.  When [New] succeeds,
    whatever the options, the directories that were declared are relative paths
    of plain names or empty, the log files are plain names or empty, the
    configuration is declared for reading or for writing but not both, the name
    is a plain name, the binary is a clean absolute path, scope and restart
    policy are known, only a system service has an account, and a system
    service is only managed by root. *)
Theorem New_type os user is_root opts o b :
  New os user is_root opts = inr (o, b) →
  specification_ok (op_spec o) ∧ op_platform o = os ∧ op_root o = is_root ∧ user = inr (op_user o) ∧
  platformBackend os = inr b ∧ bk_validate b (op_spec o) = None ∧
  (sp_scope (op_spec o) = System → is_root = true).
Proof.
  unfold New. destruct (apply_options _ _) as [e|s] eqn:Eo; [done|].
  assert (no_streams s) as Hst by (eapply apply_options_streams; [|exact Eo]; done).
  apply apply_options_ok in Eo; [|by constructor; cbn; naive_solver].
  destruct (platformBackend os) as [e|b0] eqn:Eb; [done|].
  set (s1 := if String.eqb (sp_name s) "" then _ else s).
  assert (options_ok s1) as Hs1 by (unfold s1; case_match; auto using set_name_ok).
  assert (no_streams s1) as Hst1 by (unfold s1; case_match; done).
  destruct (validate s1) eqn:Ev; [done|]. destruct (bk_validate b0 s1) eqn:Ebv; [done|].
  destruct (_ && _) eqn:Er; [done|]. destruct user as [e|u]; [done|]. intros [= <- <-]. cbn.
  split_and!; try done; [by apply validate_ok|]. intros Hsc. rewrite Hsc in Er. by destruct is_root.
Qed.
End manager.

(** ** Writing a definition *)
Section write.
Context `{ServiceHost}.

(** The calls of a write that succeeds. *)
Definition write_calls (path data tmp : string) (mode : Z) : list call :=
  [CreateTemp (Dir path); TmpChmod tmp mode; TmpWrite tmp data; TmpSync tmp; TmpClose tmp; Rename tmp path;
   OpenDir (Dir path); SyncDir (Dir path); CloseDir (Dir path); Remove tmp].

Definition renames (c : call) : Prop := match c with Rename _ _ => True | _ => False end.

(** A run of a write: it ends before the rename, with an error, or after it. *)
Lemma write_runs path data mode h r h' :
  write path data mode h = (r, h') →
  ∃ tmp t, h' = h ++ t ∧
    ((Forall (λ c, ¬ renames c) t ∧ r ≠ None) ∨
     ∃ t', t = take 6 (write_calls path data tmp mode) ++ t' ∧
       Forall (λ c, c ∈ [OpenDir (Dir path); SyncDir (Dir path); CloseDir (Dir path); Remove tmp]) t' ∧
       (r = None → t = write_calls path data tmp mode)).
Proof.
  unfold write, rename_synced, unless_failed, os_do, os_CreateTemp, perform, mbind, stm_bind, mret, stm_ret.
  destruct (sv_temp h (Dir path)) as [e|tmp].
  { intros [= <- <-]. exists "", [CreateTemp (Dir path)]. split; [done|]. left.
    split; [apply Forall_singleton; by intros []|done]. }
  intros E. exists tmp.
  repeat (match type of E with context [sv_do ?hist ?c] => destruct (sv_do hist c) end; cbn beta iota zeta in E);
    rewrite <- ?app_assoc in E; cbn [app] in E; injection E as <- <-; eexists; (split; [reflexivity|]);
    first [left; split; [repeat (apply List.Forall_cons; [by intros []|]); by apply List.Forall_nil|done]
          |right; eexists; split; [reflexivity|]; split;
             [repeat (apply List.Forall_cons; [set_solver|]); by apply List.Forall_nil|done]].
Qed.

(** Files are replaced as a whole.  A write that succeeds has created a
    temporary file next to the path, given it its mode and the data, flushed
    and closed it, renamed it to the path and flushed the directory; a write
    that fails has not touched the path, unless flushing the directory after
    the rename is what failed.  The path itself is never written. *)
Theorem write_replaces path data mode h r h' :
  write path data mode h = (r, h') →
  (r = None → ∃ tmp, h' = h ++ write_calls path data tmp mode) ∧
  (∀ tmp, Rename tmp path ∈ drop (length h) h' → ∃ t,
     h' = h ++ take 6 (write_calls path data tmp mode) ++ t ∧
     Forall (λ c, c ∈ [OpenDir (Dir path); SyncDir (Dir path); CloseDir (Dir path); Remove tmp]) t).
Proof.
  intros E. apply write_runs in E as (tmp & t & -> & Ht). rewrite drop_app_length. split.
  - intros ->. exists tmp. destruct Ht as [(_ & Hr)|(t' & _ & _ & Hr)]; [by destruct Hr|]. by rewrite Hr.
  - intros tmp' Hin. destruct Ht as [(Hn & _)|(t' & -> & Hall & _)].
    + rewrite Forall_forall in Hn. by apply Hn in Hin.
    + assert (tmp' = tmp) as ->; [|by exists t'].
      apply elem_of_app in Hin as [Hin|Hin].
      * unfold write_calls in Hin. cbn [take] in Hin.
        repeat (apply elem_of_cons in Hin as [Hin|Hin]; [by simplify_eq|]). by apply not_elem_of_nil in Hin.
      * rewrite Forall_forall in Hall. apply Hall in Hin.
        repeat (apply elem_of_cons in Hin as [Hin|Hin]; [by simplify_eq|]). by apply not_elem_of_nil in Hin.
Qed.
End write.

(** ** Ensuring a service *)
Section ensure.
Context `{ServiceHost} `{MetadataJSON}.

(** The procedure gave this answer at some point. *)
Definition answered {A} (m : io A) (a : A) : Prop := ∃ h h', m h = (a, h').

(** The definition of a service on a platform: where it is, and what it says. *)
Definition definition_path (os : string) (o : operation) : string :=
  if String.eqb os "linux" then SystemdBackend.systemdPath o else LaunchdBackend.launchdPath o.
Definition definition_text (os : string) (o : operation) : string :=
  if String.eqb os "linux" then SystemdBackend.renderSystemd o else LaunchdBackend.plist o.

(** It was read as it should be, or written. *)
Definition in_place (path want : string) (changed : bool) : Prop :=
  if changed then answered (write path want 420) None else answered (read path) (inr want).

Lemma failed_None m msg h h' : failed msg m h = (None, h') → m h = (None, h').
Proof. unfold failed. intros E. inv_run E. destruct r; [done|]. by injection E as <-. Qed.

Lemma changeReasons_some old s missing : changeReasons old s true missing ≠ [].
Proof.
  unfold changeReasons. cbn [negb]. destruct missing; [done|]. destruct (previous old) as [m|]; [|done].
  unfold metadata_reasons. case_bool_decide as E; [by intros [_ ?]%app_eq_nil|]. by intros [? _]%app_eq_nil.
Qed.

Lemma ensure_definition_ok o path want settle loaded h res h' :
  ensure_definition o path want settle loaded h = ((res, None), h') →
  Installed res = true ∧ in_place path want (Changed res) ∧ (Changed res = true ↔ Reasons res ≠ []).
Proof.
  unfold ensure_definition. intros E. inv_run E. destruct r as [e|]; [done|].
  inv_run E. destruct r as [e|]; [done|]. apply bind_run in E as (r & w & Er & E).
  assert (∀ missing old w, (check! writeDefinition path want 420 else e => mret (zero_result, Some e) in
    check! settle else e => mret (zero_result, Some e) in
    restart ← loaded;
    mret ({| Installed := true; Changed := true; Reasons := changeReasons old (op_spec o) true missing;
             RestartRequired := restart; Account := None; Directories := no_directories;
             DirectoryChanges := [] |}, None)) w = ((res, None), h') →
    Installed res = true ∧ in_place path want (Changed res) ∧ (Changed res = true ↔ Reasons res ≠ [])) as Hw.
  { intros missing old w0 Ew. inv_run Ew. destruct r0 as [e|]; [done|]. apply failed_None in E2.
    inv_run Ew. destruct r0 as [e|]; [done|]. inv_run Ew. injection Ew as <- _. cbn.
    split_and!; [done|by do 2 eexists|]. pose proof (changeReasons_some old (op_spec o) missing). done. }
  destruct r as [e|old].
  - destruct (Is ErrNotExist e); [by eapply Hw|done].
  - destruct (String.eqb_spec old want) as [->|]; [|by eapply Hw]. injection E as <- _. cbn.
    split_and!; [done| |done]. unfold readDefinition in Er. inv_run Er. destruct r as [e|x]; [done|].
    injection Er as -> _. by do 2 eexists.
Qed.

Lemma backend_ensure_ok os b o h res h' :
  platformBackend os = inr b → bk_ensure b o h = ((res, None), h') →
  Installed res = true ∧ in_place (definition_path os o) (definition_text os o) (Changed res) ∧
  (Changed res = true ↔ Reasons res ≠ []).
Proof.
  unfold platformBackend, definition_path, definition_text. intros Eb E.
  destruct (String.eqb os "linux"); [|destruct (String.eqb os "darwin"); [|done]]; injection Eb as <-; cbn in E.
  - unfold SystemdBackend.ensure in E. inv_run E. destruct r; [done|]. by eapply ensure_definition_ok.
  - by eapply ensure_definition_ok.
Qed.

(** *** The reasons *)

Lemma unique_from_spec seen l :
  NoDup (unique_from seen l) ∧ ∀ r, r ∈ unique_from seen l ↔ r ∈ l ∧ r ∉ seen.
Proof.
  revert seen. induction l as [|x l IH]; intros seen; cbn [unique_from].
  { split; [constructor|]. set_solver. }
  case_bool_decide as Hx.
  - destruct (IH seen) as [Hn Hr]. split; [done|]. set_solver.
  - destruct (IH (x :: seen)) as [Hn Hr]. split; [constructor; set_solver|].
    intros r. destruct (decide (r = x)); set_solver.
Qed.
Lemma uniqueReasons_NoDup l : NoDup (uniqueReasons l).
Proof. apply unique_from_spec. Qed.
Lemma elem_of_uniqueReasons l r : r ∈ uniqueReasons l ↔ r ∈ l.
Proof. unfold uniqueReasons. rewrite (proj2 (unique_from_spec [] l)). set_solver. Qed.
Lemma uniqueReasons_nil l : uniqueReasons l = [] ↔ l = [].
Proof.
  split; [|by intros ->]. destruct l as [|x l]; [done|]. intros E.
  assert (x ∈ uniqueReasons (x :: l)) as Hx by (apply elem_of_uniqueReasons; left).
  rewrite E in Hx. by apply not_elem_of_nil in Hx.
Qed.

(** *** The whole operation *)

(** The account that a service runs as: its result, and its identifiers. *)
Definition runtime_account (o : operation) (acct : option Account.EnsureResult) (uid gid : string) : Prop :=
  match sp_account (op_spec o) with
  | None => acct = None ∧ uid = u_UID (op_user o) ∧ gid = u_GID (op_user o)
  | Some a => ∃ ar, acct = Some ar ∧ answered (account_ensure o a) (ar, None) ∧
                uid = Account.UID (Account.Account ar) ∧ gid = Account.GID (Account.Account ar)
  end.

Definition executable_seen (path : string) : Prop :=
  ∃ h i, sv_stat h (Stat path) = inr (Some i) ∧ fi_kind i = Regular ∧ Z.land (perm (fi_perm i)) 73 ≠ 0.

Lemma guarded_run {A} o cancelled (fail : error → A) (m : io A) h a h' :
  guarded o cancelled fail m h = (a, h') →
  (∃ e, a = fail e) ∨ ∃ h1, m h1 = (a, h').
Proof.
  unfold guarded. intros E. inv_run E. destruct r as [e|]; [left; injection E as <- _; by eexists|].
  destruct (systemPreflight o) as [e|]; [left; injection E as <- _; by eexists|]. right. by exists h0.
Qed.

Lemma ensure_account_ok o h acct reasons h' :
  ensure_account o h = ((acct, reasons, None), h') →
  ∃ uid gid, runtime_account o acct uid gid ∧
    (uid, gid) = match acct with
                 | Some a => (Account.UID (Account.Account a), Account.GID (Account.Account a))
                 | None => (u_UID (op_user o), u_GID (op_user o))
                 end.
Proof.
  unfold ensure_account, runtime_account. destruct (sp_account (op_spec o)) as [a|].
  - intros E. inv_run E. destruct r as [ar err]. destruct err; [done|]. injection E as <- <- _.
    do 2 eexists. split; [|reflexivity]. exists ar. split_and!; try done. by do 2 eexists.
  - intros [= <- <- _]. by do 2 eexists.
Qed.

(** C30: what a successful [Ensure] has established.  The binary was seen as an
    executable regular file; the account, if one is declared, was ensured
    without an error; every declared directory was seen as a real directory with
    the owner, group and mode for its kind; the definition, with the log files
    resolved, was read exactly as it is rendered or has been written; and a
    change is reported exactly when there are reasons, each once. *)
Theorem Ensure_establishes os b o h res o' h' :
  platformBackend os = inr b →
  ensure b o h = ((res, None, o'), h') →
  executable_seen (sp_binary (op_spec o)) ∧
  (∃ uid gid u g d,
     runtime_account o (Account res) uid gid ∧ Atoi uid = inr u ∧ Atoi gid = inr g ∧
     resolveDirectories (op_spec o) b (u_Home (op_user o)) = inr d ∧ Directories res = d_paths d ∧
     directories_seen (op_spec o) d u g ∧ o' = with_spec o (with_logs d (op_spec o))) ∧
  (∃ changed, in_place (definition_path os o') (definition_text os o') changed) ∧
  Installed res = true ∧ NoDup (Reasons res) ∧ (Changed res = true ↔ Reasons res ≠ []).
Proof.
  intros Eb E. unfold ensure in E. apply guarded_run in E as [[e [=]]|[h1 E]].
  apply bind_run in E as (ri & h2 & Ei & E). destruct ri as [e|info]; [done|].
  destruct (executable info) eqn:Ex; [|done]. cbn [negb] in E.
  apply bind_run in E as ([[acct reasons] err] & h3 & Ea & E). destruct err; [done|].
  apply ensure_account_ok in Ea as (uid & gid & Hacct & Eids). rewrite <- Eids in E.
  destruct (resolveDirectories _ _ _) as [e|d] eqn:Ed; [done|].
  apply bind_run in E as ([[changes s'] err] & h4 & Er & E). destruct err; [done|].
  apply bind_run in E as ([x e] & h5 & Ebk & E). injection E as <- -> <- <-.
  apply reconcile_verified in Er as (u & g & Hu & Hg & Hseen & _ & ->).
  apply (backend_ensure_ok os) in Ebk as (Hinst & Hplace & Hreasons); [|done].
  split_and!; [|by exists uid, gid, u, g, d|by eexists|done|apply uniqueReasons_NoDup|].
  - unfold executable in Ex. destruct info as [i|]; [|done]. bool_simpl. exists h1, i.
    unfold stat, perform in Ei. injection Ei as Ei _. split_and!; [done|done|]. by apply Z.eqb_neq.
  - cbn [merged partial Changed Reasons]. rewrite orb_true_iff, negb_true_iff, bool_decide_eq_false, uniqueReasons_nil.
    rewrite Hreasons, !app_nil. destruct (decide (Reasons x = [])); tauto.
Qed.
End ensure.

(** ** Who may do it *)
Section guards.
Context `{ServiceHost}.

Lemma guarded_refuses {A} o cancelled (fail : error → A) (m : io A) :
  sp_scope (op_spec o) = System → op_root o = false →
  ∀ h, ∃ e, guarded o cancelled fail m h = (fail e, h ++ [CtxErr]).
Proof.
  intros Hs Hr h. unfold guarded, ctx_Err, perform, mbind, stm_bind, systemPreflight.
  destruct (sv_ctx h); [by eexists|]. rewrite Hs, Hr. by eexists.
Qed.

(** A system service is left alone without root.  Every operation on it
    fails, and does nothing but look at its context. *)
Theorem system_needs_root b o options h :
  sp_scope (op_spec o) = System → op_root o = false →
  (∃ e, ensure b o h = ((zero_result, Some e, o), h ++ [CtxErr])) ∧
  (∃ e, start b o h = (Some e, h ++ [CtxErr])) ∧ (∃ e, restart b o h = (Some e, h ++ [CtxErr])) ∧
  (∃ e, stop b o h = (Some e, h ++ [CtxErr])) ∧ (∃ e, uninstall b o h = (Some e, h ++ [CtxErr])) ∧
  (∃ e, purge b o options h = (Some e, h ++ [CtxErr])) ∧
  (∃ e, status b o h = ((zero_status, Some e), h ++ [CtxErr])).
Proof. intros Hs Hr. split_and!; by apply guarded_refuses. Qed.
End guards.
