(* ===== verification/ConfigTypes.v ===== *)
(** * The data of package [config]

    Types as [reflect] shows them, raw and decoded values, and the errors of
    [errors.go]. *)
From S2P Require Import Prelude.
From S2P Require Import GoStrings.
From S2P Require Import Errors.
From S2P Require Errx.
From Stdlib Require Import Ascii.
#[local] Open Scope stdpp_scope.
#[local] Open Scope Z_scope.

(** ** Types *)

Inductive basic := TString | TBool | TInt | TInt64 | TUint | TUint64 | TFloat64 | TDuration.
#[global] Instance basic_eq_dec : EqDecision basic.
Proof. solve_decision. Defined.

(** A struct type is identified by its package and its name. *)
Record type_name := { tn_pkg : string; tn_Name : string }.
#[global] Instance type_name_eq_dec : EqDecision type_name.
Proof. solve_decision. Defined.

(** [reflect.StructField]; the tag is the list of its keys and values, the
    package path is that of an unexported field. *)
Record structField (T : Type) := {
  sf_Name : string;
  sf_PkgPath : string;
  sf_Anonymous : bool;
  sf_Tag : list (string * string);
  sf_Type : T;
}.
Arguments sf_Name {T} _. Arguments sf_PkgPath {T} _. Arguments sf_Anonymous {T} _.
Arguments sf_Tag {T} _. Arguments sf_Type {T} _.

(** [reflect.Type]; a slice type that is defined by itself has a name, and [Other] is
    a type of any other kind. *)
Inductive gotype :=
  | Basic (b : basic)
  | Struct (n : type_name) (fields : list (structField gotype))
  | Slice (n : option type_name) (elem : gotype)
  | Other (name : string).

Definition strings_type : gotype := Slice None (Basic TString).

(** [Tag.Lookup]. *)
Fixpoint assoc {A} (l : list (string * A)) (k : string) : option A :=
  match l with
  | [] => None
  | (k', v) :: l' => if String.eqb k' k then Some v else assoc l' k
  end.
Definition tag {T} (f : structField T) (k : string) : option string := assoc (sf_Tag f) k.
Definition has_tag {T} (f : structField T) (k : string) : bool := bool_decide (is_Some (tag f k)).

Record elementField := { ef_name : string; ef_index : nat; ef_typ : gotype }.
Record elementSchema := { es_typ : type_name; es_fields : list elementField }.

(** The immutable reflected description of one supported leaf field. *)
Record fieldMeta := {
  f_key : string;
  f_field : string;
  f_env : string;
  f_flag : string;
  f_validate : string;
  f_index : list nat;
  f_typ : gotype;
  f_elements : option elementSchema;
  f_required : bool;
  f_sensitive : bool;
  f_save : bool;
  f_def : string;
  f_hasDef : bool;
}.

Record registry := { r_fields : list fieldMeta; r_byKey : gmap string fieldMeta }.

(** ** Values

    A value of type [any], with its dynamic type.  A [float64] is its bits, a
    map the list of its entries in the order of a loop over it, [None] a nil
    slice. *)
Inductive gov :=
  | VNil
  | VString (s : string)
  | VBool (b : bool)
  | VInt (z : Z)
  | VInt64 (z : Z)
  | VUint (z : Z)
  | VUint64 (z : Z)
  | VFloat (bits : Z)
  | VDuration (z : Z)
  | VNumber (text : string)
  | VStrings (l : option (list string))
  | VList (l : option (list gov))
  | VMap (m : list (string * gov))
  | VMapAny (m : list (gov * gov))
  | VStructs (s : option type_name) (t : type_name) (l : option (list (list gov)))
  | VSlice (l : list gov)
  | VOther (type : string).

(** The zero value of a type that [Set] or a decoder can meet. *)
Definition zeroValue (t : gotype) : gov :=
  match t with
  | Basic TString => VString ""
  | Basic TBool => VBool false
  | Basic TInt => VInt 0
  | Basic TInt64 => VInt64 0
  | Basic TUint => VUint 0
  | Basic TUint64 => VUint64 0
  | Basic TFloat64 => VFloat 0
  | Basic TDuration => VDuration 0
  | Slice None (Basic TString) => VStrings None
  | Slice s (Struct n _) => VStructs s n None
  | Slice _ _ | Struct _ _ | Other _ => VNil
  end.

(** The name of a slice type. *)
Definition slice_name (t : gotype) : option type_name := match t with Slice s _ => s | _ => None end.

(** [reflect.TypeOf(raw) == t] for the supported types. *)
Definition has_type (v : gov) (t : gotype) : bool :=
  match v, t with
  | VString _, Basic TString | VBool _, Basic TBool | VInt _, Basic TInt | VInt64 _, Basic TInt64
  | VUint _, Basic TUint | VUint64 _, Basic TUint64 | VFloat _, Basic TFloat64
  | VDuration _, Basic TDuration | VStrings _, Slice None (Basic TString) => true
  | VStructs s n _, Slice s' (Struct m _) => bool_decide (s = s' ∧ n = m)
  | _, _ => false
  end.

(** ** Errors *)

Inductive decode_error :=
  | NonFinite
  | Expected (t : gotype)
  | ListElementNotString
  | BadNumber (e : num_err)
  | BadBool
  | BadDuration (e : sys_error)
  | BadCSV (e : string)
  | MultipleRecords
  | BadJSON (e : string)
  | ExpectedObjects
  | ElementNotObject (i : nat)
  | AtElement (i : nat) (e : decode_error)
  | UnknownElementKey (key : string)
  | AtField (key : string) (e : decode_error)
  | MissingElementKey (key : string)
  | BadSchema (typ field : string).

(** What an error was caused by: an error of the system, of a decoder, of an
    option, of a document, or of a validator. *)
Inductive cause :=
  | OS (e : sys_error)
  | Decoding (e : decode_error)
  | Misuse (text : string)
  | Document (text : string)
  | Rejected (text : string).

Record Error := {
  e_typ : string;
  e_key : string;
  e_field : string;
  e_source : string;
  e_path : string;
  e_kind : Errx.Kind;
  e_cause : option cause;
  e_unwrap : bool;
}.

Inductive class :=
  | Plain | OptionError | SchemaError | DefaultValueError | DecodeError | UnknownKeyError
  | RequiredFieldError | ValidationError | FlagBindingError | NotLoadedError | NoConfigFileError
  | FileReadError | SaveError | FileFormatError | FileParseError.
#[global] Instance class_eq_dec : EqDecision class.
Proof. solve_decision. Defined.

(** A typed error, which embeds the details. *)
Record error := { class_of : class; base : Error }.

Definition option_types : list string :=
  ["invalid option"; "nil option"; "invalid config environment variable"; "invalid environment prefix"].
Definition schema_types : list string :=
  ["schema must be a struct"; "excluded field has config tags"; "invalid config key";
   "embedded field cannot have cfg tag"; "unsupported nested field tag"; "unsupported field type";
   "unsupported structured element type"; "unexported structured element field";
   "invalid structured element key"; "unsupported structured element tag";
   "unsupported structured element field"; "duplicate structured element key";
   "structured element has no fields"; "invalid required tag"; "required field has default";
   "invalid sensitive tag"; "invalid save tag"; "unknown validator"; "invalid env tag";
   "invalid flag tag"; "duplicate config key"; "scalar conflicts with namespace";
   "duplicate environment variable"; "duplicate flag"].

(** The cases of the switch, in order. *)
Definition typed_cases : list (class * list string) :=
  [(OptionError, option_types); (SchemaError, schema_types); (DefaultValueError, ["default value"]);
   (DecodeError, ["invalid value"; "decode file"]);
   (UnknownKeyError, ["unknown key"; "unknown initial key"; "unknown file key"]);
   (RequiredFieldError, ["required field missing"]);
   (ValidationError, ["validation failed"; "configuration validation failed"]);
   (FlagBindingError, ["flag binding"]); (NotLoadedError, ["not loaded"]);
   (NoConfigFileError, ["no config file"]); (FileReadError, ["read file"; "home directory"]);
   (SaveError, ["save file"; "create temporary file"; "stat save target"; "unsafe save target"; "encode file"]);
   (FileFormatError, ["unsupported file format"; "invalid file path"]);
   (FileParseError, ["parse file"])].

Fixpoint find_class (cases : list (class * list string)) (typ : string) : class :=
  match cases with
  | [] => Plain
  | (c, types) :: rest => if existsb (String.eqb typ) types then c else find_class rest typ
  end.
Definition classifyError (b : Error) : error := {| class_of := find_class typed_cases (e_typ b); base := b |}.

Definition configErr (typ : string) (kind : Errx.Kind) (key field source : string) (c : option cause)
    (unwrap : bool) : error :=
  classifyError {| e_typ := typ; e_key := key; e_field := field; e_source := source; e_path := "";
                   e_kind := kind; e_cause := c; e_unwrap := unwrap |}.
Definition fileErr (typ : string) (kind : Errx.Kind) (path : string) (c : option cause) (unwrap : bool) : error :=
  classifyError {| e_typ := typ; e_key := ""; e_field := ""; e_source := "file"; e_path := path;
                   e_kind := kind; e_cause := c; e_unwrap := unwrap |}.

(** The methods of [*Error], nil included; [Quote] is the verb [%q]. *)
Definition Error_Error (Quote : string → string) (e : option Error) : string :=
  match e with
  | None => "<nil>"
  | Some e =>
      let msg := "config: " +:+ e_typ e in
      let msg := if String.eqb (e_key e) "" then msg else msg +:+ " for " +:+ Quote (e_key e) in
      if String.eqb (e_source e) "" then msg else msg +:+ " from " +:+ e_source e
  end.
Definition Error_Kind (e : option Error) : Errx.Kind :=
  match e with None => Errx.Unknown | Some e => e_kind e end.
Definition Error_Unwrap (e : option Error) : option cause :=
  match e with Some e => if e_unwrap e then e_cause e else None | None => None end.

(** ** Facts *)

Fixpoint gov_ind' (P : gov → Prop)
  (Hl : ∀ l, Forall P l → P (VList (Some l)))
  (Hm : ∀ m, Forall (λ kv, P kv.2) m → P (VMap m))
  (H0 : ∀ v, match v with VList (Some _) | VMap _ => False | _ => True end → P v) (v : gov) {struct v} : P v :=
  match v with
  | VList (Some l) =>
      Hl l ((fix go l : Forall P l :=
        match l with
        | [] => Forall_nil_2 P
        | x :: l' => Forall_cons_2 P x l' (gov_ind' P Hl Hm H0 x) (go l')
        end) l)
  | VMap m =>
      Hm m ((fix go m : Forall (λ kv, P kv.2) m :=
        match m with
        | [] => Forall_nil_2 _
        | kv :: m' => Forall_cons_2 (λ kv, P kv.2) kv m' (gov_ind' P Hl Hm H0 kv.2) (go m')
        end) m)
  | VList None => H0 (VList None) I
  | VNil => H0 VNil I
  | VString s => H0 (VString s) I
  | VBool b => H0 (VBool b) I
  | VInt z => H0 (VInt z) I
  | VInt64 z => H0 (VInt64 z) I
  | VUint z => H0 (VUint z) I
  | VUint64 z => H0 (VUint64 z) I
  | VFloat z => H0 (VFloat z) I
  | VDuration z => H0 (VDuration z) I
  | VNumber s => H0 (VNumber s) I
  | VStrings l => H0 (VStrings l) I
  | VMapAny m => H0 (VMapAny m) I
  | VStructs s t l => H0 (VStructs s t l) I
  | VSlice l => H0 (VSlice l) I
  | VOther t => H0 (VOther t) I
  end.

Lemma assoc_elem {A} (l : list (string * A)) k v : assoc l k = Some v → (k, v) ∈ l.
Proof.
  induction l as [|[k' v'] l IH]; cbn; [done|].
  destruct (String.eqb_spec k' k) as [->|]; [intros [= ->]; left|right; auto].
Qed.

Lemma assoc_None {A} (l : list (string * A)) k : assoc l k = None ↔ k ∉ map fst l.
Proof.
  induction l as [|[k' v'] l IH]; cbn; [set_solver|].
  destruct (String.eqb_spec k' k) as [->|]; [set_solver|rewrite IH; set_solver].
Qed.

Lemma assoc_NoDup {A} (l : list (string * A)) k v : NoDup (map fst l) → (k, v) ∈ l → assoc l k = Some v.
Proof.
  induction l as [|[k' v'] l IH]; cbn; [set_solver|]. intros [Hk Hl]%NoDup_cons Hin.
  destruct (String.eqb_spec k' k) as [->|]; [|set_solver].
  apply elem_of_cons in Hin as [[= ->]|Hin]; [done|]. destruct Hk. by apply (list_elem_of_fmap_2 fst) in Hin.
Qed.
