(* ===== verification/ConfigOptions.v ===== *)
(** * Sources, validators, flags and options of [config]

    The types of [source.go], [validate.go] and [flag.go], and [options.go]. *)
From S2P Require Import Prelude.
From S2P Require Import GoStrings.
From S2P Require Import Utf8.
From S2P Require Import Errors.
From S2P Require Errx.
From S2P Require Import ConfigTypes.
From Stdlib Require Import Ascii.
#[local] Open Scope stdpp_scope.
#[local] Open Scope Z_scope.

(** ** Layers *)

Inductive Source :=
  | SourceNone | SourceDefault | SourceInitial | SourceFile | SourceEnv | SourceFlag | SourceSet.
#[global] Instance Source_eq_dec : EqDecision Source.
Proof. solve_decision. Defined.
Definition Source_code (s : Source) : positive :=
  match s with
  | SourceNone => 1 | SourceDefault => 2 | SourceInitial => 3 | SourceFile => 4
  | SourceEnv => 5 | SourceFlag => 6 | SourceSet => 7
  end%positive.
Definition Source_of (p : positive) : Source :=
  match p with
  | 1 => SourceNone | 2 => SourceDefault | 3 => SourceInitial | 4 => SourceFile
  | 5 => SourceEnv | 6 => SourceFlag | _ => SourceSet
  end%positive.
#[global] Program Instance Source_countable : Countable Source :=
  {| countable.encode := Source_code; countable.decode p := Some (Source_of p) |}.
Next Obligation. by intros []. Qed.

Definition Source_String (s : Source) : string :=
  match s with
  | SourceNone => "none" | SourceDefault => "default" | SourceInitial => "initial"
  | SourceFile => "file" | SourceEnv => "env" | SourceFlag => "flag" | SourceSet => "set"
  end.

(** The winning source and its detail. *)
Record Origin := { o_Source : Source; o_Detail : string }.

Record FieldContext := { fc_Field : string; fc_Key : string; fc_Origin : Origin }.

(** A validator answers with the text of its error, if any. *)
Definition FieldValidator : Type := FieldContext → gov → option string.

(** ** Calls of the system *)

Inductive call :=
  | LookupEnv (name : string)
  | UserHomeDir
  | FlagLookup (name : string)
  | Lstat (path : string)
  | ReadFile (path : string)
  | CreateTemp (dir : string)
  | TmpChmod (tmp : string) (mode : Z)
  | TmpWrite (tmp data : string)
  | TmpSync (tmp : string)
  | TmpClose (tmp : string)
  | Rename (tmp path : string)
  | Remove (path : string)
  | OpenDir (dir : string)
  | SyncDir (dir : string)
  | CloseDir (dir : string).
#[global] Instance config_call_eq_dec : EqDecision call.
Proof. solve_decision. Defined.

Abbreviation history := (list call).

(** [FlagSource.Lookup]: the text of a flag, whether it was changed and whether
    there is one, from the calls so far. *)
Definition FlagSource : Type := history → string → string * bool * bool.

(** ** Options *)

Record options := {
  o_file : string;
  o_configEnv : string;
  o_envPrefix : string;
  o_fileSet : bool;
  o_configEnvSet : bool;
  o_flagSet : bool;
  o_flags : option FlagSource;
  o_validators : gmap string FieldValidator;
  o_initial : list (string * gov);
}.

(** A nil source or validator is [None]. *)
Inductive Option :=
  | WithFile (path : string)
  | WithConfigEnv (name : string)
  | WithEnvPrefix (prefix : string)
  | WithFlagSource (source : option FlagSource)
  | WithValidator (name : string) (fn : option FieldValidator)
  | WithInitial (key : string) (value : gov).

Definition no_options : options := {|
  o_file := ""; o_configEnv := ""; o_envPrefix := ""; o_fileSet := false; o_configEnvSet := false;
  o_flagSet := false; o_flags := None; o_validators := ∅; o_initial := [] |}.

(** One option applied; the text of a failure (the name it quotes is left out). *)
Definition apply_option (opt : Option) (o : options) : string + options :=
  let '{| o_file := fi; o_configEnv := ce; o_envPrefix := ep; o_fileSet := fs; o_configEnvSet := cs;
          o_flagSet := gs; o_flags := fl; o_validators := vs; o_initial := ini |} := o in
  match opt with
  | WithFile path =>
      if fs then inl "WithFile specified more than once"
      else if String.eqb path "" then inl "file path is required"
      else inr {| o_file := path; o_configEnv := ce; o_envPrefix := ep; o_fileSet := true; o_configEnvSet := cs;
                  o_flagSet := gs; o_flags := fl; o_validators := vs; o_initial := ini |}
  | WithConfigEnv name =>
      if cs then inl "WithConfigEnv specified more than once"
      else if String.eqb name "" then inl "config environment variable is required"
      else inr {| o_file := fi; o_configEnv := name; o_envPrefix := ep; o_fileSet := fs; o_configEnvSet := true;
                  o_flagSet := gs; o_flags := fl; o_validators := vs; o_initial := ini |}
  | WithEnvPrefix prefix =>
      inr {| o_file := fi; o_configEnv := ce; o_envPrefix := prefix; o_fileSet := fs; o_configEnvSet := cs;
             o_flagSet := gs; o_flags := fl; o_validators := vs; o_initial := ini |}
  | WithFlagSource None => inl "flag source is required"
  | WithFlagSource (Some source) =>
      if gs then inl "WithFlagSource specified more than once"
      else inr {| o_file := fi; o_configEnv := ce; o_envPrefix := ep; o_fileSet := fs; o_configEnvSet := cs;
                  o_flagSet := true; o_flags := Some source; o_validators := vs; o_initial := ini |}
  | WithValidator name fn =>
      match fn with
      | Some f =>
          if String.eqb name "" then inl "validator name and function are required"
          else if bool_decide (is_Some (vs !! name)) then inl "duplicate validator"
          else inr {| o_file := fi; o_configEnv := ce; o_envPrefix := ep; o_fileSet := fs; o_configEnvSet := cs;
                      o_flagSet := gs; o_flags := fl; o_validators := <[name:=f]> vs; o_initial := ini |}
      | None => inl "validator name and function are required"
      end
  | WithInitial key value =>
      if String.eqb key "" then inl "initial key is required"
      else if existsb (λ v, String.eqb v.1 key) ini then inl "duplicate initial key"
      else inr {| o_file := fi; o_configEnv := ce; o_envPrefix := ep; o_fileSet := fs; o_configEnvSet := cs;
                  o_flagSet := gs; o_flags := fl; o_validators := vs; o_initial := ini ++ [(key, value)] |}
  end.

Definition option_err (typ : string) (c : option cause) : error :=
  configErr typ Errx.Invalid "" "" "" c false.

(** The loop over the options; [None] is a nil option. *)
Fixpoint apply_options (opts : list (option Option)) (o : options) : error + options :=
  match opts with
  | [] => inr o
  | None :: _ => inl (option_err "nil option" None)
  | Some opt :: rest =>
      match apply_option opt o with
      | inl text => inl (option_err "invalid option" (Some (Misuse text)))
      | inr o' => apply_options rest o'
      end
  end.

Section options.
Context `{Unicode}.

Definition prefix_rune (r : Z) : bool := (r =? 95) || IsUpper r || IsDigit r.

(** [Config.options]. *)
Definition Config_options (opts : list (option Option)) : error + options :=
  match apply_options opts no_options with
  | inl e => inl e
  | inr o =>
      if negb (String.eqb (o_configEnv o) "") && Contains (o_configEnv o) "="
      then inl (option_err "invalid config environment variable" None)
      else if negb (String.eqb (o_envPrefix o) "") &&
              (HasPrefix (o_envPrefix o) "_" || HasSuffix (o_envPrefix o) "_" ||
               negb (forallb prefix_rune (runes (o_envPrefix o))))
      then inl (option_err "invalid environment prefix" None)
      else inr o
  end.
End options.
