(* ===== verification/ConfigRegistry.v ===== *)
(** * The registry of [config]

    [registry.go]: the leaves of a schema with their keys, environment variables
    and flags. *)
From S2P Require Import Prelude.
From S2P Require Import GoStrings.
From S2P Require Import Utf8.
From S2P Require Errx.
From S2P Require Import ConfigTypes.
From S2P Require Import ConfigOptions.
From Stdlib Require Import Ascii.
#[local] Open Scope stdpp_scope.
#[local] Open Scope Z_scope.

Definition schema_err (typ key field : string) : error := configErr typ Errx.Invalid key field "" None false.

Definition own_tags : list string := ["env"; "flag"; "default"; "required"; "sensitive"; "save"; "validate"].
Definition config_tags : list string := "cfg" :: own_tags.
Definition hasNonNamespaceTag (f : structField gotype) : bool := existsb (has_tag f) own_tags.
Definition hasConfigTag (f : structField gotype) : bool := existsb (has_tag f) config_tags.
Definition tagCount (f : structField gotype) : nat := length (filter (λ k, has_tag f k = true) config_tags).

Definition supported (t : gotype) : bool :=
  match t with Basic _ | Slice None (Basic TString) => true | _ => false end.
Definition supportedElementField (t : gotype) : bool :=
  match t with Basic _ => true | _ => false end.

Section registry.
Context `{Unicode}.

(** ** Names *)

Fixpoint snake_go (prev : option Z) (rs : list Z) : string :=
  match rs with
  | [] => ""
  | r :: rest =>
      let cut := IsUpper r &&
        match prev with
        | None => false
        | Some p => IsLower p || IsDigit p || match rest with n :: _ => IsLower n | [] => false end
        end in
      (if cut then "_" else "") +:+ encode_rune (to_lower r) +:+ snake_go (Some r) rest
  end.
Definition snake (s : string) : string := snake_go None (runes s).

Definition dots_to_underscores (s : string) : string :=
  replace_bytes (λ c, if Ascii.eqb c "." then "_" else String c "") s.
Definition derivedEnv (prefix key : string) : string :=
  let k := ToUpper (dots_to_underscores key) in
  if String.eqb prefix "" then k else prefix +:+ "_" +:+ k.

(** [token.IsExported]. *)
Definition IsExported (name : string) : bool :=
  match runes name with r :: _ => IsUpper r | [] => false end.

(** ** The fields of a structured element *)

Definition element_name (field : structField gotype) : string :=
  match tag field "cfg" with Some n => n | None => snake (sf_Name field) end.

Definition element_field (i : nat) (field : structField gotype) (seen : list elementField) : error + elementField :=
  let err typ := inl (schema_err typ "" (sf_Name field)) in
  let name := element_name field in
  if negb (String.eqb (sf_PkgPath field) "") then err "unexported structured element field"
  else if String.eqb name "" || String.eqb name "-" || Contains name "." then err "invalid structured element key"
  else if hasNonNamespaceTag field then err "unsupported structured element tag"
  else if negb (supportedElementField (sf_Type field)) then err "unsupported structured element field"
  else if existsb (λ f, String.eqb (ef_name f) name) seen then err "duplicate structured element key"
  else inr {| ef_name := name; ef_index := i; ef_typ := sf_Type field |}.

Fixpoint element_fields (i : nat) (fields : list (structField gotype)) (acc : list elementField)
    : error + list elementField :=
  match fields with
  | [] => inr acc
  | field :: rest =>
      match element_field i field acc with
      | inl e => inl e
      | inr f => element_fields (S i) rest (acc ++ [f])
      end
  end.

Definition compileElementSchema (t : gotype) : error + elementSchema :=
  match t with
  | Slice _ (Struct n fields) =>
      if negb (IsExported (tn_Name n)) then inl (schema_err "unsupported structured element type" "" "")
      else
      match element_fields 0 fields [] with
      | inl e => inl e
      | inr [] => inl (schema_err "structured element has no fields" "" "")
      | inr fs => inr {| es_typ := n; es_fields := fs |}
      end
  | _ => inl (schema_err "unsupported structured element type" "" "")
  end.

(** ** One field *)

(** The name of a field; [None]: the field is excluded. *)
Definition field_name (sf : structField gotype) : error + option string :=
  let cfg := tag sf "cfg" in
  if bool_decide (cfg = Some "-") then
    if hasConfigTag sf && bool_decide (1 < tagCount sf)%nat
    then inl (schema_err "excluded field has config tags" "" (sf_Name sf)) else inr None
  else
  let name := match cfg with Some n => n | None => snake (sf_Name sf) end in
  if String.eqb name "" || Contains name "." then inl (schema_err "invalid config key" "" (sf_Name sf))
  else inr (Some name).

Definition is_true_tag (sf : structField gotype) (k : string) : bool := bool_decide (tag sf k = Some "true").
Definition bad_true_tag (sf : structField gotype) (k : string) : bool := has_tag sf k && negb (is_true_tag sf k).

Definition elements_of (t : gotype) : error + option elementSchema :=
  match t with
  | Slice None (Basic TString) => inr None
  | Slice _ _ => match compileElementSchema t with inl e => inl e | inr es => inr (Some es) end
  | _ => inr None
  end.

Definition field_env (o : options) (sf : structField gotype) (key : string) : string :=
  match tag sf "env" with
  | Some v => if String.eqb v "-" then "" else v
  | None => derivedEnv (o_envPrefix o) key
  end.

(** The checks of the tags, in the order of the code. *)
Definition tag_checks (o : options) (sf : structField gotype) (key : string) : list (option error) :=
  let err typ (b : bool) := if b then Some (schema_err typ key (sf_Name sf)) else None in
  [err "invalid required tag" (bad_true_tag sf "required");
   err "required field has default" (is_true_tag sf "required" && has_tag sf "default");
   err "invalid sensitive tag" (bad_true_tag sf "sensitive");
   err "invalid save tag" (bad_true_tag sf "save");
   err "unknown validator"
     (match tag sf "validate" with
      | Some v => String.eqb v "" || negb (bool_decide (is_Some (o_validators o !! v)))
      | None => false
      end);
   err "invalid env tag" (bool_decide (tag sf "env" = Some ""));
   err "invalid flag tag" (bool_decide (tag sf "flag" = Some ""))].

Definition leaf_field (o : options) (sf : structField gotype) (key : string) (idx : list nat) : error + fieldMeta :=
  match elements_of (sf_Type sf) with
  | inl e => inl e
  | inr elements =>
      if negb (supported (sf_Type sf)) && bool_decide (elements = None)
      then inl (schema_err "unsupported field type" key (sf_Name sf))
      else
      match first_error (tag_checks o sf key) with
      | Some e => inl e
      | None =>
          inr {| f_key := key; f_field := sf_Name sf; f_env := field_env o sf key;
                 f_flag := default "" (tag sf "flag"); f_validate := default "" (tag sf "validate");
                 f_index := idx; f_typ := sf_Type sf; f_elements := elements;
                 f_required := is_true_tag sf "required"; f_sensitive := is_true_tag sf "sensitive";
                 f_save := is_true_tag sf "save"; f_def := default "" (tag sf "default");
                 f_hasDef := has_tag sf "default" |}
      end
  end.

Definition add_field (f : fieldMeta) (r : registry) : error + registry :=
  if bool_decide (is_Some (r_byKey r !! f_key f))
  then inl (schema_err "duplicate config key" (f_key f) (f_field f))
  else inr {| r_fields := r_fields r ++ [f]; r_byKey := <[f_key f := f]> (r_byKey r) |}.

(** ** The walk over the schema *)

Section walk.
Variable rec : gotype → list string → list nat → registry → error + registry.

Definition walk_field (o : options) (prefix : list string) (idx : list nat) (sf : structField gotype)
    (r : registry) : error + registry :=
  if negb (String.eqb (sf_PkgPath sf) "") then inr r
  else
  match field_name sf with
  | inl e => inl e
  | inr None => inr r
  | inr (Some name) =>
      let key := Join (prefix ++ [name]) "." in
      match sf_Type sf with
      | Struct _ _ =>
          if hasNonNamespaceTag sf then inl (schema_err "unsupported nested field tag" key (sf_Name sf))
          else if sf_Anonymous sf then
            if has_tag sf "cfg" then inl (schema_err "embedded field cannot have cfg tag" "" (sf_Name sf))
            else rec (sf_Type sf) prefix idx r
          else rec (sf_Type sf) (prefix ++ [name]) idx r
      | _ =>
          match leaf_field o sf key idx with
          | inl e => inl e
          | inr f => add_field f r
          end
      end
  end.

Fixpoint walk_fields (o : options) (prefix : list string) (base : list nat) (i : nat)
    (fields : list (structField gotype)) (r : registry) : error + registry :=
  match fields with
  | [] => inr r
  | sf :: rest =>
      match walk_field o prefix (base ++ [i]) sf r with
      | inl e => inl e
      | inr r' => walk_fields o prefix base (S i) rest r'
      end
  end.
End walk.

Fixpoint walk (o : options) (t : gotype) (prefix : list string) (base : list nat) (r : registry)
    : error + registry :=
  match t with
  | Struct _ fields => walk_fields (walk o) o prefix base 0 fields r
  | _ => inr r
  end.

(** ** The checks over all fields *)

Definition key_le (f g : fieldMeta) : Prop := String.le (f_key f) (f_key g).
#[global] Instance key_le_dec f g : Decision (key_le f g).
Proof. unfold key_le. apply _. Defined.
Definition sort_fields (l : list fieldMeta) : list fieldMeta := merge_sort key_le l.

(** A key that stands below the key before it. *)
Fixpoint namespace_conflict (l : list fieldMeta) : option error :=
  match l with
  | f :: (g :: _) as rest =>
      if HasPrefix (f_key g) (f_key f +:+ ".")
      then Some (schema_err "scalar conflicts with namespace" (f_key g) (f_field g))
      else namespace_conflict rest
  | _ => None
  end.

Fixpoint duplicate_names (l : list fieldMeta) (seenEnv seenFlag : gset string) : option error :=
  match l with
  | [] => None
  | f :: rest =>
      if negb (String.eqb (f_env f) "") && bool_decide (f_env f ∈ seenEnv)
      then Some (schema_err "duplicate environment variable" (f_key f) (f_field f))
      else if negb (String.eqb (f_flag f) "") && bool_decide (f_flag f ∈ seenFlag)
      then Some (schema_err "duplicate flag" (f_key f) (f_field f))
      else duplicate_names rest (if String.eqb (f_env f) "" then seenEnv else {[f_env f]} ∪ seenEnv)
             (if String.eqb (f_flag f) "" then seenFlag else {[f_flag f]} ∪ seenFlag)
  end.

Definition makeRegistry (t : gotype) (o : options) : error + registry :=
  match t with
  | Struct _ _ =>
      match walk o t [] [] {| r_fields := []; r_byKey := ∅ |} with
      | inl e => inl e
      | inr r =>
          let fields := sort_fields (r_fields r) in
          match namespace_conflict fields with
          | Some e => inl e
          | None =>
              match duplicate_names fields ∅ ∅ with
              | Some e => inl e
              | None => inr {| r_fields := fields; r_byKey := r_byKey r |}
              end
          end
      end
  | _ => inl (schema_err "schema must be a struct" "" "")
  end.
End registry.
