(* ===== verification/ConfigFormats.v ===== *)
(** * The formats of configuration files

    [format.go], [format_json.go], [format_toml.go] and [format_yaml.go].  The
    scanner of JSON gives tokens; the readers of TOML and YAML are not in the
    repository. *)
From S2P Require Import Prelude.
From S2P Require Import GoStrings.
From S2P Require Import Utf8.
From S2P Require Import ConfigTypes.
From Stdlib Require Import Ascii.
#[local] Open Scope stdpp_scope.
#[local] Open Scope Z_scope.

Abbreviation document := (list (string * gov)).

(** ** JSON *)

(** What [Decoder.Token] returns; a number is kept as its text ([UseNumber]). *)
Inductive token :=
  | Delim (c : ascii)
  | StringToken (s : string)
  | NumberToken (text : string)
  | BoolToken (b : bool)
  | NullToken.

(** The tokens still to come, and after them the end of the input or an error,
    with what [More] answers before the error. *)
Record stream := { s_tokens : list token; s_end : option (string * bool) }.

Definition eof : string := "EOF".
Definition Token (s : stream) : string + (token * stream) :=
  match s_tokens s with
  | t :: ts => inr (t, {| s_tokens := ts; s_end := s_end s |})
  | [] => inl (match s_end s with Some (e, _) => e | None => eof end)
  end.
Definition More (s : stream) : bool :=
  match s_tokens s with
  | Delim c :: _ => negb (Ascii.eqb c "]" || Ascii.eqb c "}")
  | _ :: _ => true
  | [] => match s_end s with Some (_, more) => more | None => false end
  end.

(** [None]: the fuel is used up. *)
Abbreviation decoded := (option (string + (gov * stream))).

Definition closes (c : ascii) (s : stream) (failure : string) (v : gov) : decoded :=
  Some (match Token s with
        | inr (Delim d, s') => if Ascii.eqb d c then inr (v, s') else inl failure
        | _ => inl failure
        end).

Fixpoint decodeJSONValueFormat (n : nat) (s : stream) {struct n} : decoded :=
  match n with
  | O => None
  | S n =>
      match Token s with
      | inl e => Some (inl e)
      | inr (Delim c, s') =>
          if Ascii.eqb c "{" then decode_object n [] s'
          else if Ascii.eqb c "[" then decode_array n [] s'
          else Some (inl "unexpected delimiter")
      | inr (StringToken x, s') => Some (inr (VString x, s'))
      | inr (NumberToken x, s') => Some (inr (VNumber x, s'))
      | inr (BoolToken b, s') => Some (inr (VBool b, s'))
      | inr (NullToken, s') => Some (inr (VNil, s'))
      end
  end
with decode_object (n : nat) (object : document) (s : stream) {struct n} : decoded :=
  match n with
  | O => None
  | S n =>
      if More s then
        match Token s with
        | inl e => Some (inl e)
        | inr (StringToken key, s1) =>
            match assoc object key with
            | Some _ => Some (inl "duplicate key")
            | None =>
                match decodeJSONValueFormat n s1 with
                | Some (inr (v, s2)) => decode_object n (object ++ [(key, v)]) s2
                | r => r
                end
            end
        | inr _ => Some (inl "object key is not a string")
        end
      else closes "}" s "unterminated object" (VMap object)
  end
with decode_array (n : nat) (array : list gov) (s : stream) {struct n} : decoded :=
  match n with
  | O => None
  | S n =>
      if More s then
        match decodeJSONValueFormat n s with
        | Some (inr (v, s')) => decode_array n (array ++ [v]) s'
        | r => r
        end
      else closes "]" s "unterminated array" (VList (Some array))
  end.

(** Enough for every stream of this length. *)
Definition json_fuel (s : stream) : nat := S (2 * length (s_tokens s)).

(** One value and then the end of the input; [trailing] for what follows it. *)
Definition decode_all (trailing : option string → string) (s : stream) : option (string + gov) :=
  match decodeJSONValueFormat (json_fuel s) s with
  | None => None
  | Some (inl e) => Some (inl e)
  | Some (inr (v, s')) =>
      Some (match Token s' with
            | inr _ => inl (trailing None)
            | inl e => match s_end s' with None => inr v | Some _ => inl (trailing (Some e)) end
            end)
  end.

(** ** YAML *)

Inductive yaml_kind := DocumentNode | SequenceNode | MappingNode | ScalarNode | AliasNode.
#[global] Instance yaml_kind_eq_dec : EqDecision yaml_kind.
Proof. solve_decision. Defined.

Inductive yaml_node := Node (kind : yaml_kind) (tag : string) (content : list yaml_node).
Definition y_kind (n : yaml_node) : yaml_kind := let 'Node k _ _ := n in k.
Definition y_tag (n : yaml_node) : string := let 'Node _ t _ := n in t.
Definition y_content (n : yaml_node) : list yaml_node := let 'Node _ _ c := n in c.

(** The keys of a mapping are at the even places of its content. *)
Fixpoint string_keys (content : list yaml_node) : bool :=
  match content with
  | [] => true
  | k :: rest =>
      bool_decide (y_kind k = ScalarNode) && String.eqb (y_tag k) "!!str" &&
      match rest with [] => true | _ :: rest' => string_keys rest' end
  end.

Definition yaml_problem (node : yaml_node) : option string :=
  if bool_decide (y_kind node = AliasNode) then Some "YAML aliases are unsupported"
  else if String.eqb (y_tag node) "!!binary" || String.eqb (y_tag node) "!!timestamp"
  then Some "unsupported YAML value"
  else if bool_decide (y_kind node = MappingNode) && negb (string_keys (y_content node))
  then Some "YAML mapping key is not a string"
  else None.

Fixpoint checkYAMLNode (node : yaml_node) : option string :=
  match yaml_problem node with
  | Some e => Some e
  | None => first_error (map checkYAMLNode (let 'Node _ _ content := node in content))
  end.

(** ** The adapters *)

Class Formats := {
  json_tokens : string → stream;
  (** [json.MarshalIndent]. *)
  json_marshal : document → string + string;
  toml_unmarshal : string → string + document;
  toml_marshal : document → string + string;
  yaml_unmarshal_node : string → string + yaml_node;
  yaml_unmarshal : string → string + document;
  yaml_marshal : document → string + string;
}.

Inductive formatAdapter := jsonFormat | tomlFormat | yamlFormat.

Definition newline : string := String "010" "".

Section adapters.
Context `{Unicode} `{Formats}.

Definition formatForExtension (extension : string) : option formatAdapter :=
  let e := ToLower extension in
  if String.eqb e ".json" then Some jsonFormat
  else if String.eqb e ".toml" then Some tomlFormat
  else if String.eqb e ".yaml" || String.eqb e ".yml" then Some yamlFormat
  else None.

Definition decodeJSONFormat (data : string) : string + document :=
  match decode_all (λ _, "trailing JSON value") (json_tokens data) with
  | None => inl "out of fuel"
  | Some (inl e) => inl e
  | Some (inr (VMap root)) => inr root
  | Some (inr _) => inl "top-level JSON value must be an object"
  end.

Definition decode_yaml (data : string) : string + document :=
  match yaml_unmarshal_node data with
  | inl e => inl e
  | inr node => match checkYAMLNode node with Some e => inl e | None => yaml_unmarshal data end
  end.

Definition Decode (f : formatAdapter) (data : string) : string + document :=
  match f with
  | jsonFormat => decodeJSONFormat data
  | tomlFormat => toml_unmarshal data
  | yamlFormat => decode_yaml data
  end.

Definition Encode (f : formatAdapter) (root : document) : string + string :=
  match f with
  | jsonFormat => match json_marshal root with inl e => inl e | inr data => inr (data +:+ newline) end
  | tomlFormat => toml_marshal root
  | yamlFormat => yaml_marshal root
  end.

Definition encodeFile (ext : string) (root : document) : string + string :=
  match formatForExtension ext with
  | None => inl "unsupported extension"
  | Some f => Encode f root
  end.

(** [parseJSONValue]: JSON text of a default, a variable or a flag. *)
Definition parseJSONValue (text : string) : string + gov :=
  match decode_all (λ e, default "trailing JSON value" e) (json_tokens text) with
  | None => inl "out of fuel"
  | Some r => r
  end.
End adapters.

(** ** Flattening *)

Section flatten.
Variables leaves namespaces : gset string.

Definition below (prefix key : string) : string :=
  if String.eqb prefix "" then key else prefix +:+ "." +:+ key.

Definition put (out : gmap string gov) (key : string) (v : gov) : string + gmap string gov :=
  if bool_decide (is_Some (out !! key)) then inl ("duplicate key " +:+ key) else inr (<[key := v]> out).

Section entries.
Variable rec : string → gov → gmap string gov → string + gmap string gov.
Fixpoint flatten_entries (prefix : string) (entries : document) (out : gmap string gov)
    : string + gmap string gov :=
  match entries with
  | [] => inr out
  | (key, value) :: rest =>
      if String.eqb key "" || Contains key "." then inl ("invalid key " +:+ key)
      else
      match rec (below prefix key) value out with
      | inl e => inl e
      | inr out' => flatten_entries prefix rest out'
      end
  end.
End entries.

Fixpoint flatten_value (fullKey : string) (value : gov) (out : gmap string gov) {struct value}
    : string + gmap string gov :=
  match value with
  | VMap nested =>
      if bool_decide (fullKey ∈ leaves) ||
         (match nested with [] => true | _ => false end && negb (bool_decide (fullKey ∈ namespaces)))
      then put out fullKey value
      else flatten_entries flatten_value fullKey nested out
  | VMapAny _ => inl ("non-string mapping key at " +:+ fullKey)
  | _ => put out fullKey value
  end.

Definition flatten (prefix : string) (entries : document) (out : gmap string gov) : string + gmap string gov :=
  flatten_entries flatten_value prefix entries out.
End flatten.
