(* ===== verification/ConfigDecode.v ===== *)
(** * From raw values to typed ones

    [decode.go], with [encoding/csv] as far as it is used. *)
From S2P Require Import Prelude.
From S2P Require Import GoStrings.
From S2P Require Import Utf8.
From S2P Require Import Errors.
From S2P Require Import ConfigTypes.
From S2P Require Import ConfigOptions.
From S2P Require Import ConfigRegistry.
From S2P Require Import ConfigFormats.
From Stdlib Require Import Ascii.
#[local] Open Scope stdpp_scope.
#[local] Open Scope Z_scope.

(** ** Numbers *)

(** Floating-point and duration text. *)
Class Numbers := {
  ParseFloat : string → num_err + Z;
  FormatFloat : Z → string;
  ParseDuration : string → sys_error + Z;
  Duration_String : Z → string;
}.

(** A [float64] is given by its bits; the exponent of an infinity and of a NaN
    is all ones. *)
Definition finite (bits : Z) : bool := negb (Z.land (Z.shiftr bits 52) 2047 =? 2047).

Definition max_uint64 : Z := 2 ^ 64 - 1.

(** [strconv.ParseUint] in base 10 with 64 bits. *)
Definition ParseUint (s : string) : num_err + Z :=
  if String.eqb s "" then inl GoStrings.ErrSyntax
  else match digits s 0 with
  | None => inl GoStrings.ErrSyntax
  | Some n => if n <=? max_uint64 then inr n else inl GoStrings.ErrRange
  end.

Definition ParseBool (s : string) : option bool :=
  if existsb (String.eqb s) ["1"; "t"; "T"; "TRUE"; "true"; "True"] then Some true
  else if existsb (String.eqb s) ["0"; "f"; "F"; "FALSE"; "false"; "False"] then Some false
  else None.

(** ** [encoding/csv] *)

Definition nl : ascii := "010".
Definition cr : ascii := "013".
Definition quote : ascii := "034".
Definition comma : ascii := ",".

(** [Reader.readLine]: a line with its line feed, and what follows it.  A
    carriage return before the line feed, or as the last byte, is dropped. *)
Fixpoint readLine (s : string) : string * string :=
  match s with
  | EmptyString => ("", "")
  | String c t =>
      if Ascii.eqb c nl then (String nl "", t)
      else if Ascii.eqb c cr && match t with String d _ => Ascii.eqb d nl | EmptyString => true end
      then readLine t
      else let '(line, rest) := readLine t in (String c line, rest)
  end.

Definition line_end (line : string) : bool := String.eqb line "" || String.eqb line (String nl "").

(** The rest of a quoted field: its text, what is left of the line if another
    field follows, and the lines after it.  [None]: a misplaced quote. *)
Fixpoint csv_quoted (n : nat) (line rest acc : string) : option (string * option string * string) :=
  match n with
  | O => None
  | S n =>
      match line with
      | EmptyString => None
      | String c line' =>
          if Ascii.eqb c quote then
            match line' with
            | String d line'' =>
                if Ascii.eqb d quote then csv_quoted n line'' rest (acc +:+ String quote "")
                else if Ascii.eqb d comma then Some (acc, Some line'', rest)
                else if line_end line' then Some (acc, None, rest) else None
            | EmptyString => Some (acc, None, rest)
            end
          else
            match line' with
            | EmptyString => let '(l, r) := readLine rest in csv_quoted n l r (acc +:+ String c "")
            | _ => csv_quoted n line' rest (acc +:+ String c "")
            end
      end
  end.

(** A field without quotes: up to the comma or the end of the line. *)
Fixpoint csv_plain (line : string) : string * option string :=
  match line with
  | EmptyString => ("", None)
  | String c line' =>
      if Ascii.eqb c comma then ("", Some line')
      else if Ascii.eqb c nl && String.eqb line' "" then ("", None)
      else let '(field, more) := csv_plain line' in (String c field, more)
  end.

(** The fields of a record, and the lines after it. *)
Fixpoint csv_fields (n : nat) (line rest : string) (acc : list string) : option (list string * string) :=
  match n with
  | O => None
  | S n =>
      let go field more rest' :=
        match more with
        | Some line' => csv_fields n line' rest' (acc ++ [field])
        | None => Some (acc ++ [field], rest')
        end in
      match line with
      | String c line' =>
          if Ascii.eqb c quote then
            match csv_quoted (S (slen line' + slen rest)) line' rest "" with
            | None => None
            | Some (field, more, rest') => go field more rest'
            end
          else
            let '(field, more) := csv_plain line in
            if in_set field quote then None else go field more rest
      | EmptyString => go "" None rest
      end
  end.

(** The first line that is not empty. *)
Fixpoint csv_skip (n : nat) (text : string) : option (string * string) :=
  match n with
  | O => None
  | S n =>
      match text with
      | EmptyString => None
      | _ => let '(line, rest) := readLine text in
             if line_end line then csv_skip n rest else Some (line, rest)
      end
  end.

Inductive csv_result := CsvEOF | CsvError | CsvRecord (fields : list string) (rest : string).

(** [Reader.Read]. *)
Definition csv_Read (text : string) : csv_result :=
  match csv_skip (S (slen text)) text with
  | None => CsvEOF
  | Some (line, rest) =>
      match csv_fields (S (slen line + slen rest)) line rest [] with
      | None => CsvError
      | Some (fields, rest') => CsvRecord fields rest'
      end
  end.

Definition unbracket (text : string) : string :=
  if (2 <=? slen text)%nat && HasPrefix text "[" && HasSuffix text "]"
  then stake (slen text - 2) (sdrop 1 text) else text.

Definition parseStringSlice (text : string) : decode_error + list string :=
  let text := unbracket text in
  if String.eqb text "" then inr [] else
  match csv_Read text with
  | CsvEOF => inl (BadCSV eof)
  | CsvError => inl (BadCSV "parse error")
  | CsvRecord values rest =>
      match csv_Read rest with
      | CsvEOF => inr values
      | CsvError => inl (BadCSV "parse error")
      | CsvRecord others _ =>
          if (length others =? length values)%nat then inl MultipleRecords
          else inl (BadCSV "wrong number of fields")
      end
  end.

(** ** Single values *)

(** [append([]string(nil), l...)] is nil when there is nothing to append. *)
Definition copied (l : option (list string)) : option (list string) :=
  match l with Some [] | None => None | Some l => Some l end.

Fixpoint all_strings (l : list gov) : option (list string) :=
  match l with
  | [] => Some []
  | VString s :: rest => (s ::.) <$> all_strings rest
  | _ => None
  end.

Section coerce.
Context `{Unicode} `{Numbers} `{Formats}.

(** A value of text. *)
Definition from_text (s : string) (t : gotype) : decode_error + gov :=
  let number (r : num_err + Z) (mk : Z → gov) : decode_error + gov :=
    match r with inl e => inl (BadNumber e) | inr z => inr (mk z) end in
  match t with
  | Slice None (Basic TString) => match parseStringSlice s with inl e => inl e | inr l => inr (VStrings (Some l)) end
  | Basic TDuration => match ParseDuration s with inl e => inl (BadDuration e) | inr z => inr (VDuration z) end
  | Basic TString => inr (VString s)
  | Basic TBool => match ParseBool s with None => inl BadBool | Some b => inr (VBool b) end
  | Basic TInt => number (Atoi s) VInt
  | Basic TInt64 => number (Atoi s) VInt64
  | Basic TUint => number (ParseUint s) VUint
  | Basic TUint64 => number (ParseUint s) VUint64
  | Basic TFloat64 =>
      match ParseFloat s with
      | inl e => inl (BadNumber e)
      | inr bits => if finite bits then inr (VFloat bits) else inl NonFinite
      end
  | _ => inr (zeroValue t)
  end.

(** A raw value that has the type of the field already. *)
Definition same_type (raw : gov) : decode_error + gov :=
  match raw with
  | VFloat bits => if finite bits then inr raw else inl NonFinite
  | VStrings l => inr (VStrings (copied l))
  | _ => inr raw
  end.

Definition is_string_type (t : gotype) : bool := match t with Basic TString => true | _ => false end.
Definition is_strings_type (t : gotype) : bool := match t with Slice None (Basic TString) => true | _ => false end.

(** [coerce]: a value for a type that is not a slice of structs. *)
Definition coerce (raw : gov) (t : gotype) : decode_error + gov :=
  if has_type raw t then same_type raw else
  match raw with
  | VString s => from_text s t
  | _ =>
      if is_string_type t then inl (Expected t) else
      match raw with
      | VNumber s => from_text s t
      | VBool b => from_text (FormatBool b) t
      | VInt z | VInt64 z | VUint z | VUint64 z => from_text (Itoa z) t
      | VFloat bits => from_text (FormatFloat bits) t
      | VList n =>
          if is_strings_type t then
            match all_strings (default [] n) with
            | None => inl ListElementNotString
            | Some l => inr (VStrings (Some l))
            end
          else inl (Expected t)
      | _ => inl (Expected t)
      end
  end.

(** ** Slices of structs *)

Fixpoint string_keyed (m : list (gov * gov)) : option document :=
  match m with
  | [] => Some []
  | (VString k, v) :: rest => ((k, v) ::.) <$> string_keyed rest
  | _ => None
  end.

Definition structuredObject (value : gov) : option document :=
  match value with
  | VMap object => Some object
  | VMapAny object => string_keyed object
  | _ => None
  end.

Definition find_element (es : elementSchema) (key : string) : option elementField :=
  snd <$> list_find (λ f, ef_name f = key) (es_fields es).

(** The loop over the entries of an object. *)
Fixpoint set_members (es : elementSchema) (object : document) (result : list gov) : decode_error + list gov :=
  match object with
  | [] => inr result
  | (key, value) :: rest =>
      match find_element es key with
      | None => inl (UnknownElementKey key)
      | Some field =>
          match coerce value (ef_typ field) with
          | inl e => inl (AtField key e)
          | inr v => set_members es rest (<[ef_index field := v]> result)
          end
      end
  end.

Definition coerceStructuredElement (es : elementSchema) (object : document) : decode_error + list gov :=
  match set_members es object (map (λ f, zeroValue (ef_typ f)) (es_fields es)) with
  | inl e => inl e
  | inr result =>
      match list_find (λ f, assoc object (ef_name f) = None) (es_fields es) with
      | Some (_, f) => inl (MissingElementKey (ef_name f))
      | None => inr result
      end
  end.

Fixpoint coerce_elements (es : elementSchema) (i : nat) (items : list gov) : decode_error + list (list gov) :=
  match items with
  | [] => inr []
  | item :: rest =>
      match structuredObject item with
      | None => inl (ElementNotObject i)
      | Some object =>
          match coerceStructuredElement es object with
          | inl e => inl (AtElement i e)
          | inr element =>
              match coerce_elements es (S i) rest with
              | inl e => inl e
              | inr l => inr (element :: l)
              end
          end
      end
  end.

(** The items of a slice of any type; [None] for everything else and for a nil
    [[]any]. *)
Definition items_of (raw : gov) : option (list gov) :=
  match raw with
  | VList l => l
  | VStrings l => Some (map VString (default [] l))
  | VStructs _ t l => Some (map (λ _, VOther (tn_Name t)) (default [] l))
  | VSlice l => Some l
  | _ => None
  end.

Definition coerce_items (s : option type_name) (es : elementSchema) (raw : gov) : decode_error + gov :=
  match items_of raw with
  | None => inl ExpectedObjects
  | Some items =>
      match coerce_elements es 0 items with
      | inl e => inl e
      | inr rows => inr (VStructs s (es_typ es) (Some rows))
      end
  end.

Definition coerceStructuredSlice (raw : gov) (t : gotype) (elements : option elementSchema) : decode_error + gov :=
  match (match elements with Some es => inr es | None => compileElementSchema t end) with
  | inl e => inl (BadSchema (e_typ (base e)) (e_field (base e)))
  | inr es =>
      if has_type raw t then inr raw else
      match raw with
      | VString text =>
          match parseJSONValue text with
          | inl e => inl (BadJSON e)
          | inr value => coerce_items (slice_name t) es value
          end
      | _ => coerce_items (slice_name t) es raw
      end
  end.

Definition coerceWithSchema (raw : gov) (t : gotype) (elements : option elementSchema) : decode_error + gov :=
  match t with
  | Slice _ _ => if is_strings_type t then coerce raw t else coerceStructuredSlice raw t elements
  | _ => coerce raw t
  end.
End coerce.
