(* ===== verification/ConfigResolve.v ===== *)
(** * Resolving the layers

    [source.go] and [validate.go]: from the layers of raw values to a snapshot. *)
From S2P Require Import Prelude.
From S2P Require Import GoStrings.
From S2P Require Import Utf8.
From S2P Require Errx.
From S2P Require Import ConfigTypes.
From S2P Require Import ConfigOptions.
From S2P Require Import ConfigRegistry.
From S2P Require Import ConfigFormats.
From S2P Require Import ConfigDecode.
#[local] Open Scope stdpp_scope.
#[local] Open Scope Z_scope.

Abbreviation layer := (gmap string gov).
Abbreviation layers := (gmap Source layer).
(** A value of the schema: the leaves that were set, by their index. *)
Abbreviation values := (gmap (list nat) gov).

Record state := {
  st_values : values;
  st_origins : gmap string Origin;
  st_present : gmap Source (gset string);
  st_layers : layers;
  st_path : string;
  st_fileLoaded : bool;
}.

Definition sources : list Source := [SourceDefault; SourceInitial; SourceFile; SourceEnv; SourceFlag; SourceSet].
Definition candidates : list Source := [SourceSet; SourceFlag; SourceEnv; SourceFile; SourceInitial; SourceDefault].

Definition layer_of (ls : layers) (s : Source) : layer := default ∅ (ls !! s).
Definition cloneLayers (ls : layers) : layers := list_to_map (map (λ s, (s, layer_of ls s)) sources).

Definition valueAt (vs : values) (f : fieldMeta) : gov := default (zeroValue (f_typ f)) (vs !! f_index f).

(** The first candidate that has the key. *)
Fixpoint winner (ls : layers) (key : string) (cs : list Source) : option (gov * Source) :=
  match cs with
  | [] => None
  | c :: rest =>
      match layer_of ls c !! key with
      | Some v => Some (v, c)
      | None => winner ls key rest
      end
  end.

(** What a schema type brings along: its fields and, when it is [Validatable],
    its method [ValidateConfig]. *)
Class Schema := {
  schema : gotype;
  ValidateConfig : option (values → option string);
}.

Section resolve.
Context `{Unicode} `{Numbers} `{Formats} `{Schema}.

Definition origin_detail (path : string) (f : fieldMeta) (s : Source) : string :=
  match s with
  | SourceFile => path
  | SourceEnv => f_env f
  | SourceFlag => f_flag f
  | _ => ""
  end.

Definition resolve_field (ls : layers) (path : string) (f : fieldMeta)
    (acc : values * gmap string Origin) : error + values * gmap string Origin :=
  match winner ls (f_key f) candidates with
  | None =>
      if f_required f
      then inl (configErr "required field missing" Errx.Validation (f_key f) (f_field f) "" None false)
      else inr acc
  | Some (raw, source) =>
      match coerceWithSchema raw (f_typ f) (f_elements f) with
      | inl e =>
          let typ := if bool_decide (source = SourceDefault) then "default value" else "invalid value" in
          inl (configErr typ Errx.Invalid (f_key f) (f_field f) (Source_String source) (Some (Decoding e)) false)
      | inr value =>
          inr (<[f_index f := value]> acc.1,
               <[f_key f := {| o_Source := source; o_Detail := origin_detail path f source |}]> acc.2)
      end
  end.

Fixpoint resolve_fields (ls : layers) (path : string) (fs : list fieldMeta)
    (acc : values * gmap string Origin) : error + values * gmap string Origin :=
  match fs with
  | [] => inr acc
  | f :: rest =>
      match resolve_field ls path f acc with
      | inl e => inl e
      | inr acc' => resolve_fields ls path rest acc'
      end
  end.

(** The validator of one field; calling one that is not there panics. *)
Definition validate_field (validators : gmap string FieldValidator) (vs : values)
    (origins : gmap string Origin) (f : fieldMeta) : option error :=
  if String.eqb (f_validate f) "" then None
  else
  match origins !! f_key f with
  | None => None
  | Some origin =>
      match validators !! f_validate f with
      | None => Some (configErr "panic: nil validator" Errx.Unknown (f_key f) (f_field f) "" None false)
      | Some fn =>
          match fn {| fc_Field := f_field f; fc_Key := f_key f; fc_Origin := origin |} (valueAt vs f) with
          | None => None
          | Some text =>
              Some (configErr "validation failed" Errx.Validation (f_key f) (f_field f) "" (Some (Rejected text)) false)
          end
      end
  end.

Definition validate_config (vs : values) : option error :=
  match ValidateConfig with
  | None => None
  | Some validate =>
      match validate vs with
      | None => None
      | Some text =>
          Some (configErr "configuration validation failed" Errx.Validation "" "" "" (Some (Rejected text)) false)
      end
  end.

Definition present_of (ls : layers) : gmap Source (gset string) :=
  list_to_map (map (λ s, (s, dom (layer_of ls s))) sources).

Definition resolve (r : registry) (ls : layers) (path : string) (fileLoaded : bool)
    (validators : gmap string FieldValidator) : error + state :=
  match resolve_fields ls path (r_fields r) (∅, ∅) with
  | inl e => inl e
  | inr (vs, origins) =>
      match first_error (map (validate_field validators vs origins) (r_fields r)) with
      | Some e => inl e
      | None =>
          match validate_config vs with
          | Some e => inl e
          | None =>
              inr {| st_values := vs; st_origins := origins; st_present := present_of ls;
                     st_layers := cloneLayers ls; st_path := path; st_fileLoaded := fileLoaded |}
          end
      end
  end.
End resolve.
