(* ===== verification/ConfigFile.v ===== *)
(** * Configuration files

    [file.go]: choosing, reading and replacing the file. *)
From S2P Require Import Prelude.
From S2P Require Import GoStrings.
From S2P Require Import GoPath.
From S2P Require Import Utf8.
From S2P Require Import Errors.
From S2P Require Errx.
From S2P Require Import ConfigTypes.
From S2P Require Import ConfigOptions.
From S2P Require Import ConfigRegistry.
From S2P Require Import ConfigFormats.
From S2P Require Import ConfigDecode.
From S2P Require Import ConfigResolve.
From Stdlib Require Import Ascii.
#[local] Open Scope stdpp_scope.
#[local] Open Scope Z_scope.

(** What the system answers, from the calls so far. *)
Class ConfigHost := {
  cf_env : history → string → option string;
  cf_home : history → sys_error + string;
  (** Whether the path is a regular file. *)
  cf_lstat : history → string → sys_error + bool;
  cf_read : history → string → sys_error + string;
  cf_temp : history → string → sys_error + string;
  cf_do : history → call → option sys_error;
}.

Abbreviation io A := (proc call A).

Section host.
Context `{ConfigHost}.

Definition os_LookupEnv (name : string) : io (option string) := perform (LookupEnv name) (λ h, cf_env h name).
Definition os_UserHomeDir : io (sys_error + string) := perform UserHomeDir cf_home.
Definition os_Lstat (path : string) : io (sys_error + bool) := perform (Lstat path) (λ h, cf_lstat h path).
Definition os_ReadFile (path : string) : io (sys_error + string) := perform (ReadFile path) (λ h, cf_read h path).
Definition os_CreateTemp (dir : string) : io (sys_error + string) :=
  perform (CreateTemp dir) (λ h, cf_temp h dir).
Definition os_do (c : call) : io (option sys_error) := perform c (λ h, cf_do h c).

(** ** [os.ExpandEnv] *)

Definition isShellSpecialVar (c : ascii) : bool := in_set "*#$@!?-0123456789" c.
Definition isAlphaNum (c : ascii) : bool :=
  Ascii.eqb c "_" || is_digit_ascii (ord c) || is_letter_ascii (ord c).

Fixpoint alnum_prefix (s : string) : string :=
  match s with
  | String c t => if isAlphaNum c then String c (alnum_prefix t) else ""
  | EmptyString => ""
  end.

(** The name after a dollar sign and the bytes it takes. *)
Definition getShellName (s : string) : string * nat :=
  match s with
  | String "{" t =>
      match t with
      | String c (String "}" _) =>
          if isShellSpecialVar c then (String c "", 3%nat)
          else match Index t "}" with
               | Some O => ("", 2%nat)
               | Some i => (stake i t, (i + 2)%nat)
               | None => ("", 1%nat)
               end
      | _ => match Index t "}" with
             | Some O => ("", 2%nat)
             | Some i => (stake i t, (i + 2)%nat)
             | None => ("", 1%nat)
             end
      end
  | String c _ =>
      if isShellSpecialVar c then (String c "", 1%nat)
      else let name := alnum_prefix s in (name, slen name)
  | EmptyString => ("", O)
  end.

(** The loop, with the number of bytes that are taken already. *)
Fixpoint expand (skip : nat) (s : string) : io string :=
  match s with
  | EmptyString => mret ""
  | String c t =>
      match skip with
      | S k => expand k t
      | O =>
          if Ascii.eqb c "$" && negb (String.eqb t "") then
            let '(name, w) := getShellName t in
            piece ← (if String.eqb name "" then mret (if (0 <? w)%nat then "" else String c "")
                     else v ← os_LookupEnv name; mret (default "" v));
            tail ← expand w t;
            mret (piece +:+ tail)
          else
            tail ← expand 0 t;
            mret (String c tail)
      end
  end.
Definition ExpandEnv (s : string) : io string := expand 0 s.

(** ** Reading *)

Definition selected_path (o : options) : io string :=
  if String.eqb (o_configEnv o) "" then mret (o_file o) else
  v ← os_LookupEnv (o_configEnv o);
  mret (match v with
        | Some v => if String.eqb v "" then o_file o else v
        | None => o_file o
        end).

Definition under_home (p : string) : io (error + string) :=
  if String.eqb p "~" || HasPrefix p "~/" then
    let! home := os_UserHomeDir
      else e => mret (inl (configErr "home directory" Errx.Internal "" "" "" (Some (OS e)) true)) in
    mret (inr (if String.eqb p "~" then home else PJoin [home; TrimPrefix p "~/"]))
  else mret (inr p).

Definition file_leaves (r : registry) : gset string := list_to_set (map f_key (r_fields r)).
Definition key_namespaces (key : string) : list string :=
  let components := Split key "." in
  map (λ i, Join (firstn i components) ".") (seq 1 (length components - 1)).
Definition file_namespaces (r : registry) : gset string :=
  list_to_set (concat (map (λ f, key_namespaces (f_key f)) (r_fields r))).

Context `{Unicode} `{Formats}.

Definition decode_file (f : formatAdapter) (r : registry) (p data : string) : error + layer :=
  match Decode f data with
  | inl e => inl (fileErr "parse file" Errx.Invalid p (Some (Document e)) false)
  | inr root =>
      match flatten (file_leaves r) (file_namespaces r) "" root ∅ with
      | inl e => inl (fileErr "decode file" Errx.Invalid p (Some (Document e)) false)
      | inr flat => inr flat
      end
  end.

(** The path, whether the file is there, and its values. *)
Definition loadFile (o : options) (r : registry) : io (error + (string * bool * layer)) :=
  p ← selected_path o;
  if String.eqb p "" then mret (inr ("", false, ∅)) else
  p ← ExpandEnv p;
  let! p := under_home p else e => mret (inl e) in
  if String.eqb p "" || HasPrefix p "~"
  then mret (inl (fileErr "invalid file path" Errx.Invalid p None false)) else
  let p := Clean p in
  match formatForExtension (ToLower (Ext p)) with
  | None => mret (inl (fileErr "unsupported file format" Errx.Invalid p None false))
  | Some f =>
      stat ← os_Lstat p;
      match stat with
      | inl e =>
          if bool_decide (e = ErrNotExist) then mret (inr (p, false, ∅))
          else mret (inl (fileErr "read file" Errx.Internal p (Some (OS e)) true))
      | inr _ =>
          let! data := os_ReadFile p
            else e => mret (inl (fileErr "read file" Errx.Internal p (Some (OS e)) true)) in
          mret (match decode_file f r p data with inl e => inl e | inr flat => inr (p, true, flat) end)
      end
  end.

(** ** Writing *)

Fixpoint assoc_set (l : document) (k : string) (v : gov) : document :=
  match l with
  | [] => [(k, v)]
  | (k', v') :: l' => if String.eqb k' k then (k, v) :: l' else (k', v') :: assoc_set l' k v
  end.

Fixpoint putNested (root : document) (path : list string) (value : gov) : document :=
  match path with
  | [] => root
  | [p] => assoc_set root p value
  | p :: rest =>
      let n := match assoc root p with Some (VMap m) => m | _ => [] end in
      assoc_set root p (VMap (putNested n rest value))
  end.

Context `{Numbers}.

Definition duration_text (v : gov) : gov := match v with VDuration z => VString (Duration_String z) | v => v end.

Definition encode_element (es : elementSchema) (row : list gov) : gov :=
  VMap (map (λ f, (ef_name f, duration_text (default VNil (row !! ef_index f)))) (es_fields es)).
Definition encodeStructuredSlice (es : elementSchema) (v : gov) : gov :=
  match v with
  | VStructs _ _ (Some rows) => VList (Some (map (encode_element es) rows))
  | _ => VList None
  end.

Definition encode_value (f : fieldMeta) (v : gov) : gov :=
  match f_elements f with
  | Some es => encodeStructuredSlice es v
  | None => match f_typ f with Basic TDuration => duration_text v | _ => v end
  end.

Definition persistent (s : Source) : bool :=
  match s with SourceDefault | SourceFile | SourceSet => true | _ => false end.

(** Whether [Save] writes a field. *)
Definition saved (st : state) (f : fieldMeta) : bool :=
  let source := match st_origins st !! f_key f with Some o => o_Source o | None => SourceNone end in
  f_save f && persistent source &&
  (negb (f_sensitive f) || bool_decide (source = SourceFile) || bool_decide (source = SourceSet)).

Definition save_root (st : state) (fs : list fieldMeta) : document :=
  foldl (λ root f, putNested root (Split (f_key f) ".") (encode_value f (valueAt (st_values st) f))) []
    (filter (λ f, saved st f = true) fs).
Definition save_sensitive (st : state) (fs : list fieldMeta) : bool :=
  existsb (λ f, saved st f && f_sensitive f) fs.

(** The next call, if nothing has failed yet. *)
Definition unless_failed (e : option sys_error) (c : call) : io (option sys_error) :=
  match e with Some x => mret (Some x) | None => os_do c end.

Definition sync_directory (dir : string) : io unit :=
  opened ← os_do (OpenDir dir);
  match opened with
  | Some _ => mret ()
  | None => _ ← os_do (SyncDir dir); _ ← os_do (CloseDir dir); mret ()
  end.

Definition target_error (path : string) (stat : sys_error + bool) : option error :=
  match stat with
  | inr regular => if regular : bool then None else Some (fileErr "unsafe save target" Errx.Internal path None false)
  | inl e => if bool_decide (e = ErrNotExist) then None
             else Some (fileErr "stat save target" Errx.Internal path (Some (OS e)) true)
  end.

(** Replacing the file by way of a temporary one, which is removed whatever
    happens. *)
Definition replace_file (path data : string) (mode : Z) : io (option error) :=
  stat ← os_Lstat path;
  match target_error path stat with
  | Some e => mret (Some e)
  | None =>
      let! tmp := os_CreateTemp (Dir path)
        else e => mret (Some (fileErr "create temporary file" Errx.Internal path (Some (OS e)) true)) in
      err ← os_do (TmpChmod tmp mode);
      err ← unless_failed err (TmpWrite tmp data);
      err ← unless_failed err (TmpSync tmp);
      closed ← os_do (TmpClose tmp);
      err ← unless_failed (match err with Some e => Some e | None => closed end) (Rename tmp path);
      result ← (match err with
                | Some e => mret (Some (fileErr "save file" Errx.Internal path (Some (OS e)) true))
                | None => _ ← sync_directory (Dir path); mret None
                end);
      _ ← os_do (Remove tmp);
      mret result
  end.

(** [Save] once the snapshot and the registry are taken. *)
Definition save_state (st : state) (r : registry) : io (option error) :=
  if String.eqb (st_path st) "" then mret (Some (configErr "no config file" Errx.Conflict "" "" "" None false)) else
  match encodeFile (Ext (st_path st)) (save_root st (r_fields r)) with
  | inl e => mret (Some (fileErr "encode file" Errx.Internal (st_path st) (Some (Document e)) false))
  | inr data => replace_file (st_path st) data (if save_sensitive st (r_fields r) then 384 else 420)
  end.
End host.
