(* ===== verification/Config.v ===== *)
(** * The configuration object

    [config.go] and [log.go]: loading, setting, validating and saving, and the
    buffer of diagnostics; [configpflag/source.go]. *)
From S2P Require Import Prelude.
From S2P Require Import GoStrings.
From S2P Require Import Utf8.
From S2P Require Import Errors.
From S2P Require Errx.
From S2P Require Import ConfigTypes.
From S2P Require Import ConfigOptions.
From S2P Require Import ConfigRegistry.
From S2P Require Import ConfigFormats.
From S2P Require Import ConfigDecode.
From S2P Require Import ConfigResolve.
From S2P Require Import ConfigFile.
#[local] Open Scope stdpp_scope.
#[local] Open Scope Z_scope.

(** ** Diagnostics *)

Inductive level := LevelDebug | LevelError.
Inductive attr := AInt (z : Z) | AString (s : string) | ABool (b : bool) | AError (e : error).
Record log_record := { l_level : level; l_message : string; l_attrs : list (string * attr) }.
Definition newLogRecord (l : level) (message : string) (attrs : list (string * attr)) : log_record :=
  {| l_level := l; l_message := message; l_attrs := attrs |}.

Definition maxLogRecords : nat := 256.
Record logBuffer := { lb_records : list log_record; lb_discarded : nat }.
Definition empty_buffer : logBuffer := {| lb_records := []; lb_discarded := 0 |}.

(** [logBuffer.add]. *)
Definition add (b : logBuffer) (r : log_record) : logBuffer :=
  if (length (lb_records b) =? maxLogRecords)%nat
  then {| lb_records := tail (lb_records b) ++ [r]; lb_discarded := S (lb_discarded b) |}
  else {| lb_records := lb_records b ++ [r]; lb_discarded := lb_discarded b |}.

(** What reaches a logger. *)
Inductive emission := Discarded (count : nat) | Handled (r : log_record).

(** [logBuffer.flush]; without a logger nothing happens. *)
Definition flush (logger : bool) (b : logBuffer) : list emission * logBuffer :=
  if logger then
    ((if (0 <? lb_discarded b)%nat then [Discarded (lb_discarded b)] else []) ++ map Handled (lb_records b),
     empty_buffer)
  else ([], b).

(** ** The object *)

Record Config := {
  c_opts : list (option Option);
  c_loaded : bool;
  c_st : state;
  c_set : layer;
  c_logs : logBuffer;
}.

Definition zero_state : state := {|
  st_values := ∅; st_origins := ∅; st_present := ∅; st_layers := ∅; st_path := ""; st_fileLoaded := false |}.

Definition New (opts : list (option Option)) : Config := {|
  c_opts := opts; c_loaded := false; c_st := zero_state; c_set := ∅; c_logs := empty_buffer |}.

(** The object and the calls of the system so far. *)
Record world := { w_cfg : Config; w_hist : history }.

Abbreviation M := (stm world).

Definition read_cfg : M Config := λ w, (w_cfg w, w).
Definition lift_io {A} (m : io A) : M A :=
  λ w, let '(a, h) := m (w_hist w) in (a, {| w_cfg := w_cfg w; w_hist := h |}).
Definition with_logs (c : Config) (b : logBuffer) : Config :=
  {| c_opts := c_opts c; c_loaded := c_loaded c; c_st := c_st c; c_set := c_set c; c_logs := b |}.
Definition log (r : log_record) : M unit :=
  λ w, (tt, {| w_cfg := with_logs (w_cfg w) (add (c_logs (w_cfg w)) r); w_hist := w_hist w |}).
Definition debug (message : string) (attrs : list (string * attr)) : M unit :=
  log (newLogRecord LevelDebug message attrs).

(** The new overrides and snapshot, published together. *)
Definition publish (set : layer) (st : state) : M unit :=
  λ w, (tt, {| w_cfg := {| c_opts := c_opts (w_cfg w); c_loaded := true; c_st := st; c_set := set;
                           c_logs := c_logs (w_cfg w) |};
               w_hist := w_hist w |}).

Section config.
Context `{ConfigHost} `{Unicode} `{Formats} `{Numbers} `{Schema}.

(** ** Loading *)

(** The initial layer. *)
Fixpoint initial_layer (r : registry) (l : list (string * gov)) (acc : layer) : error + layer :=
  match l with
  | [] => inr acc
  | (key, value) :: rest =>
      if bool_decide (is_Some (r_byKey r !! key)) then initial_layer r rest (<[key := value]> acc)
      else inl (configErr "unknown initial key" Errx.Invalid key "" "" None false)
  end.

Definition default_layer (r : registry) : layer :=
  foldl (λ acc f, if f_hasDef f then <[f_key f := VString (f_def f)]> acc else acc) ∅ (r_fields r).

Definition unknown_file_key (r : registry) (flat : layer) : option error :=
  first_error (map (λ kv : string * gov,
    if bool_decide (is_Some (r_byKey r !! kv.1)) then None
    else Some (configErr "unknown file key" Errx.Invalid kv.1 "" "file" None false)) (map_to_list flat)).

Definition env_value (f : fieldMeta) : io (option string) :=
  if String.eqb (f_env f) "" then mret None else os_LookupEnv (f_env f).

Definition flag_value (flags : option FlagSource) (f : fieldMeta) : io (error + option string) :=
  match flags with
  | None => mret (inr None)
  | Some source =>
      if String.eqb (f_flag f) "" then mret (inr None) else
      '(v, changed, found) ← perform (FlagLookup (f_flag f)) (λ h, source h (f_flag f));
      mret (if negb found then inl (configErr "flag binding" Errx.Conflict (f_key f) (f_field f) "flag" None false)
            else inr (if changed : bool then Some v else None))
  end.

Definition insert_text (key : string) (v : option string) (l : layer) : layer :=
  match v with Some s => <[key := VString s]> l | None => l end.

(** The layers of the environment and of the flags. *)
Definition external_layers (flags : option FlagSource) (r : registry) : io (error + layer * layer) :=
  for_each (λ f '(env, flag),
    v ← env_value f;
    let! x := flag_value flags f else e => mret (inl e) in
    mret (inr (insert_text (f_key f) v env, insert_text (f_key f) x flag))) (r_fields r) (∅, ∅).

Definition make_layers (def initial file env flag set : layer) : layers :=
  list_to_map [(SourceDefault, def); (SourceInitial, initial); (SourceFile, file); (SourceEnv, env);
               (SourceFlag, flag); (SourceSet, set)].

Definition layer_counts (ls : layers) : list (string * attr) :=
  map (λ s, (Source_String s, AInt (Z.of_nat (size (layer_of ls s))))) sources.

Definition Load_body : M (option error) :=
  c ← read_cfg;
  let! o := mret (Config_options (c_opts c)) else e => mret (Some e) in
  _ ← debug "config options applied" [];
  let! r := mret (makeRegistry schema o) else e => mret (Some e) in
  _ ← debug "config registry built" [("fields", AInt (Z.of_nat (length (r_fields r))))];
  let! initial := mret (initial_layer r (o_initial o) ∅) else e => mret (Some e) in
  let! (path, loaded, flat) := lift_io (loadFile o r) else e => mret (Some e) in
  _ ← debug "config file evaluated" [("path", AString path); ("loaded", ABool loaded)];
  check! mret (unknown_file_key r flat) else e => mret (Some e) in
  let! (env, flag) := lift_io (external_layers (o_flags o) r) else e => mret (Some e) in
  let ls := make_layers (default_layer r) initial (if loaded : bool then flat else ∅) env flag (c_set c) in
  _ ← debug "config sources discovered" (layer_counts ls);
  let! st := mret (resolve r ls path loaded (o_validators o)) else e => mret (Some e) in
  _ ← publish (c_set c) st;
  _ ← debug "config load completed" [];
  mret None.

Definition Load : M (option error) :=
  _ ← debug "config load started" [];
  err ← Load_body;
  _ ← (match err with
       | Some e => log (newLogRecord LevelError "config load failed" [("error", AError e)])
       | None => mret ()
       end);
  mret err.

(** ** Setting, validating and saving *)

Definition not_loaded : error := configErr "not loaded" Errx.Conflict "" "" "" None false.

(** The options and the registry, as every operation makes them anew. *)
Definition opened (c : Config) : error + options * registry :=
  match Config_options (c_opts c) with
  | inl e => inl e
  | inr o => match makeRegistry schema o with inl e => inl e | inr r => inr (o, r) end
  end.

Definition Set_ (key : string) (value : gov) : M (option error) :=
  c ← read_cfg;
  if negb (c_loaded c) then mret (Some not_loaded) else
  let! (o, r) := mret (opened c) else e => mret (Some e) in
  if negb (bool_decide (is_Some (r_byKey r !! key)))
  then mret (Some (configErr "unknown key" Errx.Invalid key "" "" None false)) else
  let set := <[key := value]> (c_set c) in
  let ls := <[SourceSet := set]> (cloneLayers (st_layers (c_st c))) in
  let! st := mret (resolve r ls (st_path (c_st c)) (st_fileLoaded (c_st c)) (o_validators o))
    else e => mret (Some e) in
  _ ← publish set st;
  mret None.

Definition Validate : M (option error) :=
  c ← read_cfg;
  if negb (c_loaded c) then mret (Some not_loaded) else
  let! (o, r) := mret (opened c) else e => mret (Some e) in
  mret (match resolve r (st_layers (c_st c)) (st_path (c_st c)) (st_fileLoaded (c_st c)) (o_validators o) with
        | inl e => Some e
        | inr _ => None
        end).

Definition Save : M (option error) :=
  c ← read_cfg;
  if negb (c_loaded c) then mret (Some not_loaded) else
  let! (o, r) := mret (opened c) else e => mret (Some e) in
  lift_io (save_state (c_st c) r).

Definition FlushLog (logger : bool) : M (list emission) :=
  λ w, let '(out, b) := flush logger (c_logs (w_cfg w)) in
       (out, {| w_cfg := with_logs (w_cfg w) b; w_hist := w_hist w |}).

(** ** Looking *)

Definition Values (c : Config) : values := st_values (c_st c).
Definition Config_Origin (c : Config) (key : string) : option Origin := st_origins (c_st c) !! key.
Definition Config_Source (c : Config) (key : string) : Source * bool :=
  match Config_Origin c key with Some o => (o_Source o, true) | None => (SourceNone, false) end.
Definition HasSource (c : Config) (key : string) (s : Source) : bool :=
  bool_decide (key ∈ default ∅ (st_present (c_st c) !! s)).
Definition FileLoaded (c : Config) : bool := c_loaded c && st_fileLoaded (c_st c).
Definition Path (c : Config) : string := st_path (c_st c).
End config.

(** ** [configpflag] *)

(** A flag set gives for a name the text of the flag and whether it was changed. *)
Definition FlagSet : Type := history → string → option (string * bool).
Definition pflag_Lookup (flags : option FlagSet) : FlagSource := λ h name,
  match flags with
  | None => ("", false, false)
  | Some fs => match fs h name with None => ("", false, false) | Some (v, changed) => (v, changed, true) end
  end.
