(* ===== verification/ConfigFormatsFacts.v ===== *)
(** * What the readers of [config] accept

    The JSON reader accepts exactly the token sequences of values without
    duplicate keys; the YAML check in plain words; what flattening leaves. *)
From S2P Require Import Prelude.
From S2P Require Import GoStrings.
From S2P Require Import Utf8.
From S2P Require Import ConfigTypes.
From S2P Require Import ConfigFormats.
From S2P Require Import GoPath.
From S2P Require Import ConfigFile.
From Stdlib Require Import Ascii.
#[local] Open Scope stdpp_scope.
#[local] Open Scope Z_scope.

(** ** JSON *)

(** The tokens of a value. *)
Fixpoint tokens_of (v : gov) : list token :=
  match v with
  | VNil => [NullToken]
  | VString s => [StringToken s]
  | VBool b => [BoolToken b]
  | VNumber t => [NumberToken t]
  | VList (Some l) => Delim "[" :: concat (map tokens_of l) ++ [Delim "]"]
  | VMap m => Delim "{" :: concat (map (λ kv, StringToken kv.1 :: tokens_of kv.2) m) ++ [Delim "}"]
  | _ => []
  end.

(** The values that JSON can say, with distinct keys in every object. *)
Fixpoint json_value (v : gov) : Prop :=
  match v with
  | VNil | VString _ | VBool _ | VNumber _ => True
  | VList (Some l) => foldr (λ x P, json_value x ∧ P) True l
  | VMap m => NoDup (map fst m) ∧ foldr (λ kv P, json_value kv.2 ∧ P) True m
  | _ => False
  end.

Lemma foldr_and {A} (P : A → Prop) l : foldr (λ x Q, P x ∧ Q) True l ↔ Forall P l.
Proof. induction l as [|x l IH]; cbn; [by rewrite Forall_nil|]. by rewrite Forall_cons, IH. Qed.

Lemma json_list l : json_value (VList (Some l)) ↔ Forall json_value l.
Proof. apply foldr_and. Qed.
Lemma json_map m : json_value (VMap m) ↔ NoDup (map fst m) ∧ Forall (λ kv, json_value kv.2) m.
Proof. cbn. by rewrite (foldr_and (λ kv, json_value kv.2)). Qed.

Abbreviation members m := (concat (map (λ kv, StringToken kv.1 :: tokens_of kv.2) m)).
Abbreviation items l := (concat (map tokens_of l)).

Definition with_tokens (l : list token) (s : stream) : stream := {| s_tokens := l; s_end := s_end s |}.

Lemma Token_cons t ts e : Token {| s_tokens := t :: ts; s_end := e |} = inr (t, {| s_tokens := ts; s_end := e |}).
Proof. done. Qed.

Lemma Token_inv s t s' : Token s = inr (t, s') → s_tokens s = t :: s_tokens s' ∧ s_end s' = s_end s.
Proof. unfold Token. destruct s as [[|t0 ts] e]; [done|]. by intros [= <- <-]. Qed.

Lemma json_first v : json_value v → ∃ t ts, tokens_of v = t :: ts ∧ t ≠ Delim "]" ∧ t ≠ Delim "}".
Proof. destruct v as [| | | | | | | | | | |[l|]| | | | |]; cbn; intros H; try done; eauto 10. Qed.

Lemma More_value v ts e : json_value v → More {| s_tokens := tokens_of v ++ ts; s_end := e |} = true.
Proof.
  intros Hv. destruct (json_first v Hv) as (t & ts' & -> & Hb & Hc). unfold More. cbn.
  destruct t as [c| | | |]; [|done..]. destruct (Ascii.eqb_spec c "]") as [->|]; [done|].
  by destruct (Ascii.eqb_spec c "}") as [->|].
Qed.

(** Reading the tokens of a value gives the value. *)
Definition reads (v : gov) : Prop := ∀ n ts e, (2 * length (tokens_of v) < n)%nat →
  decodeJSONValueFormat n {| s_tokens := tokens_of v ++ ts; s_end := e |} =
    Some (inr (v, {| s_tokens := ts; s_end := e |})).

Lemma reads_items l : Forall json_value l → Forall reads l → ∀ n acc ts e,
  (2 * length (items l) + 1 < n)%nat →
  decode_array n acc {| s_tokens := items l ++ Delim "]" :: ts; s_end := e |} =
    Some (inr (VList (Some (acc ++ l)), {| s_tokens := ts; s_end := e |})).
Proof.
  induction l as [|v l IH]; intros Hj Hr [|n] acc ts e Hn; try lia; cbn [decode_array map concat].
  - by rewrite app_nil_r.
  - apply Forall_cons in Hj as [Hv Hj], Hr as [Hrv Hr]. rewrite <- app_assoc, More_value by done.
    cbn [map concat] in Hn. rewrite length_app in Hn.
    destruct (json_first v Hv) as (t & ts' & Et & _). assert (length (tokens_of v) = S (length ts')) by (by rewrite Et).
    rewrite Hrv by lia. rewrite IH by (done || lia). by rewrite <- app_assoc.
Qed.

Lemma reads_members m : Forall (λ kv, json_value kv.2) m → Forall (λ kv, reads kv.2) m → ∀ n acc ts e,
  (2 * length (members m) < n)%nat → NoDup (map fst (acc ++ m)) →
  decode_object n acc {| s_tokens := members m ++ Delim "}" :: ts; s_end := e |} =
    Some (inr (VMap (acc ++ m), {| s_tokens := ts; s_end := e |})).
Proof.
  induction m as [|[k v] m IH]; intros Hj Hr [|n] acc ts e Hn Hd; try lia; cbn [decode_object map concat].
  - by rewrite app_nil_r.
  - apply Forall_cons in Hj as [Hv Hj], Hr as [Hrv Hr].
    cbn [map concat app length] in Hn. rewrite length_app in Hn. cbn [fst snd] in *.
    change (More _) with true. cbn iota. cbn [app]. rewrite Token_cons. cbn iota.
    rewrite (proj2 (assoc_None acc k)).
    2:{ rewrite map_app in Hd. cbn in Hd. apply NoDup_app in Hd as (_ & Hd & _). intros Hk. apply (Hd k Hk). left. }
    rewrite <- app_assoc, Hrv by lia. rewrite IH; [by rewrite <- app_assoc|done|done|lia|].
    by rewrite <- app_assoc.
Qed.

Lemma json_reads v : json_value v → reads v.
Proof.
  induction v as [l IH|m IH|v Hleaf] using gov_ind'.
  - rewrite json_list. intros Hj. assert (Forall reads l) as Hr.
    { rewrite !Forall_forall in *. auto. }
    intros [|n] ts e Hn; [lia|]. cbn [tokens_of] in *. cbn [length] in Hn. rewrite length_app in Hn. cbn in Hn.
    cbn [decodeJSONValueFormat app]. rewrite Token_cons. cbn -[decode_array].
    rewrite <- app_assoc. cbn [app]. rewrite reads_items by (done || lia). done.
  - rewrite json_map. intros [Hd Hj]. assert (Forall (λ kv, reads kv.2) m) as Hr.
    { rewrite !Forall_forall in *. auto. }
    intros [|n] ts e Hn; [lia|]. cbn [tokens_of] in *. cbn [length] in Hn. rewrite length_app in Hn. cbn in Hn.
    cbn [decodeJSONValueFormat app]. rewrite Token_cons. cbn -[decode_object].
    rewrite <- app_assoc. cbn [app]. rewrite reads_members by (done || lia). done.
  - intros Hj [|n] ts e Hn; [lia|]. by destruct v as [| | | | | | | | | | |[l|]| | | | |].
Qed.

(** What is read was there. *)
Definition read_from (s : stream) (v : gov) (s' : stream) : Prop :=
  json_value v ∧ s_tokens s = tokens_of v ++ s_tokens s' ∧ s_end s' = s_end s.

Lemma closes_inv c s f v w s' : closes c s f v = Some (inr (w, s')) →
  w = v ∧ s_tokens s = Delim c :: s_tokens s' ∧ s_end s' = s_end s.
Proof.
  unfold closes. destruct (Token s) as [e|[t s1]] eqn:E; [done|]. apply Token_inv in E.
  destruct t; try done. destruct (Ascii.eqb_spec c0 c) as [->|]; [|done]. by intros [= <- <-].
Qed.

Lemma json_sound n :
  (∀ s v s', decodeJSONValueFormat n s = Some (inr (v, s')) → read_from s v s') ∧
  (∀ acc s v s', decode_object n acc s = Some (inr (v, s')) → NoDup (map fst acc) →
    ∃ m, v = VMap (acc ++ m) ∧ NoDup (map fst (acc ++ m)) ∧ Forall (λ kv, json_value kv.2) m ∧
      s_tokens s = members m ++ Delim "}" :: s_tokens s' ∧ s_end s' = s_end s) ∧
  (∀ acc s v s', decode_array n acc s = Some (inr (v, s')) →
    ∃ l, v = VList (Some (acc ++ l)) ∧ Forall json_value l ∧
      s_tokens s = items l ++ Delim "]" :: s_tokens s' ∧ s_end s' = s_end s).
Proof.
  induction n as [|n (IHv & IHo & IHa)]; [done|]. split; [|split].
  - intros s v s'. cbn [decodeJSONValueFormat]. destruct (Token s) as [e|[t s1]] eqn:E; [done|].
    apply Token_inv in E as [Et Ee].
    destruct t as [c|x|x|b|]; try (intros [= <- <-]; unfold read_from; cbn; by rewrite Et, Ee).
    destruct (Ascii.eqb_spec c "{") as [->|]; [|destruct (Ascii.eqb_spec c "[") as [->|]; [|done]]; intros H.
    + apply IHo in H as (m & -> & Hd & Hj & Ht & He); [|constructor].
      split; [by apply json_map|]. cbn. by rewrite Et, Ht, <- app_assoc, He, Ee.
    + apply IHa in H as (l & -> & Hj & Ht & He).
      split; [by apply json_list|]. cbn. by rewrite Et, Ht, <- app_assoc, He, Ee.
  - intros acc s v s' H Hd. cbn [decode_object] in H. destruct (More s).
    + destruct (Token s) as [e|[t s1]] eqn:E; [done|]. apply Token_inv in E as [Et Ee].
      destruct t as [|key| | |]; try done. destruct (assoc acc key) eqn:Ek; [done|].
      destruct (decodeJSONValueFormat n s1) as [[e|[v1 s2]]|] eqn:Ev; try done.
      apply IHv in Ev as (Hv & Htv & Hev). apply IHo in H as (m & -> & Hd' & Hj & Ht & He).
      * exists ((key, v1) :: m). rewrite <- app_assoc in Hd' |- *. cbn in Hd'. cbn.
        rewrite Et, Htv, Ht, <- app_assoc. repeat split; [done|by constructor|congruence].
      * rewrite map_app. apply NoDup_app. split; [done|]. split; [|apply NoDup_singleton].
        intros x Hx ->%list_elem_of_singleton. by apply assoc_None in Ek.
    + apply closes_inv in H as (-> & Ht & He). exists []. by rewrite app_nil_r.
  - intros acc s v s' H. cbn [decode_array] in H. destruct (More s).
    + destruct (decodeJSONValueFormat n s) as [[e|[v1 s2]]|] eqn:Ev; try done.
      apply IHv in Ev as (Hv & Htv & Hev). apply IHa in H as (l & -> & Hj & Ht & He).
      exists (v1 :: l). rewrite <- app_assoc. cbn. rewrite Htv, Ht, <- app_assoc.
      repeat split; [by constructor|congruence].
    + apply closes_inv in H as (-> & Ht & He). exists []. by rewrite app_nil_r.
Qed.

(** The fuel is enough. *)
Lemma read_shorter n s v s' : decodeJSONValueFormat n s = Some (inr (v, s')) →
  (length (s_tokens s') < length (s_tokens s))%nat.
Proof.
  intros H. apply json_sound in H as (Hv & -> & _). destruct (json_first v Hv) as (t & ts & -> & _).
  cbn. rewrite length_app. lia.
Qed.

Lemma json_total n : ∀ s : stream,
  ((2 * length (s_tokens s) < n)%nat → decodeJSONValueFormat n s ≠ None) ∧
  (∀ acc, (2 * length (s_tokens s) < n)%nat → decode_object n acc s ≠ None) ∧
  (∀ acc, (2 * length (s_tokens s) + 1 < n)%nat → decode_array n acc s ≠ None).
Proof.
  induction n as [|n IH]; [intros s; split; [|split]; lia|]. intros s. split; [|split].
  - intros Hn. cbn [decodeJSONValueFormat]. destruct (Token s) as [e|[t s1]] eqn:E; [done|].
    apply Token_inv in E as [Et Ee]. rewrite Et in Hn. cbn in Hn. destruct (IH s1) as (_ & Ho & Ha).
    destruct t; try done. repeat case_match; [apply Ho|apply Ha|done]; lia.
  - intros acc Hn. cbn [decode_object]. destruct (More s); [|done].
    destruct (Token s) as [e|[t s1]] eqn:E; [done|]. apply Token_inv in E as [Et Ee]. rewrite Et in Hn. cbn in Hn.
    destruct t; try done. destruct (assoc _ _); [done|]. destruct (IH s1) as (Hv & _).
    destruct (decodeJSONValueFormat n s1) as [[e|[v1 s2]]|] eqn:Ev; [done| |by destruct Hv; [lia|]].
    apply read_shorter in Ev. apply (IH s2). lia.
  - intros acc Hn. cbn [decode_array]. destruct (More s); [|done]. destruct (IH s) as (Hv & _).
    destruct (decodeJSONValueFormat n s) as [[e|[v1 s2]]|] eqn:Ev; [done| |by destruct Hv; [lia|]].
    apply read_shorter in Ev. apply (IH s2). lia.
Qed.

Lemma decode_all_total trailing s : decode_all trailing s ≠ None.
Proof.
  unfold decode_all. destruct (json_total (json_fuel s) s) as (Hv & _).
  destruct (decodeJSONValueFormat _ s) as [[e|[v s']]|]; [done..|]. destruct Hv; [unfold json_fuel; lia|done].
Qed.

Lemma decode_all_spec trailing s v :
  decode_all trailing s = Some (inr v) ↔ json_value v ∧ s = {| s_tokens := tokens_of v; s_end := None |}.
Proof.
  unfold decode_all. split.
  - destruct (decodeJSONValueFormat _ s) as [[e|[w s']]|] eqn:E; try done.
    apply json_sound in E as (Hv & Ht & He). destruct s as [ts e], s' as [[|t ts'] e']; cbn in *; [|done].
    rewrite app_nil_r in Ht. destruct e'; [done|]. by intros [= ->]; subst.
  - intros [Hv ->]. rewrite <- (app_nil_r (tokens_of v)) at 2. rewrite json_reads; [done|done|].
    unfold json_fuel. cbn. lia.
Qed.

Lemma decodeJSONFormat_inr `{Formats} data root : decodeJSONFormat data = inr root ↔
  json_value (VMap root) ∧ json_tokens data = {| s_tokens := tokens_of (VMap root); s_end := None |}.
Proof.
  rewrite <- (decode_all_spec (λ _, "trailing JSON value")). unfold decodeJSONFormat.
  destruct (decode_all _ _) as [[e|v]|]; [naive_solver| |naive_solver].
  destruct v; naive_solver.
Qed.

(** The JSON reader accepts exactly the documents whose tokens are those of
    an object with distinct keys on every level and nothing after it, and gives
    that object; its fuel is always enough. *)
Theorem decodeJSONFormat_spec `{Formats} data :
  (∀ root, decodeJSONFormat data = inr root ↔
    json_value (VMap root) ∧ json_tokens data = {| s_tokens := tokens_of (VMap root); s_end := None |}) ∧
  ∀ trailing, decode_all trailing (json_tokens data) ≠ None.
Proof.
  split; [intros root; apply decodeJSONFormat_inr|intros; apply decode_all_total].
Qed.

(** * Documents as trees

    What [flatten] makes of a document and how [putNested] builds one: the two
    are inverse on paths none of which is a beginning of another. *)
From Stdlib Require Import Ascii.

(** A component of a key. *)
Definition key_ok (k : string) : Prop := k ≠ "" ∧ ("."%char ∉ chars k).
Definition is_leaf (v : gov) : Prop := match v with VMap _ | VMapAny _ => False | _ => True end.

(** [leaf v p w]: the path [p] leads from [v] to [w], which is no object. *)
Inductive leaf : gov → list string → gov → Prop :=
  | leaf_here v : is_leaf v → leaf v [] v
  | leaf_below m k v p w : (k, v) ∈ m → leaf v p w → leaf (VMap m) (k :: p) w.

(** A tree: distinct good keys in every object, and no object empty. *)
Inductive tree : gov → Prop :=
  | tree_leaf v : is_leaf v → tree v
  | tree_map m : m ≠ [] → NoDup (map fst m) → Forall (λ kv : string * gov, key_ok kv.1 ∧ tree kv.2) m → tree (VMap m).

(** The same for the entries of a document, which may be empty. *)
Definition tree_doc (m : document) : Prop :=
  NoDup (map fst m) ∧ Forall (λ kv : string * gov, key_ok kv.1 ∧ tree kv.2) m.

Lemma tree_map_inv m : tree (VMap m) → m ≠ [] ∧ tree_doc m.
Proof. by inversion 1. Qed.

Lemma leaf_map_inv m q w : leaf (VMap m) q w → ∃ k v p, q = k :: p ∧ (k, v) ∈ m ∧ leaf v p w.
Proof. inversion 1; [done|eauto 10]. Qed.

Lemma leaf_is_leaf v p w : leaf v p w → is_leaf w.
Proof. by induction 1. Qed.

Lemma leaf_path_ok v p w : tree v → leaf v p w → Forall key_ok p.
Proof.
  intros Ht Hl. induction Hl as [|m k v p w Hin Hl IH]; [constructor|].
  apply tree_map_inv in Ht as (_ & _ & Ha). rewrite Forall_forall in Ha.
  destruct (Ha _ Hin) as [Hk Hv]. constructor; auto.
Qed.

(** Every tree has a leaf. *)
Lemma tree_has_leaf v : tree v → ∃ p w, leaf v p w.
Proof.
  induction v as [l IH|m IH|v Hl] using gov_ind'; intros Ht.
  - exists [], (VList (Some l)). by constructor.
  - apply tree_map_inv in Ht as (Hne & _ & Ha). destruct m as [|[k v] m]; [done|].
    apply Forall_cons in IH as [IH _], Ha as [[_ Hv] _]. destruct (IH Hv) as (p & w & Hpw).
    exists (k :: p), w. eapply leaf_below; [left|done].
  - inversion Ht; subst; [exists [], v; by constructor|done].
Qed.

(** ** Keys *)

Lemma key_join_inj p q : Forall key_ok p → Forall key_ok q → p ≠ [] → q ≠ [] → Join p "." = Join q "." → p = q.
Proof.
  intros Hp Hq Np Nq E. rewrite <- (Split_Join p "."), <- (Split_Join q "."); [by rewrite E|done| |done|].
  - eapply Forall_impl; [done|]. by intros x [].
  - eapply Forall_impl; [done|]. by intros x [].
Qed.

Lemma Join_not_empty p : Forall key_ok p → p ≠ [] → Join p "." ≠ "".
Proof.
  intros Hp Np. destruct p as [|a [|b p]]; [done| |].
  - apply Forall_cons in Hp as [[Ha _] _]. done.
  - rewrite Join_cons. apply Forall_cons in Hp as [[Ha _] _]. destruct a; done.
Qed.

Lemma below_join P k : Forall key_ok P → below (Join P ".") k = Join (P ++ [k]) ".".
Proof.
  intros HP. unfold below. destruct P as [|a P]; [done|].
  destruct (String.eqb_spec (Join (a :: P) ".") "") as [E|_]; [by apply Join_not_empty in E|].
  rewrite Join_app by done. done.
Qed.

Lemma bad_key_ok k : key_ok k → String.eqb k "" || Contains k "." = false.
Proof.
  intros [Hne Hd]. apply orb_false_iff. split; [by apply String.eqb_neq|].
  apply not_true_iff_false. intros (a & b & ->)%Contains_spec. apply Hd. rewrite !chars_app. cbn. set_solver.
Qed.

(** ** Flattening *)

Section flatten_facts.
Variables leaves namespaces : gset string.

(** [adds out out' L]: the map [out'] is [out] with the pairs [L]. *)
Definition adds (out out' : gmap string gov) (L : string → gov → Prop) : Prop :=
  ∀ key w, out' !! key = Some w ↔ out !! key = Some w ∨ L key w.

Definition at_path (P : list string) (v : gov) (key : string) (w : gov) : Prop :=
  ∃ p, leaf v p w ∧ key = Join (P ++ p) ".".

(** No object stands where the schema has a leaf. *)
Definition objects_off (P : list string) (v : gov) : Prop :=
  ∀ q k p w, leaf v (q ++ k :: p) w → Join (P ++ q) "." ∉ leaves.

Definition fresh (P : list string) (v : gov) (out : gmap string gov) : Prop :=
  ∀ key w, at_path P v key w → out !! key = None.

Definition flattens (v : gov) : Prop := ∀ P out, P ≠ [] → Forall key_ok P → tree v →
  objects_off P v → fresh P v out →
  ∃ out', flatten_value leaves namespaces (Join P ".") v out = inr out' ∧ adds out out' (at_path P v).

Lemma put_fresh out key v : out !! key = None → put out key v = inr (<[key := v]> out).
Proof. intros E. unfold put. by rewrite bool_decide_eq_false_2 by (rewrite E; by intros []). Qed.

Lemma flattens_leaf v : is_leaf v → flattens v.
Proof.
  intros Hl P out HP HPk _ _ Hf.
  assert (out !! Join P "." = None) as E.
  { apply (Hf _ v). exists []. split; [by constructor|by rewrite app_nil_r]. }
  exists (<[Join P "." := v]> out). split.
  - destruct v; try done; cbn [flatten_value]; by apply put_fresh.
  - intros key w. rewrite lookup_insert_Some. split.
    + intros [[<- <-]|[_ ?]]; [right|by left]. exists []. split; [by constructor|by rewrite app_nil_r].
    + intros [Hw|(p & Hp & ->)].
      * right. split; [|done]. intros <-. congruence.
      * left. inversion Hp; subst; [by rewrite app_nil_r|done].
Qed.

Lemma flatten_entries_spec m : Forall (λ kv : string * gov, flattens kv.2) m → ∀ P out, Forall key_ok P → tree_doc m →
  (∀ k v, (k, v) ∈ m → objects_off (P ++ [k]) v) → (∀ k v, (k, v) ∈ m → fresh (P ++ [k]) v out) →
  ∃ out', flatten_entries (flatten_value leaves namespaces) (Join P ".") m out = inr out' ∧
    adds out out' (λ key w, ∃ k v, (k, v) ∈ m ∧ at_path (P ++ [k]) v key w).
Proof.
  induction m as [|[k v] m IH]; intros Hr P out HP [Hd Ha] Hoff Hf; cbn [flatten_entries].
  { exists out. split; [done|]. intros key w. set_solver. }
  apply Forall_cons in Hr as [Hv Hr], Ha as [[Hk Ht] Ha]. apply NoDup_cons in Hd as [Hkm Hd]. cbn in Hk, Ht, Hv.
  rewrite bad_key_ok, below_join by done.
  destruct (Hv (P ++ [k]) out) as (out1 & -> & H1); [by destruct P|apply Forall_app; auto|done|apply Hoff; left|apply Hf; left|].
  destruct (IH Hr P out1 HP) as (out2 & -> & H2); [by split|intros; apply Hoff; by right| |].
  - intros k' v' Hin key w Hat. destruct (out1 !! key) as [u|] eqn:E; [exfalso|done].
    apply H1 in E as [E|(p & Hp & ->)].
    + erewrite Hf in E; [done|right; done|done].
    + destruct Hat as (p' & Hp' & E). rewrite Forall_forall in Ha. destruct (Ha _ Hin) as [Hk' Ht'].
      rewrite <- !app_assoc in E. cbn in E. apply key_join_inj in E as E'.
      * apply app_inv_head in E'. injection E' as -> _. apply Hkm. apply (list_elem_of_fmap_2 fst) in Hin. exact Hin.
      * apply Forall_app. split; [done|]. constructor; [done|by apply (leaf_path_ok v p u)].
      * apply Forall_app. split; [done|]. constructor; [done|by apply (leaf_path_ok v' p' w)].
      * by destruct P.
      * by destruct P.
  - exists out2. split; [done|]. intros key w. rewrite (H2 key w), (H1 key w). split.
    + intros [[?|?]|(k' & v' & Hin & ?)]; [by left|right; exists k, v; split; [left|done]|].
      right. exists k', v'. split; [by right|done].
    + intros [?|(k' & v' & [[= -> ->]|Hin]%elem_of_cons & ?)]; [by left; left|by left; right|]. right. eauto.
Qed.

Lemma tree_flattens v : flattens v.
Proof.
  induction v as [l IH|m IH|v Hl] using gov_ind'.
  - by apply flattens_leaf.
  - intros P out HP HPk [Hne Hm]%tree_map_inv Hoff Hf. cbn [flatten_value].
    destruct m as [|[k v] m]; [done|].
    assert (Join P "." ∉ leaves) as Hnl.
    { destruct (tree_has_leaf v) as (p & w & Hp).
      - destruct Hm as [_ Ha]. apply Forall_cons in Ha as [[_ ?] _]. done.
      - rewrite <- (app_nil_r P). eapply (Hoff [] k p w). eapply leaf_below; [left|done]. }
    rewrite bool_decide_eq_false_2 by done. cbn [orb andb].
    destruct (flatten_entries_spec ((k, v) :: m) IH P out HPk Hm) as (out' & E & Hadd).
    + intros k' v' Hin q x p w Hl. rewrite <- app_assoc. eapply (Hoff (k' :: q)). by eapply leaf_below.
    + intros k' v' Hin key w (p & Hp & ->). eapply Hf. exists (k' :: p). split; [by eapply leaf_below|].
      by rewrite <- app_assoc.
    + exists out'. split; [done|]. intros key w. rewrite (Hadd key w). f_equiv. split.
      * intros (k' & v' & Hin & p & Hp & ->). exists (k' :: p). rewrite <- app_assoc. split; [by eapply leaf_below|done].
      * intros (q & (k' & v' & p & -> & Hin & Hp)%leaf_map_inv & ->).
        exists k', v'. split; [done|]. exists p. by rewrite <- app_assoc.
  - destruct v; try done; try by apply flattens_leaf. intros P out _ _ Ht. inversion Ht; done.
Qed.

(** Flattening a tree gives its leaves under their dotted paths. *)
Lemma flatten_spec m : tree_doc m →
  (∀ q k p w, q ≠ [] → leaf (VMap m) (q ++ k :: p) w → Join q "." ∉ leaves) →
  ∃ out, flatten leaves namespaces "" m ∅ = inr out ∧
    ∀ key w, out !! key = Some w ↔ ∃ p, leaf (VMap m) p w ∧ key = Join p ".".
Proof.
  intros Hm Hoff. destruct (flatten_entries_spec m) with (P := @nil string) (out := ∅ : gmap string gov) as (out & E & Hadd).
  - apply Forall_forall. intros. apply tree_flattens.
  - constructor.
  - done.
  - intros k v Hin q x p w Hl. apply (Hoff (k :: q) x p w); [done|]. by eapply leaf_below.
  - intros k v Hin key w _. apply lookup_empty.
  - exists out. split; [done|]. intros key w. rewrite (Hadd key w), lookup_empty. split.
    + intros [|(k & v & Hin & p & Hp & ->)]; [done|]. exists (k :: p). split; [by eapply leaf_below|done].
    + intros (q & (k & v & p & -> & Hin & Hp)%leaf_map_inv & ->). right. exists k, v. split; [done|]. by exists p.
Qed.
End flatten_facts.

(** ** Building *)

Lemma assoc_set_keys m k v : map fst (assoc_set m k v) = if bool_decide (k ∈ map fst m) then map fst m else map fst m ++ [k].
Proof.
  induction m as [|[k' v'] m IH]; cbn; [done|].
  destruct (String.eqb_spec k' k) as [->|Hne]; cbn; [by rewrite bool_decide_eq_true_2 by set_solver|].
  rewrite IH. do 2 case_bool_decide; set_solver.
Qed.

Lemma assoc_set_NoDup m k v : NoDup (map fst m) → NoDup (map fst (assoc_set m k v)).
Proof.
  intros Hd. rewrite assoc_set_keys. case_bool_decide; [done|].
  apply NoDup_app. split; [done|]. split; [set_solver|apply NoDup_singleton].
Qed.

Lemma assoc_set_elem m k v k' v' : NoDup (map fst m) →
  (k', v') ∈ assoc_set m k v ↔ (k' = k ∧ v' = v) ∨ (k' ≠ k ∧ (k', v') ∈ m).
Proof.
  induction m as [|[k0 v0] m IH]; cbn; [set_solver|]. intros [Hk Hd]%NoDup_cons.
  destruct (String.eqb_spec k0 k) as [->|Hne].
  - rewrite !elem_of_cons. split; [intros [[= -> ->]|Hin]; [by left|]|intros [[-> ->]|[Hn [[= -> ->]|?]]]; [by left|done|by right]].
    right. split; [|by right]. intros ->. apply Hk. by apply (list_elem_of_fmap_2 fst) in Hin.
  - rewrite !elem_of_cons, IH by done. naive_solver.
Qed.

Lemma assoc_set_not_nil m k v : assoc_set m k v ≠ [].
Proof. destruct m as [|[k0 v0] m]; cbn; [done|]. by destruct (String.eqb k0 k). Qed.

(** No leaf lies on the way to [p] or beyond it. *)
Definition apart (m : document) (p : list string) : Prop :=
  ∀ q u, leaf (VMap m) q u → ¬ q `prefix_of` p ∧ ¬ p `prefix_of` q.

Lemma putNested_leaf_step m k v : tree_doc m → tree v → ∀ q u,
  leaf (VMap (assoc_set m k v)) q u ↔
    (∃ p, q = k :: p ∧ leaf v p u) ∨ (∃ k' p, q = k' :: p ∧ k' ≠ k ∧ leaf (VMap m) q u).
Proof.
  intros [Hd _] Hv q u. split.
  - intros (k' & v' & p & -> & Hin & Hp)%leaf_map_inv. apply assoc_set_elem in Hin as [[-> ->]|[Hne Hin]]; [|..|done].
    + left. eauto.
    + right. exists k', p. split; [done|]. split; [done|]. by eapply leaf_below.
  - intros [(p & -> & Hp)|(k' & p & -> & Hne & Hl)].
    + eapply leaf_below; [|done]. apply assoc_set_elem; auto.
    + apply leaf_map_inv in Hl as (k0 & v0 & p0 & [= <- <-] & Hin & Hp). eapply leaf_below; [|done].
      apply assoc_set_elem; auto.
Qed.

Lemma assoc_set_tree m k v : tree_doc m → key_ok k → tree v → tree_doc (assoc_set m k v).
Proof.
  intros [Hd Ha] Hk Hv. split; [by apply assoc_set_NoDup|]. apply Forall_forall.
  intros [k' v'] Hin. apply assoc_set_elem in Hin as [[-> ->]|[_ Hin]]; [done| |done].
  rewrite Forall_forall in Ha. apply (Ha _ Hin).
Qed.

(** Putting a value at a new path adds one leaf. *)
Lemma putNested_spec p w : is_leaf w → Forall key_ok p → p ≠ [] → ∀ m, tree_doc m → apart m p →
  tree_doc (putNested m p w) ∧
  ∀ q u, leaf (VMap (putNested m p w)) q u ↔ (q = p ∧ u = w) ∨ leaf (VMap m) q u.
Proof.
  intros Hw. induction p as [|k p IH]; [done|]. intros [Hk Hp]%Forall_cons _ m Hm Hap.
  assert (∀ v q u, assoc m k = Some v → leaf v q u → ¬ q `prefix_of` p ∧ ¬ p `prefix_of` q) as Hin.
  { intros v q u Ev Hl. apply assoc_elem in Ev. destruct (Hap (k :: q) u) as [H1 H2]; [by eapply leaf_below|].
    split; intros Hpre; [apply H1|apply H2]; by apply prefix_cons. }
  assert (∀ q u, leaf (VMap m) (k :: q) u → ∃ v, assoc m k = Some v ∧ leaf v q u) as Hassoc.
  { intros q u Hl. apply leaf_map_inv in Hl as (k0 & v0 & p0 & [= <- <-] & Hi & Hl).
    exists v0. split; [|done]. apply assoc_NoDup; [apply Hm|done]. }
  assert (∃ n, tree (n : gov) ∧ putNested m (k :: p) w = assoc_set m k n ∧
    ∀ q u, leaf n q u ↔ (q = p ∧ u = w) ∨ ∃ v, assoc m k = Some v ∧ leaf v q u) as (n & Hn & -> & Hln).
  { destruct p as [|k' p'].
    - exists w. split; [by constructor|]. split; [done|]. intros q u. split.
      + intros Hl. left. inversion Hl; subst; [done|]. by destruct Hw.
      + intros [[-> ->]|(v & Ev & Hl)]; [by constructor|]. destruct (Hin _ _ _ Ev Hl) as [_ []]. apply prefix_nil.
    - set (sub := match assoc m k with Some (VMap m') => m' | _ => [] end).
      exists (VMap (putNested sub (k' :: p') w)).
      assert (∀ v, assoc m k = Some v → ∃ m', v = VMap m') as Hobj.
      { intros v Ev. pose proof (assoc_elem _ _ _ Ev) as He. destruct Hm as [_ Ha]. rewrite Forall_forall in Ha.
        destruct (Ha _ He) as [_ Ht]. cbn in Ht. inversion Ht as [? Hl|]; subst; [|by eauto].
        destruct (Hin v [] v Ev) as [[] _]; [by constructor|apply prefix_nil]. }
      assert (tree_doc sub) as Hsub.
      { unfold sub. destruct (assoc m k) as [v|] eqn:Ev; [|split; constructor].
        destruct (Hobj v eq_refl) as (m' & ->). apply assoc_elem in Ev. destruct Hm as [_ Ha]. rewrite Forall_forall in Ha.
        destruct (Ha _ Ev) as [_ Ht]. by apply tree_map_inv in Ht as [_ ?]. }
      assert (∀ q u, leaf (VMap sub) q u ↔ ∃ v, assoc m k = Some v ∧ leaf v q u) as Hls.
      { intros q u. unfold sub. destruct (assoc m k) as [v|] eqn:Ev.
        - destruct (Hobj v eq_refl) as (m' & ->). naive_solver.
        - split; [|naive_solver]. intros (? & ? & ? & _ & Hi & _)%leaf_map_inv. set_solver. }
      destruct (IH Hp ltac:(done) sub Hsub) as [Ht Hl].
      { intros q u Hl. apply Hls in Hl as (v & Ev & Hl). by eapply Hin. }
      split; [|split; [done|]].
      + destruct Ht as [? ?]. constructor; [|done|done]. cbn. case_match; apply assoc_set_not_nil.
      + intros q u. rewrite Hl, Hls. done. }
  split; [by apply assoc_set_tree|]. intros q u. rewrite putNested_leaf_step by done. split.
  - intros [(r & -> & Hl)|(k' & r & -> & Hne & Hl)]; [|by right].
    apply Hln in Hl as [[-> ->]|(v & Ev & Hl)]; [by left|]. right. apply assoc_elem in Ev. by eapply leaf_below.
  - intros [[-> ->]|Hl]; [left; exists p; split; [done|]; apply Hln; by left|].
    pose proof Hl as (k' & v & r & -> & Hi & Hr)%leaf_map_inv. destruct (decide (k' = k)) as [->|Hne].
    + left. exists r. split; [done|]. apply Hln. right. by apply Hassoc.
    + right. eauto 10.
Qed.

(** Building from a list of paths none of which is a beginning of another. *)
Definition prefix_free (ps : list (list string)) : Prop :=
  ∀ i j p q, ps !! i = Some p → ps !! j = Some q → p `prefix_of` q → i = j.

Lemma prefix_free_cons p ps : prefix_free (p :: ps) →
  prefix_free ps ∧ ∀ q, q ∈ ps → ¬ q `prefix_of` p ∧ ¬ p `prefix_of` q.
Proof.
  intros H. split.
  - intros i j a b Ha Hb Hp. specialize (H (S i) (S j) a b Ha Hb Hp). lia.
  - intros q (j & Hj)%list_elem_of_lookup. split; intros Hp.
    + specialize (H (S j) 0%nat q p Hj eq_refl Hp). lia.
    + specialize (H 0%nat (S j) p q eq_refl Hj Hp). lia.
Qed.

Lemma build_spec (l : list (list string * gov)) : ∀ m, tree_doc m →
  prefix_free (map fst l) → Forall (λ pw, Forall key_ok pw.1 ∧ pw.1 ≠ [] ∧ is_leaf pw.2) l →
  (∀ pw, pw ∈ l → apart m pw.1) →
  let m' := foldl (λ root pw, putNested root pw.1 pw.2) m l in
  tree_doc m' ∧ ∀ q u, leaf (VMap m') q u ↔ (q, u) ∈ l ∨ leaf (VMap m) q u.
Proof.
  induction l as [|[p w] l IH]; intros m Hm Hpf Hok Hap; [split; [done|]; set_solver|].
  apply Forall_cons in Hok as [(Hk & Hne & Hw) Hok]. apply prefix_free_cons in Hpf as [Hpf Hcross]. cbn [foldl fst snd].
  destruct (putNested_spec p w Hw Hk Hne m Hm) as [Ht Hl]; [apply (Hap (p, w)); left|].
  destruct (IH _ Ht Hpf Hok) as [Ht' Hl'].
  - intros [p' w'] Hin q u Hq. apply Hl in Hq as [[-> ->]|Hq].
    + destruct (Hcross p') as [H1 H2]; [by apply (list_elem_of_fmap_2 fst) in Hin|]. done.
    + apply (Hap (p', w')) in Hq; [done|by right].
  - split; [done|]. intros q u. rewrite Hl', Hl, elem_of_cons. split; [naive_solver|].
    intros [[[= -> ->]|?]|?]; naive_solver.
Qed.
