(* ===== verification/ConfigCsvFacts.v ===== *)
(** * Lists in text

    A list of strings as flags print it, in the format of [encoding/csv], is
    read back by [parseStringSlice]. *)
From S2P Require Import Prelude.
From S2P Require Import GoStrings.
From S2P Require Import Utf8.
From S2P Require Import ConfigTypes.
From S2P Require Import ConfigDecode.
From Stdlib Require Import Ascii.
#[local] Open Scope stdpp_scope.
#[local] Open Scope Z_scope.

(** ** What [csv.Writer] writes *)

Definition special (c : ascii) : bool :=
  Ascii.eqb c nl || Ascii.eqb c cr || Ascii.eqb c quote || Ascii.eqb c comma.
Definition fieldNeedsQuotes (f : string) : bool :=
  negb (String.eqb f "") &&
  (String.eqb f "\." || existsb special (chars f) ||
   match runes f with r :: _ => IsSpace r | [] => false end).
Definition csv_escape (f : string) : string :=
  replace_bytes (λ c, if Ascii.eqb c quote then String quote (String quote "") else String c "") f.
Definition csv_field (f : string) : string :=
  if fieldNeedsQuotes f then String quote (csv_escape f +:+ String quote "") else f.
Definition csv_text (l : list string) : string := Join (map csv_field l) ",".

(** The text of a list flag. *)
Definition flag_text (l : list string) : string := "[" +:+ csv_text l +:+ "]".

(** A carriage return before a line feed is lost. *)
Fixpoint drop_cr (s : string) : string :=
  match s with
  | EmptyString => ""
  | String c t =>
      if Ascii.eqb c cr && match t with String d _ => Ascii.eqb d nl | EmptyString => false end
      then drop_cr t else String c (drop_cr t)
  end.

(** ** Lines *)

Lemma readLine_length s : (slen (readLine s).1 + slen (readLine s).2 ≤ slen s)%nat.
Proof.
  unfold slen. induction s as [|c s IH]; cbn; [lia|]. destruct (Ascii.eqb c nl); [cbn; lia|].
  destruct (_ && _); [lia|]. destruct (readLine s) as [l r]. cbn in *. lia.
Qed.

Lemma readLine_keep c t : c ≠ nl → (c ≠ cr ∨ ∃ d u, t = String d u ∧ d ≠ nl) →
  readLine (String c t) = (String c (readLine t).1, (readLine t).2).
Proof.
  intros Hn Hc. cbn. destruct (Ascii.eqb_spec c nl); [done|].
  destruct (Ascii.eqb_spec c cr) as [->|]; cbn.
  - destruct Hc as [|(d & u & -> & Hd)]; [done|]. destruct (Ascii.eqb_spec d nl); [done|]. by destruct (readLine _).
  - by destruct (readLine _).
Qed.

Lemma readLine_ne x y : (readLine (x +:+ String quote y)).1 ≠ "".
Proof.
  induction x as [|c x IH]; cbn -[readLine].
  - by rewrite readLine_keep by (done || by left).
  - cbn. destruct (Ascii.eqb c nl); [done|]. destruct (_ && _); [done|]. by destruct (readLine _).
Qed.

(** What follows a field. *)
Definition field_end (tail : string) : Prop := tail = "" ∨ ∃ u, tail = String comma u.
Definition more_of (tail : string) : option string :=
  match tail with EmptyString => None | String _ u => Some (readLine u).1 end.
Definition rest_of (tail : string) : string :=
  match tail with EmptyString => "" | String _ u => (readLine u).2 end.

Lemma escape_cons c f : csv_escape (String c f) =
  (if Ascii.eqb c quote then String quote (String quote "") else String c "") +:+ csv_escape f.
Proof. done. Qed.

Lemma quoted_step n c line rest acc : c ≠ quote → line ≠ "" →
  csv_quoted (S n) (String c line) rest acc = csv_quoted n line rest (acc +:+ String c "").
Proof.
  intros Hc Hl. cbn. destruct (Ascii.eqb_spec c quote); [done|]. by destruct line.
Qed.

(** The rest of a quoted field is read up to its closing quote. *)
Lemma quoted_reads f tail : field_end tail → ∀ n acc,
  let t := csv_escape f +:+ String quote tail in
  (slen (readLine t).1 + slen (readLine t).2 < n)%nat →
  csv_quoted n (readLine t).1 (readLine t).2 acc = Some (acc +:+ drop_cr f, more_of tail, rest_of tail).
Proof.
  intros Htail. induction f as [|c f IH]; intros [|n] acc t Hn; try lia; unfold t in *; clear t.
  - cbn [csv_escape replace_bytes String.append drop_cr] in *. rewrite sapp_nil_r.
    rewrite readLine_keep in * by (done || by left). destruct Htail as [->|(u & ->)]; [done|].
    rewrite readLine_keep by (done || by left). done.
  - rewrite escape_cons in *. destruct (Ascii.eqb_spec c quote) as [->|Hq].
    + cbn [String.append] in *. rewrite (readLine_keep quote) in * by (done || by left).
      rewrite (readLine_keep quote) in * by (done || by left). cbn [fst snd slen String.length] in *.
      cbn [csv_quoted]. rewrite !Ascii.eqb_refl. rewrite IH by (unfold slen in *; lia). cbn. by rewrite sapp_assoc.
    + cbn [String.append] in *. set (t := csv_escape f +:+ String quote tail) in *.
      pose proof (readLine_ne (csv_escape f) tail) as Hne. fold t in Hne.
      destruct (Ascii.eqb_spec c nl) as [->|Hnl]; [|destruct (Ascii.eqb_spec c cr) as [->|Hcr]].
      * cbn [readLine] in *. rewrite Ascii.eqb_refl in *. cbn [fst snd] in *. cbn [csv_quoted].
        change (Ascii.eqb nl quote) with false. cbn iota.
        pose proof (readLine_length t). destruct (readLine t) as [l r] eqn:E. cbn [fst snd] in *.
        rewrite IH by (unfold slen in *; cbn [String.length] in Hn; lia). cbn. by rewrite sapp_assoc.
      * destruct f as [|d f].
        -- assert (∃ d u, t = String d u ∧ d ≠ nl) as Hd by (by exists quote, tail).
           rewrite readLine_keep in * by auto. cbn [fst snd] in *. rewrite quoted_step by done.
           rewrite IH by (unfold slen in *; cbn [String.length] in Hn; lia). by rewrite sapp_assoc.
        -- destruct (Ascii.eqb_spec d nl) as [->|Hdn].
           ++ change t with (String nl (csv_escape f +:+ String quote tail)) in *.
              change (readLine (String cr (String nl ?x))) with (readLine (String nl x)) in *.
              rewrite IH by lia. done.
           ++ assert (∃ d u, t = String d u ∧ d ≠ nl) as Hd.
              { unfold t. rewrite escape_cons. destruct (Ascii.eqb d quote); cbn; eauto. }
              rewrite readLine_keep in * by auto. cbn [fst snd] in *. rewrite quoted_step by done.
              rewrite IH by (unfold slen in *; cbn [String.length] in Hn; lia). rewrite sapp_assoc. cbn.
              by destruct (Ascii.eqb_spec d nl).
      * rewrite readLine_keep in * by auto. cbn [fst snd] in *. rewrite quoted_step by done.
        rewrite IH by (unfold slen in *; cbn [String.length] in Hn; lia). rewrite sapp_assoc. cbn.
        by destruct (Ascii.eqb_spec c cr).
Qed.

(** A field without quotes. *)
Lemma plain_line f tail : Forall (λ c, special c = false) (chars f) →
  readLine (f +:+ tail) = (f +:+ (readLine tail).1, (readLine tail).2).
Proof.
  induction f as [|c f IH]; intros Hf; [cbn; by destruct (readLine tail)|].
  apply Forall_cons in Hf as [Hc Hf]. unfold special in Hc. rewrite !orb_false_iff in Hc.
  destruct Hc as [[[?%Ascii.eqb_neq ?%Ascii.eqb_neq] _] _].
  cbn [String.append]. rewrite readLine_keep by auto. by rewrite IH.
Qed.

Lemma plain_reads f tail : Forall (λ c, special c = false) (chars f) → field_end tail →
  csv_plain (f +:+ (readLine tail).1) = (f, more_of tail) ∧ (readLine tail).2 = rest_of tail.
Proof.
  intros Hf Ht. assert ((readLine tail).2 = rest_of tail) as Er.
  { destruct Ht as [->|(u & ->)]; [done|]. by rewrite readLine_keep by (done || by left). }
  split; [|done]. clear Er. induction f as [|c f IH].
  - destruct Ht as [->|(u & ->)]; [done|]. by rewrite readLine_keep by (done || by left).
  - apply Forall_cons in Hf as [Hc Hf]. unfold special in Hc. rewrite !orb_false_iff in Hc.
    destruct Hc as [[[En%Ascii.eqb_neq _] _] Ec]. cbn.
    rewrite Ec. destruct (Ascii.eqb_spec c nl); [done|]. cbn. by rewrite IH.
Qed.

(** ** Records *)

Lemma plain_chars f : fieldNeedsQuotes f = false → Forall (λ c, special c = false) (chars f).
Proof.
  unfold fieldNeedsQuotes. intros [E|E]%andb_false_iff.
  - apply negb_false_iff, String.eqb_eq in E as ->. constructor.
  - rewrite !orb_false_iff in E. destruct E as [[_ E] _]. apply Forall_forall. intros c Hc.
    apply not_true_iff_false. intros Hs. apply not_true_iff_false in E. apply E. apply existsb_elem_of. eauto.
Qed.

Lemma drop_cr_plain f : Forall (λ c, special c = false) (chars f) → drop_cr f = f.
Proof.
  induction f as [|c f IH]; intros Hf; [done|]. apply Forall_cons in Hf as [Hc Hf]. cbn. rewrite IH by done.
  unfold special in Hc. rewrite !orb_false_iff in Hc. by destruct Hc as [[[_ ->] _] _].
Qed.

Lemma in_set_plain f : Forall (λ c, special c = false) (chars f) → in_set f quote = false.
Proof.
  intros Hf. apply not_true_iff_false. intros Hq%in_set_spec. rewrite Forall_forall in Hf. by apply Hf in Hq.
Qed.

(** One field, with what the loop does next. *)
Lemma field_reads f tail n acc : field_end tail → let t := csv_field f +:+ tail in
  (slen (readLine t).1 + slen (readLine t).2 < S n)%nat →
  csv_fields (S n) (readLine t).1 (readLine t).2 acc =
    match more_of tail with
    | Some line => csv_fields n line (rest_of tail) (acc ++ [drop_cr f])
    | None => Some (acc ++ [drop_cr f], rest_of tail)
    end.
Proof.
  intros Ht t Hn. unfold t, csv_field in *. clear t. destruct (fieldNeedsQuotes f) eqn:Eq.
  - cbn [String.append] in *. rewrite sapp_assoc in *. cbn [String.append] in *.
    rewrite (readLine_keep quote) in * by (done || by left). cbn [fst snd csv_fields] in *.
    rewrite Ascii.eqb_refl, quoted_reads by (done || lia). done.
  - apply plain_chars in Eq. pose proof (drop_cr_plain f Eq) as Ed. rewrite plain_line in * by done.
    destruct (plain_reads f tail Eq Ht) as [Ep Er]. cbn [fst snd] in *.
    destruct (f +:+ (readLine tail).1) as [|c line'] eqn:El.
    + destruct f; [|done]. destruct Ht as [->|(u & ->)]; [done|].
      by rewrite readLine_keep in El by (done || by left).
    + cbn [csv_fields]. rewrite Ep.
      assert (Ascii.eqb c quote = false) as ->.
      { apply Ascii.eqb_neq. intros ->. destruct f as [|c' f].
        - destruct Ht as [->|(u & ->)]; [done|]. by rewrite readLine_keep in El by (done || by left).
        - injection El as -> _. apply Forall_cons in Eq as [E _]. by vm_compute in E. }
      by rewrite in_set_plain, Er, Ed by done.
Qed.

Lemma fields_read l : l ≠ [] → ∀ n acc,
  (slen (readLine (csv_text l)).1 + slen (readLine (csv_text l)).2 < n)%nat →
  csv_fields n (readLine (csv_text l)).1 (readLine (csv_text l)).2 acc = Some (acc ++ map drop_cr l, "").
Proof.
  induction l as [|f l IH]; [done|]. intros _ [|n] acc Hn; [lia|]. destruct l as [|g l].
  - unfold csv_text in *. cbn [map] in *. change (Join [csv_field f] ",") with (csv_field f) in *.
    rewrite <- (sapp_nil_r (csv_field f)) in *. rewrite field_reads; [done|by left|done].
  - unfold csv_text in *. cbn [map] in *. rewrite Join_cons in *.
    change ("," +:+ ?x) with (String comma x) in *.
    set (t := Join (csv_field g :: map csv_field l) ",") in *.
    rewrite field_reads; [|right; eauto|done]. cbn [more_of rest_of]. rewrite IH; [by rewrite <- app_assoc|done|].
    fold t. pose proof (readLine_length (csv_field f +:+ String comma t)) as Hl.
    assert (slen (readLine t).1 + slen (readLine t).2 <
      slen (readLine (csv_field f +:+ String comma t)).1 + slen (readLine (csv_field f +:+ String comma t)).2)%nat; [|lia].
    clear. generalize (csv_field f). intros s. induction s as [|c s IHs].
    + cbn [String.append]. rewrite readLine_keep by (done || by left). unfold slen. cbn. lia.
    + cbn [String.append]. cbn [readLine]. destruct (Ascii.eqb c nl).
      { cbn [fst snd]. pose proof (readLine_length (s +:+ String comma t)). cbn [slen String.length]. unfold slen in *. lia. }
      destruct (_ && _); [done|]. destruct (readLine (s +:+ String comma t)) as [a b]. cbn in *. unfold slen in *. lia.
Qed.

(** ** The whole text *)

Lemma unbracket_flag t : unbracket ("[" +:+ t +:+ "]") = t.
Proof.
  unfold unbracket. set (s := "[" +:+ t +:+ "]").
  assert (slen s = S (S (slen t))) as El by (unfold s; rewrite !slen_app; cbn; lia).
  assert (HasPrefix s "[" = true) as -> by (unfold s; by cbn).
  assert (HasSuffix s "]" = true) as -> by (unfold s; rewrite <- sapp_assoc; apply HasSuffix_app).
  rewrite El. cbn [Nat.leb andb]. replace (S (S (slen t)) - 2)%nat with (slen t) by lia.
  unfold s. cbn [sdrop String.append]. apply stake_app.
Qed.

Lemma csv_text_empty l : csv_text l = "" ↔ l = [] ∨ l = [""].
Proof.
  unfold csv_text. split; [|by intros [->| ->]]. destruct l as [|f [|g l]]; [by left| |].
  - intros E. right. change (csv_field f = "") in E. unfold csv_field in E.
    destruct (fieldNeedsQuotes f); [done|]. by subst.
  - cbn [map]. rewrite Join_cons. by destruct (csv_field f).
Qed.

(** The text of a record does not begin with an empty line. *)
Lemma csv_text_line l : csv_text l ≠ "" → line_end (readLine (csv_text l)).1 = false.
Proof.
  assert (∀ c t, c ≠ nl → c ≠ cr → line_end (readLine (String c t)).1 = false) as Hc.
  { intros c t Hn Hr. rewrite readLine_keep by auto. unfold line_end. cbn.
    by destruct (Ascii.eqb_spec c nl). }
  unfold csv_text. destruct l as [|f l]; [done|]. cbn [map]. intros Hne.
  assert (∃ tail, Join (csv_field f :: map csv_field l) "," = csv_field f +:+ tail ∧ field_end tail) as (tail & E & Ht).
  { destruct (map csv_field l) as [|g l']; [exists ""; split; [by rewrite sapp_nil_r|by left]|].
    rewrite Join_cons. eexists. split; [done|]. right. eauto. }
  rewrite E in *. unfold csv_field in *. destruct (fieldNeedsQuotes f) eqn:Eq; [by apply Hc|].
  apply plain_chars in Eq. destruct f as [|c f].
  - destruct Ht as [->|(u & ->)]; [done|by apply Hc].
  - apply Forall_cons in Eq as [Eq _]. unfold special in Eq. rewrite !orb_false_iff in Eq.
    destruct Eq as [[[?%Ascii.eqb_neq ?%Ascii.eqb_neq] _] _]. by apply Hc.
Qed.

Lemma csv_Read_text l : csv_text l ≠ "" → csv_Read (csv_text l) = CsvRecord (map drop_cr l) "".
Proof.
  intros Hne. unfold csv_Read. pose proof (csv_text_line l Hne) as Hl.
  destruct (csv_text l) as [|c t] eqn:E; [done|]. cbn [csv_skip slen String.length]. rewrite <- E in *.
  destruct (readLine (csv_text l)) as [line rest] eqn:Er. cbn [fst] in Hl. rewrite Hl.
  pose proof (fields_read l) as Hf. rewrite Er in Hf. cbn [fst snd] in Hf.
  rewrite Hf; [done| |lia]. intros ->. done.
Qed.

(** A list of strings printed as a flag prints it is read back as it was,
    with a carriage return before a line feed dropped; the list of one empty
    string is the exception and reads as the empty list. *)
Theorem flag_text_read_back (l : list string) :
  parseStringSlice (flag_text l) = inr (if bool_decide (l = [""]) then [] else map drop_cr l).
Proof.
  unfold parseStringSlice, flag_text. rewrite unbracket_flag.
  destruct (String.eqb_spec (csv_text l) "") as [E|Hne].
  - apply csv_text_empty in E as [->| ->]; done.
  - rewrite csv_Read_text by done. cbn. case_bool_decide as El; [|done]. by subst.
Qed.
