(* ===== verification/ConfigRegistryFacts.v ===== *)
(** * What a registry guarantees

    The fields that [makeRegistry] accepts: good and distinct keys, indices,
    variables and flags, coherent types; and when no key stands below another. *)
From S2P Require Import Prelude.
From S2P Require Import GoStrings.
From S2P Require Import Utf8.
From S2P Require Import ConfigTypes.
From S2P Require Import ConfigOptions.
From S2P Require Import ConfigRegistry.
From S2P Require Import ConfigFormats.
From S2P Require Import ConfigFile.
From S2P Require Import ConfigFormatsFacts.
From Stdlib Require Import Ascii.
#[local] Open Scope stdpp_scope.
#[local] Open Scope Z_scope.

(** ** Structured elements *)

Definition element_ok (i : nat) (f : elementField) : Prop :=
  ef_index f = i ∧ (∃ b, ef_typ f = Basic b) ∧ key_ok (ef_name f).
Definition elements_ok (l : list elementField) : Prop :=
  NoDup (map ef_name l) ∧ ∀ i f, l !! i = Some f → element_ok i f.
Definition schema_ok (es : elementSchema) : Prop := es_fields es ≠ [] ∧ elements_ok (es_fields es).

Lemma name_ok n : String.eqb n "" || Contains n "." = false → key_ok n.
Proof.
  intros [En%String.eqb_neq Ec]%orb_false_iff. split; [done|]. intros Hin.
  apply not_true_iff_false in Ec. apply Ec. apply Contains_spec.
  apply list_elem_of_split in Hin as (a & b & E). exists (unchars a), (unchars b).
  rewrite <- (unchars_chars n), E, unchars_app. done.
Qed.

Section registry_facts.
Context `{Unicode}.

Lemma element_field_ok i sf acc f : element_field i sf acc = inr f → element_ok i f ∧ ef_name f ∉ map ef_name acc.
Proof.
  unfold element_field. repeat (case_match; [done|]). intros [= <-]. cbn. split.
  - split; [done|]. split.
    + match goal with E : negb (supportedElementField _) = false |- _ => apply negb_false_iff in E end.
      destruct (sf_Type sf); try done. eauto.
    + cbn [ef_name]. apply name_ok. match goal with E : _ || _ || _ = false |- _ => rewrite !orb_false_iff in E; destruct E as [[-> _] ->] end.
      done.
  - intros (g & E & Hg)%list_elem_of_fmap.
    match goal with Hx : existsb _ acc = false |- _ => apply not_true_iff_false in Hx; apply Hx end.
    apply existsb_elem_of. exists g. split; [done|]. apply String.eqb_eq. congruence.
Qed.

Lemma element_fields_ok fields : ∀ i acc out, element_fields i fields acc = inr out →
  length acc = i → elements_ok acc → elements_ok out.
Proof.
  induction fields as [|sf fields IH]; intros i acc out; cbn; [by intros [= ->]|].
  destruct (element_field i sf acc) as [e|f] eqn:E; [done|]. intros Hout Hl [Hd Hi].
  apply element_field_ok in E as [Hf Hn]. eapply IH; [done|rewrite length_app; cbn; lia|]. split.
  - rewrite map_app. apply NoDup_app. split; [done|]. split; [|apply NoDup_singleton].
    intros x Hx ->%list_elem_of_singleton. done.
  - intros j g. rewrite lookup_app_Some. intros [Hj|[Hj Hg]]; [auto|].
    apply list_lookup_singleton_Some in Hg as [Hz <-]. assert (j = i) as -> by lia. done.
Qed.

Lemma compile_ok t es : compileElementSchema t = inr es →
  schema_ok es ∧ ∃ s fields, t = Slice s (Struct (es_typ es) fields).
Proof.
  unfold compileElementSchema. destruct t as [| |s [|n fields| |]|]; try done.
  destruct (negb _); [done|]. destruct (element_fields 0 fields []) as [e|fs] eqn:E; [done|].
  apply element_fields_ok in E; [|done|split; [constructor|done]].
  destruct fs as [|f fs]; [done|]. intros [= <-]. split; [by split|by exists s, fields].
Qed.

(** ** One field *)

Definition typ_ok (t : gotype) (elements : option elementSchema) : Prop :=
  match elements with
  | None => supported t = true
  | Some es => schema_ok es ∧ ∃ s fields, t = Slice s (Struct (es_typ es) fields)
  end.

Record field_ok (o : options) (f : fieldMeta) : Prop := {
  fo_key : ∃ path, path ≠ [] ∧ Forall key_ok path ∧ f_key f = Join path ".";
  fo_typ : typ_ok (f_typ f) (f_elements f);
  fo_required : f_required f = true → f_hasDef f = false;
  fo_validate : f_validate f = "" ∨ is_Some (o_validators o !! f_validate f);
}.

Lemma field_name_ok sf n : field_name sf = inr (Some n) → key_ok n.
Proof.
  unfold field_name. case_bool_decide; [by case_match|]. case_match eqn:E; [done|]. intros [= <-]. by apply name_ok.
Qed.

Lemma elements_of_ok t es : elements_of t = inr (Some es) → typ_ok t (Some es).
Proof.
  unfold elements_of. destruct t as [| |s t|]; try done.
  destruct (compileElementSchema (Slice s t)) as [e|es'] eqn:E; destruct s, t as [[]| | |]; try done;
    intros [= <-]; by apply compile_ok.
Qed.

Lemma leaf_field_ok o sf path idx f : path ≠ [] → Forall key_ok path →
  leaf_field o sf (Join path ".") idx = inr f → field_ok o f ∧ f_key f = Join path "." ∧ f_index f = idx.
Proof.
  intros Hne Hp. unfold leaf_field. destruct (elements_of (sf_Type sf)) as [e|es] eqn:Ee; [done|].
  destruct (_ && _) eqn:Es; [done|]. destruct (first_error _) eqn:Ec; [done|]. intros [= <-].
  apply first_error_None in Ec. unfold tag_checks in Ec. cbn [f_key f_index]. split; [|done].
  repeat (apply Forall_cons in Ec as [? Ec]). split; cbn.
  - eauto.
  - destruct es as [es|]; [by apply elements_of_ok|]. apply andb_false_iff in Es as [Es|Es]; [|by case_bool_decide].
    by apply negb_false_iff in Es.
  - intros Hr. rewrite Hr in *. by destruct (has_tag sf "default").
  - destruct (tag sf "validate") as [v|] eqn:Ev; [right|by left]. cbn.
    match goal with Hv : (if String.eqb v "" || _ then _ else _) = None |- _ =>
      destruct (String.eqb v ""); [done|]; cbn in Hv; apply dec_stable; intros Hn;
      rewrite bool_decide_eq_false_2 in Hv by done; done end.
Qed.

(** ** The walk *)

Record reg_ok (o : options) (r : registry) : Prop := {
  ro_keys : NoDup (map f_key (r_fields r));
  ro_byKey : ∀ k f, r_byKey r !! k = Some f ↔ f ∈ r_fields r ∧ f_key f = k;
  ro_fields : Forall (field_ok o) (r_fields r);
}.

(** The walk adds fields whose indices begin with [base] and are distinct. *)
Definition extends (base : list nat) (r r' : registry) : Prop :=
  ∃ new, r_fields r' = r_fields r ++ new ∧ NoDup (map f_index new) ∧
    Forall (λ f, ∃ suffix, f_index f = base ++ suffix) new.

Definition walk_ok (o : options) (t : gotype) : Prop := ∀ prefix base r r',
  Forall key_ok prefix → reg_ok o r → walk o t prefix base r = inr r' → reg_ok o r' ∧ extends base r r'.

Lemma registry_extends_refl base r : extends base r r.
Proof. exists []. rewrite app_nil_r. split; [done|]. split; constructor. Qed.

Lemma add_field_ok o f r r' : field_ok o f → reg_ok o r → add_field f r = inr r' → reg_ok o r' ∧ extends (f_index f) r r'.
Proof.
  intros Hf [Hk Hb Hfs]. unfold add_field. case_bool_decide as Hn; [done|]. intros [= <-].
  assert (r_byKey r !! f_key f = None) as En by (by apply eq_None_not_Some). split.
  - split; cbn.
    + rewrite map_app. apply NoDup_app. split; [done|]. split; [|apply NoDup_singleton].
      intros k Hin ->%list_elem_of_singleton. apply list_elem_of_fmap in Hin as (g & Eg & Hg).
      assert (r_byKey r !! f_key f = Some g) by (by apply Hb). congruence.
    + intros k g. rewrite lookup_insert_Some, Hb, elem_of_app, list_elem_of_singleton. split.
      * intros [[<- <-]|[Hne [Hg <-]]]; [split; [by right|done]|split; [by left|done]].
      * intros [[Hg| ->] <-]; [|by left]. destruct (decide (f_key f = f_key g)) as [E|]; [|by right].
        assert (r_byKey r !! f_key f = Some g) by (by apply Hb). congruence.
    + apply Forall_app. split; [done|by constructor].
  - exists [f]. split; [done|]. split; [apply NoDup_singleton|]. constructor; [|done]. exists []. by rewrite app_nil_r.
Qed.

Lemma walk_field_ok o sf prefix idx r r' : walk_ok o (sf_Type sf) → Forall key_ok prefix → reg_ok o r →
  walk_field (walk o) o prefix idx sf r = inr r' → reg_ok o r' ∧ extends idx r r'.
Proof.
  intros Hrec Hp Hr. unfold walk_field. destruct (negb _); [intros [= <-]; split; [done|apply registry_extends_refl]|].
  destruct (field_name sf) as [e|[n|]] eqn:En; [done| |intros [= <-]; split; [done|apply registry_extends_refl]].
  apply field_name_ok in En.
  assert (Forall key_ok (prefix ++ [n])) as Hpn by (apply Forall_app; split; [done|by constructor]).
  assert (match leaf_field o sf (Join (prefix ++ [n]) ".") idx with inl e => inl e | inr f => add_field f r end = inr r' →
    reg_ok o r' ∧ extends idx r r') as Hleaf.
  { destruct (leaf_field _ _ _ _) as [e|f] eqn:El; [done|]. apply leaf_field_ok in El as (Hf & _ & <-); [|by destruct prefix|done].
    by apply add_field_ok. }
  destruct (sf_Type sf) eqn:Et; try exact Hleaf.
  destruct (hasNonNamespaceTag sf); [done|]. destruct (sf_Anonymous sf).
  - destruct (has_tag sf "cfg"); [done|]. by apply Hrec.
  - by apply Hrec.
Qed.

Lemma walk_fields_ok o prefix base fields : Forall (λ sf, walk_ok o (sf_Type sf)) fields → Forall key_ok prefix →
  ∀ i r r', reg_ok o r → walk_fields (walk o) o prefix base i fields r = inr r' →
  reg_ok o r' ∧ ∃ new, r_fields r' = r_fields r ++ new ∧ NoDup (map f_index new) ∧
    Forall (λ f, ∃ j suffix, (i ≤ j)%nat ∧ f_index f = base ++ j :: suffix) new.
Proof.
  intros Hrec Hp. induction fields as [|sf fields IH]; intros i r r' Hr; cbn [walk_fields].
  { intros [= <-]. split; [done|]. exists []. rewrite app_nil_r. split; [done|]. split; constructor. }
  apply Forall_cons in Hrec as [Hsf Hrec].
  destruct (walk_field _ _ _ _ _ _) as [e|r1] eqn:E1; [done|]. intros E2.
  apply walk_field_ok in E1 as [Hr1 (n1 & En1 & Hd1 & Hs1)]; [|done..].
  apply IH in E2 as [Hr2 (n2 & En2 & Hd2 & Hs2)]; [|done..]. split; [done|].
  exists (n1 ++ n2). rewrite En2, En1, app_assoc. split; [done|].
  rewrite Forall_forall in Hs1, Hs2. split.
  - rewrite map_app. apply NoDup_app. split; [done|]. split; [|done].
    intros x (f & -> & Hf)%list_elem_of_fmap (g & Eg & Hg)%list_elem_of_fmap.
    destruct (Hs1 _ Hf) as (s & Es). destruct (Hs2 _ Hg) as (j & s' & Hj & Es').
    rewrite Es, Es', <- app_assoc in Eg. apply app_inv_head in Eg as [= Eij _]. lia.
  - apply Forall_forall. intros f [Hf|Hf]%elem_of_app.
    + destruct (Hs1 _ Hf) as (s & ->). exists i, s. split; [done|]. by rewrite <- app_assoc.
    + destruct (Hs2 _ Hf) as (j & s & Hj & ->). exists j, s. split; [lia|done].
Qed.

Lemma walk_ok_all o : ∀ t, walk_ok o t.
Proof.
  fix IH 1. intros [b|n fields|t|x] prefix base r r' Hp Hr; cbn [walk];
    try (intros [= <-]; split; [done|apply registry_extends_refl]).
  intros E. apply walk_fields_ok in E as [Hr' (new & E & Hd & Hs)]; [|clear -IH|done|done].
  - split; [done|]. exists new. split; [done|]. split; [done|].
    eapply Forall_impl; [exact Hs|]. intros f (j & s & _ & ->). eauto.
  - induction fields as [|sf fields IHf]; constructor; [apply IH|exact IHf].
Qed.

(** ** The checks over all fields *)

Lemma sort_fields_perm l : sort_fields l ≡ₚ l.
Proof. apply merge_sort_Permutation. Qed.

#[local] Instance key_le_trans : Transitive key_le.
Proof. intros f g h. unfold key_le. apply transitivity. Qed.
#[local] Instance key_le_total : Total key_le.
Proof. intros f g. unfold key_le. apply (total String.le). Qed.

Lemma sort_fields_sorted l : StronglySorted key_le (sort_fields l).
Proof. apply StronglySorted_merge_sort; apply _. Qed.

Definition named (name : fieldMeta → string) (l : list fieldMeta) : list string :=
  filter (λ s, s ≠ "") (map name l).

Lemma duplicate_names_ok l : ∀ seenEnv seenFlag, duplicate_names l seenEnv seenFlag = None →
  (NoDup (named f_env l) ∧ ∀ x, x ∈ named f_env l → x ∉ seenEnv) ∧
  (NoDup (named f_flag l) ∧ ∀ x, x ∈ named f_flag l → x ∉ seenFlag).
Proof.
  induction l as [|f l IH]; intros se sf; cbn [duplicate_names].
  { intros _. split; (split; [constructor|set_solver]). }
  destruct (_ && _) eqn:E1; [done|]. destruct (negb (String.eqb (f_flag f) "") && _) eqn:E2; [done|].
  intros [[Hd1 Hs1] [Hd2 Hs2]]%IH. unfold named in *. cbn [map].
  rewrite !filter_cons.
  destruct (String.eqb_spec (f_env f) "") as [Ee|Ee], (String.eqb_spec (f_flag f) "") as [Ef|Ef];
    cbn in E1, E2; repeat case_decide; try done; try case_bool_decide; try done;
    repeat match goal with H : bool_decide _ = false |- _ => apply bool_decide_eq_false in H end;
    repeat split; try (apply NoDup_cons; split); set_solver.
Qed.

(** An accepted registry. *)
Record registry_ok (o : options) (r : registry) : Prop := {
  rg_reg : reg_ok o r;
  rg_sorted : StronglySorted key_le (r_fields r);
  rg_index : NoDup (map f_index (r_fields r));
  rg_env : NoDup (named f_env (r_fields r));
  rg_flag : NoDup (named f_flag (r_fields r));
  rg_apart : namespace_conflict (r_fields r) = None;
}.

Lemma reg_ok_perm o r l : reg_ok o r → l ≡ₚ r_fields r → reg_ok o {| r_fields := l; r_byKey := r_byKey r |}.
Proof.
  intros [Hk Hb Hf] Hl. split; cbn; [by rewrite Hl|intros k f; by rewrite Hl|by rewrite Hl].
Qed.

Lemma makeRegistry_ok t o r : makeRegistry t o = inr r → registry_ok o r.
Proof.
  unfold makeRegistry. destruct t as [| n fields| |]; try done.
  destruct (walk _ _ _ _ _) as [e|r0] eqn:Ew; [done|].
  destruct (namespace_conflict _) eqn:Ec; [done|]. destruct (duplicate_names _ _ _) eqn:Ed; [done|]. intros [= <-].
  apply (walk_ok_all o (Struct n fields) [] []) in Ew as [Hr (new & En & Hi & _)]; [|done|].
  2:{ split; cbn; [constructor| |done]. intros k f. rewrite lookup_empty. set_solver. }
  cbn in En. apply duplicate_names_ok in Ed as [[He _] [Hf _]]. pose proof (sort_fields_perm (r_fields r0)) as Hp.
  split; cbn; [by apply reg_ok_perm|apply sort_fields_sorted| |done|done|done].
  rewrite Hp, En. done.
Qed.
End registry_facts.

(** ** Namespaces *)

Lemma StronglySorted_lookup_lt {A} (R : A → A → Prop) l : StronglySorted R l → ∀ i j x y,
  (i < j)%nat → l !! i = Some x → l !! j = Some y → R x y.
Proof.
  induction 1 as [|a l Hs IH Ha]; [done|]. intros i [|j] x y Hij Hx Hy; [lia|].
  destruct i as [|i]; [|exact (IH i j x y ltac:(lia) Hx Hy)]. injection Hx as <-.
  rewrite Forall_forall in Ha. apply Ha. exact (list_elem_of_lookup_2 l j y Hy).
Qed.

Lemma leb_prefix a x y : String.leb (a +:+ x) (a +:+ y) = String.leb x y.
Proof.
  unfold String.leb. induction a as [|c a IH]; cbn; [done|].
  assert (Ascii.compare c c = Eq) as -> by (unfold Ascii.compare; apply N.compare_refl). done.
Qed.

Lemma le_prefix a x y : String.le (a +:+ x) (a +:+ y) ↔ String.le x y.
Proof. unfold String.le. by rewrite leb_prefix. Qed.

Lemma le_cons_inv c x d y : String.le (String c x) (String d y) → ord c < ord d ∨ (c = d ∧ String.le x y).
Proof.
  unfold String.le, String.leb. cbn. destruct (Ascii.compare c d) eqn:E; intros H.
  - right. apply Ascii.compare_eq_iff in E. done.
  - left. unfold Ascii.compare in E. apply N.compare_lt_iff, N2Z.inj_lt in E. exact E.
  - done.
Qed.

Lemma le_nil_inv x : String.le x "" → x = "".
Proof. unfold String.le, String.leb. by destruct x. Qed.

(** Between a string and a longer one that goes on with a byte [d] there are
    only strings that go on with a byte up to [d]. *)
Lemma between_prefix a h d t : String.le a h → String.le h (a +:+ String d t) → h ≠ a →
  ∃ c u, h = a +:+ String c u ∧ ord c ≤ ord d.
Proof.
  revert h. induction a as [|x a IH]; intros h H1 H2 Hne.
  - destruct h as [|c u]; [done|]. exists c, u. split; [done|].
    apply le_cons_inv in H2 as [?|[-> _]]; lia.
  - destruct h as [|c u]; [by apply le_nil_inv in H1|]. cbn [String.append] in H2.
    apply le_cons_inv in H1 as [?|[<- H1]], H2 as [?|[? H2]]; try lia; try congruence.
    + subst. lia.
    + destruct (IH u H1 H2) as (c' & u' & -> & Hc); [congruence|]. exists c', u'. done.
Qed.

(** No byte of a key comes before the dot. *)
Definition dot_first (key : string) : Prop := Forall (λ c, ord "." ≤ ord c) (chars key).

Lemma adjacent_conflict l i f g : namespace_conflict l = None → l !! i = Some f → l !! S i = Some g →
  HasPrefix (f_key g) (f_key f +:+ ".") = false.
Proof.
  revert i. induction l as [|a l IH]; [done|]. intros i Hc. destruct l as [|b l]; [by destruct i|].
  cbn [namespace_conflict] in Hc. destruct (HasPrefix (f_key b) (f_key a +:+ ".")) eqn:E; [done|].
  destruct i as [|i]; [by intros [= <-] [= <-]|]. intros Hf Hg. by apply (IH i).
Qed.

Lemma le_app a b : String.le a (a +:+ b).
Proof. rewrite <- (sapp_nil_r a) at 1. rewrite le_prefix. by destruct b. Qed.

Lemma no_conflict l : StronglySorted key_le l → NoDup (map f_key l) → Forall (λ f, dot_first (f_key f)) l →
  namespace_conflict l = None → ∀ f g, f ∈ l → g ∈ l → HasPrefix (f_key g) (f_key f +:+ ".") = false.
Proof.
  intros Hs Hd Hk Hc f g Hf Hg. apply not_true_iff_false. intros (t & Et)%HasPrefix_spec.
  rewrite sapp_assoc in Et. cbn [String.append] in Et.
  apply list_elem_of_lookup in Hf as (i & Hi), Hg as (j & Hj).
  assert (f_key f ≠ f_key g) as Hne.
  { rewrite Et. intros E. apply (f_equal slen) in E. rewrite slen_app in E. unfold slen in E. cbn in E. lia. }
  assert (i < j)%nat as Hij.
  { destruct (decide (i = j)) as [->|]; [congruence|]. destruct (decide (j < i)%nat) as [Hlt|]; [|lia].
    exfalso. apply Hne. apply (anti_symm String.le); [by rewrite Et; apply le_app|].
    apply (StronglySorted_lookup_lt key_le l Hs j i g f); done. }
  destruct (lookup_lt_is_Some_2 l (S i)) as (h & Hh); [apply lookup_lt_Some in Hj; lia|].
  assert (String.le (f_key f) (f_key h)) as H1 by (apply (StronglySorted_lookup_lt key_le l Hs i (S i) f h); [lia|done|done]).
  assert (String.le (f_key h) (f_key g)) as H2.
  { destruct (decide (S i = j)) as [<-|]; [by replace h with g by congruence|].
    apply (StronglySorted_lookup_lt key_le l Hs (S i) j h g); [lia|done|done]. }
  assert (f_key h ≠ f_key f) as Hhf.
  { intros E. assert (S i = i); [|lia]. eapply (NoDup_lookup (map f_key l)); [done| |];
      rewrite list_lookup_fmap; [rewrite Hh|rewrite Hi]; cbn; by rewrite ?E. }
  rewrite Et in H2. destruct (between_prefix _ _ _ _ H1 H2 Hhf) as (c & u & Eh & Hc').
  assert (ord "." ≤ ord c).
  { rewrite Forall_forall in Hk. apply list_elem_of_lookup_2 in Hh. specialize (Hk _ Hh). unfold dot_first in Hk.
    rewrite Eh, chars_app in Hk. apply Forall_app in Hk as [_ Hk]. by apply Forall_cons in Hk as [? _]. }
  assert (c = "."%char) as -> by (apply (inj ord); lia).
  apply (adjacent_conflict l i f h Hc Hi) in Hh. rewrite Eh in Hh.
  assert (HasPrefix (f_key f +:+ String "." u) (f_key f +:+ ".") = true); [|congruence].
  apply HasPrefix_spec. exists u. by rewrite sapp_assoc.
Qed.

(** C35: The fields of an accepted registry are sorted by key, their keys are
    distinct dotted paths of good names, no two share a place in the struct, an
    environment variable or a flag, each has a supported type, no default if it is
    required and a registered validator; and no key stands below another, as long
    as no byte of a key comes before the dot. *)
Theorem makeRegistry_spec `{Unicode} t o r : makeRegistry t o = inr r →
  StronglySorted key_le (r_fields r) ∧ NoDup (map f_key (r_fields r)) ∧ NoDup (map f_index (r_fields r)) ∧
  NoDup (named f_env (r_fields r)) ∧ NoDup (named f_flag (r_fields r)) ∧
  (∀ k f, r_byKey r !! k = Some f ↔ f ∈ r_fields r ∧ f_key f = k) ∧
  (∀ f, f ∈ r_fields r → field_ok o f) ∧
  (Forall (λ f, dot_first (f_key f)) (r_fields r) →
   ∀ f g, f ∈ r_fields r → g ∈ r_fields r → HasPrefix (f_key g) (f_key f +:+ ".") = false).
Proof.
  intros [[Hk Hb Hf] Hs Hi He Hfl Hc]%makeRegistry_ok. rewrite Forall_forall in Hf.
  repeat (split; [done|]). intros Hd. by apply no_conflict.
Qed.

(** ** A conflict that is not seen *)

Definition string_field (name cfg : string) : structField gotype :=
  {| sf_Name := name; sf_PkgPath := ""; sf_Anonymous := false; sf_Tag := [("cfg", cfg); ("env", "-")];
     sf_Type := Basic TString |}.
Definition log_namespace : structField gotype :=
  {| sf_Name := "Logging"; sf_PkgPath := ""; sf_Anonymous := false; sf_Tag := [("cfg", "log")];
     sf_Type := Struct {| tn_pkg := "main"; tn_Name := "Logging" |} [string_field "Level" "level"] |}.
Definition log_schema (others : list (structField gotype)) : gotype :=
  Struct {| tn_pkg := "main"; tn_Name := "App" |} (string_field "Log" "log" :: others ++ [log_namespace]).

(** A scalar with the key of a namespace is refused, unless a third key sorts
    between them: a dash comes before the dot, so that [log], [log-level] and
    [log.level] are accepted together, and a saved document then holds no value
    for [log]. *)
Theorem dash_hides_conflict `{Unicode} :
  makeRegistry (log_schema []) no_options =
    inl (schema_err "scalar conflicts with namespace" "log.level" "Level") ∧
  (∃ r, makeRegistry (log_schema [string_field "LogLevel" "log-level"]) no_options = inr r ∧
     map f_key (r_fields r) = ["log"; "log-level"; "log.level"]) ∧
  ∀ v w x, is_leaf v →
    putNested (putNested (putNested [] ["log"] v) ["log-level"] x) ["log"; "level"] w =
      [("log", VMap [("level", w)]); ("log-level", x)].
Proof.
  split; [reflexivity|]. split; [eexists; split; reflexivity|].
  intros v w x Hv. by destruct v.
Qed.
