(* ===== verification/ConfigDecodeFacts.v ===== *)
(** * What decoding guarantees

    Decoded values have the type of their field and fit its width; what is
    encoded for a file is decoded to the same value. *)
From S2P Require Import Prelude.
From S2P Require Import GoStrings.
From S2P Require Import Utf8.
From S2P Require Import Errors.
From S2P Require Import ConfigTypes.
From S2P Require Import ConfigOptions.
From S2P Require Import ConfigRegistry.
From S2P Require Import ConfigFormats.
From S2P Require Import ConfigDecode.
From S2P Require Import ConfigFile.
From S2P Require Import ConfigFormatsFacts.
From S2P Require Import ConfigRegistryFacts.
From S2P Require Errx.
From S2P Require Import ConfigResolve.
From Stdlib Require Import Ascii.
#[local] Open Scope stdpp_scope.
#[local] Open Scope Z_scope.

Definition int64_ok (z : Z) : Prop := min_int64 ≤ z ≤ max_int64.
Definition uint64_ok (z : Z) : Prop := 0 ≤ z ≤ max_uint64.

(** The numbers of a value fit their types. *)
Definition scalar_ok (v : gov) : Prop :=
  match v with
  | VInt z | VInt64 z | VDuration z => int64_ok z
  | VUint z | VUint64 z | VFloat z => uint64_ok z
  | _ => True
  end.

Fixpoint go_value (v : gov) : Prop :=
  scalar_ok v ∧
  match v with
  | VList (Some l) | VSlice l => foldr (λ x P, go_value x ∧ P) True l
  | VMap m => foldr (λ kv P, go_value kv.2 ∧ P) True m
  | VMapAny m => foldr (λ kv P, go_value kv.2 ∧ P) True m
  | _ => True
  end.

(** What [strconv] and [time] say about the numbers they parse and print. *)
Class NumbersLaws `{Numbers} := {
  float_bits : ∀ s b, ParseFloat s = inr b → uint64_ok b;
  duration_range : ∀ s z, ParseDuration s = inr z → int64_ok z;
  duration_read_back : ∀ z, int64_ok z → ParseDuration (Duration_String z) = inr z;
}.

(** A value of a supported type. *)
Definition typed_leaf (t : gotype) (v : gov) : Prop := has_type v t = true ∧ scalar_ok v.
Definition finite_value (v : gov) : Prop := match v with VFloat b => finite b = true | _ => True end.
Definition row_typed (es : elementSchema) (row : list gov) : Prop :=
  Forall2 (λ f v, typed_leaf (ef_typ f) v) (es_fields es) row.

(** A value of a field: a slice of structs has rows of the schema's types. *)
Definition typed (t : gotype) (elements : option elementSchema) (v : gov) : Prop :=
  match elements with
  | None => typed_leaf t v ∧ finite_value v
  | Some es => ∃ l, v = VStructs (slice_name t) (es_typ es) l ∧ Forall (row_typed es) (default [] l)
  end.

(** A native slice of the element type is what its type says. *)
Definition native_ok (elements : option elementSchema) (raw : gov) : Prop :=
  match elements, raw with
  | Some es, VStructs _ t l => t = es_typ es → Forall (row_typed es) (default [] l)
  | _, _ => True
  end.

Section decode_facts.
Context `{Unicode} `{NumbersLaws} `{Formats}.

(** ** Single values *)

Lemma ParseUint_bounds s z : ParseUint s = inr z → uint64_ok z.
Proof.
  unfold ParseUint. destruct (String.eqb s ""); [done|]. destruct (digits s 0) as [n|] eqn:E; [|done].
  destruct (Z.leb_spec n max_uint64); [|done]. intros [= <-]. split; [|done].
  assert (∀ s acc n, 0 ≤ acc → digits s acc = Some n → 0 ≤ n) as Hpos; [|by eapply (Hpos s 0)].
  clear. induction s as [|c s IH]; intros acc n Ha; cbn; [by intros [= <-]|].
  destruct (digit c) as [d|] eqn:Ed; [|done]. apply IH. unfold digit in Ed.
  destruct (_ && _) eqn:Eb; [|done]. injection Ed as <-. apply andb_true_iff in Eb as [?%Z.leb_le _]. lia.
Qed.

Lemma from_text_typed s t v : supported t = true → from_text s t = inr v → typed t None v.
Proof.
  intros Ht. unfold from_text, typed, typed_leaf.
  destruct t as [[]| |[] [[]| | |]|]; try done; repeat case_match; try done; intros [= <-]; cbn;
    repeat split; try done;
    first [eapply Atoi_bounds; eassumption | eapply ParseUint_bounds; eassumption
          |eapply float_bits; eassumption | eapply duration_range; eassumption].
Qed.

Lemma coerce_typed_leaf raw t v : supported t = true → scalar_ok raw → coerce raw t = inr v → typed t None v.
Proof.
  intros Ht Hr. unfold coerce. destruct (has_type raw t) eqn:Eh.
  - unfold same_type. intros E. destruct raw; try done; try (injection E as <-; split; [by split|done]).
    destruct (finite _) eqn:Ef; [|done]. injection E as <-. split; [by split|done].
  - destruct raw; try (destruct (is_string_type t); [done|]); try done;
      try (intros E; eapply from_text_typed; eassumption).
    destruct (is_strings_type t) eqn:Es; [|done]. destruct (all_strings _) as [l'|]; [|done]. intros [= <-].
    destruct t as [| |[] [[]| | |]|]; done.
Qed.

(** ** Slices of structs *)

Lemma find_element_elem es key f : find_element es key = Some f → f ∈ es_fields es ∧ ef_name f = key.
Proof.
  unfold find_element. destruct (list_find _ _) as [[i g]|] eqn:E; [|done]. intros [= <-].
  apply list_find_Some in E as (Hi & Hk & _). split; [by apply list_elem_of_lookup_2 in Hi|done].
Qed.

Lemma find_element_name es f i : NoDup (map ef_name (es_fields es)) → es_fields es !! i = Some f →
  find_element es (ef_name f) = Some f.
Proof.
  intros Hd Hi. unfold find_element.
  destruct (list_find (λ g, ef_name g = ef_name f) (es_fields es)) as [[j g]|] eqn:E; cbn.
  - apply list_find_Some in E as (Hj & Hk & _). assert (i = j) as ->; [|congruence].
    eapply (NoDup_lookup (map ef_name (es_fields es))); [done| |]; rewrite list_lookup_fmap; [by rewrite Hi|].
    rewrite Hj. cbn. by rewrite Hk.
  - apply list_find_None in E. rewrite Forall_forall in E. apply list_elem_of_lookup_2 in Hi. by destruct (E f Hi).
Qed.

(** The loop over an object sets the members it names. *)
Lemma set_members_spec es object : elements_ok (es_fields es) → ∀ acc out,
  length acc = length (es_fields es) → set_members es object acc = inr out →
  length out = length acc ∧
  ∀ i f, es_fields es !! i = Some f →
    (∃ x v, (ef_name f, x) ∈ object ∧ coerce x (ef_typ f) = inr v ∧ out !! i = Some v) ∨
    (ef_name f ∉ map fst object ∧ out !! i = acc !! i).
Proof.
  intros [Hd Hok]. induction object as [|[k x] object IH]; intros acc out Hl; cbn [set_members].
  { intros [= <-]. split; [done|]. intros i f _. right. split; [cbn; set_solver|done]. }
  destruct (find_element es k) as [g|] eqn:Eg; [|done].
  destruct (coerce x (ef_typ g)) as [e|v] eqn:Ec; [done|]. intros Hout.
  apply IH in Hout as [Hlen Hout]; [|by rewrite length_insert]. rewrite length_insert in Hlen. split; [done|].
  intros i f Hi. destruct (Hout i f Hi) as [(x' & v' & Hx & Hc & Ho)|[Hn Ho]].
  { left. exists x', v'. split; [by right|done]. }
  apply find_element_elem in Eg as [(j & Hj)%list_elem_of_lookup Ek].
  destruct (Hok j g Hj) as (Ej & _). destruct (decide (j = i)) as [->|Hne].
  - left. exists x, v. assert (g = f) as -> by congruence. rewrite Ek. split; [left|]. split; [done|].
    rewrite Ho, Ej. apply list_lookup_insert_eq. rewrite Hl. by eapply lookup_lt_Some.
  - right. rewrite Ho, Ej, list_lookup_insert_ne by done. split; [|done]. cbn. apply not_elem_of_cons. split; [|done].
    intros E. apply Hne. eapply (NoDup_lookup (map ef_name (es_fields es))); [done| |]; rewrite list_lookup_fmap; [by rewrite Hj|].
    rewrite Hi. cbn. congruence.
Qed.

(** A row read from an object: the object has no other keys than the members, and
    every member is decoded from it. *)
Definition members (es : elementSchema) (object : document) (row : list gov) : Prop :=
  Forall (λ k, ∃ f, f ∈ es_fields es ∧ ef_name f = k) (map fst object) ∧
  Forall2 (λ f v, ∃ x, (ef_name f, x) ∈ object ∧ coerce x (ef_typ f) = inr v) (es_fields es) row.
Definition row_of_item (es : elementSchema) (item : gov) (row : list gov) : Prop :=
  ∃ object, structuredObject item = Some object ∧ members es object row.

Lemma set_members_known es object : ∀ acc out, set_members es object acc = inr out →
  Forall (λ k, ∃ f, f ∈ es_fields es ∧ ef_name f = k) (map fst object).
Proof.
  induction object as [|[k x] object IH]; intros acc out; cbn; [constructor|].
  destruct (find_element es k) as [f|] eqn:Ef; [|done]. destruct (coerce x (ef_typ f)); [done|].
  intros E%IH. constructor; [|done]. exists f. by apply find_element_elem.
Qed.

Lemma element_spec es object row : elements_ok (es_fields es) → coerceStructuredElement es object = inr row →
  members es object row.
Proof.
  intros Hes. unfold coerceStructuredElement. destruct (set_members _ _ _) as [e|out] eqn:E; [done|].
  destruct (list_find _ _) as [[i f]|] eqn:Ef; [done|]. intros [= <-]. split; [by eapply set_members_known|].
  apply set_members_spec in E as [Hl Hi]; [|done|by rewrite length_map]. rewrite length_map in Hl.
  apply list_find_None in Ef. rewrite Forall_forall in Ef.
  apply Forall2_same_length_lookup_2; [done|]. intros i f v Hf Hv.
  destruct (Hi i f Hf) as [(x & w & Hx & Hc & Hw)|[Hn _]].
  - exists x. split; [done|]. congruence.
  - apply assoc_None in Hn. apply list_elem_of_lookup_2 in Hf. by destruct (Ef f Hf).
Qed.

Lemma go_list l : foldr (λ x P, go_value x ∧ P) True l ↔ Forall go_value l.
Proof. apply foldr_and. Qed.
Lemma go_map {K} (m : list (K * gov)) : foldr (λ kv P, go_value kv.2 ∧ P) True m ↔ Forall (λ kv, go_value kv.2) m.
Proof. apply (foldr_and (λ kv, go_value kv.2)). Qed.

Lemma go_scalar v : go_value v → scalar_ok v.
Proof. destruct v; cbn; tauto. Qed.

Lemma json_go_value v : json_value v → go_value v.
Proof.
  induction v as [l IH|m IH|v Hl] using gov_ind'.
  - rewrite json_list. intros Hj. cbn. rewrite go_list. split; [done|]. rewrite !Forall_forall in *. auto.
  - rewrite json_map. intros [_ Hj]. cbn. rewrite go_map. split; [done|]. rewrite !Forall_forall in *. auto.
  - by destruct v as [| | | | | | | | | | |[]| | | | |].
Qed.

Lemma object_go_value item object : structuredObject item = Some object → go_value item →
  Forall (λ kv, go_value kv.2) object.
Proof.
  destruct item as [| | | | | | | | | | | |m|m| | |]; try done; cbn.
  - intros [= <-]. rewrite go_map. tauto.
  - rewrite go_map. intros Hs [_ Hm]. revert object Hs. induction m as [|[k v] m IH]; cbn; [by intros ? [= <-]|].
    apply Forall_cons in Hm as [Hv Hm]. destruct k; try done. intros object.
    destruct (string_keyed m) as [d|] eqn:E; [|done]. intros [= <-]. constructor; auto.
Qed.

Lemma members_typed es object row : schema_ok es → Forall (λ kv, go_value kv.2) object → members es object row →
  row_typed es row ∧ Forall finite_value row.
Proof.
  intros [_ [_ Hok]] Ho [_ Hm]. rewrite Forall_forall in Ho.
  assert (Forall2 (λ f v, typed (ef_typ f) None v) (es_fields es) row) as Ht.
  { apply Forall2_same_length_lookup. split; [by eapply Forall2_length|].
    intros j f v Hf Hv. destruct (Forall2_lookup_lr _ _ _ _ _ _ Hm Hf Hv) as (x & Hx & Hc).
    destruct (Hok j f Hf) as (_ & (b & Eb) & _).
    eapply coerce_typed_leaf; [by rewrite Eb|by apply go_scalar, (Ho _ Hx)|done]. }
  split.
  - eapply Forall2_impl; [exact Ht|]. by intros f v [].
  - eapply Forall2_Forall_r; [exact Ht|]. apply Forall_forall. by intros f _ v [].
Qed.

Lemma rows_read es items : elements_ok (es_fields es) → ∀ i rows,
  coerce_elements es i items = inr rows → Forall2 (row_of_item es) items rows.
Proof.
  intros Hes. induction items as [|item items IH]; intros i rows; cbn; [intros [= <-]; constructor|].
  destruct (structuredObject item) as [object|] eqn:Eo; [|done].
  destruct (coerceStructuredElement es object) as [e|row] eqn:Er; [done|].
  destruct (coerce_elements es (S i) items) as [e|l] eqn:El; [done|]. intros [= <-].
  constructor; [|by eapply IH]. exists object. split; [done|]. by apply element_spec.
Qed.

Lemma rows_typed es items rows : schema_ok es → Forall go_value items → Forall2 (row_of_item es) items rows →
  Forall (λ row, row_typed es row ∧ Forall finite_value row) rows.
Proof.
  intros Hes Hg Hr. induction Hr as [|item row items rows (object & Eo & Hm) _ IH]; [constructor|].
  apply Forall_cons in Hg as [Hit Hg]. constructor; [|by apply IH].
  eapply members_typed; [done| |done]. by eapply object_go_value.
Qed.

Lemma items_go_value raw items : items_of raw = Some items → go_value raw → Forall go_value items.
Proof.
  destruct raw; try done; cbn; intros E Hg.
  - injection E as <-. apply Forall_forall. by intros ? (? & -> & _)%list_elem_of_fmap.
  - subst. rewrite go_list in Hg. tauto.
  - injection E as <-. apply Forall_forall. by intros ? (? & -> & _)%list_elem_of_fmap.
  - injection E as <-. rewrite go_list in Hg. tauto.
Qed.

Lemma coerce_items_spec s es raw v : schema_ok es → coerce_items s es raw = inr v →
  ∃ items rows, items_of raw = Some items ∧ v = VStructs s (es_typ es) (Some rows) ∧ Forall2 (row_of_item es) items rows.
Proof.
  intros [_ Hes]. unfold coerce_items. destruct (items_of raw) as [items|]; [|done].
  destruct (coerce_elements es 0 items) as [e|rows] eqn:Er; [done|]. intros [= <-].
  exists items, rows. split; [done|]. split; [done|]. by eapply rows_read.
Qed.

Lemma parse_go_value text v : parseJSONValue text = inr v → go_value v.
Proof.
  unfold parseJSONValue. destruct (decode_all _ _) as [r|] eqn:E; [|done]. intros ->.
  apply decode_all_spec in E as [Hj _]. by apply json_go_value.
Qed.

Lemma typ_ok_leaf t : typ_ok t None → ∀ raw, coerceWithSchema raw t None = coerce raw t.
Proof. cbn. intros Ht raw. by destruct t as [| |[] [[]| | |]|]. Qed.

(** The value whose items a slice of structs is read from: text is read as JSON. *)
Definition rows_source (raw : gov) : option gov :=
  match raw with
  | VString text => match parseJSONValue text with inl _ => None | inr x => Some x end
  | _ => Some raw
  end.
Lemma rows_source_go raw x : rows_source raw = Some x → go_value raw → go_value x.
Proof.
  destruct raw; cbn [rows_source]; try (by intros [= <-]). destruct (parseJSONValue s) eqn:E; [done|].
  intros [= <-] _. by eapply parse_go_value.
Qed.

Lemma coerce_slice t s n fields raw elements : t = Slice s (Struct n fields) →
  coerceWithSchema raw t elements = coerceStructuredSlice raw t elements.
Proof. intros ->. by destruct s. Qed.

(** A slice of structs is taken as it is or read item by item. *)
Lemma coerceStructuredSlice_spec t es fields raw v : schema_ok es → t = Slice (slice_name t) (Struct (es_typ es) fields) →
  coerceStructuredSlice raw t (Some es) = inr v →
  if has_type raw t then v = raw
  else ∃ x items rows, rows_source raw = Some x ∧ items_of x = Some items ∧
    v = VStructs (slice_name t) (es_typ es) (Some rows) ∧ Forall2 (row_of_item es) items rows.
Proof.
  intros Hes Et. unfold coerceStructuredSlice. destruct (has_type raw t); [by intros [= <-]|].
  assert (∀ x, coerce_items (slice_name t) es x = inr v → rows_source raw = Some x →
    ∃ x items rows, rows_source raw = Some x ∧ items_of x = Some items ∧
      v = VStructs (slice_name t) (es_typ es) (Some rows) ∧ Forall2 (row_of_item es) items rows) as Hx.
  { intros x E Ex. apply coerce_items_spec in E as (items & rows & ? & ? & ?); [|done]. by exists x, items, rows. }
  destruct raw; try (intros E; by apply (Hx _ E)). destruct (parseJSONValue s) as [e|x] eqn:Ex; [done|].
  intros E. apply (Hx x E). cbn. by rewrite Ex.
Qed.

(** Decoding gives values of the field's type: a number fits the width of its
    type and is finite, a slice of structs has rows of its element type. *)
Lemma coerce_typed raw t elements v : typ_ok t elements → go_value raw → native_ok elements raw →
  coerceWithSchema raw t elements = inr v → typed t elements v.
Proof.
  intros Ht Hg Hn. destruct elements as [es|].
  - destruct Ht as [Hes (s & fields & Et)]. intros E'.
    rewrite (coerce_slice _ _ _ _ _ _ Et) in E'. rename E' into E.
    apply (coerceStructuredSlice_spec t es fields) in E; [|done|by rewrite Et].
    destruct (has_type raw t) eqn:Eh.
    + subst v. subst t. destruct raw; try done; try (by destruct s). apply bool_decide_eq_true in Eh as [-> ->]. exists l. split; [done|].
      by apply Hn.
    + destruct E as (x & items & rows & Ex & Ei & -> & Hr). exists (Some rows). split; [done|].
      eapply Forall_impl; [eapply rows_typed; [done| |done]|by intros ? []].
      eapply items_go_value; [done|]. by eapply rows_source_go.
  - rewrite typ_ok_leaf by done. intros E. eapply coerce_typed_leaf; [done|by apply go_scalar|done].
Qed.
End decode_facts.

(** C34: whatever raw value a field is given, what it is decoded to has the field's
    type: an integer fits its width and a float is finite.  For a slice of structs
    a native slice of the type itself is taken as it is, its floats unchecked;
    from every other value, text being read as JSON, each row is read from an
    object whose keys are exactly the members, each member is decoded from its
    entry to its type, and its floats are finite. *)
Theorem decoded_typed `{Unicode} `{NumbersLaws} `{Formats} t o r f raw v : makeRegistry t o = inr r →
  f ∈ r_fields r → go_value raw → native_ok (f_elements f) raw →
  coerceWithSchema raw (f_typ f) (f_elements f) = inr v →
  typed (f_typ f) (f_elements f) v ∧
  match f_elements f with
  | None => True
  | Some es =>
      if has_type raw (f_typ f) then v = raw
      else ∃ x items rows, rows_source raw = Some x ∧ items_of x = Some items ∧
        v = VStructs (slice_name (f_typ f)) (es_typ es) (Some rows) ∧
        Forall2 (row_of_item es) items rows ∧ Forall (Forall finite_value) rows
  end.
Proof.
  intros [[_ _ Hok] _ _ _ _ _]%makeRegistry_ok Hf Hg Hn E. rewrite Forall_forall in Hok. destruct (Hok f Hf) as [_ Ht _ _].
  split; [by eapply coerce_typed|]. destruct (f_elements f) as [es|]; [|done]. destruct Ht as [Hes (s & fields & Et)].
  rewrite (coerce_slice _ _ _ _ _ _ Et) in E. rename E into E'.
  apply (coerceStructuredSlice_spec _ _ fields) in E'; [|done|by rewrite Et]. destruct (has_type raw (f_typ f)); [done|].
  destruct E' as (x & items & rows & Ex & Ei & Ev & Hr). exists x, items, rows. split_and!; try done.
  eapply Forall_impl; [eapply rows_typed; [done| |done]|by intros ? []].
  eapply items_go_value; [done|]. by eapply rows_source_go.
Qed.

(** * What a snapshot is

    The winner of every field, when resolving succeeds, and what it gives. *)
(** ** Priorities *)

Definition rank (s : Source) : Z :=
  match s with
  | SourceNone => 0 | SourceDefault => 1 | SourceInitial => 2 | SourceFile => 3
  | SourceEnv => 4 | SourceFlag => 5 | SourceSet => 6
  end.

(** [wins ls key v s]: [s] is the highest source that has the key, with [v]. *)
Definition wins (ls : layers) (key : string) (v : gov) (s : Source) : Prop :=
  s ≠ SourceNone ∧ layer_of ls s !! key = Some v ∧ ∀ s', rank s < rank s' → layer_of ls s' !! key = None.

Lemma winner_spec ls key v s : winner ls key candidates = Some (v, s) ↔ wins ls key v s.
Proof.
  unfold wins. cbn. split.
  - intros E. repeat (case_match; [injection E as <- <-|]); try done;
      (split; [done|]; split; [done|]; intros [] Hr; cbn in Hr; first [lia|done]).
  - intros (Hn & Hv & Hr).
    assert (∀ s', rank s < rank s' → layer_of ls s' !! key = None) as Hr' by done.
    destruct s; try done;
      repeat first [rewrite Hv; done | rewrite (Hr' SourceSet) by (cbn; lia) | rewrite (Hr' SourceFlag) by (cbn; lia)
        | rewrite (Hr' SourceEnv) by (cbn; lia) | rewrite (Hr' SourceFile) by (cbn; lia)
        | rewrite (Hr' SourceInitial) by (cbn; lia)].
Qed.

Lemma winner_None ls key : winner ls key candidates = None ↔ ∀ s, s ≠ SourceNone → layer_of ls s !! key = None.
Proof.
  cbn. split.
  - intros E. repeat (case_match; [done|]). by intros [].
  - intros Hn. by rewrite !Hn.
Qed.

(** ** Fields *)

Section resolve_facts.
Context `{Unicode} `{Numbers} `{Formats} `{Schema}.

(** What a field may be resolved to. *)
Definition resolvable (ls : layers) (f : fieldMeta) : Prop :=
  match winner ls (f_key f) candidates with
  | None => f_required f = false
  | Some (raw, _) => ∃ v, coerceWithSchema raw (f_typ f) (f_elements f) = inr v
  end.

(** The values and origins that the layers determine. *)
Record resolved (ls : layers) (path : string) (fs : list fieldMeta) (vs : values) (origins : gmap string Origin) : Prop := {
  rs_values : ∀ f, f ∈ fs → ∀ v, vs !! f_index f = Some v ↔
    ∃ raw s, wins ls (f_key f) raw s ∧ coerceWithSchema raw (f_typ f) (f_elements f) = inr v;
  rs_origins : ∀ f, f ∈ fs → ∀ o, origins !! f_key f = Some o ↔
    ∃ raw s, wins ls (f_key f) raw s ∧ o = {| o_Source := s; o_Detail := origin_detail path f s |};
  rs_fields : ∀ i, is_Some (vs !! i) → ∃ f, f ∈ fs ∧ f_index f = i;
  rs_keys : ∀ k, is_Some (origins !! k) → ∃ f, f ∈ fs ∧ f_key f = k;
}.

Lemma resolve_field_spec ls path f acc :
  (∃ acc', resolve_field ls path f acc = inr acc') ↔ resolvable ls f.
Proof.
  unfold resolve_field, resolvable. destruct (winner _ _ _) as [[raw s]|].
  - destruct (coerceWithSchema _ _ _); naive_solver.
  - destruct (f_required f); naive_solver.
Qed.

Lemma resolve_fields_success ls path fs : ∀ acc,
  (∃ acc', resolve_fields ls path fs acc = inr acc') ↔ Forall (resolvable ls) fs.
Proof.
  induction fs as [|f fs IH]; intros acc; cbn; [naive_solver|]. rewrite Forall_cons.
  destruct (resolve_field ls path f acc) as [e|acc1] eqn:E.
  - split; [naive_solver|]. intros [Hf _]. apply (resolve_field_spec ls path f acc) in Hf as (? & ?). congruence.
  - rewrite IH. assert (resolvable ls f) by (eapply resolve_field_spec; eauto). naive_solver.
Qed.

(** The accumulated pair over a list of fields with distinct keys and indices. *)
Lemma resolve_fields_resolved ls path fs : ∀ done_ vs os vs' os',
  NoDup (map f_key (done_ ++ fs)) → NoDup (map f_index (done_ ++ fs)) →
  resolved ls path done_ vs os → resolve_fields ls path fs (vs, os) = inr (vs', os') →
  resolved ls path (done_ ++ fs) vs' os'.
Proof.
  induction fs as [|f fs IH]; intros done_ vs os vs' os' Hk Hi Hr; cbn [resolve_fields].
  { rewrite app_nil_r. by intros [= <- <-]. }
  destruct (resolve_field ls path f (vs, os)) as [e|[vs1 os1]] eqn:E; [done|]. intros Hrest.
  assert (∀ g, g ∈ done_ → f_key g ≠ f_key f ∧ f_index g ≠ f_index f) as Hne.
  { intros g Hg. rewrite map_app in Hk, Hi. apply NoDup_app in Hk as (_ & Hk & _), Hi as (_ & Hi & _). split; intros Eq.
    - apply (Hk (f_key g)); [by apply (list_elem_of_fmap_2 f_key)|]. rewrite Eq. left.
    - apply (Hi (f_index g)); [by apply (list_elem_of_fmap_2 f_index)|]. rewrite Eq. left. }
  replace (done_ ++ f :: fs) with ((done_ ++ [f]) ++ fs) in * by (by rewrite <- app_assoc). eapply (IH (done_ ++ [f])); [done..| |exact Hrest]. clear IH Hrest Hk Hi.
  destruct Hr as [Hv Ho Hf Hks]. unfold resolve_field in E.
  destruct (winner ls (f_key f) candidates) as [[raw s]|] eqn:Ew.
  - destruct (coerceWithSchema _ _ _) as [e|v] eqn:Ec; [done|]. injection E as <- <-. cbn.
    apply winner_spec in Ew as Hw.
    assert (∀ raw' s', wins ls (f_key f) raw' s' → raw' = raw ∧ s' = s) as Huniq.
    { intros raw' s' Hw'. apply winner_spec in Hw'. split; congruence. }
    split.
    + intros g [Hg| ->%list_elem_of_singleton]%elem_of_app w.
      * destruct (Hne g Hg) as [_ Hn]. rewrite lookup_insert_ne by congruence. by apply Hv.
      * rewrite lookup_insert_eq. split; [intros [= <-]; eauto|].
        intros (raw' & s' & [-> ->]%Huniq & Hc). congruence.
    + intros g [Hg| ->%list_elem_of_singleton]%elem_of_app o.
      * destruct (Hne g Hg) as [Hn _]. rewrite lookup_insert_ne by congruence. by apply Ho.
      * rewrite lookup_insert_eq. split; [intros [= <-]; eauto|].
        by intros (raw' & s' & [-> ->]%Huniq & ->).
    + intros i [w [[<- _]|[_ Hw']]%lookup_insert_Some]; [exists f; split; [set_solver|done]|].
      destruct (Hf i) as (g & Hg & <-); [by eexists|]. exists g. split; [set_solver|done].
    + intros k [o [[<- _]|[_ Hw']]%lookup_insert_Some]; [exists f; split; [set_solver|done]|].
      destruct (Hks k) as (g & Hg & <-); [by eexists|]. exists g. split; [set_solver|done].
  - destruct (f_required f); [done|]. injection E as <- <-.
    assert (∀ raw s, ¬ wins ls (f_key f) raw s) as Hno by (intros raw s Hw; apply winner_spec in Hw; congruence).
    split.
    + intros g [Hg| ->%list_elem_of_singleton]%elem_of_app w; [by apply Hv|].
      split; [intros Hw|naive_solver]. destruct (Hf (f_index f)) as (g & Hg & Eg); [by eexists|].
      by destruct (Hne g Hg).
    + intros g [Hg| ->%list_elem_of_singleton]%elem_of_app w; [by apply Ho|].
      split; [intros Hw|naive_solver]. destruct (Hks (f_key f)) as (g & Hg & Eg); [by eexists|].
      by destruct (Hne g Hg).
    + intros i Hi. destruct (Hf i Hi) as (g & Hg & <-). exists g. split; [set_solver|done].
    + intros k Hk. destruct (Hks k Hk) as (g & Hg & <-). exists g. split; [set_solver|done].
Qed.

(** ** Snapshots *)

Definition accepted (r : registry) (validators : gmap string FieldValidator) (vs : values)
    (origins : gmap string Origin) : Prop :=
  Forall (λ f, validate_field validators vs origins f = None) (r_fields r) ∧ validate_config vs = None.

(** The snapshot that layers determine. *)
Record snapshot (r : registry) (ls : layers) (path : string) (fileLoaded : bool)
    (validators : gmap string FieldValidator) (st : state) : Prop := {
  sn_resolved : resolved ls path (r_fields r) (st_values st) (st_origins st);
  sn_required : ∀ f, f ∈ r_fields r → f_required f = true → is_Some (st_origins st !! f_key f);
  sn_accepted : accepted r validators (st_values st) (st_origins st);
  sn_layers : st_layers st = cloneLayers ls;
  sn_present : st_present st = present_of ls;
  sn_path : st_path st = path;
  sn_fileLoaded : st_fileLoaded st = fileLoaded;
}.

Lemma resolved_empty ls path : resolved ls path [] ∅ ∅.
Proof.
  split; [set_solver|set_solver| |].
  - intros i. rewrite lookup_empty. by intros [].
  - intros k. rewrite lookup_empty. by intros [].
Qed.

Lemma resolved_unique ls path fs vs os vs' os' :
  resolved ls path fs vs os → resolved ls path fs vs' os' → vs = vs' ∧ os = os'.
Proof.
  intros [Hv Ho Hf Hk] [Hv' Ho' Hf' Hk']. split; apply map_eq.
  - intros i. apply option_eq. intros v. split; intros E.
    + destruct (Hf i) as (f & Hin & <-); [by eexists|]. by apply Hv', Hv.
    + destruct (Hf' i) as (f & Hin & <-); [by eexists|]. by apply Hv, Hv'.
  - intros k. apply option_eq. intros v. split; intros E.
    + destruct (Hk k) as (f & Hin & <-); [by eexists|]. by apply Ho', Ho.
    + destruct (Hk' k) as (f & Hin & <-); [by eexists|]. by apply Ho, Ho'.
Qed.

Lemma resolve_snapshot o r ls path loaded validators st : registry_ok o r →
  resolve r ls path loaded validators = inr st ↔
  Forall (resolvable ls) (r_fields r) ∧ snapshot r ls path loaded validators st.
Proof.
  intros [[Hk _ _] _ Hi _ _ _]. unfold resolve.
  destruct (resolve_fields ls path (r_fields r) (∅, ∅)) as [e|[vs os]] eqn:E.
  - split; [done|]. intros [Hall _]. apply (resolve_fields_success ls path _ (∅, ∅)) in Hall as (? & ?). congruence.
  - assert (Forall (resolvable ls) (r_fields r)) as Hall by (eapply resolve_fields_success; eauto).
    apply (resolve_fields_resolved ls path (r_fields r) []) in E; [|done..|apply resolved_empty]. cbn in E.
    assert (∀ f, f ∈ r_fields r → f_required f = true → is_Some (os !! f_key f)) as Hreq.
    { intros f Hf Hr. rewrite Forall_forall in Hall. specialize (Hall f Hf). unfold resolvable in Hall.
      destruct (winner _ _ _) as [[raw s]|] eqn:Ew; [|congruence]. apply winner_spec in Ew.
      eexists. apply (rs_origins _ _ _ _ _ E f Hf). eauto. }
    destruct (first_error _) as [e|] eqn:Ev; [|destruct (validate_config vs) as [e|] eqn:Ec].
    + split; [done|]. intros [_ [Hres _ [Hacc _] _ _ _ _]]. destruct (resolved_unique _ _ _ _ _ _ _ E Hres) as [-> ->].
      assert (first_error (map (validate_field validators (st_values st) (st_origins st)) (r_fields r)) = None); [|congruence].
      apply first_error_None. by apply Forall_fmap.
    + split; [done|]. intros [_ [Hres _ [_ Hacc] _ _ _ _]]. destruct (resolved_unique _ _ _ _ _ _ _ E Hres) as [-> ->].
      congruence.
    + apply first_error_None, Forall_fmap in Ev. split.
      * intros [= <-]. split; [done|]. by split.
      * intros [_ [Hres _ _ Hl Hp Hpa Hfl]]. destruct (resolved_unique _ _ _ _ _ _ _ E Hres) as [-> ->].
        destruct st; cbn in *; by subst.
Qed.

(** The layers a snapshot keeps determine it again. *)
Lemma layer_of_clone ls s : s ≠ SourceNone → layer_of (cloneLayers ls) s = layer_of ls s.
Proof. by destruct s. Qed.
End resolve_facts.

(** C20: Resolving succeeds with a snapshot exactly when every field that no layer
    has is optional, every other one can be decoded from the highest layer that
    has it (set, flag, environment, file, initial, default), and the validators
    accept; the snapshot has these values, with these layers as their sources,
    and nothing else. *)
Theorem resolve_spec `{Unicode} `{Numbers} `{Formats} `{Schema} t o r ls path loaded validators st :
  makeRegistry t o = inr r →
  resolve r ls path loaded validators = inr st ↔
    (∀ f, f ∈ r_fields r →
       (f_required f = false ∧ ∀ s, s ≠ SourceNone → layer_of ls s !! f_key f = None) ∨
       ∃ raw s v, wins ls (f_key f) raw s ∧ coerceWithSchema raw (f_typ f) (f_elements f) = inr v) ∧
    snapshot r ls path loaded validators st.
Proof.
  intros Hr%makeRegistry_ok. rewrite (resolve_snapshot o) by done. f_equiv. rewrite Forall_forall.
  assert (∀ f, resolvable ls f ↔
    (f_required f = false ∧ ∀ s, s ≠ SourceNone → layer_of ls s !! f_key f = None) ∨
    ∃ raw s v, wins ls (f_key f) raw s ∧ coerceWithSchema raw (f_typ f) (f_elements f) = inr v) as Hf; [|naive_solver].
  intros f. unfold resolvable. destruct (winner ls (f_key f) candidates) as [[raw s]|] eqn:Ew.
  - apply winner_spec in Ew as Hw. split.
    + intros [v Hv]. right. eauto.
    + intros [[_ Hn]|(raw' & s' & v & Hw' & Hv)].
      * rewrite (proj2 (winner_None _ _) Hn) in Ew. done.
      * apply winner_spec in Hw'. exists v. congruence.
  - pose proof (proj1 (winner_None _ _) Ew) as Hn. split; [intros Hq; left; by split|].
    intros [[Hq _]|(raw & s & v & Hw & _)]; [done|]. apply winner_spec in Hw. congruence.
Qed.
