(* ===== verification/ConfigFlowFacts.v ===== *)
(** * What the operations of a configuration keep

    A failed operation changes nothing, a snapshot stays the one its layers
    determine, [Set_] changes one field, and the buffer of diagnostics is
    bounded. *)
From S2P Require Import Prelude.
From S2P Require Import GoStrings.
From S2P Require Import Utf8.
From S2P Require Import Errors.
From S2P Require Errx.
From S2P Require Import ConfigTypes.
From S2P Require Import ConfigOptions.
From S2P Require Import ConfigRegistry.
From S2P Require Import ConfigFormats.
From S2P Require Import ConfigDecode.
From S2P Require Import ConfigResolve.
From S2P Require Import ConfigFile.
From S2P Require Import Config.
From S2P Require Import ConfigFormatsFacts.
From S2P Require Import ConfigRegistryFacts.
From S2P Require Import ConfigDecodeFacts.
#[local] Open Scope stdpp_scope.
#[local] Open Scope Z_scope.

(** ** Diagnostics *)

Definition bounded (b : logBuffer) : Prop := (length (lb_records b) ≤ maxLogRecords)%nat.

Lemma add_all (rs : list log_record) :
  foldl add empty_buffer rs =
    {| lb_records := drop (length rs - maxLogRecords) rs; lb_discarded := length rs - maxLogRecords |}.
Proof.
  induction rs as [|r rs IH] using rev_ind; [done|]. rewrite foldl_app, IH. cbn [foldl]. unfold add, maxLogRecords in *. cbn [lb_records lb_discarded].
  rewrite length_app, length_drop. cbn [length].
  destruct (Nat.eqb_spec (length rs - (length rs - 256)) 256) as [E|E].
  - replace (length rs + 1 - 256)%nat with (S (length rs - 256)) by lia. f_equal.
    rewrite drop_app_le by lia. rewrite <- (Nat.add_1_r (length rs - 256)), <- drop_drop.
    by destruct (drop _ rs).
  - assert (length rs < 256)%nat by lia.
    replace (length rs + 1 - 256)%nat with 0%nat by lia.
    by replace (length rs - 256)%nat with 0%nat by lia.
Qed.

Lemma add_bounded b r : bounded b → bounded (add b r).
Proof.
  unfold bounded, add, maxLogRecords. intros Hb. destruct (Nat.eqb_spec (length (lb_records b)) 256) as [E|E];
    cbn [lb_records]; rewrite length_app; cbn [length]; [|lia].
  destruct (lb_records b); cbn [length tail] in *; lia.
Qed.

(** ** Quiet steps *)

(** Nothing but the diagnostics and the calls of the system changes. *)
Definition quiet (w w' : world) : Prop :=
  w_cfg w' = with_logs (w_cfg w) (c_logs (w_cfg w')) ∧ (bounded (c_logs (w_cfg w)) → bounded (c_logs (w_cfg w'))).

#[global] Instance quiet_preorder : PreOrder quiet.
Proof.
  split.
  - intros w. split; [by destruct w as [[] ?]|done].
  - intros w1 w2 w3 [E1 H1] [E2 H2]. split; [|auto]. rewrite E2. by rewrite E1.
Qed.

Lemma quiet_log r w : quiet w (log r w).2.
Proof. split; [done|]. apply add_bounded. Qed.
Lemma quiet_io {A} (m : io A) w : quiet w (lift_io m w).2.
Proof. unfold lift_io. destruct (m (w_hist w)). split; [by destruct w as [[] ?]|done]. Qed.

Section flow.
Context `{ConfigHost} `{Unicode} `{Formats} `{Numbers} `{Schema}.

Lemma layer_of_make def initial file env flag set s : s ≠ SourceNone →
  layer_of (make_layers def initial file env flag set) s =
    match s with
    | SourceDefault => def | SourceInitial => initial | SourceFile => file | SourceEnv => env
    | SourceFlag => flag | SourceSet => set | SourceNone => ∅
    end.
Proof. by destruct s. Qed.

(** Resolving looks at the layers only one by one. *)
Lemma resolve_layers r ls ls' path loaded validators :
  (∀ s, s ≠ SourceNone → layer_of ls s = layer_of ls' s) →
  resolve r ls path loaded validators = resolve r ls' path loaded validators.
Proof.
  intros Hls. assert (∀ k, winner ls k candidates = winner ls' k candidates) as Hw by (intros k; cbn; by rewrite !Hls).
  assert (∀ fs acc, resolve_fields ls path fs acc = resolve_fields ls' path fs acc) as Hf.
  { induction fs as [|f fs IH]; intros acc; cbn; [done|]. unfold resolve_field. rewrite Hw. by repeat case_match. }
  unfold resolve. rewrite Hf. unfold present_of, cloneLayers. cbn. by rewrite !Hls.
Qed.

Lemma resolve_inr r ls path loaded validators st : resolve r ls path loaded validators = inr st →
  st_layers st = cloneLayers ls ∧ st_path st = path ∧ st_fileLoaded st = loaded.
Proof. unfold resolve. repeat (case_match; try done). by intros [= <-]. Qed.

(** The snapshot is what its own layers determine, and carries the overrides. *)
Definition consistent (c : Config) : Prop :=
  if c_loaded c then
    ∃ o r, opened c = inr (o, r) ∧ layer_of (st_layers (c_st c)) SourceSet = c_set c ∧
      resolve r (st_layers (c_st c)) (st_path (c_st c)) (st_fileLoaded (c_st c)) (o_validators o) = inr (c_st c)
  else c_st c = zero_state ∧ c_set c = ∅.

(** A snapshot is published. *)
Definition published (c c' : Config) (set : layer) : Prop :=
  c_opts c' = c_opts c ∧ c_loaded c' = true ∧ c_set c' = set ∧
  ∃ o r ls path loaded, opened c = inr (o, r) ∧ resolve r ls path loaded (o_validators o) = inr (c_st c') ∧
    layer_of ls SourceSet = set.

Lemma published_consistent c c' set : published c c' set → consistent c'.
Proof.
  intros (Ho & Hl & Hs & o & r & ls & path & loaded & Eo & Er & Els). unfold consistent. rewrite Hl.
  exists o, r. unfold opened in *. rewrite Ho. destruct (resolve_inr _ _ _ _ _ _ Er) as (-> & -> & ->).
  split; [done|]. split; [by rewrite layer_of_clone, Els, Hs|].
  rewrite <- Er. apply resolve_layers. intros s Hn. by apply layer_of_clone.
Qed.

Lemma quiet_consistent w w' : quiet w w' → consistent (w_cfg w) → consistent (w_cfg w').
Proof. intros [-> _]. done. Qed.

(** An operation fails and changes nothing, or publishes. *)
Definition op_result (set : Config → layer) (w : world) (err : option error) (w' : world) : Prop :=
  match err with
  | Some _ => quiet w w'
  | None => published (w_cfg w) (w_cfg w') (set (w_cfg w)) ∧ (bounded (c_logs (w_cfg w)) → bounded (c_logs (w_cfg w')))
  end.

Lemma log_run {A} r (k : unit → M A) w a w' : (log r ≫= k) w = (a, w') → k tt (log r w).2 = (a, w').
Proof. done. Qed.
Lemma io_run {A B} (m : io A) (k : A → M B) w b w' : (lift_io m ≫= k) w = (b, w') →
  ∃ w1, quiet w w1 ∧ k (m (w_hist w)).1 w1 = (b, w').
Proof.
  intros E. pose proof (quiet_io m w) as Hq. unfold mbind, stm_bind, lift_io in *.
  destruct (m (w_hist w)) as [a h]. eauto.
Qed.

Lemma ret_run {A B} (a : A) (k : A → M B) w b w' : (mret a ≫= k) w = (b, w') → k a w = (b, w').
Proof. done. Qed.

(** Once resolved, a snapshot is published. *)
Lemma publish_result w0 w r o ls path loaded st set msg err w' : quiet w0 w → opened (w_cfg w0) = inr (o, r) →
  resolve r ls path loaded (o_validators o) = inr st → layer_of ls SourceSet = set →
  (_ ← publish set st; _ ← debug msg []; mret (None : option error)) w = (err, w') →
  err = None ∧ published (w_cfg w0) (w_cfg w') set ∧ (bounded (c_logs (w_cfg w0)) → bounded (c_logs (w_cfg w'))).
Proof.
  intros [Eq Hb] Eo Er Els [= <- <-]. split; [done|]. split.
  - split; [cbn; by rewrite Eq|]. split; [done|]. split; [done|]. eauto 10.
  - intros Hw. cbn. apply add_bounded, Hb, Hw.
Qed.

(** A run that ended with an error. *)
Ltac quiet_end E := injection E as <- <-; cbn [op_result]; first [reflexivity|eassumption].

(** How a load got its layers. *)
Definition loads (c c' : Config) : Prop :=
  ∃ o r initial h1 path loaded flat h2 env flag, opened c = inr (o, r) ∧
    initial_layer r (o_initial o) ∅ = inr initial ∧ (loadFile o r h1).1 = inr (path, loaded, flat) ∧
    unknown_file_key r flat = None ∧ (external_layers (o_flags o) r h2).1 = inr (env, flag) ∧
    let ls := make_layers (default_layer r) initial (if loaded : bool then flat else ∅) env flag (c_set c) in
    resolve r ls path loaded (o_validators o) = inr (c_st c') ∧ published c c' (c_set c).

(** [log_step E Q]: one more diagnostic in the run [E]. *)
Ltac log_step E Q :=
  apply log_run in E;
  match type of E with context [log ?rec ?w1] =>
    let Q2 := fresh "Q" in pose proof (quiet_log rec w1) as Q2;
    first [apply (transitivity Q) in Q2; clear Q | idtac];
    revert E Q2; generalize (log rec w1).2; let w2 := fresh "w" in intros w2 E Q end.

Definition body_result (w : world) (err : option error) (w' : world) : Prop :=
  match err with
  | Some _ => quiet w w'
  | None => loads (w_cfg w) (w_cfg w') ∧ (bounded (c_logs (w_cfg w)) → bounded (c_logs (w_cfg w')))
  end.

Lemma Load_body_run w err w' : Load_body w = (err, w') → body_result w err w'.
Proof.
  unfold Load_body. intros E. apply bind_run in E as (c & w1 & [= <- <-] & E).
  assert (quiet w w) as Q by reflexivity.
  apply ret_run in E. destruct (Config_options _) as [e|o] eqn:Eo; [quiet_end E|].
  log_step E Q. apply ret_run in E. destruct (makeRegistry schema o) as [e|r] eqn:Er; [quiet_end E|].
  assert (opened (w_cfg w) = inr (o, r)) as Hop by (unfold opened; by rewrite Eo, Er).
  log_step E Q. apply ret_run in E. destruct (initial_layer r (o_initial o) ∅) as [e|initial] eqn:Ei; [quiet_end E|].
  apply io_run in E as (w3 & Q3 & E). apply (transitivity Q) in Q3. clear Q. rename Q3 into Q.
  destruct ((loadFile o r _).1) as [e|[[path loaded] flat]] eqn:El; [quiet_end E|].
  log_step E Q. apply ret_run in E. destruct (unknown_file_key r flat) as [e|] eqn:Eu; [quiet_end E|].
  apply io_run in E as (w5 & Q5 & E). apply (transitivity Q) in Q5. clear Q. rename Q5 into Q.
  destruct ((external_layers _ r _).1) as [e|[env flag]] eqn:Ee; [quiet_end E|].
  log_step E Q. apply ret_run in E. destruct (resolve r _ path loaded _) as [e|st] eqn:Es; [quiet_end E|].
  edestruct publish_result as (-> & Hp & Hb); [exact Q|exact Hop|exact Es| |exact E|].
  { by rewrite layer_of_make. }
  split; [|exact Hb]. injection E as E. subst w'. eexists o, r, initial, _, path, loaded, flat, _, env, flag.
  split; [exact Hop|]. split; [exact Ei|]. split; [exact El|]. split; [exact Eu|]. split; [exact Ee|].
  split; [exact Es|exact Hp].
Qed.

Lemma Load_run w err w' : Load w = (err, w') → body_result w err w'.
Proof.
  unfold Load. intros E. assert (quiet w w) as Q by reflexivity. log_step E Q.
  apply bind_run in E as (err1 & w2 & E1 & E). apply Load_body_run in E1. destruct err1 as [e|].
  - apply log_run in E. injection E as <- <-. cbn in E1 |- *. etransitivity; [exact Q|]. etransitivity; [exact E1|]. apply quiet_log.
  - apply ret_run in E. injection E as <- <-. destruct E1 as [Hp Hb], Q as [Eq Qb]. rewrite Eq in Hp. split; [exact Hp|auto].
Qed.

Lemma Load_result w err w' : Load w = (err, w') → op_result c_set w err w'.
Proof.
  intros E. apply Load_run in E. destruct err as [e|]; [done|]. destruct E as [Hl Hb]. split; [|done].
  unfold loads in Hl. naive_solver.
Qed.

Lemma Set_result key value w err w' : Set_ key value w = (err, w') →
  op_result (λ c, <[key := value]> (c_set c)) w err w'.
Proof.
  unfold Set_. intros E. apply bind_run in E as (c & w1 & [= <- <-] & E).
  destruct (c_loaded (w_cfg w)); [|quiet_end E]. cbn [negb] in E.
  apply ret_run in E. destruct (opened (w_cfg w)) as [e|[o r]] eqn:Eo; [quiet_end E|].
  destruct (negb _); [quiet_end E|].
  apply ret_run in E. destruct (resolve r _ _ _ _) as [e|st] eqn:Es; [quiet_end E|].
  injection E as <- <-. split; [|done]. split; [done|]. split; [done|]. split; [done|].
  eexists o, r, _, _, _. split; [done|]. split; [exact Es|]. unfold layer_of. by rewrite lookup_insert_eq.
Qed.

Lemma Validate_quiet w err w' : Validate w = (err, w') → w' = w.
Proof.
  unfold Validate. intros E. apply bind_run in E as (c & w1 & [= <- <-] & E).
  destruct (c_loaded (w_cfg w)); [|by injection E as <- <-]. cbn [negb] in E.
  apply ret_run in E. destruct (opened (w_cfg w)) as [e|[o r]]; by injection E as <- <-.
Qed.

Lemma Save_quiet w err w' : Save w = (err, w') → quiet w w'.
Proof.
  unfold Save. intros E. apply bind_run in E as (c & w1 & [= <- <-] & E).
  destruct (c_loaded (w_cfg w)); [|injection E as <- <-; reflexivity]. cbn [negb] in E.
  apply ret_run in E. destruct (opened (w_cfg w)) as [e|[o r]]; [injection E as <- <-; reflexivity|].
  pose proof (quiet_io (save_state (c_st (w_cfg w)) r) w) as Hq. by rewrite E in Hq.
Qed.

(** ** Sequences of operations *)

Inductive op := OpLoad | OpSet (key : string) (value : gov) | OpValidate | OpSave | OpFlush (logger : bool).

Definition run_op (o : op) (w : world) : world :=
  match o with
  | OpLoad => (Load w).2
  | OpSet key value => (Set_ key value w).2
  | OpValidate => (Validate w).2
  | OpSave => (Save w).2
  | OpFlush logger => (FlushLog logger w).2
  end.

(** What every operation keeps. *)
Definition well_kept (opts : list (option Option)) (c : Config) : Prop :=
  c_opts c = opts ∧ consistent c ∧ bounded (c_logs c).

Lemma quiet_kept opts w w' : quiet w w' → well_kept opts (w_cfg w) → well_kept opts (w_cfg w').
Proof.
  intros Hq (Ho & Hc & Hb). split; [|split; [by eapply quiet_consistent|by apply Hq]]. destruct Hq as [-> _]. done.
Qed.

Lemma op_result_kept opts set w err w' : op_result set w err w' → well_kept opts (w_cfg w) → well_kept opts (w_cfg w').
Proof.
  destruct err as [e|]; cbn; [by apply quiet_kept|]. intros [Hp Hb] (Ho & _ & Hbd).
  split; [by destruct Hp as [-> _]|]. split; [by eapply published_consistent|auto].
Qed.

Lemma run_op_kept opts o w : well_kept opts (w_cfg w) → well_kept opts (w_cfg (run_op o w)).
Proof.
  destruct o; cbn [run_op].
  - destruct (Load w) as [err w'] eqn:E. eapply op_result_kept. by apply Load_result.
  - destruct (Set_ key value w) as [err w'] eqn:E. eapply op_result_kept. by eapply Set_result.
  - destruct (Validate w) as [err w'] eqn:E. by apply Validate_quiet in E as ->.
  - destruct (Save w) as [err w'] eqn:E. eapply quiet_kept. by eapply Save_quiet.
  - unfold FlushLog, flush. intros (Ho & Hc & Hb). destruct logger; [|by destruct w as [[] ?]].
    split; [done|]. split; [done|]. unfold bounded, maxLogRecords. cbn. lia.
Qed.

(** A consistent snapshot validates. *)
Lemma consistent_validates c h : consistent c → c_loaded c = true →
  (Validate {| w_cfg := c; w_hist := h |}).1 = None.
Proof.
  unfold consistent. intros Hc Hl. rewrite Hl in Hc. destruct Hc as (o & r & Eo & _ & Er).
  unfold Validate, mbind, stm_bind, read_cfg. cbn [w_cfg]. rewrite Hl. cbn [negb]. rewrite Eo. cbn. by rewrite Er.
Qed.

Lemma new_kept opts : well_kept opts (New opts).
Proof. split; [done|]. split; [done|]. unfold bounded, maxLogRecords. cbn. lia. Qed.

Lemma run_ops_kept opts ops : ∀ w, well_kept opts (w_cfg w) → well_kept opts (w_cfg (foldl (flip run_op) w ops)).
Proof. induction ops as [|o ops IH]; intros w Hw; [done|]. cbn. by apply IH, run_op_kept. Qed.

(** C9: Whatever operations run in whatever order, and whatever the system
    answers, the published snapshot is exactly what its own layers determine and
    its set layer is the overrides made so far, so that [Validate] accepts it;
    before the first successful load it is empty; the diagnostics stay within
    256 records. *)
Theorem operations_consistent opts ops h :
  let c := w_cfg (foldl (flip run_op) {| w_cfg := New opts; w_hist := h |} ops) in
  consistent c ∧ (c_loaded c = true → ∀ h', (Validate {| w_cfg := c; w_hist := h' |}).1 = None) ∧
  (c_loaded c = false → Values c = ∅ ∧ Path c = "" ∧ ∀ key, Config_Origin c key = None) ∧
  (length (lb_records (c_logs c)) ≤ 256)%nat.
Proof.
  intros c. destruct (run_ops_kept opts ops {| w_cfg := New opts; w_hist := h |} (new_kept opts)) as (_ & Hc & Hb).
  fold c in Hc, Hb. split; [done|]. split; [intros; by apply consistent_validates|]. split; [|exact Hb].
  intros Hl. unfold consistent in Hc. rewrite Hl in Hc. destruct Hc as [Est _].
  unfold Values, Path, Config_Origin. by rewrite Est.
Qed.

(** What the methods that look can see. *)
Definition same_snapshot (c c' : Config) : Prop :=
  c_opts c' = c_opts c ∧ c_loaded c' = c_loaded c ∧ c_st c' = c_st c ∧ c_set c' = c_set c.

Lemma quiet_same w w' : quiet w w' → same_snapshot (w_cfg w) (w_cfg w').
Proof. intros [-> _]. done. Qed.

(** C33: A failed [Load] or [Set] leaves the snapshot and the overrides as they
    were, and [Validate] and [Save] always do. *)
Theorem failure_keeps_snapshot w w' :
  (∀ e, Load w = (Some e, w') → same_snapshot (w_cfg w) (w_cfg w')) ∧
  (∀ key value e, Set_ key value w = (Some e, w') → same_snapshot (w_cfg w) (w_cfg w')) ∧
  (∀ r, Validate w = (r, w') → same_snapshot (w_cfg w) (w_cfg w')) ∧
  (∀ r, Save w = (r, w') → same_snapshot (w_cfg w) (w_cfg w')).
Proof.
  split; [|split; [|split]].
  - intros e E. apply Load_result in E. by apply quiet_same.
  - intros key value e E. apply Set_result in E. by apply quiet_same.
  - intros r E. by apply Validate_quiet in E as ->.
  - intros r E. by eapply quiet_same, Save_quiet.
Qed.

(** ** One override *)

Lemma opened_registry c o r : opened c = inr (o, r) → registry_ok o r.
Proof.
  unfold opened. destruct (Config_options _) as [e|o']; [done|].
  destruct (makeRegistry schema o') as [e|r'] eqn:Er; [done|]. intros [= <- <-]. by eapply makeRegistry_ok.
Qed.

Lemma Set_run key value w w' : Set_ key value w = (None, w') → consistent (w_cfg w) →
  ∃ o r, opened (w_cfg w) = inr (o, r) ∧ registry_ok o r ∧ is_Some (r_byKey r !! key) ∧
    snapshot r (st_layers (c_st (w_cfg w))) (st_path (c_st (w_cfg w))) (st_fileLoaded (c_st (w_cfg w)))
      (o_validators o) (c_st (w_cfg w)) ∧
    snapshot r (<[SourceSet := <[key := value]> (c_set (w_cfg w))]> (cloneLayers (st_layers (c_st (w_cfg w)))))
      (st_path (c_st (w_cfg w))) (st_fileLoaded (c_st (w_cfg w))) (o_validators o) (c_st (w_cfg w')) ∧
    layer_of (st_layers (c_st (w_cfg w))) SourceSet = c_set (w_cfg w) ∧
    Forall (resolvable (<[SourceSet := <[key := value]> (c_set (w_cfg w))]> (cloneLayers (st_layers (c_st (w_cfg w))))))
      (r_fields r) ∧
    c_set (w_cfg w') = <[key := value]> (c_set (w_cfg w)) ∧ c_loaded (w_cfg w') = true.
Proof.
  unfold Set_. intros E Hc. apply bind_run in E as (c & w1 & [= <- <-] & E). unfold consistent in Hc.
  destruct (c_loaded (w_cfg w)); [|done]. cbn [negb] in E. destruct Hc as (o & r & Eo & Els & Er).
  apply ret_run in E. rewrite Eo in E. case_bool_decide as Hk; [|done]. cbn [negb] in E.
  apply ret_run in E. destruct (resolve r (<[_ := _]> _) _ _ _) as [e|st] eqn:Es; [done|]. injection E as <-.
  pose proof (opened_registry _ _ _ Eo) as Hr. exists o, r.
  apply (resolve_snapshot o) in Er as [_ Er]; [|done]. apply (resolve_snapshot o) in Es as [Hall Es]; [|done].
  done.
Qed.

(** Only the field of the key can have another winner. *)
Lemma wins_set ls key value set k v s : layer_of ls SourceSet = set →
  let ls' := <[SourceSet := <[key := value]> set]> (cloneLayers ls) in
  (k ≠ key → wins ls' k v s ↔ wins ls k v s) ∧ (k = key → wins ls' k v s ↔ v = value ∧ s = SourceSet).
Proof.
  intros Els ls'. assert (∀ s, layer_of ls' s = match s with SourceSet => <[key := value]> set | SourceNone => ∅ | _ => layer_of ls s end) as Hl.
  { intros s'. unfold ls', layer_of. destruct s'; [|done..|by rewrite lookup_insert_eq]. by rewrite lookup_insert_ne. }
  unfold wins. split.
  - intros Hk. assert (∀ s', s' ≠ SourceNone → layer_of ls' s' !! k = layer_of ls s' !! k) as Hsame.
    { intros s' Hs'. rewrite Hl. destruct s'; try done. by rewrite Els, lookup_insert_ne. }
    split; intros (Hs & Hv & Hhi); (split; [done|]); (split; [by rewrite ?Hsame, <- ?Hsame in * by done|]);
      intros s' Hr; specialize (Hhi s' Hr); destruct s'; try (cbn in Hr; destruct s; cbn in Hr; lia);
      by rewrite ?Hsame, <- ?Hsame in * by done.
  - intros ->. split.
    + intros (Hs & Hv & Hhi). destruct (decide (s = SourceSet)) as [->|Hne].
      * rewrite Hl, lookup_insert_eq in Hv. by injection Hv as <-.
      * specialize (Hhi SourceSet). rewrite Hl, lookup_insert_eq in Hhi. discriminate Hhi. destruct s; cbn; try done; lia.
    + intros [-> ->]. rewrite Hl, lookup_insert_eq. split; [done|]. split; [done|].
      intros s' Hr. destruct s'; cbn in Hr; lia.
Qed.

(** ** Layers of a load *)

Lemma default_layer_spec r f : NoDup (map f_key (r_fields r)) → f ∈ r_fields r →
  default_layer r !! f_key f = if f_hasDef f then Some (VString (f_def f)) else None.
Proof.
  unfold default_layer. intros Hd Hf.
  assert (∀ l (acc : layer), NoDup (map f_key l) → foldl (λ acc f, if f_hasDef f then <[f_key f := VString (f_def f)]> acc else acc) acc l !! f_key f =
    match list_find (λ g, f_key g = f_key f) l with
    | Some (_, g) => if f_hasDef g then Some (VString (f_def g)) else acc !! f_key f
    | None => acc !! f_key f
    end) as Hgo.
  { clear. induction l as [|g l IH]; intros acc; [done|]. intros [Hg Hd]%NoDup_cons. cbn [foldl list_find]. rewrite IH by done.
    case_decide as E.
    - destruct (list_find _ l) as [[i g']|] eqn:El.
      + apply list_find_Some in El as (Hi & E' & _). destruct Hg. rewrite E, <- E'.
        apply list_elem_of_fmap. exists g'. split; [done|]. by apply list_elem_of_lookup_2 in Hi.
      + destruct (f_hasDef g); [|done]. rewrite E. by rewrite lookup_insert_eq.
    - destruct (list_find _ l) as [[i g']|]; cbn; destruct (f_hasDef g); try done; by rewrite lookup_insert_ne. }
  rewrite Hgo by done. destruct (list_find _ _) as [[i g]|] eqn:El.
  - apply list_find_Some in El as (Hi & E & _). apply list_elem_of_lookup in Hf as (j & Hj).
    assert (i = j) as ->.
    { eapply (NoDup_lookup (map f_key (r_fields r))); [done| |]; rewrite list_lookup_fmap; [by rewrite Hi|rewrite Hj; cbn; by rewrite E]. }
    assert (g = f) as -> by congruence. by rewrite lookup_empty.
  - apply list_find_None in El. rewrite Forall_forall in El. by destruct (El f Hf).
Qed.

Lemma initial_layer_spec r l : NoDup (map fst l) → ∀ acc out, initial_layer r l acc = inr out →
  ∀ k, out !! k = match assoc l k with Some v => Some v | None => acc !! k end.
Proof.
  induction l as [|[k v] l IH]; intros Hd acc out; cbn [initial_layer]; [by intros [= <-]|].
  apply NoDup_cons in Hd as [Hk Hd]. case_bool_decide; [|done]. intros E k'. rewrite (IH Hd _ _ E). cbn.
  destruct (String.eqb_spec k k') as [->|Hne].
  - rewrite lookup_insert_eq. by rewrite (proj2 (assoc_None l k')).
  - by rewrite lookup_insert_ne.
Qed.

Lemma apply_options_initial opts : ∀ o o', NoDup (map fst (o_initial o)) → apply_options opts o = inr o' →
  NoDup (map fst (o_initial o')).
Proof.
  induction opts as [|[opt|] opts IH]; intros o o' Hd; cbn [apply_options]; [by intros [= <-]| |done].
  destruct (apply_option opt o) as [e|o1] eqn:E; [done|]. apply IH. clear IH. unfold apply_option in E.
  destruct o as [fi ce ep fs cs gs fl vs ini]. cbn in Hd.
  destruct opt as [path|name|pre|[src|]|name [fn|]|key value]; try done; repeat (case_match; try done); injection E as <-; cbn; try done.
  rewrite map_app. apply NoDup_app. split; [done|]. split; [|apply NoDup_singleton].
  intros k (kv & -> & Hkv)%list_elem_of_fmap Ek%list_elem_of_singleton. cbn in Ek. subst key.
  assert (existsb (λ v, String.eqb v.1 kv.1) ini = true); [|congruence].
  apply existsb_elem_of. exists kv. split; [done|]. apply String.eqb_refl.
Qed.

Lemma opened_initial c o r : opened c = inr (o, r) → NoDup (map fst (o_initial o)).
Proof.
  unfold opened, Config_options. destruct (apply_options _ _) as [e|o'] eqn:E; [done|].
  apply apply_options_initial in E; [|constructor]. repeat (case_match; try done). intros [= <- <-]. congruence.
Qed.

(** The entry of a field in the layer of the environment: what a lookup of its
    variable answered. *)
Definition env_entry (f : fieldMeta) (v : option gov) : Prop :=
  match v with
  | Some v => f_env f ≠ "" ∧ ∃ h s, cf_env h (f_env f) = Some s ∧ v = VString s
  | None => f_env f = "" ∨ ∃ h, cf_env h (f_env f) = None
  end.

(** The same for the flags: only a flag that was changed has an entry. *)
Definition flag_entry (flags : option FlagSource) (f : fieldMeta) (v : option gov) : Prop :=
  match v with
  | Some v => ∃ src h s, flags = Some src ∧ f_flag f ≠ "" ∧ src h (f_flag f) = (s, true, true) ∧ v = VString s
  | None => flags = None ∨ f_flag f = "" ∨ ∃ src h s, flags = Some src ∧ src h (f_flag f) = (s, false, true)
  end.

Lemma env_value_entry f h : env_entry f (VString <$> (env_value f h).1).
Proof.
  unfold env_value. destruct (String.eqb_spec (f_env f) "") as [E|E]; [by left|]. cbn.
  destruct (cf_env h (f_env f)) as [s|] eqn:Es; cbn; [|right; eauto]. eauto.
Qed.

Lemma flag_value_entry flags f h x : (flag_value flags f h).1 = inr x → flag_entry flags f (VString <$> x).
Proof.
  unfold flag_value. destruct flags as [src|]; [|intros [= <-]; by left].
  destruct (String.eqb_spec (f_flag f) "") as [E|E]; [intros [= <-]; right; by left|]. cbn.
  unfold perform, mbind, stm_bind, mret, stm_ret. destruct (src h (f_flag f)) as [[s changed] found] eqn:Es. destruct found; cbn; [|done].
  intros [= <-]. destruct changed; cbn; [eauto 10|]. right. right. eauto 10.
Qed.

(** Both layers after some fields. *)
Definition entries_of (flags : option FlagSource) (l : list fieldMeta) (s : layer * layer) : Prop :=
  (∀ f, f ∈ l → env_entry f (s.1 !! f_key f) ∧ flag_entry flags f (s.2 !! f_key f)) ∧
  ∀ k, is_Some (s.1 !! k) ∨ is_Some (s.2 !! k) → k ∈ map f_key l.

Lemma insert_text_lookup key v (l : layer) k : insert_text key v l !! k =
  if decide (k = key) then match v with Some s => Some (VString s) | None => l !! k end else l !! k.
Proof.
  destruct v as [s|]; cbn; case_decide; subst; [by rewrite lookup_insert_eq|by rewrite lookup_insert_ne|done..].
Qed.

Lemma entries_step flags l f s v x : f_key f ∉ map f_key l → entries_of flags l s →
  env_entry f (VString <$> v) → flag_entry flags f (VString <$> x) →
  entries_of flags (l ++ [f]) (insert_text (f_key f) v s.1, insert_text (f_key f) x s.2).
Proof.
  intros Hn [He Hk] Hv Hx.
  assert (s.1 !! f_key f = None ∧ s.2 !! f_key f = None) as [E1 E2].
  { split; apply eq_None_not_Some; intros Hs; apply Hn, Hk; auto. }
  split; cbn.
  - intros g [Hg| ->%list_elem_of_singleton]%elem_of_app; rewrite !insert_text_lookup; case_decide as E; try done.
    + destruct Hn. rewrite <- E. by apply (list_elem_of_fmap_2 f_key).
    + by apply He.
    + rewrite E1, E2. by destruct v, x.
  - intros k. rewrite !insert_text_lookup, map_app, elem_of_app. case_decide as E; [right; subst; left|left; by apply Hk].
Qed.

Lemma external_layers_spec flags r h env flag : NoDup (map f_key (r_fields r)) →
  (external_layers flags r h).1 = inr (env, flag) → entries_of flags (r_fields r) (env, flag).
Proof.
  intros Hd E. unfold external_layers in E. revert E.
  assert (∀ l done_ s h, r_fields r = done_ ++ l → entries_of flags done_ s → ∀ out,
    (for_each (λ f '(env, flag), v ← env_value f;
      let! x := flag_value flags f else e => mret (inl e) in
      mret (inr (insert_text (f_key f) v env, insert_text (f_key f) x flag))) l s h).1 = inr out →
    entries_of flags (r_fields r) out) as Hgo.
  { induction l as [|f l IH]; intros done_ [en fl] h0 Ef Hs out; cbn [for_each].
    { intros [= <-]. by rewrite Ef, app_nil_r. }
    unfold mbind, stm_bind.
    pose proof (env_value_entry f h0) as Hv. destruct (env_value f h0) as [v h1]. cbn in Hv.
    pose proof (flag_value_entry flags f h1) as Hx. destruct (flag_value flags f h1) as [[e|x] h2]; [done|]. cbn in Hx.
    intros Hout. cbn in Hout. eapply (IH (done_ ++ [f])); [by rewrite <- app_assoc| |exact Hout].
    apply (entries_step flags done_ f (en, fl)); [|done|done|by apply Hx].
    rewrite Ef, map_app in Hd. apply NoDup_app in Hd as (_ & Hd & _). intros Hin. apply (Hd _ Hin). left. }
  intros E. eapply (Hgo _ [] (∅, ∅)); [done| |exact E]. split; [set_solver|]. intros k. cbn. rewrite !lookup_empty.
  by intros [[]|[]].
Qed.

(** A file that was read. *)
Lemma loadFile_flat o r h path flat : (loadFile o r h).1 = inr (path, true, flat) →
  ∃ f h' data, formatForExtension (ToLower (GoPath.Ext path)) = Some f ∧ cf_read h' path = inr data ∧
    decode_file f r path data = inr flat.
Proof.
  unfold loadFile. intros E. destruct (selected_path o h) as [p h1] eqn:E1.
  unfold mbind, stm_bind in E. rewrite E1 in E. destruct (String.eqb p ""); [done|].
  destruct (ExpandEnv p h1) as [p2 h2]. destruct (under_home p2 h2) as [[e|p3] h3]; [done|].
  destruct (_ || _); [done|]. destruct (formatForExtension _) as [f|] eqn:Ef; [|done].
  unfold os_Lstat, os_ReadFile, perform in E. cbn in E.
  destruct (cf_lstat h3 _) as [e|]; [by case_bool_decide|]. cbn in E.
  destruct (cf_read _ _) as [e|data] eqn:Ed; [done|]. cbn in E.
  destruct (decode_file f r _ data) as [e|flat'] eqn:Edf; [done|]. injection E as <- <-. eauto 10.
Qed.

Lemma unknown_file_key_None r flat : unknown_file_key r flat = None → ∀ k, is_Some (flat !! k) → is_Some (r_byKey r !! k).
Proof.
  unfold unknown_file_key. intros E k [v Hv]. apply first_error_None, Forall_fmap in E. rewrite Forall_forall in E.
  assert ((k, v) ∈ map_to_list flat) as Hin by (by apply elem_of_map_to_list).
  apply E in Hin. cbn in Hin. by case_bool_decide.
Qed.

(** C10: A successful [Load] publishes the snapshot of six layers: the default
    tags; the initial values; the file, if it was found, read, decoded without
    unknown keys; the variables that the environment answered for; the flags
    that were changed; and the overrides, which it keeps. *)
Theorem Load_spec w w' : Load w = (None, w') →
  ∃ o r initial file env flag path loaded, opened (w_cfg w) = inr (o, r) ∧
    (∀ f, f ∈ r_fields r → default_layer r !! f_key f = if f_hasDef f then Some (VString (f_def f)) else None) ∧
    (∀ k, initial !! k = assoc (o_initial o) k) ∧
    (if loaded : bool then ∃ f h data, formatForExtension (ToLower (GoPath.Ext path)) = Some f ∧
       cf_read h path = inr data ∧ decode_file f r path data = inr file else file = ∅) ∧
    (∀ k, is_Some (file !! k) → is_Some (r_byKey r !! k)) ∧
    (∀ f, f ∈ r_fields r → env_entry f (env !! f_key f) ∧ flag_entry (o_flags o) f (flag !! f_key f)) ∧
    snapshot r (make_layers (default_layer r) initial file env flag (c_set (w_cfg w))) path loaded
      (o_validators o) (c_st (w_cfg w')) ∧
    c_loaded (w_cfg w') = true ∧ c_set (w_cfg w') = c_set (w_cfg w).
Proof.
  intros E. apply Load_run in E as [(o & r & initial & h1 & path & loaded & flat & h2 & env & flag & Eo & Ei & El & Eu & Ee & Er & Hp) _].
  pose proof (opened_registry _ _ _ Eo) as Hr. pose proof Hr as [[Hk _ _] _ _ _ _ _].
  exists o, r, initial, (if loaded then flat else ∅), env, flag, path, loaded. split; [done|].
  split; [intros f Hf; by apply default_layer_spec|]. split.
  { intros k. rewrite (initial_layer_spec r (o_initial o)) with (acc := ∅) (out := initial); [|by eapply opened_initial|done].
    rewrite lookup_empty. by destruct (assoc _ k). }
  split; [destruct loaded; [by eapply loadFile_flat|done]|]. split.
  { intros k. destruct loaded; [by apply unknown_file_key_None|]. rewrite lookup_empty. by intros []. }
  split; [by eapply external_layers_spec|]. split; [by apply (resolve_snapshot o) in Er as [_ ?]|].
  by destruct Hp as (_ & ? & ? & _).
Qed.

(** C19: A successful [Set] on a loaded configuration decodes the value for its
    field, whose source becomes the set layer, and changes no other field, nor
    the path; the override stays for later loads. *)
Theorem Set_spec key value w w' : consistent (w_cfg w) → Set_ key value w = (None, w') →
  ∃ o r f v, opened (w_cfg w) = inr (o, r) ∧ f ∈ r_fields r ∧ f_key f = key ∧
    coerceWithSchema value (f_typ f) (f_elements f) = inr v ∧
    Values (w_cfg w') !! f_index f = Some v ∧
    Config_Origin (w_cfg w') key = Some {| o_Source := SourceSet; o_Detail := "" |} ∧
    (∀ g, g ∈ r_fields r → f_key g ≠ key →
      Values (w_cfg w') !! f_index g = Values (w_cfg w) !! f_index g ∧
      Config_Origin (w_cfg w') (f_key g) = Config_Origin (w_cfg w) (f_key g)) ∧
    Path (w_cfg w') = Path (w_cfg w) ∧ c_set (w_cfg w') = <[key := value]> (c_set (w_cfg w)).
Proof.
  intros Hc E. apply Set_run in E as (o & r & Eo & [[Hk Hb _] _ _ _ _ _] & [f Hbf] & S1 & S2 & Els & Hall & Eset & El); [|done].
  apply Hb in Hbf as [Hf <-].
  destruct S1 as [[Rv Ro _ _] _ _ _ _ P1 _], S2 as [[Rv' Ro' _ _] _ _ _ _ P2 _].
  destruct (wins_set (st_layers (c_st (w_cfg w))) (f_key f) value (c_set (w_cfg w)) (f_key f) value SourceSet Els) as [_ Hw].
  assert (Hwin := proj2 (Hw eq_refl) (conj eq_refl eq_refl)). clear Hw.
  rewrite Forall_forall in Hall. specialize (Hall f Hf). unfold resolvable in Hall.
  rewrite (proj2 (winner_spec _ _ _ _) Hwin) in Hall. destruct Hall as [v Hv].
  exists o, r, f, v. split; [done|]. split; [done|]. split; [done|]. split; [done|].
  split; [apply (Rv' f Hf); eauto|]. split; [apply (Ro' f Hf); eauto|]. split; [|split; [unfold Path; congruence|done]].
  intros g Hg Hne.
  assert (∀ raw s, wins (<[SourceSet := <[f_key f := value]> (c_set (w_cfg w))]> (cloneLayers (st_layers (c_st (w_cfg w)))))
    (f_key g) raw s ↔ wins (st_layers (c_st (w_cfg w))) (f_key g) raw s) as Hsame.
  { intros raw s. by apply wins_set. }
  unfold Values, Config_Origin. split; apply option_eq; intros x.
  - rewrite (Rv' g Hg), (Rv g Hg). by setoid_rewrite Hsame.
  - rewrite (Ro' g Hg), (Ro g Hg). by setoid_rewrite Hsame.
Qed.
End flow.
