(* ===== verification/ConfigSaveFacts.v ===== *)
(** * Reading back what was saved

    A document that [Save] makes of a snapshot, written and read as JSON, holds
    the saved fields and nothing else, each with the value it had. *)
From stdpp Require Import pretty.
From S2P Require Import Prelude.
From S2P Require Import GoStrings.
From S2P Require Import GoPath.
From S2P Require Import Utf8.
From S2P Require Import Errors.
From S2P Require Errx.
From S2P Require Import ConfigTypes.
From S2P Require Import ConfigOptions.
From S2P Require Import ConfigRegistry.
From S2P Require Import ConfigFormats.
From S2P Require Import ConfigDecode.
From S2P Require Import ConfigResolve.
From S2P Require Import ConfigFile.
From S2P Require Import ConfigFormatsFacts.
From S2P Require Import ConfigRegistryFacts.
From S2P Require Import ConfigDecodeFacts.
From Stdlib Require Import Ascii.
#[local] Open Scope stdpp_scope.
#[local] Open Scope Z_scope.

(** ** What JSON makes of a value *)

Definition entry_le (a b : string * gov) : Prop := String.le a.1 b.1.
#[global] Instance entry_le_dec a b : Decision (entry_le a b).
Proof. unfold entry_le. apply _. Defined.
Definition sort_entries (m : document) : document := merge_sort entry_le m.

(** Text that is valid UTF-8. *)
Definition utf8 (s : string) : Prop := encode (runes s) = s.

(** The values that [json.MarshalIndent] can write without change. *)
Fixpoint jsonable (v : gov) : Prop :=
  match v with
  | VNil | VBool _ | VInt _ | VInt64 _ | VUint _ | VUint64 _ => True
  | VString s => utf8 s
  | VFloat b => uint64_ok b ∧ finite b = true
  | VStrings l => Forall utf8 (default [] l)
  | VList (Some l) => foldr (λ x P, jsonable x ∧ P) True l
  | VList None => True
  | VMap m => NoDup (map fst m) ∧ Forall utf8 (map fst m) ∧ foldr (λ kv P, jsonable kv.2 ∧ P) True m
  | _ => False
  end.

Section view.
Variable json_float : Z → string.

(** What is read for what was written: numbers as their text, members by name,
    [null] for a nil slice. *)
Fixpoint json_view (v : gov) : gov :=
  match v with
  | VInt z | VInt64 z | VUint z | VUint64 z => VNumber (Itoa z)
  | VFloat b => VNumber (json_float b)
  | VStrings (Some l) => VList (Some (map VString l))
  | VStrings None | VList None => VNil
  | VList (Some l) => VList (Some (map json_view l))
  | VMap m => VMap (sort_entries (map (λ kv, (kv.1, json_view kv.2)) m))
  | v => v
  end.
End view.

(** [encoding/json] on documents: what it writes has the tokens of what it was
    given, and a number is written so that it is read as it was. *)
Class JSONFileLaws `{Formats} `{Numbers} := {
  json_float : Z → string;
  json_float_read_back : ∀ b, uint64_ok b → finite b = true → ParseFloat (json_float b) = inr b;
  duration_utf8 : ∀ z, utf8 (Duration_String z);
  json_marshal_tokens : ∀ root data, jsonable (VMap root) → json_marshal root = inr data →
    json_tokens (data +:+ newline) =
      {| s_tokens := tokens_of (json_view json_float (VMap root)); s_end := None |};
}.

Lemma sort_entries_perm m : sort_entries m ≡ₚ m.
Proof. apply merge_sort_Permutation. Qed.

Lemma view_keys jf (m : document) : map fst (map (λ kv, (kv.1, json_view jf kv.2)) m) = map fst m.
Proof. rewrite map_map. done. Qed.

Lemma view_json jf v : jsonable v → json_value (json_view jf v).
Proof.
  induction v as [l IH|m IH|v Hl] using gov_ind'; intros Hj.
  - cbn in Hj. rewrite foldr_and in Hj. cbn [json_view]. apply json_list, Forall_fmap. rewrite !Forall_forall in *. intros x Hx. cbn. auto.
  - cbn in Hj. destruct Hj as (Hd & _ & Hj). rewrite (foldr_and (λ kv : string * gov, jsonable kv.2)) in Hj.
    cbn [json_view]. apply json_map. split.
    + rewrite (fmap_Permutation fst _ _ (sort_entries_perm _)). change (fst <$> ?x) with (map fst x). by rewrite view_keys.
    + rewrite sort_entries_perm. apply Forall_fmap. rewrite !Forall_forall in *. intros kv Hkv. cbn. auto.
  - destruct v as [| | | | | | | | | |[l|]|[l|]| | | | |]; try done. cbn. rewrite foldr_and. apply Forall_fmap.
    apply Forall_forall. done.
Qed.

Section reload.
Context `{Unicode} `{NumbersLaws} `{Formats} `{!JSONFileLaws}.

Abbreviation view := (json_view json_float).

(** ** Fields *)

Lemma ParseUint_Itoa z : uint64_ok z → ParseUint (Itoa z) = inr z.
Proof.
  intros [H0' H1']. unfold ParseUint, Itoa. destruct z as [|p|p]; [done| |lia].
  change (pretty (Z.pos p)) with (pretty (N.pos p)).
  destruct (String.eqb_spec (pretty (N.pos p)) "") as [E|_].
  { pose proof (digits_pretty_N (N.pos p)) as Hd. rewrite E in Hd. done. }
  rewrite digits_pretty_N. cbn [Z.of_N]. by destruct (Z.leb_spec (Z.pos p) max_uint64); [|lia].
Qed.

(** Text of a value is valid, and numbers are finite. *)
Definition writable_scalar (v : gov) : Prop :=
  match v with VString s => utf8 s | _ => finite_value v end.

Lemma scalar_read_back b x : typed_leaf (Basic b) x → writable_scalar x →
  coerce (view (duration_text x)) (Basic b) = inr x ∧ jsonable (duration_text x).
Proof.
  intros [Ht Hs] Hw. split; [|destruct b, x; try done; apply duration_utf8].
  destruct b, x; try done; unfold coerce; cbn [json_view duration_text has_type same_type is_string_type from_text]; cbn in Hs, Hw.
  - by rewrite Atoi_Itoa.
  - by rewrite Atoi_Itoa.
  - by rewrite ParseUint_Itoa.
  - by rewrite ParseUint_Itoa.
  - by rewrite json_float_read_back, Hw.
  - by rewrite duration_read_back.
Qed.

(** What can be saved so that it is read back: text is valid, numbers are
    finite, and a slice is not nil. *)
Definition writable (v : gov) : Prop :=
  match v with
  | VStrings l => ∃ l', l = Some l' ∧ Forall utf8 l'
  | VStructs _ _ l => ∃ rows, l = Some rows ∧ Forall (Forall writable_scalar) rows
  | _ => writable_scalar v
  end.

Lemma all_strings_map l : all_strings (map VString l) = Some l.
Proof. induction l as [|x l IH]; cbn; [done|]. by rewrite IH. Qed.

Lemma set_members_total es object : (∀ k x, (k, x) ∈ object → ∃ f, find_element es k = Some f ∧ ∃ v, coerce x (ef_typ f) = inr v) →
  ∀ acc, ∃ out, set_members es object acc = inr out.
Proof.
  induction object as [|[k x] object IH]; intros Hall acc; cbn; [eauto|].
  destruct (Hall k x) as (f & -> & v & ->); [left|]. apply IH. intros. apply Hall. by right.
Qed.

(** The entries of an encoded element. *)
Definition element_entries (es : elementSchema) (row : list gov) : document :=
  map (λ f, (ef_name f, view (duration_text (default VNil (row !! ef_index f))))) (es_fields es).

Lemma element_entries_names es row : map fst (element_entries es row) = map ef_name (es_fields es).
Proof. unfold element_entries. by rewrite map_map. Qed.

Lemma element_read_back es row object : elements_ok (es_fields es) → row_typed es row → Forall writable_scalar row →
  object ≡ₚ element_entries es row → coerceStructuredElement es object = inr row.
Proof.
  intros Hes Hrow Hw Hp.
  assert (∀ i f x, es_fields es !! i = Some f → (ef_name f, x) ∈ object →
    ∃ v, row !! i = Some v ∧ coerce x (ef_typ f) = inr v) as Hmem.
  { intros i f x Hi Hx. rewrite Hp in Hx. apply list_elem_of_fmap in Hx as (g & [= En ->] & (j & Hj)%list_elem_of_lookup).
    destruct Hes as [Hd Hok]. assert (i = j) as ->.
    { eapply (NoDup_lookup (map ef_name (es_fields es))); [done| |]; rewrite list_lookup_fmap; [by rewrite Hi|rewrite Hj]. cbn. by rewrite En. }
    assert (g = f) as -> by congruence. destruct (Hok j f Hi) as (Ej & (b & Eb) & _).
    destruct (Forall2_lookup_l _ _ _ _ _ Hrow Hi) as (v & Hv & Ht). exists v. split; [done|].
    rewrite Ej, Hv. cbn. rewrite Eb in *. apply scalar_read_back; [done|]. rewrite Forall_forall in Hw. apply Hw.
    by apply list_elem_of_lookup_2 in Hv. }
  assert (∀ k, k ∈ map fst object ↔ k ∈ map ef_name (es_fields es)) as Hnames.
  { intros k. rewrite <- (element_entries_names es row). change (map fst ?x) with (fst <$> x). by rewrite Hp. }
  unfold coerceStructuredElement.
  destruct (set_members_total es object) with (acc := map (λ f, zeroValue (ef_typ f)) (es_fields es)) as (out & E).
  { intros k x Hx. assert (k ∈ map ef_name (es_fields es)) as (f & -> & (i & Hi)%list_elem_of_lookup)%list_elem_of_fmap.
    { apply Hnames. by apply (list_elem_of_fmap_2 fst) in Hx. }
    exists f. split; [by eapply find_element_name; [apply Hes|]|].
    destruct (Hmem i f x Hi Hx) as (v & _ & Hc). eauto. }
  rewrite E. apply set_members_spec in E as [Hl Hi]; [|done|by rewrite length_map]. rewrite length_map in Hl.
  destruct (list_find _ (es_fields es)) as [[i f]|] eqn:Ef.
  { apply list_find_Some in Ef as (Hf & Hn & _). apply assoc_None in Hn. exfalso. apply Hn, Hnames.
    apply list_elem_of_fmap. exists f. split; [done|]. by apply list_elem_of_lookup_2 in Hf. }
  f_equal. apply list_eq_same_length with (n := length (es_fields es)); [by symmetry; eapply Forall2_length|done|].
  intros i v w _ Hv Hw'. destruct (lookup_lt_is_Some_2 (es_fields es) i) as (f & Hf); [apply lookup_lt_Some in Hv; lia|].
  destruct (Hi i f Hf) as [(x & u & Hx & Hc & Hu)|[Hn _]].
  - destruct (Hmem i f x Hf Hx) as (v' & Hv' & Hc'). congruence.
  - exfalso. apply Hn, Hnames. apply list_elem_of_fmap. exists f. split; [done|]. by apply list_elem_of_lookup_2 in Hf.
Qed.

Lemma view_element es row : view (encode_element es row) = VMap (sort_entries (element_entries es row)).
Proof. unfold encode_element, element_entries. cbn. by rewrite map_map. Qed.

Lemma rows_read_back es rows : schema_ok es → Forall (row_typed es) rows → Forall (Forall writable_scalar) rows → ∀ i,
  coerce_elements es i (map view (map (encode_element es) rows)) = inr rows.
Proof.
  intros [_ Hes] Ht Hw. induction rows as [|row rows IH]; intros i; cbn [map coerce_elements]; [done|].
  apply Forall_cons in Ht as [Hr Ht], Hw as [Hwr Hw]. rewrite view_element. cbn [structuredObject].
  rewrite (element_read_back es row) by (done || apply sort_entries_perm). by rewrite IH.
Qed.

(** A field is decoded from what was written for it. *)
Lemma field_read_back f v : typ_ok (f_typ f) (f_elements f) → typed (f_typ f) (f_elements f) v → writable v →
  coerceWithSchema (view (encode_value f v)) (f_typ f) (f_elements f) = inr v.
Proof.
  unfold encode_value. destruct (f_elements f) as [es|]; intros Hok Ht Hw.
  - destruct Ht as (l & -> & Hrows), Hok as [Hes (s & fields & Et)]. destruct Hw as (rows & -> & Hw). cbn in Hrows.
    rewrite (coerce_slice _ _ _ _ _ _ Et). cbn -[map]. unfold coerce_items. cbn [items_of]. by rewrite rows_read_back.
  - rewrite typ_ok_leaf by done. destruct Ht as [Ht Hfin]. cbn in Hok.
    destruct (f_typ f) as [b| |[] [[]| | |]|]; try done.
    + assert (writable_scalar v) as Hws by (destruct Ht as [Hty _]; by destruct v, b).
      destruct (scalar_read_back b v Ht Hws) as [E _]. destruct Ht as [Hty _]. destruct b; try done; by destruct v.
    + destruct Ht as [Hty _]. destruct v; try done. destruct Hw as (l' & -> & _). cbn. by rewrite all_strings_map.
Qed.

Lemma element_jsonable es row : elements_ok (es_fields es) → Forall utf8 (map ef_name (es_fields es)) →
  row_typed es row → Forall writable_scalar row → jsonable (encode_element es row).
Proof.
  intros [Hd Hok] Hu Hrow Hw. unfold encode_element. cbn [jsonable].
  rewrite (foldr_and (λ kv : string * gov, jsonable kv.2)), map_map. cbn.
  split; [done|]. split; [done|]. apply Forall_fmap, Forall_lookup. intros i f Hf. cbn.
  destruct (Hok i f Hf) as (-> & (b & Eb) & _). destruct (Forall2_lookup_l _ _ _ _ _ Hrow Hf) as (v & Hv & Ht).
  rewrite Hv. cbn. rewrite Eb in Ht. rewrite Forall_forall in Hw.
  apply (scalar_read_back b); [done|]. apply Hw. by apply list_elem_of_lookup_2 in Hv.
Qed.

Definition names_utf8 (f : fieldMeta) : Prop :=
  Forall utf8 (Split (f_key f) ".") ∧
  match f_elements f with Some es => Forall utf8 (map ef_name (es_fields es)) | None => True end.

Lemma field_jsonable f v : typ_ok (f_typ f) (f_elements f) → typed (f_typ f) (f_elements f) v → writable v →
  names_utf8 f → jsonable (encode_value f v) ∧ is_leaf (encode_value f v).
Proof.
  unfold encode_value, names_utf8. destruct (f_elements f) as [es|]; intros Hok Ht Hw [_ Hu].
  - destruct Ht as (l & -> & Hrows), Hok as [[_ Hes] _]. destruct Hw as (rows & -> & Hw). cbn -[map].
    split; [|done]. rewrite foldr_and. apply Forall_fmap, Forall_forall. intros row Hrow.
    rewrite Forall_forall in Hrows, Hw. apply element_jsonable; auto.
  - destruct Ht as [Ht Hfin]. cbn in Hok. destruct (f_typ f) as [b| |[] [[]| | |]|]; try done.
    + assert (writable_scalar v) as Hws by (destruct Ht as [Hty _]; by destruct v, b).
      destruct (scalar_read_back b v Ht Hws) as [_ E]. destruct Ht as [Hty _]. destruct b; by destruct v.
    + destruct Ht as [Hty _]. destruct v; try done. by destruct Hw as (l' & -> & Hl).
Qed.

(** ** Documents *)

Lemma view_leaf v : is_leaf v → is_leaf (view v).
Proof. by destruct v as [| | | | | | | | | |[]|[]| | | | |]. Qed.

Lemma view_leaves v : ∀ p w, leaf (view v) p w ↔ ∃ u, leaf v p u ∧ w = view u.
Proof.
  assert (∀ v, is_leaf v → ∀ p w, leaf (view v) p w ↔ ∃ u, leaf v p u ∧ w = view u) as Hbase.
  { intros u Hu p w. pose proof (view_leaf u Hu) as Hv. split.
    - intros Hl. assert (p = [] ∧ w = view u) as [-> ->]; [|exists u; by split; [constructor|]].
      inversion Hl; subst; [done|]. match goal with E : VMap _ = view u |- _ => rewrite <- E in Hv end. done.
    - intros (u' & Hl & ->). inversion Hl; subst; [by constructor|done]. }
  induction v as [l IH|m IH|v Hl] using gov_ind'; [by apply Hbase| |].
  - intros p w. cbn [json_view]. rewrite Forall_forall in IH. split.
    + intros (k & v & q & -> & Hin & Hq)%leaf_map_inv. rewrite sort_entries_perm in Hin.
      apply list_elem_of_fmap in Hin as ([k' v'] & [= -> ->] & Hin). apply (IH _ Hin) in Hq as (u & Hu & ->).
      exists u. split; [by eapply leaf_below|done].
    + intros (u & (k & v & q & -> & Hin & Hq)%leaf_map_inv & ->). apply (leaf_below _ k (view v)).
      * rewrite sort_entries_perm. apply list_elem_of_fmap. by exists (k, v).
      * apply (IH _ Hin). eauto.
  - destruct v as [| | | | | | | | | |[]|[]| | | | |]; try done; try by apply Hbase.
    intros p w. cbn [json_view]. split; [intros Hw|intros (u & Hu & _)]; inversion Hw || inversion Hu; done.
Qed.

Lemma view_entries_ok m : NoDup (map fst m) → Forall (λ kv : string * gov, key_ok kv.1 ∧ tree kv.2) m →
  Forall (λ kv : string * gov, tree kv.2 → tree (view kv.2)) m →
  tree_doc (sort_entries (map (λ kv, (kv.1, view kv.2)) m)).
Proof.
  intros Hd Ha Hi. split.
  - rewrite (fmap_Permutation fst _ _ (sort_entries_perm _)). change (fst <$> ?x) with (map fst x). by rewrite view_keys.
  - rewrite sort_entries_perm. apply Forall_fmap. rewrite !Forall_forall in *. intros kv Hkv. cbn.
    destruct (Ha _ Hkv). split; auto.
Qed.

Lemma view_tree v : tree v → tree (view v).
Proof.
  induction v as [l IH|m IH|v Hl] using gov_ind'; intros Ht.
  - by constructor.
  - apply tree_map_inv in Ht as [Hne [Hd Ha]]. destruct (view_entries_ok m Hd Ha IH) as [Hd' Ha'].
    cbn [json_view]. constructor; [|done|done]. intros E. apply Hne.
    pose proof (sort_entries_perm (map (λ kv, (kv.1, view kv.2)) m)) as Hp. rewrite E in Hp.
    apply Permutation_nil in Hp. by destruct m.
  - inversion Ht; subst; [|done]. constructor. by apply view_leaf.
Qed.

Lemma tree_jsonable v : tree v → (∀ p u, leaf v p u → jsonable u ∧ Forall utf8 p) → jsonable v.
Proof.
  induction v as [l IH|m IH|v Hl] using gov_ind'; intros Ht Hj.
  - apply (Hj []). by constructor.
  - apply tree_map_inv in Ht as [_ [Hd Ha]]. cbn [jsonable]. rewrite (foldr_and (λ kv : string * gov, jsonable kv.2)).
    rewrite Forall_forall in Ha, IH. split; [done|]. split; [apply Forall_fmap|]; apply Forall_forall; intros [k v] Hin; cbn.
    + destruct (Ha _ Hin) as [_ Hv]. destruct (tree_has_leaf v Hv) as (p & u & Hu).
      destruct (Hj (k :: p) u) as [_ Hp]; [by eapply leaf_below|]. by apply Forall_cons in Hp as [? _].
    + destruct (Ha _ Hin) as [_ Hv]. apply (IH _ Hin Hv). intros p u Hu.
      destruct (Hj (k :: p) u) as [? Hp]; [by eapply leaf_below|]. by apply Forall_cons in Hp as [_ ?].
  - inversion Ht; subst; [|done]. apply (Hj []). by constructor.
Qed.

Lemma doc_jsonable m : tree_doc m → (∀ p u, leaf (VMap m) p u → jsonable u ∧ Forall utf8 p) → jsonable (VMap m).
Proof.
  intros Hm Hj. destruct m as [|kv m]; [by repeat constructor|]. apply tree_jsonable; [|done].
  destruct Hm. by constructor.
Qed.

(** ** What is saved *)

Definition key_path (f : fieldMeta) : list string := Split (f_key f) ".".

Lemma key_path_ok o f : field_ok o f → key_path f ≠ [] ∧ Forall key_ok (key_path f) ∧ Join (key_path f) "." = f_key f.
Proof.
  intros [(path & Hne & Hp & E) _ _ _]. unfold key_path. rewrite E, Split_Join; [done|done|].
  eapply Forall_impl; [exact Hp|]. by intros x [].
Qed.

Definition saved_fields (st : state) (fs : list fieldMeta) : list fieldMeta := filter (λ f, saved st f = true) fs.
Definition saved_items (st : state) (fs : list fieldMeta) : list (list string * gov) :=
  map (λ f, (key_path f, encode_value f (valueAt (st_values st) f))) (saved_fields st fs).

Lemma save_root_items st fs :
  save_root st fs = foldl (λ root pw, putNested root pw.1 pw.2) [] (saved_items st fs).
Proof.
  unfold save_root, saved_items, saved_fields. generalize (@nil (string * gov)).
  induction (filter _ fs) as [|f l IH]; intros root; cbn; [done|]. by rewrite IH.
Qed.

Definition no_namespaces (fs : list fieldMeta) : Prop :=
  ∀ f g, f ∈ fs → g ∈ fs → HasPrefix (f_key g) (f_key f +:+ ".") = false.

Lemma path_prefix_key o f g : field_ok o f → field_ok o g → key_path f `prefix_of` key_path g →
  f_key f = f_key g ∨ HasPrefix (f_key g) (f_key f +:+ ".") = true.
Proof.
  intros (Nf & _ & Ef)%key_path_ok (Ng & _ & Eg)%key_path_ok [rest E].
  rewrite <- Ef, <- Eg, E. destruct rest as [|k rest]; [left; by rewrite app_nil_r|right].
  rewrite Join_app by done. apply HasPrefix_spec. exists (Join (k :: rest) "."). by rewrite sapp_assoc.
Qed.

Lemma NoDup_map_filter {A B} (h : A → B) (P : A → Prop) `{∀ x, Decision (P x)} l :
  NoDup (map h l) → NoDup (map h (filter P l)).
Proof.
  induction l as [|x l IH]; [done|]. intros [Hx Hd]%NoDup_cons. rewrite filter_cons. case_decide; [|auto].
  apply NoDup_cons. split; [|auto]. intros (y & E & Hy)%list_elem_of_fmap. apply Hx.
  apply list_elem_of_fmap. exists y. split; [done|]. by apply list_elem_of_filter in Hy as [_ ?].
Qed.

Lemma saved_prefix_free o st fs : Forall (field_ok o) fs → NoDup (map f_key fs) → no_namespaces fs →
  prefix_free (map fst (saved_items st fs)).
Proof.
  intros Hok Hd Hns i j p q Hi Hj Hpre. unfold saved_items in Hi, Hj. rewrite map_map in Hi, Hj.
  apply list_lookup_fmap_Some in Hi as (f & -> & Hf), Hj as (g & -> & Hg). cbn in Hpre.
  pose proof (list_elem_of_lookup_2 _ _ _ Hf) as [_ Hfin]%list_elem_of_filter.
  pose proof (list_elem_of_lookup_2 _ _ _ Hg) as [_ Hgin]%list_elem_of_filter.
  rewrite Forall_forall in Hok. destruct (path_prefix_key o f g) as [E|E]; [by apply Hok..|done| |].
  - eapply (NoDup_lookup (map f_key (saved_fields st fs))).
    + by apply NoDup_map_filter.
    + rewrite list_lookup_fmap. by rewrite Hf.
    + rewrite list_lookup_fmap, Hg. cbn. by rewrite E.
  - rewrite Hns in E; done.
Qed.

(** The leaves of the document are the saved fields. *)
Lemma save_root_spec o st fs : Forall (field_ok o) fs → NoDup (map f_key fs) → no_namespaces fs →
  (∀ f, f ∈ saved_fields st fs → is_leaf (encode_value f (valueAt (st_values st) f))) →
  tree_doc (save_root st fs) ∧
  ∀ p w, leaf (VMap (save_root st fs)) p w ↔
    ∃ f, f ∈ saved_fields st fs ∧ p = key_path f ∧ w = encode_value f (valueAt (st_values st) f).
Proof.
  intros Hok Hd Hns Hl. rewrite save_root_items.
  destruct (build_spec (saved_items st fs) []) as [Ht Hlv].
  - split; constructor.
  - by eapply saved_prefix_free.
  - apply Forall_fmap, Forall_forall. intros f Hf. cbn. rewrite Forall_forall in Hok.
    destruct (key_path_ok o f) as (Hne & Hk & _); [|by auto].
    apply Hok. by apply list_elem_of_filter in Hf as [_ ?].
  - intros pw _ q u (k & v & p & _ & Hin & _)%leaf_map_inv. set_solver.
  - split; [done|]. intros p w. rewrite Hlv. unfold saved_items. rewrite list_elem_of_fmap. split.
    + intros [(f & [= -> ->] & Hf)|(k & v & q & _ & Hin & _)%leaf_map_inv]; [eauto|set_solver].
    + intros (f & Hf & -> & ->). left. eauto.
Qed.

(** Everything a field needs to be saved and read back. *)
Definition savable (st : state) (f : fieldMeta) : Prop :=
  typed (f_typ f) (f_elements f) (valueAt (st_values st) f) ∧ writable (valueAt (st_values st) f) ∧ names_utf8 f.

Lemma saved_read_back o r st path data : reg_ok o r → no_namespaces (r_fields r) →
  (∀ f, f ∈ saved_fields st (r_fields r) → savable st f) →
  Encode jsonFormat (save_root st (r_fields r)) = inr data →
  ∃ flat, decode_file jsonFormat r path data = inr flat ∧
    ∀ key w, flat !! key = Some w ↔ ∃ f, f ∈ saved_fields st (r_fields r) ∧ key = f_key f ∧
      w = view (encode_value f (valueAt (st_values st) f)).
Proof.
  intros [Hd _ Hok] Hns Hsv He. set (root := save_root st (r_fields r)) in *.
  assert (∀ f, f ∈ saved_fields st (r_fields r) → f ∈ r_fields r ∧ field_ok o f) as Hin.
  { intros f Hf. apply list_elem_of_filter in Hf as [_ Hf]. split; [done|]. rewrite Forall_forall in Hok. by apply Hok. }
  assert (∀ f, f ∈ saved_fields st (r_fields r) → let w := encode_value f (valueAt (st_values st) f) in
    jsonable w ∧ is_leaf w) as Hj.
  { intros f Hf. destruct (Hsv f Hf) as (? & ? & ?), (Hin f Hf) as [_ [_ ? _ _]]. by apply field_jsonable. }
  destruct (save_root_spec o st (r_fields r) Hok Hd Hns) as [Ht Hl]; [intros; by apply Hj|]. fold root in Ht, Hl.
  assert (jsonable (VMap root)) as Hjr.
  { apply doc_jsonable; [done|]. intros p u (f & Hf & -> & ->)%Hl. split; [by apply Hj|]. by apply (Hsv f Hf). }
  cbn [Encode] in He. destruct (json_marshal root) as [e|d] eqn:Em; [done|]. injection He as <-.
  pose proof (json_marshal_tokens root d Hjr Em) as Htok.
  set (root' := sort_entries (map (λ kv, (kv.1, view kv.2)) root)).
  change (view (VMap root)) with (VMap root') in Htok.
  assert (tree_doc root') as Ht'.
  { destruct Ht as [Hdk Ha]. apply view_entries_ok; [done|done|]. apply Forall_forall. intros kv _. apply view_tree. }
  assert (∀ p w, leaf (VMap root') p w ↔ ∃ f, f ∈ saved_fields st (r_fields r) ∧ p = key_path f ∧
    w = view (encode_value f (valueAt (st_values st) f))) as Hl'.
  { intros p w. change (VMap root') with (view (VMap root)). rewrite view_leaves. split.
    - intros (u & (f & Hf & -> & ->)%Hl & ->). eauto.
    - intros (f & Hf & -> & ->). eexists. split; [|done]. apply Hl. eauto. }
  destruct (flatten_spec (file_leaves r) (file_namespaces r) root' Ht') as (flat & Ef & Hflat).
  { intros q k p w Hq (f & Hf & Ep & _)%Hl' (g & Eg & Hg)%elem_of_list_to_set%list_elem_of_fmap.
    destruct (Hin f Hf) as [Hfin Hfok]. rewrite Forall_forall in Hok.
    destruct (key_path_ok o f Hfok) as (_ & _ & Ej). rewrite <- Ep, Join_app in Ej by done.
    assert (HasPrefix (f_key f) (f_key g +:+ ".") = true) as E; [|by rewrite Hns in E].
    apply HasPrefix_spec. exists (Join (k :: p) "."). rewrite <- Ej, <- Eg. by rewrite sapp_assoc. }
  exists flat. split.
  - unfold decode_file, Decode. assert (decodeJSONFormat (d +:+ newline) = inr root') as ->.
    { apply decodeJSONFormat_inr. split; [|done]. change (VMap root') with (view (VMap root)). by apply view_json. }
    by rewrite Ef.
  - intros key w. rewrite Hflat. split.
    + intros (p & (f & Hf & -> & ->)%Hl' & ->). exists f. split; [done|]. split; [|done].
      by destruct (key_path_ok o f) as (_ & _ & ->); [apply Hin|].
    + intros (f & Hf & -> & ->). exists (key_path f). split; [apply Hl'; eauto|].
      by destruct (key_path_ok o f) as (_ & _ & ->); [apply Hin|].
Qed.
End reload.

(** * What saving does

    Which fields are saved, how the file is replaced, and that a saved document
    is read back; and two values that are not. *)
From Stdlib Require Import Ascii.

(** ** Replacing the file *)

Section save.
Context `{ConfigHost} `{Unicode} `{Formats} `{Numbers}.

(** [succeeded h t c]: among the calls [t] that follow [h], [c] was made and
    answered without an error. *)
Definition succeeded (h t : history) (c : call) : Prop := ∃ a b, t = a ++ c :: b ∧ cf_do (h ++ a) c = None.

(** The calls that cannot change the target. *)
Definition harmless (path : string) (tmp : option string) (c : call) : Prop :=
  match c with
  | Lstat p => p = path
  | CreateTemp d | OpenDir d | SyncDir d | CloseDir d => d = Dir path
  | TmpChmod x _ | TmpWrite x _ | TmpSync x | TmpClose x | Remove x => tmp = Some x
  | Rename x p => tmp = Some x ∧ p = path
  | _ => False
  end.

Definition replaced (path data : string) (mode : Z) (h : history) (res : option error) (t : history) : Prop :=
  ∃ tmp, Forall (harmless path tmp) t ∧
    (∀ x, tmp = Some x → last t = Some (Remove x)) ∧
    (∀ x p, Rename x p ∈ t → succeeded h t (TmpChmod x mode) ∧ succeeded h t (TmpWrite x data) ∧
       succeeded h t (TmpSync x) ∧ succeeded h t (TmpClose x)) ∧
    (res = None ↔ ∃ x, succeeded h t (Rename x path)).

Lemma succeeded_elem h t c : succeeded h t c → c ∈ t.
Proof. intros (a & b & -> & _). set_solver. Qed.

(** No renaming was reached. *)
Lemma replaced_early path data mode h e t tmp : Forall (harmless path tmp) t →
  (∀ x, tmp = Some x → last t = Some (Remove x)) → Forall (λ c, match c with Rename _ _ => False | _ => True end) t →
  replaced path data mode h (Some e) t.
Proof.
  intros Hh Hl Hn. rewrite Forall_forall in Hn. exists tmp. split; [done|]. split; [done|]. split.
  - intros x p Hr. by apply Hn in Hr.
  - split; [done|]. intros (x & Hx%succeeded_elem). by apply Hn in Hx.
Qed.

(** The calls once a temporary file is there. *)
Lemma replaced_renamed path data mode h x res rest a0 (t0 := [Lstat path; CreateTemp (Dir path); TmpChmod x mode;
    TmpWrite x data; TmpSync x; TmpClose x]) :
  a0 = h ++ t0 → cf_do (h ++ take 2 t0) (TmpChmod x mode) = None → cf_do (h ++ take 3 t0) (TmpWrite x data) = None →
  cf_do (h ++ take 4 t0) (TmpSync x) = None → cf_do (h ++ take 5 t0) (TmpClose x) = None →
  (res = None ↔ cf_do a0 (Rename x path) = None) → Forall (harmless path (Some x)) rest →
  last rest = Some (Remove x) → Forall (λ c, match c with Rename _ _ => False | _ => True end) rest →
  replaced path data mode h res (t0 ++ Rename x path :: rest).
Proof.
  intros -> E1 E2 E3 E4 Er Hh Hl Hn. exists (Some x). split; [|split; [|split]].
  - apply Forall_app. split; [repeat constructor|]. by constructor.
  - intros y [= <-]. rewrite last_app_cons, last_cons. by rewrite Hl.
  - intros y p Hin. assert (y = x) as ->.
    { unfold t0 in Hin. rewrite Forall_forall in Hn. cbn in Hin. repeat (apply elem_of_cons in Hin as [Hin|Hin]; [first [discriminate Hin|by injection Hin as -> _]|]).
      by apply Hn in Hin. }
    split; [exists (take 2 t0), (drop 3 t0 ++ Rename x path :: rest)|].
    { by split. }
    split; [exists (take 3 t0), (drop 4 t0 ++ Rename x path :: rest); by split|].
    split; [exists (take 4 t0), (drop 5 t0 ++ Rename x path :: rest); by split|].
    exists (take 5 t0), (Rename x path :: rest); by split.
  - rewrite Er. split.
    + intros E. exists x, t0, rest. by split.
    + intros (y & a & b & Et & E). assert (a = t0 ∧ y = x) as [-> ->]; [|done].
      rewrite Forall_forall in Hn. unfold t0 in *. cbn in Et.
      do 6 (destruct a as [|? a]; [discriminate Et|cbn in Et; injection Et as <- Et]).
      destruct a as [|c a]; [by injection Et as -> _|]. exfalso. injection Et as <- Et.
      apply (Hn (Rename y path)). rewrite Et. set_solver.
Qed.

Lemma replace_file_spec path data mode h :
  ∃ t, (replace_file path data mode h).2 = h ++ t ∧ replaced path data mode h (replace_file path data mode h).1 t.
Proof.
  unfold replace_file, os_Lstat, os_CreateTemp, os_do, unless_failed, perform, mbind, stm_bind, mret, stm_ret.
  destruct (target_error path (cf_lstat h path)) as [e|].
  { exists [Lstat path]. split; [done|]. apply (replaced_early _ _ _ _ _ _ None); [repeat constructor|done|repeat constructor]. }
  destruct (cf_temp _ _) as [e|x] eqn:Et.
  { exists [Lstat path; CreateTemp (Dir path)]. cbn. split; [by rewrite <- app_assoc|].
    apply (replaced_early _ _ _ _ _ _ None); [repeat constructor|done|repeat constructor]. }
  rewrite <- !app_assoc. cbn [app].
  assert (∀ t e, Forall (harmless path (Some x)) (t ++ [Remove x]) →
    Forall (λ c, match c with Rename _ _ => False | _ => True end) (t ++ [Remove x]) →
    replaced path data mode h (Some e) (t ++ [Remove x])) as Hfail.
  { intros t e Hh Hn. apply (replaced_early _ _ _ _ _ _ (Some x)); [done| |done]. intros y [= <-]. apply last_snoc. }
  destruct (cf_do _ (TmpChmod x mode)) as [e|] eqn:E1; cbn; rewrite <- ?app_assoc; cbn [app].
  { eexists ([_; _; _; _] ++ [Remove x]). split; [rewrite <- ?app_assoc; reflexivity|]. apply Hfail; repeat constructor. }
  destruct (cf_do _ (TmpWrite x data)) as [e|] eqn:E2; cbn; rewrite <- ?app_assoc; cbn [app].
  { eexists ([_; _; _; _; _] ++ [Remove x]). split; [rewrite <- ?app_assoc; reflexivity|]. apply Hfail; repeat constructor. }
  destruct (cf_do _ (TmpSync x)) as [e|] eqn:E3; cbn; rewrite <- ?app_assoc; cbn [app].
  { eexists ([_; _; _; _; _; _] ++ [Remove x]). split; [rewrite <- ?app_assoc; reflexivity|]. apply Hfail; repeat constructor. }
  destruct (cf_do _ (TmpClose x)) as [e|] eqn:E4; cbn; rewrite <- ?app_assoc; cbn [app].
  { eexists ([_; _; _; _; _; _] ++ [Remove x]). split; [rewrite <- ?app_assoc; reflexivity|]. apply Hfail; repeat constructor. }
  assert (∀ res rest, (res = None ↔ cf_do (h ++ [Lstat path; CreateTemp (Dir path); TmpChmod x mode; TmpWrite x data;
    TmpSync x; TmpClose x]) (Rename x path) = None) → Forall (harmless path (Some x)) rest →
    last rest = Some (Remove x) → Forall (λ c, match c with Rename _ _ => False | _ => True end) rest →
    replaced path data mode h res ([Lstat path; CreateTemp (Dir path); TmpChmod x mode; TmpWrite x data;
      TmpSync x; TmpClose x] ++ Rename x path :: rest)) as Hren.
  { intros res rest Hr Hh Hl Hn. by eapply replaced_renamed. }
  destruct (cf_do _ (Rename x path)) as [e|] eqn:E5.
  { exists ([Lstat path; CreateTemp (Dir path); TmpChmod x mode; TmpWrite x data; TmpSync x; TmpClose x] ++ Rename x path :: [Remove x]).
    split; [cbn; rewrite <- ?app_assoc; reflexivity|].
    apply Hren; [done|repeat constructor|done|repeat constructor]. }
  unfold sync_directory, os_do, perform, mbind, stm_bind, mret, stm_ret.
  destruct (cf_do _ (OpenDir (Dir path))) as [e|]; cbn; rewrite <- ?app_assoc; cbn [app].
  - exists ([Lstat path; CreateTemp (Dir path); TmpChmod x mode; TmpWrite x data; TmpSync x; TmpClose x] ++
      Rename x path :: [OpenDir (Dir path); Remove x]). split; [reflexivity|].
    apply Hren; [done|repeat constructor|done|repeat constructor].
  - exists ([Lstat path; CreateTemp (Dir path); TmpChmod x mode; TmpWrite x data; TmpSync x; TmpClose x] ++
      Rename x path :: [OpenDir (Dir path); SyncDir (Dir path); CloseDir (Dir path); Remove x]). split; [reflexivity|].
    apply Hren; [done|repeat constructor|done|repeat constructor].
Qed.

Lemma saved_spec st f : saved st f = true ↔ f_save f = true ∧ ∃ o, st_origins st !! f_key f = Some o ∧
  (o_Source o = SourceFile ∨ o_Source o = SourceSet ∨ (o_Source o = SourceDefault ∧ f_sensitive f = false)).
Proof.
  unfold saved. destruct (st_origins st !! f_key f) as [[s d]|]; cbn.
  - destruct (f_save f); [|naive_solver]. destruct s, (f_sensitive f); cbn; naive_solver.
  - rewrite andb_false_r. naive_solver.
Qed.

Lemma save_sensitive_spec st fs : save_sensitive st fs = true ↔
  ∃ f, f ∈ fs ∧ saved st f = true ∧ f_sensitive f = true.
Proof.
  unfold save_sensitive. rewrite existsb_elem_of.
  split; intros (f & Hf & E); exists f; (split; [done|]); [by apply andb_true_iff|by apply andb_true_iff].
Qed.

(** C21: [Save] writes the fields with a save tag whose value comes from the file,
    from [Set] or from a default, the last only if the field is not sensitive.
    The target is replaced by one rename, after the document was written, synced
    and closed in a temporary file of mode 0600 if a sensitive field is in it;
    the temporary file is removed, and success means that the rename
    succeeded. *)
Theorem Save_writes st r h :
  (∀ f, saved st f = true ↔ f_save f = true ∧ ∃ o, st_origins st !! f_key f = Some o ∧
     (o_Source o = SourceFile ∨ o_Source o = SourceSet ∨ (o_Source o = SourceDefault ∧ f_sensitive f = false))) ∧
  ∃ t, (save_state st r h).2 = h ++ t ∧
    ((t = [] ∧ is_Some (save_state st r h).1) ∨
     ∃ data mode, encodeFile (Ext (st_path st)) (save_root st (r_fields r)) = inr data ∧
       ((∃ f, f ∈ r_fields r ∧ saved st f = true ∧ f_sensitive f = true) → mode = 384) ∧
       replaced (st_path st) data mode h (save_state st r h).1 t).
Proof.
  split; [intros f; apply saved_spec|]. unfold save_state.
  destruct (String.eqb (st_path st) ""); [exists []; rewrite app_nil_r; split; [done|left]; by split|].
  destruct (encodeFile _ _) as [e|data]; [exists []; rewrite app_nil_r; split; [done|left]; by split|].
  destruct (replace_file_spec (st_path st) data (if save_sensitive st (r_fields r) then 384 else 420) h) as (t & E & Hr).
  exists t. split; [exact E|]. right. eexists data, _. split; [done|]. split; [|exact Hr].
  intros Hs%save_sensitive_spec. by rewrite Hs.
Qed.
End save.

(** ** Saving and loading *)

Section read_back.
Context `{Unicode} `{NumbersLaws} `{Formats} `{!JSONFileLaws} `{Schema}.

(** The raw values of the layers are values of Go. *)
Definition layers_ok (r : registry) (ls : layers) : Prop := ∀ f s v, f ∈ r_fields r →
  layer_of ls s !! f_key f = Some v → go_value v ∧ native_ok (f_elements f) v.

Lemma snapshot_typed o r ls path loaded validators st f : registry_ok o r → layers_ok r ls →
  Forall (resolvable ls) (r_fields r) → snapshot r ls path loaded validators st → f ∈ r_fields r →
  is_Some (st_origins st !! f_key f) → typed (f_typ f) (f_elements f) (valueAt (st_values st) f).
Proof.
  intros [[_ _ Hok] _ _ _ _ _] Hls Hres [[Hv Ho _ _] _ _ _ _ _ _] Hf [o' Eo].
  rewrite Forall_forall in Hok, Hres. destruct (Hok f Hf) as [_ Ht _ _]. specialize (Hres f Hf).
  apply (Ho f Hf) in Eo as (raw & s & Hw & ->). unfold resolvable in Hres.
  rewrite (proj2 (winner_spec _ _ _ _) Hw) in Hres. destruct Hres as [v Hc].
  unfold valueAt. rewrite (proj2 (Hv f Hf v)) by eauto. cbn.
  destruct Hw as (_ & Hl & _). destruct (Hls f s raw Hf Hl). by eapply coerce_typed.
Qed.

(** C11: a document that [Save] writes as JSON is read back as the file layer: it
    has exactly the saved fields, and each is decoded to the value it had.  It
    holds when the layers have values of Go, every saved value can be written (its
    text and the names of its field are valid UTF-8, its floats are finite, and it
    is no nil list: [empty_list_unreadable] is a nil list that is not read back),
    and no key of the registry lies below another.  The registry checks the last
    of them for keys without a byte that sorts before the dot ([no_conflict]); of
    two keys that get past it with a dash, saving drops one
    ([dash_hides_conflict]). *)
Theorem save_read_back t o r ls path loaded validators st data : makeRegistry t o = inr r →
  no_namespaces (r_fields r) → layers_ok r ls →
  resolve r ls path loaded validators = inr st →
  (∀ f, f ∈ r_fields r → saved st f = true → writable (valueAt (st_values st) f) ∧ names_utf8 f) →
  Encode jsonFormat (save_root st (r_fields r)) = inr data →
  ∃ flat, decode_file jsonFormat r path data = inr flat ∧
    (∀ key, is_Some (flat !! key) ↔ ∃ f, f ∈ r_fields r ∧ saved st f = true ∧ f_key f = key) ∧
    ∀ f, f ∈ r_fields r → saved st f = true → ∃ raw, flat !! f_key f = Some raw ∧
      coerceWithSchema raw (f_typ f) (f_elements f) = inr (valueAt (st_values st) f).
Proof.
  intros Hr%makeRegistry_ok Hns Hls Hres Hw He. pose proof Hr as [[Hk Hb Hok] _ _ _ _ _].
  apply (resolve_snapshot o) in Hres as [Hall Hsn]; [|done].
  assert (∀ f, f ∈ saved_fields st (r_fields r) ↔ f ∈ r_fields r ∧ saved st f = true) as Hsf.
  { intros f. unfold saved_fields. rewrite list_elem_of_filter. naive_solver. }
  assert (∀ f, f ∈ saved_fields st (r_fields r) → savable st f) as Hsv.
  { intros f [Hf Hsaved]%Hsf. split; [|by apply Hw]. eapply snapshot_typed; try done.
    apply saved_spec in Hsaved as (_ & o' & -> & _). done. }
  destruct (saved_read_back o r st path data) as (flat & Ef & Hflat); [by destruct Hr|done..|].
  exists flat. split; [done|]. split.
  - intros key. split.
    + intros (w & (f & [Hf ?]%Hsf & -> & _)%Hflat). eauto.
    + intros (f & Hf & Hsaved & <-). eexists. apply Hflat. exists f. split; [by apply Hsf|done].
  - intros f Hf Hsaved. eexists. split; [apply Hflat; exists f; split; [by apply Hsf|done]|].
    destruct (Hsv f) as (Ht & Hwr & _); [by apply Hsf|]. rewrite Forall_forall in Hok.
    apply field_read_back; [by apply Hok|done|done].
Qed.

(** An empty list that [Set] was given becomes nil, which [Save] writes as
    [null], and a load that finds it in the file, with nothing above the file,
    fails. *)
Theorem empty_list_unreadable o r f ls path loaded validators : registry_ok o r → f ∈ r_fields r →
  f_typ f = strings_type →
  coerceWithSchema (VStrings (Some [])) (f_typ f) (f_elements f) = inr (VStrings None) ∧
  (∀ jf, json_view jf (encode_value f (VStrings None)) = VNil) ∧
  (layer_of ls SourceFile !! f_key f = Some VNil → layer_of ls SourceEnv !! f_key f = None →
   layer_of ls SourceFlag !! f_key f = None → layer_of ls SourceSet !! f_key f = None →
   ∀ st, resolve r ls path loaded validators ≠ inr st).
Proof.
  intros Hr Hf Ht. pose proof Hr as [[_ _ Hok] _ _ _ _ _]. rewrite Forall_forall in Hok.
  destruct (Hok f Hf) as [_ Hty _ _]. rewrite Ht in *.
  assert (f_elements f = None) as En.
  { destruct (f_elements f) as [es|]; [|done]. by destruct Hty as (_ & s & fields & ?). }
  rewrite En in *. split; [done|]. split; [intros jf; unfold encode_value; by rewrite En, Ht|].
  intros L1 L2 L3 L4 st E. apply (resolve_snapshot o) in E as [Hall _]; [|done].
  rewrite Forall_forall in Hall. specialize (Hall f Hf). unfold resolvable in Hall.
  rewrite (proj2 (winner_spec ls (f_key f) VNil SourceFile)) in Hall.
  - rewrite Ht, En in Hall. destruct Hall as (v & Hv). done.
  - split; [done|]. split; [done|]. intros [] Hrk; cbn in Hrk; try lia; done.
Qed.

(** A float that is no number is refused for a field, but not in a native slice of
    structs. *)
Lemma native_rows_unchecked n name bits : finite bits = false →
  let es := {| es_typ := n; es_fields := [{| ef_name := name; ef_index := 0; ef_typ := Basic TFloat64 |}] |} in
  coerceWithSchema (VFloat bits) (Basic TFloat64) None = inl NonFinite ∧
  (∀ s t, t = Slice s (Struct n []) →
    coerceWithSchema (VStructs s n (Some [[VFloat bits]])) t (Some es) = inr (VStructs s n (Some [[VFloat bits]]))).
Proof.
  intros Hb es. split; [cbn; unfold coerce, same_type; cbn; by rewrite Hb|]. intros s t E.
  rewrite (coerce_slice _ _ _ _ _ _ E), E. unfold coerceStructuredSlice. cbn [has_type]. by rewrite bool_decide_eq_true_2.
Qed.
End read_back.
