(* ===== verification/CertsTypes.v ===== *)
(** * Package [certs]: names, policies and errors

    The value types of [models.go] with their normalisation, and the error
    types of [errors.go]. *)
From S2P Require Import Prelude.
From S2P Require Import GoStrings.
From S2P Require Import Utf8.
From S2P Require Import Errx.
From S2P Require Import Text.
From S2P Require Import Errors.
From S2P Require Import GoNet.
#[local] Open Scope stdpp_scope.
#[local] Open Scope Z_scope.

(** ** Time: nanoseconds since the zero [time.Time], and durations. *)
Abbreviation Time := Z (only parsing).
Abbreviation Duration := Z (only parsing).
Definition Second : Duration := 1000000000.
Definition Minute : Duration := 60 * Second.
Definition Hour : Duration := 60 * Minute.

(** ** models.go: data *)

Record Identity := {
  Organization : string;
  OrganizationalUnit : string;
  Country : string;
  Province : string;
  Locality : string;
  CommonName : string;
}.
Definition zero_Identity : Identity := Build_Identity "" "" "" "" "" "".

Abbreviation KeySpec := string (only parsing).
Definition ECDSAP256 : KeySpec := "ecdsa-p256".
Definition ECDSAP384 : KeySpec := "ecdsa-p384".
Definition Ed25519 : KeySpec := "ed25519".
Definition RSA3072 : KeySpec := "rsa-3072".
Definition RSA4096 : KeySpec := "rsa-4096".
Definition KeySpec_valid (s : KeySpec) : bool :=
  String.eqb s ECDSAP256 || String.eqb s ECDSAP384 || String.eqb s Ed25519
  || String.eqb s RSA3072 || String.eqb s RSA4096.

Abbreviation IssuanceMode := string (only parsing).
Definition IssuanceNone : IssuanceMode := "none".
Definition IssuanceLedger : IssuanceMode := "ledger".
Definition IssuanceMode_valid (m : IssuanceMode) : bool :=
  String.eqb m IssuanceNone || String.eqb m IssuanceLedger.

Abbreviation Profile := string (only parsing).
Definition TLSClient : Profile := "tls-client".
Definition TLSServer : Profile := "tls-server".
Definition TLSClientServer : Profile := "tls-client-server".
Definition Profile_valid (p : Profile) : bool :=
  String.eqb p TLSClient || String.eqb p TLSServer || String.eqb p TLSClientServer.

(** The bits of [x509.KeyUsage] and the values of [x509.ExtKeyUsage]. *)
Definition KeyUsageDigitalSignature : Z := 1.
Definition KeyUsageCertSign : Z := 32.
Definition KeyUsageCRLSign : Z := 64.
Definition ExtKeyUsageServerAuth : Z := 1.
Definition ExtKeyUsageClientAuth : Z := 2.

Definition Profile_usages (p : Profile) : Z * list Z :=
  if String.eqb p TLSClient then (KeyUsageDigitalSignature, [ExtKeyUsageClientAuth])
  else if String.eqb p TLSServer then (KeyUsageDigitalSignature, [ExtKeyUsageServerAuth])
  else if String.eqb p TLSClientServer
  then (KeyUsageDigitalSignature, [ExtKeyUsageClientAuth; ExtKeyUsageServerAuth])
  else (0, []).

(** Pointers in a slice may be nil. *)
Record SANs := {
  DNSNames : list string;
  IPAddresses : list IP;
  URIs : list (option URL);
  EmailAddresses : list string;
}.
Definition zero_SANs : SANs := Build_SANs [] [] [] [].

Record SANPolicy := {
  DNSSuffixes : list string;
  IPRanges : list (option IPNet);
  URIPrefixes : list string;
  EmailDomains : list string;
}.
Definition zero_SANPolicy : SANPolicy := Build_SANPolicy [] [] [] [].

Record IssuerDefinition := {
  def_Name : string;
  def_Slug : string;
  def_Validity : Duration;
  def_AllowedProfiles : list Profile;
  def_SubjectOwner : string;
  def_RequiredSubject : Identity;
  def_SANPolicy : SANPolicy;
}.

#[global] Instance Identity_eq_dec : EqDecision Identity.
Proof. solve_decision. Defined.
#[global] Instance SANs_eq_dec : EqDecision SANs.
Proof. solve_decision. Defined.
#[global] Instance SANPolicy_eq_dec : EqDecision SANPolicy.
Proof. solve_decision. Defined.
#[global] Instance IssuerDefinition_eq_dec : EqDecision IssuerDefinition.
Proof. solve_decision. Defined.

(** ** errors.go *)

Inductive PendingKind := PendingNone | PendingRoot | PendingIssuer.
#[global] Instance PendingKind_eq_dec : EqDecision PendingKind.
Proof. solve_decision. Defined.

(** The values an [any] of a [DriftError] carries. *)
Inductive any :=
  | AString (s : string)
  | AInt (z : Z)
  | AIdentity (v : Identity)
  | ADefinition (d : IssuerDefinition).

Inductive error :=
  | ValidationError (Message : string) (Cause : option error)
  | NotFoundError (Resource : string) (Cause : option error)
  | ForbiddenError (Message : string) (Cause : option error)
  | ConflictError (Message : string) (Cause : option error)
  | PendingConflictError (Operation : PendingKind)
  | DriftError (Field : string) (Expected Actual : any)
  | CorruptError (Message : string) (Cause : option error)
  | UnavailableError (Message : string) (Cause : option error)
  | PartialOperationError (Operation : string) (Cause : option error)
  | Errorf (text : string) (Cause : option error)
  | Sys (e : sys_error).

Abbreviation invalid := ValidationError (only parsing).
Abbreviation corrupt := CorruptError (only parsing).

Definition Unwrap (e : error) : option error :=
  match e with
  | ValidationError _ c | NotFoundError _ c | ForbiddenError _ c | ConflictError _ c
  | CorruptError _ c | UnavailableError _ c | PartialOperationError _ c | Errorf _ c => c
  | _ => None
  end.

(** The [Kind] methods; an error without one is not classified. *)
Definition error_Kind (e : error) : option Z :=
  match e with
  | ValidationError _ _ => Some Validation
  | NotFoundError _ _ => Some NotFound
  | ForbiddenError _ _ => Some Forbidden
  | ConflictError _ _ | PendingConflictError _ | DriftError _ _ _ => Some Conflict
  | CorruptError _ _ => Some Invalid
  | UnavailableError _ _ => Some Unavailable
  | PartialOperationError _ _ => Some Internal
  | Errorf _ _ | Sys _ => None
  end.

(** [errors.As] and [errors.Is] walk the [Unwrap] chain. *)
Fixpoint As (target : error → bool) (e : error) : bool :=
  target e ||
  match e with
  | ValidationError _ (Some c) | NotFoundError _ (Some c) | ForbiddenError _ (Some c)
  | ConflictError _ (Some c) | CorruptError _ (Some c) | UnavailableError _ (Some c)
  | PartialOperationError _ (Some c) | Errorf _ (Some c) => As target c
  | _ => false
  end.

Definition AsNotFound : error → bool :=
  As (λ e, match e with NotFoundError _ _ => true | _ => false end).
Definition AsConflict : error → bool :=
  As (λ e, match e with ConflictError _ _ => true | _ => false end).
Definition IsSys (want : sys_error) : error → bool :=
  As (λ e, match e with Sys e' => bool_decide (e' = want) | _ => false end).

(** The value that [errx] inspects. *)
Fixpoint error_value (e : error) : value :=
  VVal (error_Kind e)
    match e with
    | ValidationError _ (Some c) | NotFoundError _ (Some c) | ForbiddenError _ (Some c)
    | ConflictError _ (Some c) | CorruptError _ (Some c) | UnavailableError _ (Some c)
    | PartialOperationError _ (Some c) | Errorf _ (Some c) => Unwrap1 (error_value c)
    | ValidationError _ None | NotFoundError _ None | ForbiddenError _ None
    | ConflictError _ None | CorruptError _ None | UnavailableError _ None
    | PartialOperationError _ None | Errorf _ None => Unwrap1 VNil
    | _ => NoUnwrap
    end.

(** ** models.go: identities *)

Definition has_control (s : string) : bool := existsb IsControl (runes s).

Definition ascii_letter (r : Z) : bool := negb (((r <? 65) || (90 <? r)) && ((r <? 97) || (122 <? r))).
Definition asciiLetters (v : string) : bool := forallb ascii_letter (runes v).

Fixpoint check_fields (fields : list (string * string * nat)) : option error :=
  match fields with
  | [] => None
  | (name, val, max) :: rest =>
      if has_control val then Some (invalid (name +:+ " contains a control character") None)
      else if Nat.ltb max (slen val) then Some (invalid (name +:+ " is too long") None)
      else check_fields rest
  end.

Definition normalizeIdentity (v : Identity) : error + Identity :=
  let v := {|
    Organization := TrimSpace (Organization v);
    OrganizationalUnit := TrimSpace (OrganizationalUnit v);
    Country := TrimSpace (Country v);
    Province := TrimSpace (Province v);
    Locality := TrimSpace (Locality v);
    CommonName := TrimSpace (CommonName v) |} in
  match check_fields
    [("organization", Organization v, 128%nat); ("organizational unit", OrganizationalUnit v, 128%nat);
     ("country", Country v, 2%nat); ("province", Province v, 128%nat);
     ("locality", Locality v, 128%nat); ("common name", CommonName v, 253%nat)] with
  | Some e => inl e
  | None =>
      if negb (String.eqb (Country v) "") &&
         (negb (Nat.eqb (slen (Country v)) 2) || negb (asciiLetters (Country v)))
      then inl (invalid "country must contain exactly two characters" None)
      else inr v
  end.

(** ** Display names and slugs *)

Definition other_space (r : Z) : bool :=
  negb (r =? 32) && ((r =? 9) || (r =? 10) || (r =? 13) || (r =? 11) || (r =? 12)).
Definition bad_name_rune (r : Z) : bool :=
  negb (r =? 32) && ((r <? 65) || (90 <? r)) && ((r <? 97) || (122 <? r)) && ((r <? 48) || (57 <? r)).

Section names.
Context `{Unicode}.

Definition normalizeDisplayName (name : string) : error + string :=
  if existsb other_space (runes name)
  then inl (invalid "display name may contain spaces but no other whitespace" None)
  else
  let name := Join (Fields name) " " in
  if String.eqb name "" then inl (invalid "display name is required" None)
  else if existsb bad_name_rune (runes name)
  then inl (invalid "display name may contain only ASCII letters, digits, and spaces" None)
  else if String.eqb (Slugify name "-" Lower) ""
  then inl (invalid "display name has an empty storage identifier" None)
  else inr name.

Definition slug (v : string) : string :=
  ToLower (replace_bytes (λ c, if Ascii.eqb c " " then "-" else String c "") v).
End names.

(** ** DNS names *)

Definition label_rune (r : Z) : bool :=
  negb (((r <? 97) || (122 <? r)) && ((r <? 65) || (90 <? r)) && ((r <? 48) || (57 <? r)) && negb (r =? 45)).

Definition valid_label (label : string) : bool :=
  negb (String.eqb label "" || Nat.ltb 63 (slen label) || HasPrefix label "-" || HasSuffix label "-")
  && forallb label_rune (runes label).

Definition validDNSName (name : string) (wildcard : bool) : bool :=
  if (wildcard && HasPrefix name "*.") || negb (Contains name "*") then
    let name := if wildcard && HasPrefix name "*." then TrimPrefix name "*." else name in
    if String.eqb name "" || Nat.ltb 253 (slen name) || Contains name ".." then false
    else forallb valid_label (Split name ".")
  else false.

(** ** Subject alternative names *)

Section sans.
Context `{Unicode}.

Fixpoint normalize_dns (l : list string) (seen : list string) : error + list string :=
  match l with
  | [] => inr []
  | d :: rest =>
      let d := ToLower (TrimSuffix (TrimSpace d) ".") in
      if negb (validDNSName d true) then inl (invalid "invalid DNS SAN" None)
      else if existsb (String.eqb d) seen then inl (invalid "duplicate DNS SAN" None)
      else match normalize_dns rest (d :: seen) with
           | inl e => inl e
           | inr out => inr (d :: out)
           end
  end.

Fixpoint normalize_ips (l : list IP) (seen : list string) : error + list IP :=
  match l with
  | [] => inr []
  | ip :: rest =>
      if String.eqb ip "" || To16_nil ip then inl (invalid "invalid IP SAN" None)
      else if existsb (String.eqb (IP_String ip)) seen then inl (invalid "duplicate IP SAN" None)
      else match normalize_ips rest (IP_String ip :: seen) with
           | inl e => inl e
           | inr out => inr (ip :: out)
           end
  end.

Fixpoint normalize_uris (l : list (option URL)) (seen : list string) : error + list (option URL) :=
  match l with
  | [] => inr []
  | None :: _ => inl (invalid "invalid URI SAN" None)
  | Some u :: rest =>
      if String.eqb (Scheme u) "" || String.eqb (URL_String u) "" || has_control (URL_String u)
      then inl (invalid "invalid URI SAN" None)
      else if existsb (String.eqb (URL_String u)) seen then inl (invalid "duplicate URI SAN" None)
      else match normalize_uris rest (URL_String u :: seen) with
           | inl e => inl e
           | inr out => inr (Some u :: out)
           end
  end.

(** The bytes that an email address may not contain: space, NUL, CR, LF. *)
Definition email_bad : string := unchars (map chr [32; 0; 13; 10]).

Definition bad_email (e : string) : bool :=
  match LastIndexByte e "@" with
  | None | Some O => true
  | Some at_ =>
      Nat.eqb at_ (slen e - 1) || ContainsAny e email_bad
      || negb (validDNSName (sdrop (S at_) e) false)
  end.

Fixpoint normalize_emails (l : list string) (seen : list string) : error + list string :=
  match l with
  | [] => inr []
  | e :: rest =>
      let e := TrimSpace e in
      if bad_email e then inl (invalid "invalid email SAN" None)
      else if existsb (String.eqb (ToLower e)) seen then inl (invalid "duplicate email SAN" None)
      else match normalize_emails rest (ToLower e :: seen) with
           | inl err => inl err
           | inr out => inr (e :: out)
           end
  end.

(** The keys of [seen] carry a prefix per kind of name, so the four loops have
    a set of their own. *)
Definition normalizeSANs (s : SANs) : error + SANs :=
  match normalize_dns (DNSNames s) [] with
  | inl e => inl e
  | inr dns =>
  match normalize_ips (IPAddresses s) [] with
  | inl e => inl e
  | inr ips =>
  match normalize_uris (URIs s) [] with
  | inl e => inl e
  | inr uris =>
  match normalize_emails (EmailAddresses s) [] with
  | inl e => inl e
  | inr emails => inr (Build_SANs dns ips uris emails)
  end end end end.
End sans.
