(* ===== verification/CertsNames.v ===== *)
(** * Normal forms of names, identities and subject alternative names

    What the normalisation functions of [models.go] promise: their results are
    fixed points, so stored values validate again, and the two ways the package
    computes a storage identifier agree. *)
From S2P Require Import Prelude.
From S2P Require Import GoStrings.
From S2P Require Import Utf8.
From S2P Require Import Errx.
From S2P Require Import Text.
From S2P Require Import Errors.
From S2P Require Import GoNet.
From S2P Require Import CertsTypes.
#[local] Open Scope stdpp_scope.
#[local] Open Scope Z_scope.

(** ** Display names *)

Lemma bad_name_rune_high r : 128 ≤ r → negb (bad_name_rune r) = false.
Proof.
  intros Hr. unfold bad_name_rune. apply negb_false_iff. rewrite !andb_true_iff, !orb_true_iff, negb_true_iff, !Z.ltb_lt, Z.eqb_neq. lia.
Qed.

Lemma alnum_iff c :
  alnum c = true ↔ (65 ≤ ord c ≤ 90 ∨ 97 ≤ ord c ≤ 122 ∨ 48 ≤ ord c ≤ 57).
Proof.
  unfold alnum, is_letter_ascii, is_upper_ascii, is_lower_ascii, is_digit_ascii.
  rewrite !orb_true_iff, !in_range_true. lia.
Qed.

Lemma bad_name_rune_false c :
  bad_name_rune (ord c) = false ↔ ord c = 32 ∨ alnum c = true.
Proof.
  rewrite alnum_iff. unfold bad_name_rune. rewrite <- not_true_iff_false.
  rewrite !andb_true_iff, !orb_true_iff, negb_true_iff, !Z.ltb_lt, Z.eqb_neq. lia.
Qed.

Lemma existsb_negb_forallb {A} (f : A → bool) l :
  existsb f l = false ↔ forallb (λ x, negb (f x)) l = true.
Proof.
  induction l as [|x l IH]; [done|]. cbn. rewrite orb_false_iff, andb_true_iff, negb_true_iff, IH. done.
Qed.

Lemma alnum_ascii w : word w → ascii_string w.
Proof.
  intros [_ Hw]. eapply Forall_impl; [exact Hw|]. intros c Hc%alnum_iff. lia.
Qed.

Lemma alnum_not_space c : alnum c = true → IsSpace (ord c) = false.
Proof. intros Hc%alnum_iff. apply IsSpace_graphic. lia. Qed.

Lemma word_no_space w : word w → Forall (λ r, IsSpace r = false) (runes w).
Proof.
  intros Hw. rewrite runes_ascii by (by apply alnum_ascii). rewrite Forall_map.
  destruct Hw as [_ Hw]. eapply Forall_impl; [exact Hw|]. apply alnum_not_space.
Qed.

Lemma Fields_Join_words ws : Forall word ws → Fields (Join ws " ") = ws.
Proof.
  intros Hws. apply Fields_Join. eapply Forall_impl; [exact Hws|].
  intros w Hw. split; [apply Hw|]. split; [by apply alnum_ascii|by apply word_no_space].
Qed.

(** Words survive both the replacement of spaces and lower-casing. *)
Definition lower_word (w : string) : string := unchars (map lower_char (chars w)).

Lemma lower_char_alnum c : alnum c = true → alnum (lower_char c) = true.
Proof.
  rewrite !alnum_iff. intros Hc. unfold lower_char, lower_ascii, is_upper_ascii.
  destruct (in_range 65 (ord c) 90) eqn:E; [apply in_range_true in E|apply in_range_false in E];
    rewrite ord_chr by lia; lia.
Qed.

Lemma lower_word_word w : word w → word (lower_word w).
Proof.
  intros [Hne Hw]. split; [by destruct w|].
  unfold lower_word. rewrite chars_unchars, Forall_map.
  eapply Forall_impl; [exact Hw|]. apply lower_char_alnum.
Qed.

Lemma chars_Join l sep c :
  c ∈ chars (Join l sep) → c ∈ chars sep ∨ ∃ w, w ∈ l ∧ c ∈ chars w.
Proof.
  induction l as [|w l IH]; [by intros ?%elem_of_nil|]. destruct l as [|w' l].
  - rewrite Join_single. intros Hc. right. exists w. split; [left|done].
  - rewrite Join_cons, !chars_app, !elem_of_app. intros [Hc|[Hc|Hc]]; [|by left|].
    + right. exists w. split; [left|done].
    + destruct (IH Hc) as [?|(v & ? & ?)]; [by left|]. right. exists v. split; [by right|done].
Qed.

Lemma chars_Join_in l sep w c : w ∈ l → c ∈ chars w → c ∈ chars (Join l sep).
Proof.
  induction l as [|v l IH]; [by intros ?%elem_of_nil|]. intros [->|Hw]%elem_of_cons Hc.
  - destruct l; [by rewrite Join_single|]. rewrite Join_cons, chars_app, elem_of_app. by left.
  - destruct l; [by apply elem_of_nil in Hw|].
    rewrite Join_cons, !chars_app, !elem_of_app. right. right. by apply IH.
Qed.

Lemma Join_words_ascii ws d : ord d < 128 → Forall word ws → ascii_string (Join ws (String d "")).
Proof.
  intros Hd Hws. apply Forall_forall. intros c [Hc|(w & Hw & Hc)]%chars_Join.
  - apply list_elem_of_singleton in Hc as ->. done.
  - rewrite Forall_forall in Hws. specialize (alnum_ascii w (Hws w Hw)).
    unfold ascii_string. rewrite Forall_forall. auto.
Qed.

Lemma unchars_map_app f a b :
  unchars (map f (chars (a +:+ b))) = unchars (map f (chars a)) +:+ unchars (map f (chars b)).
Proof. by rewrite chars_app, map_app, unchars_app. Qed.

Section names.
Context `{Unicode}.

Lemma ToLower_Join_words ws d :
  ord d < 128 → lower_char d = d → Forall word ws →
  ToLower (Join ws (String d "")) = Join (map lower_word ws) (String d "").
Proof.
  intros Hd Hl Hws. rewrite ToLower_ascii by (by apply Join_words_ascii).
  clear Hws. induction ws as [|w ws IH]; [done|]. destruct ws as [|w' ws]; [done|].
  cbn [map]. rewrite !Join_cons, !unchars_map_app. cbn [chars map unchars]. rewrite Hl.
  do 2 f_equal. exact IH.
Qed.

Lemma replace_spaces_Join ws :
  Forall word ws →
  replace_bytes (λ c, if Ascii.eqb c " " then "-" else String c "") (Join ws " ") = Join ws "-".
Proof.
  intros Hws. assert (∀ w, word w →
    replace_bytes (λ c, if Ascii.eqb c " " then "-" else String c "") w = w) as Hw.
  { intros w [_ Hw]. induction w as [|c w IH]; [done|]. apply Forall_cons in Hw as [Hc Hw].
    cbn. destruct (Ascii.eqb_spec c " ") as [->|]; [done|]. cbn. by rewrite IH. }
  induction ws as [|w ws IH]; [done|]. apply Forall_cons in Hws as [H1 Hws].
  destruct ws as [|w' ws]; [by apply Hw|].
  rewrite !Join_cons, !replace_bytes_app, Hw by done. cbn [replace_bytes Ascii.eqb].
  f_equal. cbn. f_equal. by apply IH.
Qed.

(** The normal forms: words of ASCII letters and digits, one space apart. *)
Definition display_name (n : string) : Prop := ∃ ws, ws ≠ [] ∧ Forall word ws ∧ n = Join ws " ".

Lemma words_of_fields s :
  existsb bad_name_rune (runes (Join (Fields s) " ")) = false → Forall word (Fields s).
Proof.
  rewrite existsb_negb_forallb, forallb_runes_ascii by apply bad_name_rune_high.
  rewrite forallb_Forall, Forall_forall. intros Hbad.
  apply Forall_forall. intros w Hw. destruct (Fields_spec s w Hw) as (Hne & Hs & _).
  assert (∀ c, c ∈ chars w → ord c = 32 ∨ alnum c = true) as Hc.
  { intros c Hc. apply bad_name_rune_false, negb_true_iff, Hbad. by eapply chars_Join_in. }
  split; [done|]. apply Forall_forall. intros c Hin.
  destruct (Hc c Hin) as [E|]; [|done]. exfalso.
  rewrite runes_ascii in Hs.
  - rewrite Forall_map, Forall_forall in Hs. specialize (Hs c Hin). cbn in Hs. by rewrite E in Hs.
  - apply Forall_forall. intros c' [->|Hc'%alnum_iff]%Hc; lia.
Qed.

Lemma slug_words ws :
  Forall word ws →
  slug (Join ws " ") = Join (map lower_word ws) "-" ∧
  Slugify (Join ws " ") "-" Lower = Join (map lower_word ws) "-".
Proof.
  intros Hws. split.
  - unfold slug. rewrite replace_spaces_Join by done. by apply ToLower_Join_words.
  - rewrite Slugify_words by done. f_equal. rewrite ToLower_Join_words by done.
    apply words_Join; [done|]. rewrite Forall_map.
    eapply Forall_impl; [exact Hws|]. apply lower_word_word.
Qed.

Lemma Join_words_ne ws d : Forall word ws → ws ≠ [] → Join ws d ≠ "".
Proof.
  intros Hws Hne. destruct ws as [|w ws]; [done|]. apply Forall_cons in Hws as [[Hw _] _].
  destruct ws; [done|]. rewrite Join_cons. by destruct w.
Qed.

Lemma normalizeDisplayName_fix n : display_name n → normalizeDisplayName n = inr n.
Proof.
  intros (ws & Hne & Hws & ->). unfold normalizeDisplayName.
  assert (∀ c, c ∈ chars (Join ws " ") → ord c = 32 ∨ alnum c = true) as Hc.
  { intros c [Hc|(w & Hw & Hc)]%chars_Join.
    - apply list_elem_of_singleton in Hc as ->. by left.
    - right. rewrite Forall_forall in Hws. destruct (Hws w Hw) as [_ Hw'].
      rewrite Forall_forall in Hw'. by apply Hw'. }
  assert (ascii_string (Join ws " ")) as Ha by (by apply Join_words_ascii).
  assert (existsb other_space (runes (Join ws " ")) = false) as ->.
  { rewrite runes_ascii by done. apply not_true_iff_false. rewrite existsb_elem_of.
    intros (r & Hr & Ho). apply list_elem_of_fmap in Hr as (c & -> & Hin).
    unfold other_space in Ho. rewrite andb_true_iff, negb_true_iff, !orb_true_iff, !Z.eqb_eq, Z.eqb_neq in Ho.
    destruct (Hc c Hin) as [?|?%alnum_iff]; lia. }
  rewrite Fields_Join_words by done.
  destruct (String.eqb_spec (Join ws " ") ""); [by eapply Join_words_ne in Hne|].
  assert (existsb bad_name_rune (runes (Join ws " ")) = false) as ->.
  { rewrite existsb_negb_forallb, forallb_runes_ascii by apply bad_name_rune_high.
    rewrite forallb_Forall, Forall_forall. intros c Hin. by apply negb_true_iff, bad_name_rune_false, Hc. }
  rewrite (proj2 (slug_words ws Hws)).
  destruct (String.eqb_spec (Join (map lower_word ws) "-") "") as [E|]; [|done].
  exfalso. revert E. apply Join_words_ne; [|by destruct ws].
  rewrite Forall_map. eapply Forall_impl; [exact Hws|]. apply lower_word_word.
Qed.

Lemma normalizeDisplayName_display name n :
  normalizeDisplayName name = inr n → display_name n.
Proof.
  unfold normalizeDisplayName. destruct (existsb other_space (runes name)); [done|].
  destruct (String.eqb_spec (Join (Fields name) " ") "") as [|Hne]; [done|].
  destruct (existsb bad_name_rune _) eqn:Hbad; [done|].
  destruct (String.eqb _ ""); [done|]. intros [= <-].
  exists (Fields name). split; [|split; [by apply words_of_fields|done]]. by destruct (Fields name).
Qed.

(** The storage identifier of a display name: lower-case words and dashes. *)
Lemma slug_display n :
  display_name n → slug n = Slugify n "-" Lower ∧ slug n ≠ "" ∧ ∀ c, c ∈ chars (slug n) → alnum c = true ∨ c = "-"%char.
Proof.
  intros (ws & Hne & Hws & ->). destruct (slug_words ws Hws) as [E1 E2]. rewrite E1, E2.
  assert (Forall word (map lower_word ws)) as Hl.
  { rewrite Forall_map. eapply Forall_impl; [exact Hws|]. apply lower_word_word. }
  split; [done|]. split; [apply Join_words_ne; [done|by destruct ws]|].
  intros c [Hc|(w & Hw & Hc)]%chars_Join.
  - right. by apply list_elem_of_singleton in Hc.
  - left. rewrite Forall_forall in Hl. destruct (Hl w Hw) as [_ Hw'].
    rewrite Forall_forall in Hw'. by apply Hw'.
Qed.

(** A display name that is accepted is normal: it consists of words of
    ASCII letters and digits one space apart, normalising it again changes
    nothing, and the storage identifier that [slug] computes for lookups is
    the one [Slugify] computes for definitions; it is not empty and has only
    letters, digits and dashes. *)
Theorem normalizeDisplayName_spec name n :
  normalizeDisplayName name = inr n →
  normalizeDisplayName n = inr n ∧
  (∃ ws, ws ≠ [] ∧ Forall word ws ∧ n = Join ws " ") ∧
  slug n = Slugify n "-" Lower ∧ slug n ≠ "" ∧
  ∀ c, c ∈ chars (slug n) → alnum c = true ∨ c = "-"%char.
Proof.
  intros Hn%normalizeDisplayName_display. split; [by apply normalizeDisplayName_fix|].
  split; [exact Hn|]. by apply slug_display.
Qed.
End names.

Lemma normalizeDisplayName_spec_witness :
  let H := ascii_tables in
  normalizeDisplayName " Web  Servers 2 " = inr "Web Servers 2" ∧ slug "Web Servers 2" = "web-servers-2".
Proof.
  intros H. assert (normalizeDisplayName " Web  Servers 2 " = inr "Web Servers 2") as E
    by (vm_compute; reflexivity).
  split; [exact E|]. destruct (normalizeDisplayName_spec _ _ E) as (_ & _ & Es & _).
  rewrite Es. vm_compute. reflexivity.
Defined.

(** ** Identities *)

Definition clean_field (s : string) (max : nat) : Prop :=
  TrimSpace s = s ∧ has_control s = false ∧ (slen s ≤ max)%nat.

Lemma check_fields_None l :
  check_fields l = None ↔ Forall (λ f, has_control f.1.2 = false ∧ (slen f.1.2 ≤ f.2)%nat) l.
Proof.
  induction l as [|[[name val] max] l IH]; cbn [check_fields]; [split; [constructor|done]|].
  rewrite Forall_cons. cbn [fst snd]. destruct (has_control val); [split; [done|by intros [[? _] _]]|].
  destruct (Nat.ltb_spec max (slen val)); [split; [done|intros [[_ ?] _]; lia]|].
  rewrite IH. split; [intros; split; [split; [done|lia]|done]|by intros [_ ?]].
Qed.

(** What [normalizeIdentity] accepts, and what it returns then. *)
Definition normal_identity (v : Identity) : Prop :=
  clean_field (Organization v) 128 ∧ clean_field (OrganizationalUnit v) 128 ∧
  clean_field (Country v) 2 ∧ clean_field (Province v) 128 ∧ clean_field (Locality v) 128 ∧
  clean_field (CommonName v) 253 ∧
  (Country v = "" ∨ slen (Country v) = 2%nat ∧ asciiLetters (Country v) = true).

Lemma normalizeIdentity_fix v : normal_identity v → normalizeIdentity v = inr v.
Proof.
  intros ((T1 & C1 & L1) & (T2 & C2 & L2) & (T3 & C3 & L3) & (T4 & C4 & L4) & (T5 & C5 & L5)
    & (T6 & C6 & L6) & Hc).
  unfold normalizeIdentity. rewrite T1, T2, T3, T4, T5, T6.
  rewrite (proj2 (check_fields_None _)) by (rewrite !Forall_cons; cbn [fst snd]; split_and!; done).
  destruct v as [o ou c p l cn]. cbn in *.
  destruct Hc as [->|[-> ->]]; [done|]. by rewrite andb_false_r.
Qed.

Lemma normalizeIdentity_normal v v' : normalizeIdentity v = inr v' → normal_identity v'.
Proof.
  unfold normalizeIdentity.
  destruct (check_fields _) eqn:E; [done|]. apply check_fields_None in E.
  rewrite !Forall_cons in E. cbn in E.
  destruct (negb _ && _) eqn:Ec; [done|]. intros [= <-]. cbn in *.
  destruct E as ([? ?] & [? ?] & [? ?] & [? ?] & [? ?] & [? ?] & _).
  repeat split; cbn; try done; try apply TrimSpace_idem.
  apply andb_false_iff in Ec as [Ec|Ec].
  - left. apply negb_false_iff in Ec. by apply String.eqb_eq.
  - right. apply orb_false_iff in Ec as [E1 E2]. apply negb_false_iff in E1, E2.
    by apply Nat.eqb_eq in E1.
Qed.

(** [normalizeIdentity] returns a fixed point: the fields are trimmed, free of
    control characters and within their limits, the country is empty or two
    ASCII letters, and a stored identity normalises to itself. *)
Theorem normalizeIdentity_spec v v' :
  normalizeIdentity v = inr v' → normal_identity v' ∧ normalizeIdentity v' = inr v'.
Proof.
  intros Hv%normalizeIdentity_normal. split; [done|by apply normalizeIdentity_fix].
Qed.

Lemma normalizeIdentity_spec_witness :
  let v := Build_Identity "  Example " "" " is" "" "" "ca" in
  normalizeIdentity v = inr (Build_Identity "Example" "" "is" "" "" "ca") ∧
  normal_identity (Build_Identity "Example" "" "is" "" "" "ca").
Proof.
  intros v. assert (normalizeIdentity v = inr (Build_Identity "Example" "" "is" "" "" "ca")) as E
    by (vm_compute; reflexivity).
  split; [exact E|]. exact (proj1 (normalizeIdentity_spec _ _ E)).
Defined.

(** ** DNS names *)

Lemma label_rune_high r : 128 ≤ r → label_rune r = false.
Proof.
  intros Hr. unfold label_rune. apply negb_false_iff.
  rewrite !andb_true_iff, !orb_true_iff, negb_true_iff, !Z.ltb_lt, Z.eqb_neq. lia.
Qed.

Lemma label_rune_ascii c :
  label_rune (ord c) = true → alnum c = true ∨ ord c = 45.
Proof.
  rewrite alnum_iff. unfold label_rune. rewrite negb_true_iff, <- not_true_iff_false.
  rewrite !andb_true_iff, !orb_true_iff, negb_true_iff, !Z.ltb_lt, Z.eqb_neq. lia.
Qed.

Lemma valid_label_spec l :
  valid_label l = true →
  l ≠ "" ∧ (slen l ≤ 63)%nat ∧ HasSuffix l "-" = false ∧
  Forall (λ c, alnum c = true ∨ ord c = 45) (chars l).
Proof.
  unfold valid_label. intros [Hn Hl]%andb_true_iff.
  apply negb_true_iff in Hn. rewrite !orb_false_iff in Hn. destruct Hn as [[[H1 H2] H3] H4].
  rewrite forallb_runes_ascii in Hl by apply label_rune_high. rewrite forallb_Forall in Hl.
  split_and!.
  - intros ->. done.
  - apply Nat.ltb_ge in H2. done.
  - done.
  - eapply Forall_impl; [exact Hl|]. apply label_rune_ascii.
Qed.

(** A name whose labels are valid is made of letters, digits, dashes and dots,
    and ends with a letter or a digit. *)
Definition dns_char (c : ascii) : Prop := alnum c = true ∨ ord c = 45 ∨ ord c = 46.

Lemma valid_labels_chars name :
  forallb valid_label (Split name ".") = true → Forall dns_char (chars name).
Proof.
  rewrite forallb_Forall. intros Hl. rewrite <- (Join_Split name ".").
  apply Forall_forall. intros c [Hc|(w & Hw & Hc)]%chars_Join.
  - apply list_elem_of_singleton in Hc as ->. by right; right.
  - rewrite Forall_forall in Hl. destruct (valid_label_spec w (Hl w Hw)) as (_ & _ & _ & Hch).
    rewrite Forall_forall in Hch. destruct (Hch c Hc); [by left|by right; left].
Qed.

Lemma Split_last s d : ∃ l w, Split s d = l ++ [w] ∧ ∃ p, s = p +:+ w.
Proof.
  induction s as [|c s IH]; cbn [Split]; [exists [], ""; split; [done|by exists ""]|].
  destruct IH as (l & w & E & p & Es). destruct (Ascii.eqb c d).
  - rewrite E. exists ("" :: l), w. split; [done|]. exists (String c p). by rewrite Es at 1.
  - rewrite E. destruct l as [|v l].
    + cbn in E. exists [], (String c w). split; [done|]. exists "".
      assert (w = s) as -> by (rewrite <- (Join_Split s d), E; done). done.
    + exists (String c v :: l), w. split; [done|]. exists (String c p). by rewrite Es at 1.
Qed.

Lemma valid_labels_last name :
  forallb valid_label (Split name ".") = true →
  ∃ p c, name = p +:+ String c "" ∧ alnum c = true.
Proof.
  rewrite forallb_Forall. destruct (Split_last name ".") as (l & w & E & p & Es). rewrite E.
  rewrite Forall_app, Forall_cons. intros (_ & Hw & _).
  destruct (valid_label_spec w Hw) as (Hne & _ & Hsuf & Hch).
  assert (∃ w' c, w = w' +:+ String c "") as (w' & c & ->).
  { clear -Hne. induction w as [|c w IH]; [done|]. destruct (decide (w = "")) as [->|Hn].
    - by exists "", c.
    - destruct (IH Hn) as (w' & c' & ->). by exists (String c w'), c'. }
  exists (p +:+ w'), c. split; [by rewrite Es, sapp_assoc|].
  rewrite chars_app, Forall_app in Hch. destruct Hch as [_ Hc]. apply Forall_cons in Hc as [[Hc|Hc] _]; [done|].
  exfalso. assert (c = "-"%char) as -> by (apply (inj ord); exact Hc).
  by rewrite HasSuffix_app in Hsuf.
Qed.

Lemma validDNSName_spec name b :
  validDNSName name b = true →
  Forall (λ c, dns_char c ∨ ord c = 42) (chars name) ∧ ∃ p c, name = p +:+ String c "" ∧ alnum c = true.
Proof.
  unfold validDNSName. destruct (_ || _); [|done].
  destruct (b && HasPrefix name "*.") eqn:Hw.
  - apply andb_true_iff in Hw as [_ Hp]. apply HasPrefix_spec in Hp as [t ->].
    rewrite TrimPrefix_app. destruct (_ || _); [done|]. intros Hl.
    split.
    + change (chars ("*." +:+ t)) with ("*"%char :: "."%char :: chars t).
      constructor; [by right|]. constructor; [left; by right; right|].
      eapply Forall_impl; [by apply valid_labels_chars|]. by left.
    + destruct (valid_labels_last t Hl) as (p & c & -> & ?). by exists ("*." +:+ p), c.
  - destruct (_ || _); [done|]. intros Hl. split; [|by apply valid_labels_last].
    eapply Forall_impl; [by apply valid_labels_chars|]. by left.
Qed.

Lemma dns_char_graphic c : dns_char c ∨ ord c = 42 → 33 ≤ ord c ≤ 126.
Proof. unfold dns_char. rewrite alnum_iff. lia. Qed.

Lemma graphic_trimmed s : Forall (λ c, 33 ≤ ord c ≤ 126) (chars s) → TrimSpace s = s.
Proof.
  intros Hs. apply TrimSpace_trimmed. rewrite chunks_ascii by (eapply Forall_impl; [exact Hs|cbn; lia]).
  split.
  - destruct (chars s) as [|c l]; [done|]. apply Forall_cons in Hs as [? _]. cbn. by apply IsSpace_graphic.
  - rewrite <- fmap_reverse. apply Forall_reverse in Hs. destruct (reverse (chars s)) as [|c l]; [done|].
    apply Forall_cons in Hs as [? _]. cbn. by apply IsSpace_graphic.
Qed.

Lemma validDNSName_trimmed name b : validDNSName name b = true → TrimSpace name = name.
Proof.
  intros [Hc _]%validDNSName_spec. apply graphic_trimmed.
  eapply Forall_impl; [exact Hc|]. apply dns_char_graphic.
Qed.

Lemma HasSuffix_last p c d : HasSuffix (p +:+ String c "") (String d "") = Ascii.eqb c d.
Proof.
  unfold HasSuffix. rewrite slen_app. cbn [slen String.length].
  replace (slen p + 1 - 1)%nat with (slen p) by lia. rewrite sdrop_app.
  rewrite (proj2 (Nat.leb_le _ _)) by lia. cbn. by destruct (Ascii.eqb c d).
Qed.

Lemma validDNSName_no_dot name b : validDNSName name b = true → TrimSuffix name "." = name.
Proof.
  intros [_ (p & c & -> & Hc)]%validDNSName_spec. unfold TrimSuffix. rewrite HasSuffix_last.
  destruct (Ascii.eqb_spec c ".") as [->|]; done.
Qed.

(** ** Subject alternative names *)

Lemma existsb_eqb_false x l : existsb (String.eqb x) l = false ↔ x ∉ l.
Proof.
  rewrite <- not_true_iff_false, existsb_elem_of. split.
  - intros H Hx. apply H. exists x. split; [done|apply String.eqb_refl].
  - intros H (y & Hy & ->%String.eqb_eq). done.
Qed.

(** The four loops have one shape: every element is normal, and its key is new. *)
Section san_loop.
Context {A : Type} (key : A → string) (normal : A → Prop).
Inductive fresh_keys : list A → list string → Prop :=
  | fresh_nil seen : fresh_keys [] seen
  | fresh_cons x l seen :
      normal x → key x ∉ seen → fresh_keys l (key x :: seen) → fresh_keys (x :: l) seen.

Lemma fresh_keys_spec l seen :
  fresh_keys l seen → Forall normal l ∧ NoDup (map key l) ∧ ∀ x, x ∈ map key l → x ∉ seen.
Proof.
  induction 1 as [seen|x l seen Hx Hk _ (IH1 & IH2 & IH3)]; cbn.
  - split_and!; [constructor|constructor|]. intros x Hx. by apply elem_of_nil in Hx.
  - split_and!; [by constructor| |].
    + constructor; [|done]. intros Hin. apply (IH3 (key x)); [done|left].
    + intros y [->|Hy]%elem_of_cons; [done|]. intros Hs. apply (IH3 y); [done|by right].
Qed.
End san_loop.

Section sans.
Context `{UnicodeLaws}.

Definition normal_dns (d : string) : Prop :=
  validDNSName d true = true ∧ ToLower (TrimSuffix (TrimSpace d) ".") = d.
Definition normal_ip (ip : IP) : Prop := (String.eqb ip "" || To16_nil ip) = false.
Definition normal_uri (u : option URL) : Prop :=
  match u with
  | None => False
  | Some u => (String.eqb (Scheme u) "" || String.eqb (URL_String u) "" || has_control (URL_String u)) = false
  end.
Definition normal_email (e : string) : Prop := bad_email e = false ∧ TrimSpace e = e.
Definition uri_key (u : option URL) : string := from_option URL_String "" u.

Lemma dns_fresh l seen out : normalize_dns l seen = inr out → fresh_keys id normal_dns out seen.
Proof.
  revert seen out. induction l as [|d l IH]; intros seen out; cbn [normalize_dns].
  - intros [= <-]. constructor.
  - set (d' := ToLower _). destruct (validDNSName d' true) eqn:Ev; [|done]. cbn [negb].
    destruct (existsb _ seen) eqn:Es; [done|]. apply existsb_eqb_false in Es.
    destruct (normalize_dns l _) as [|o] eqn:E; [done|]. intros [= <-].
    constructor; [|done|by apply IH]. split; [done|].
    rewrite (validDNSName_trimmed _ _ Ev), (validDNSName_no_dot _ _ Ev). apply ToLower_idem.
Qed.
Lemma dns_fix l seen : fresh_keys id normal_dns l seen → normalize_dns l seen = inr l.
Proof.
  induction 1 as [|d l seen [Hv Hd] Hk _ IH]; [done|]. cbn [normalize_dns].
  rewrite Hd, Hv. rewrite (proj2 (existsb_eqb_false d seen)) by exact Hk.
  cbn [negb]. unfold id in IH. by rewrite IH.
Qed.

Lemma ips_fresh l seen out : normalize_ips l seen = inr out → fresh_keys IP_String normal_ip out seen ∧ out = l.
Proof.
  revert seen out. induction l as [|ip l IH]; intros seen out; cbn [normalize_ips].
  - intros [= <-]. split; [constructor|done].
  - destruct (_ || _) eqn:Ev; [done|]. destruct (existsb _ seen) eqn:Es; [done|].
    apply existsb_eqb_false in Es. destruct (normalize_ips l _) as [|o] eqn:E; [done|]. intros [= <-].
    destruct (IH _ _ E) as [? ->]. split; [by constructor|done].
Qed.
Lemma ips_fix l seen : fresh_keys IP_String normal_ip l seen → normalize_ips l seen = inr l.
Proof.
  induction 1 as [|ip l seen Hv Hk _ IH]; [done|]. cbn [normalize_ips]. rewrite Hv.
  rewrite (proj2 (existsb_eqb_false _ seen)) by exact Hk. by rewrite IH.
Qed.

Lemma uris_fresh l seen out : normalize_uris l seen = inr out → fresh_keys uri_key normal_uri out seen ∧ out = l.
Proof.
  revert seen out. induction l as [|[u|] l IH]; intros seen out; cbn [normalize_uris].
  - intros [= <-]. split; [constructor|done].
  - destruct (_ || _) eqn:Ev; [done|]. destruct (existsb _ seen) eqn:Es; [done|].
    apply existsb_eqb_false in Es. destruct (normalize_uris l _) as [|o] eqn:E; [done|]. intros [= <-].
    destruct (IH _ _ E) as [? ->]. split; [by constructor|done].
  - done.
Qed.
Lemma uris_fix l seen : fresh_keys uri_key normal_uri l seen → normalize_uris l seen = inr l.
Proof.
  induction 1 as [|u l seen Hv Hk _ IH]; [done|]. destruct u as [u|]; [|done].
  cbn [normalize_uris]. cbn in Hv. rewrite Hv.
  rewrite (proj2 (existsb_eqb_false _ seen)) by exact Hk. cbn in IH. by rewrite IH.
Qed.

Lemma emails_fresh l seen out : normalize_emails l seen = inr out → fresh_keys ToLower normal_email out seen.
Proof.
  revert seen out. induction l as [|e l IH]; intros seen out; cbn [normalize_emails].
  - intros [= <-]. constructor.
  - destruct (bad_email _) eqn:Ev; [done|]. destruct (existsb _ seen) eqn:Es; [done|].
    apply existsb_eqb_false in Es. destruct (normalize_emails l _) as [|o] eqn:E; [done|]. intros [= <-].
    constructor; [|done|by apply IH]. split; [done|apply TrimSpace_idem].
Qed.
Lemma emails_fix l seen : fresh_keys ToLower normal_email l seen → normalize_emails l seen = inr l.
Proof.
  induction 1 as [|e l seen [Hv He] Hk _ IH]; [done|]. cbn [normalize_emails]. rewrite He, Hv.
  rewrite (proj2 (existsb_eqb_false _ seen)) by exact Hk. by rewrite IH.
Qed.

Definition normal_SANs (s : SANs) : Prop :=
  fresh_keys id normal_dns (DNSNames s) [] ∧ fresh_keys IP_String normal_ip (IPAddresses s) [] ∧
  fresh_keys uri_key normal_uri (URIs s) [] ∧ fresh_keys ToLower normal_email (EmailAddresses s) [].

Lemma normalizeSANs_normal s s' : normalizeSANs s = inr s' → normal_SANs s'.
Proof.
  unfold normalizeSANs.
  destruct (normalize_dns _ _) eqn:E1; [done|]. destruct (normalize_ips _ _) eqn:E2; [done|].
  destruct (normalize_uris _ _) eqn:E3; [done|]. destruct (normalize_emails _ _) eqn:E4; [done|].
  intros [= <-]. split_and!; cbn.
  - by eapply dns_fresh.
  - by eapply ips_fresh.
  - by eapply uris_fresh.
  - by eapply emails_fresh.
Qed.

Lemma normalizeSANs_fix s : normal_SANs s → normalizeSANs s = inr s.
Proof.
  intros (H1 & H2 & H3 & H4). unfold normalizeSANs.
  rewrite dns_fix, ips_fix, uris_fix, emails_fix by done. by destruct s.
Qed.

(** normalised names are a fixed point of [normalizeSANs]; every DNS name
    is valid and lower-case, and no DNS name, address (in text form), URI or
    email address (ignoring case) occurs twice. *)
Theorem normalizeSANs_spec s s' :
  normalizeSANs s = inr s' →
  normalizeSANs s' = inr s' ∧
  Forall (λ d, validDNSName d true = true ∧ ToLower d = d) (DNSNames s') ∧
  NoDup (DNSNames s') ∧ NoDup (map IP_String (IPAddresses s')) ∧
  NoDup (map uri_key (URIs s')) ∧ NoDup (map ToLower (EmailAddresses s')).
Proof.
  intros Hs%normalizeSANs_normal. split; [by apply normalizeSANs_fix|].
  destruct Hs as (H1 & H2 & H3 & H4).
  apply fresh_keys_spec in H1 as (H1 & N1 & _). apply fresh_keys_spec in H2 as (_ & N2 & _).
  apply fresh_keys_spec in H3 as (_ & N3 & _). apply fresh_keys_spec in H4 as (_ & N4 & _).
  split_and!; [|by rewrite map_id in N1|done..].
  eapply Forall_impl; [exact H1|]. intros d [Hv Hd]. split; [done|].
  by rewrite (validDNSName_trimmed _ _ Hv), (validDNSName_no_dot _ _ Hv) in Hd.
Qed.
End sans.

Lemma normalizeSANs_spec_witness :
  let U := ascii_tables in
  let s := Build_SANs [" API.Example.com."] [unchars (map chr [10; 0; 0; 1])] [] ["a@example.com"] in
  normalizeSANs s = inr (Build_SANs ["api.example.com"] [unchars (map chr [10; 0; 0; 1])] [] ["a@example.com"]) ∧
  NoDup ["api.example.com"].
Proof.
  intros U s. assert (normalizeSANs s = inr (Build_SANs ["api.example.com"]
    [unchars (map chr [10; 0; 0; 1])] [] ["a@example.com"])) as E by (vm_compute; reflexivity).
  split; [exact E|].
  destruct (@normalizeSANs_spec ascii_tables ascii_tables_laws _ _ E) as (_ & _ & Hn & _). exact Hn.
Defined.
