(* ===== verification/CertsCrypto.v ===== *)
(** * Certificates and keys

    [crypto/x509], [encoding/pem] and the PKCS#8 package are parameters: the
    class [Crypto] has the functions that compute, the class [Env] those that
    draw on the clock or on randomness, and [CryptoLaws] states what the
    documentation of those packages says and the program relies on.  On top of
    them stand the helpers of [crypto.go], [csr.go] and [authority.go] that
    build names and keys. *)
From S2P Require Import Prelude.
From S2P Require Import GoStrings.
From S2P Require Import Utf8.
From S2P Require Import Errors.
From S2P Require Import GoNet.
From S2P Require Import CertsTypes.
From S2P Require Import CertsNames.
#[local] Open Scope stdpp_scope.
#[local] Open Scope Z_scope.

(** ** Data *)

Inductive Curve := P256 | P384 | OtherCurve.
Inductive PublicKey :=
  | EcdsaKey (curve : Curve) (data : string)
  | Ed25519Key (data : string)
  | RsaKey (bits : Z) (data : string)
  | OtherKey (data : string).

(** [pkix.Name]; [n_Names] counts the attributes found by the parser. *)
Record Name := {
  n_Organization : list string;
  n_OrganizationalUnit : list string;
  n_Country : list string;
  n_Province : list string;
  n_Locality : list string;
  n_StreetAddress : list string;
  n_PostalCode : list string;
  n_SerialNumber : string;
  n_CommonName : string;
  n_Names : Z;
}.

(** The fields of [x509.Certificate] that the program sets or reads. *)
Record Certificate := {
  Raw : string;
  RawSubject : string;
  RawIssuer : string;
  Subject : Name;
  SerialNumber : Z;
  NotBefore : Time;
  NotAfter : Time;
  IsCA : bool;
  BasicConstraintsValid : bool;
  MaxPathLen : Z;
  MaxPathLenZero : bool;
  KeyUsage : Z;
  ExtKeyUsage : list Z;
  cert_PublicKey : PublicKey;
  SubjectKeyId : string;
  AuthorityKeyId : string;
  cert_SANs : SANs;
}.

Record CertificateRequest := {
  csr_Subject : Name;
  csr_PublicKey : PublicKey;
  csr_Extensions : list (list Z);
  csr_names : SANs;
}.

#[global] Instance Curve_eq_dec : EqDecision Curve.
Proof. solve_decision. Defined.
#[global] Instance PublicKey_eq_dec : EqDecision PublicKey.
Proof. solve_decision. Defined.
#[global] Instance Name_eq_dec : EqDecision Name.
Proof. solve_decision. Defined.
#[global] Instance Certificate_eq_dec : EqDecision Certificate.
Proof. solve_decision. Defined.

(** ** What is not computed here *)

Class Crypto := {
  Signer : Type;
  Public : Signer → PublicKey;
  x509_ParseCertificate : string → sys_error + Certificate;
  x509_ParseCertificates : string → sys_error + list Certificate;
  x509_ParseCertificateRequest : string → sys_error + CertificateRequest;
  (** [CheckSignatureFrom child parent]; [None] is the nil error. *)
  CheckSignatureFrom : Certificate → Certificate → option sys_error;
  csr_CheckSignature : CertificateRequest → option sys_error;
  MarshalPKIXPublicKey : PublicKey → sys_error + string;
  MarshalPKCS8PrivateKey : Signer → sys_error + string;
  (** A parsed key that cannot sign is [None]. *)
  x509_ParsePKCS8PrivateKey : string → sys_error + option Signer;
  pkcs8_ParsePKCS8PrivateKey : string → string → sys_error + option Signer;
  sha1 : string → string;
  sha256 : string → string;
  (** Type, bytes and rest of the first block. *)
  pem_Decode : string → option (string * string * string);
  pem_Encode : string → string → string;
  (** What parsing makes of the text of a URI name, if it is accepted. *)
  x509_parseURI : string → option URL;
  (** [pkix.Name.String], used in error values only. *)
  Name_String : Name → string;
}.

(** Calls that read the clock or the random source; the number is that of the
    call. *)
Class Env `{Crypto} := {
  env_now : nat → Time;
  env_rand : nat → Z → sys_error + string;
  env_GenerateKey : nat → KeySpec → sys_error + Signer;
  env_CreateCertificate : nat → Certificate → Certificate → PublicKey → Signer → sys_error + string;
  (** A certificate request for a subject and alternative names. *)
  env_CreateCertificateRequest : nat → Name → SANs → Signer → sys_error + string;
  env_pkcs8_MarshalPrivateKey : nat → Signer → string → sys_error + string;
}.

(** ** crypto.go *)
Section crypto.
Context `{Crypto}.

Definition supportedPublicKey (pub : PublicKey) : option error :=
  match pub with
  | EcdsaKey P256 _ | EcdsaKey P384 _ => None
  | EcdsaKey OtherCurve _ => Some (invalid "unsupported ECDSA curve" None)
  | Ed25519Key k =>
      if negb (Nat.eqb (slen k) 32) then Some (invalid "invalid Ed25519 public key" None) else None
  | RsaKey bits _ =>
      if negb (bits =? 3072) && negb (bits =? 4096)
      then Some (invalid "RSA keys must be 3072 or 4096 bits" None) else None
  | OtherKey _ => Some (invalid "unsupported public key" None)
  end.

Definition keySpecForPublic (pub : PublicKey) : error + KeySpec :=
  match pub with
  | EcdsaKey P256 _ => inr ECDSAP256
  | EcdsaKey P384 _ => inr ECDSAP384
  | Ed25519Key k =>
      if Nat.eqb (slen k) 32 then inr Ed25519 else inl (invalid "unsupported public key" None)
  | RsaKey bits _ =>
      if bits =? 3072 then inr RSA3072 else if bits =? 4096 then inr RSA4096
      else inl (invalid "unsupported public key" None)
  | _ => inl (invalid "unsupported public key" None)
  end.

Definition parseCertDER (der : string) : error + Certificate :=
  match x509_ParseCertificate der with
  | inl e => inl (corrupt "invalid certificate DER" (Some (Sys e)))
  | inr c => inr c
  end.

Definition parseKeyDER (der passphrase : string) : error + Signer :=
  match (if String.eqb passphrase "" then x509_ParsePKCS8PrivateKey der
         else pkcs8_ParsePKCS8PrivateKey der passphrase) with
  | inl e => inl (corrupt "invalid PKCS#8 private key" (Some (Sys e)))
  | inr None => inl (corrupt "private key cannot sign" None)
  | inr (Some s) =>
      match supportedPublicKey (Public s) with
      | Some e => inl e
      | None => inr s
      end
  end.

(** Whether nothing but white space is left, [len(bytes.TrimSpace(rest)) == 0]. *)
Definition blank (rest : string) : bool := String.eqb (TrimSpace rest) "".

Definition parseKeyPEM (data passphrase : string) : error + Signer :=
  match pem_Decode data with
  | None => inl (corrupt "private key PEM must contain exactly one block" None)
  | Some (type, bytes, rest) =>
      if negb (blank rest) then inl (corrupt "private key PEM must contain exactly one block" None)
      else if String.eqb type "PRIVATE KEY" then
        if negb (String.eqb passphrase "")
        then inl (invalid "passphrase supplied for an unencrypted key" None)
        else parseKeyDER bytes ""
      else if String.eqb type "ENCRYPTED PRIVATE KEY" then
        if String.eqb passphrase "" then inl (NotFoundError "private key passphrase" None)
        else parseKeyDER bytes passphrase
      else inl (corrupt "unsupported private key PEM block" None)
  end.

Definition publicKeysEqual (a b : PublicKey) : bool :=
  match MarshalPKIXPublicKey a, MarshalPKIXPublicKey b with
  | inr aa, inr bb => String.eqb aa bb
  | _, _ => false
  end.

Definition subjectKeyID (pub : PublicKey) : error + string :=
  match MarshalPKIXPublicKey pub with
  | inl e => inl (Sys e)
  | inr der => inr (sha1 der)
  end.

Definition fingerprint (cert : Certificate) : string := HexEncode (sha256 (Raw cert)).
End crypto.

(** [randomSerial]: 20 bytes with the two top bits forced to 01. *)
Definition serial_of_bytes (b : string) : Z :=
  match b with
  | EmptyString => 0
  | String c b' => be_number (String (chr (Z.lor (Z.land (ord c) 127) 64)) b')
  end.

(** [randomID]: the version and variant bits of byte 6 and byte 8. *)
Definition set_byte (i : nat) (f : Z → Z) (s : string) : string :=
  unchars (alter (λ c, chr (f (ord c))) i (chars s)).
Definition id_of_bytes (b : string) : string :=
  HexEncode (set_byte 8 (λ x, Z.lor (Z.land x 63) 128) (set_byte 6 (λ x, Z.lor (Z.land x 15) 64) b)).

(** ** Names *)

Definition first (v : list string) : string := match v with [] => "" | x :: _ => x end.
Definition nonempty (v : string) : list string := if String.eqb v "" then [] else [v].

Definition identityName (v : Identity) : Name := {|
  n_Organization := nonempty (Organization v);
  n_OrganizationalUnit := nonempty (OrganizationalUnit v);
  n_Country := nonempty (Country v);
  n_Province := nonempty (Province v);
  n_Locality := nonempty (Locality v);
  n_StreetAddress := []; n_PostalCode := []; n_SerialNumber := "";
  n_CommonName := CommonName v; n_Names := 0 |}.

Definition identityFromName (v : Name) : Identity := {|
  Organization := first (n_Organization v);
  OrganizationalUnit := first (n_OrganizationalUnit v);
  Country := first (n_Country v);
  Province := first (n_Province v);
  Locality := first (n_Locality v);
  CommonName := n_CommonName v |}.

Definition identityFromCAName (n : Name) : Identity := {|
  Organization := first (n_Organization n);
  OrganizationalUnit := first (n_OrganizationalUnit n);
  Country := first (n_Country n);
  Province := first (n_Province n);
  Locality := first (n_Locality n);
  CommonName := "" |}.

Definition caName (identity : Identity) (cn : string) : Name :=
  let n := identityName identity in
  {| n_Organization := n_Organization n; n_OrganizationalUnit := n_OrganizationalUnit n;
     n_Country := n_Country n; n_Province := n_Province n; n_Locality := n_Locality n;
     n_StreetAddress := []; n_PostalCode := []; n_SerialNumber := "";
     n_CommonName := cn; n_Names := 0 |}.

Definition rootCommonName (name : string) (g : Z) : string :=
  name +:+ " G" +:+ Itoa g +:+ " Root CA".
Definition issuerCommonName (authority : string) (g : Z) (name : string) (v : Z) : string :=
  authority +:+ " G" +:+ Itoa g +:+ " " +:+ name +:+ " Issuer V" +:+ Itoa v.

(** ** Laws *)

Definition truncate_second (t : Time) : Time := t / Second * Second.

(** The attributes that survive encoding and parsing of a name. *)
Definition same_name (a b : Name) : Prop :=
  n_Organization a = n_Organization b ∧ n_OrganizationalUnit a = n_OrganizationalUnit b ∧
  n_Country a = n_Country b ∧ n_Province a = n_Province b ∧ n_Locality a = n_Locality b ∧
  n_CommonName a = n_CommonName b.

Section names_read.
Context `{Crypto}.

(** A URI name is encoded as its text, which is parsed again. *)
Definition uri_read (u v : option URL) : Prop :=
  ∃ a b, u = Some a ∧ v = Some b ∧ x509_parseURI (URL_String a) = Some b.
(** Encoded names as they are parsed: an IPv4 address is encoded in its short form. *)
Record names_read (s s' : SANs) : Prop := {
  read_dns : DNSNames s' = DNSNames s;
  read_ips : IPAddresses s' = map canonical (IPAddresses s);
  read_uris : Forall2 uri_read (URIs s) (URIs s');
  read_emails : EmailAddresses s' = EmailAddresses s;
}.

(** URIs that are parsed to what they are, and names with addresses in short form. *)
Definition uri_kept (u : option URL) : Prop := ∃ a, u = Some a ∧ x509_parseURI (URL_String a) = Some a.
Definition short_names (s : SANs) : SANs :=
  Build_SANs (DNSNames s) (map canonical (IPAddresses s)) (URIs s) (EmailAddresses s).

Lemma names_kept s s' : Forall uri_kept (URIs s) → names_read s s' → s' = short_names s.
Proof.
  intros Hk [Hd Hi Hu He]. destruct s' as [d i u e]. unfold short_names. cbn in *. subst. f_equal.
  induction Hu as [|x y l l' (a & b & -> & -> & E) _ IH]; [done|]. apply Forall_cons in Hk as [(a' & [= <-] & E') Hk].
  rewrite IH by done. congruence.
Qed.
End names_read.

(** A parsed certificate [c] that was made from the template [t]. *)
Record created_from `{Crypto} (t : Certificate) (pub : PublicKey) (der : string) (c : Certificate) : Prop := {
  created_raw : Raw c = der;
  created_subject : same_name (Subject c) (Subject t);
  created_serial : SerialNumber c = SerialNumber t;
  created_not_before : NotBefore c = truncate_second (NotBefore t);
  created_not_after : NotAfter c = truncate_second (NotAfter t);
  created_ca : IsCA c = IsCA t;
  created_constraints : BasicConstraintsValid c = BasicConstraintsValid t;
  created_path_len : MaxPathLen t ≠ 0 ∨ MaxPathLenZero t = true →
    MaxPathLen c = MaxPathLen t ∧ MaxPathLenZero c = MaxPathLenZero t;
  created_key_usage : KeyUsage c = KeyUsage t;
  created_ext_key_usage : ExtKeyUsage c = ExtKeyUsage t;
  created_public_key : cert_PublicKey c = pub;
  created_sans : names_read (cert_SANs t) (cert_SANs c);
}.

(** The number of attributes of a parsed name is the number of its values. *)
Definition plain_name (n : Name) : Prop :=
  n_StreetAddress n = [] ∧ n_PostalCode n = [] ∧ n_SerialNumber n = "" ∧
  n_Names n ≤ Z.of_nat (length (n_Organization n) + length (n_OrganizationalUnit n) + length (n_Country n) +
    length (n_Province n) + length (n_Locality n)) + (if String.eqb (n_CommonName n) "" then 0 else 1).

(** A parsed request that was made for [subject] and [names]. *)
Record request_from `{Crypto} (subject : Name) (names : SANs) (pub : PublicKey) (r : CertificateRequest) : Prop := {
  request_subject : same_name (csr_Subject r) subject;
  request_plain : plain_name (csr_Subject r);
  request_key : csr_PublicKey r = pub;
  request_names : names_read names (csr_names r);
  request_extensions : Forall (λ id, id = [2; 5; 29; 17]) (csr_Extensions r);
}.

Definition ca_capable (c : Certificate) : Prop :=
  IsCA c = true ∧ BasicConstraintsValid c = true ∧ Z.land (KeyUsage c) KeyUsageCertSign ≠ 0.

(** The block types that the program writes. *)
Definition pem_types : list string :=
  ["PRIVATE KEY"; "ENCRYPTED PRIVATE KEY"; "CERTIFICATE"; "CERTIFICATE REQUEST"].

Class CryptoLaws `{Env} := {
  (** A certificate that was created and parsed is that of its template, and its
      signature verifies against every CA certificate with the signing key. *)
  create_parse t template parent pub signer der c :
    env_CreateCertificate t template parent pub signer = inr der → x509_ParseCertificate der = inr c →
    created_from template pub der c ∧
      ∀ p, ca_capable p → cert_PublicKey p = Public signer → CheckSignatureFrom c p = None;
  (** The issuer of a created certificate is the subject of its parent. *)
  create_issuer t template parent pub signer der c :
    env_CreateCertificate t template parent pub signer = inr der → x509_ParseCertificate der = inr c →
    RawSubject parent ≠ "" → RawIssuer c = RawSubject parent;
  (** A certificate that is no CA by its constraints signs nothing. *)
  check_ca c p : CheckSignatureFrom c p = None → BasicConstraintsValid p = true → IsCA p = true;
  (** A request that was created and parsed has what it was made of, its signature
      verifies, and its only extension is that of the alternative names. *)
  request_parse t subject names key der r :
    env_CreateCertificateRequest t subject names key = inr der → x509_ParseCertificateRequest der = inr r →
    csr_CheckSignature r = None ∧ request_from subject names (Public key) r;
  (** Nothing is no request. *)
  request_empty r : x509_ParseCertificateRequest "" ≠ inr r;
  (** Key generation gives a key of the requested specification. *)
  generate_spec t spec key :
    env_GenerateKey t spec = inr key → keySpecForPublic (Public key) = inr spec;
  (** Encoded keys are not empty and are read back with the same public key. *)
  marshal_parse key der :
    MarshalPKCS8PrivateKey key = inr der → der ≠ "" ∧
    ∃ key', x509_ParsePKCS8PrivateKey der = inr (Some key') ∧ Public key' = Public key;
  encrypt_parse t key secret der :
    secret ≠ "" → env_pkcs8_MarshalPrivateKey t key secret = inr der → der ≠ "" ∧
    ∃ key', pkcs8_ParsePKCS8PrivateKey der secret = inr (Some key') ∧ Public key' = Public key;
  (** Supported public keys have an encoding. *)
  marshal_public pub : supportedPublicKey pub = None → ∃ der, MarshalPKIXPublicKey pub = inr der;
  (** The encoding of a public key determines it. *)
  marshal_inj a b der : MarshalPKIXPublicKey a = inr der → MarshalPKIXPublicKey b = inr der → a = b;
  rand_length t n b : env_rand t n = inr b → Z.of_nat (slen b) = n;
  (** A parsed certificate keeps its encoding, and parsing a sequence of
      certificates agrees with parsing one. *)
  parse_raw der c : x509_ParseCertificate der = inr c → Raw c = der;
  parse_sequence der c : x509_ParseCertificate der = inr c → x509_ParseCertificates der = inr [c];
  (** Decoding a block consumes input. *)
  pem_shorter s type bytes rest : pem_Decode s = Some (type, bytes, rest) → (slen rest < slen s)%nat;
  (** A block starts with a visible character. *)
  pem_head type bytes : type ∈ pem_types → ∃ c s, pem_Encode type bytes = String c s ∧ 33 ≤ ord c ≤ 126;
  (** A block that was encoded is decoded again, and what follows it is left. *)
  pem_round type bytes rest : type ∈ pem_types →
    pem_Decode (pem_Encode type bytes +:+ rest) = Some (type, bytes, rest);
}.

Lemma pem_round_nil `{CryptoLaws} type bytes :
  type ∈ pem_types → pem_Decode (pem_Encode type bytes) = Some (type, bytes, "").
Proof. intros Ht. rewrite <- (sapp_nil_r (pem_Encode type bytes)). by apply pem_round. Qed.

Section crypto_facts.
Context `{Crypto}.

Lemma spec_supported pub spec : keySpecForPublic pub = inr spec → supportedPublicKey pub = None.
Proof.
  destruct pub as [[]| | |]; cbn; intros E; repeat case_match; simplify_eq; try done.
  all: repeat match goal with H : (_ =? _)%nat = _ |- _ => rewrite H in * end; try done.
  all: bool_simpl; congruence.
Qed.

Lemma identity_name_round v : identityFromName (identityName v) = v.
Proof.
  destruct v as [a b c d e f]. unfold identityFromName, identityName, nonempty. cbn.
  repeat match goal with |- context [String.eqb ?x ""] => destruct (String.eqb_spec x "") end;
    subst; done.
Qed.

Lemma same_name_identity a b : same_name a b → identityFromName a = identityFromName b.
Proof. intros (E1 & E2 & E3 & E4 & E5 & E6). unfold identityFromName. by rewrite E1, E2, E3, E4, E5, E6. Qed.

Lemma same_name_ca a b : same_name a b → identityFromCAName a = identityFromCAName b.
Proof. intros (E1 & E2 & E3 & E4 & E5 & E6). unfold identityFromCAName. by rewrite E1, E2, E3, E4, E5. Qed.

Lemma caName_identity v cn :
  identityFromCAName (caName v cn) =
  Build_Identity (Organization v) (OrganizationalUnit v) (Country v) (Province v) (Locality v) "".
Proof.
  destruct v as [a b c d e f]. unfold identityFromCAName, caName, identityName, nonempty. cbn.
  repeat match goal with |- context [String.eqb ?x ""] => destruct (String.eqb_spec x "") end;
    subst; done.
Qed.
End crypto_facts.
