(* ===== verification/CertsOptions.v ===== *)
(** * Options of the [certs] package

    [options.go]: an option has a name, the operations it may be used with and
    an update of [optionValues]; [parseOptions] applies a list of them.  The
    issuer policies of [models.go] and [authority.go] are built from the same
    values. *)
From S2P Require Import Prelude.
From S2P Require Import GoStrings.
From S2P Require Import Utf8.
From S2P Require Import Text.
From S2P Require Import Errors.
From S2P Require Import GoNet.
From S2P Require Import CertsTypes.
From S2P Require Import CertsNames.
From S2P Require Import CertsCrypto.
From coqutil Require Import Datatypes.RecordSetters.
Import DoubleBraceUpdate.
#[local] Open Scope stdpp_scope.
#[local] Open Scope Z_scope.
#[global] Arguments constant {_} _ _ /.

(** ** Scopes *)
Abbreviation optionScope := Z (only parsing).
Definition scopeAuthority : optionScope := 1.
Definition scopeEnsure : optionScope := 2.
Definition scopeIssuerManager : optionScope := 4.
Definition scopeIssuerDefinition : optionScope := 8.
Definition scopeSign : optionScope := 16.
Definition scopeCSR : optionScope := 32.
Definition scopeLoad : optionScope := 64.
Definition scopeTrustBundle : optionScope := 128.
Definition scopeSave : optionScope := 256.
Definition scopeStore : optionScope := 512.
Definition scopePromote : optionScope := 1024.

Section options.
(** [St] is the type of the supported stores. *)
Context `{Crypto} {St : Type}.

(** A byte slice or text that was not given is empty; a logger that was not
    given is [false]. *)
Record optionValues := {
  store : option St;
  logger : bool;
  authorityName : string;
  authorityNameSet : bool;
  identity : Identity;
  identitySet : bool;
  owner : string;
  group : string;
  ownerSet : bool;
  groupSet : bool;
  rootKeySpec : KeySpec;
  rootKeySpecSet : bool;
  issuanceMode : IssuanceMode;
  issuanceModeSet : bool;
  issuers : list IssuerDefinition;
  rootValidity : Duration;
  rootValiditySet : bool;
  rootRotateBefore : Duration;
  rootRotateBeforeSet : bool;
  issuerRotateBefore : gmap string Duration;
  issuerName : string;
  issuerNameSet : bool;
  rootUnlock : string;
  rootUnlockSet : bool;
  profile : Profile;
  profileSet : bool;
  lifetime : Duration;
  lifetimeSet : bool;
  subject : Identity;
  subjectSet : bool;
  sans : SANs;
  sansSet : bool;
  additionalSANs : SANs;
  additionalSANsSet : bool;
  keySpec : KeySpec;
  keySpecSet : bool;
  keyPassphrase : string;
  keyPassphraseSet : bool;
  certificates : list Certificate;
  certPEM : list string;
  certPaths : list string;
  key : option Signer;
  keySet : bool;
  keyPath : string;
  keyPathSet : bool;
  replace : bool;
  issuerValidity : Duration;
  issuerValiditySet : bool;
  profiles : list Profile;
  profilesSet : bool;
  subjectOwner : string;
  requiredSubject : Identity;
  requiredSubjectSet : bool;
  sanPolicy : SANPolicy;
  dnsSuffixesSet : bool;
  ipRangesSet : bool;
  uriPrefixesSet : bool;
  emailDomainsSet : bool;
}.

Definition zero_options : optionValues :=
  Build_optionValues None false "" false zero_Identity false "" "" false false "" false "" false
    [] 0 false 0 false ∅ "" false "" false "" false 0 false zero_Identity false zero_SANs false
    zero_SANs false "" false "" false [] [] [] None false "" false false 0 false [] false ""
    zero_Identity false zero_SANPolicy false false false false.

Record option_ := {
  opt_name : string;
  opt_scopes : optionScope;
  opt_fn : optionValues → error + optionValues;
}.

Definition validFor (o : option_) (s : optionScope) : bool := negb (Z.land (opt_scopes o) s =? 0).

Definition repeatable (name : string) : bool :=
  String.eqb name "WithCert" || String.eqb name "WithCertPEM" || String.eqb name "WithCertPath"
  || String.eqb name "WithIssuer" || String.eqb name "WithIssuerRotateBefore".

(** The loop of [parseOptions]; a nil option is [None]. *)
Fixpoint parse_loop (scope : optionScope) (opts : list (option option_)) (seen : list string)
    (v : optionValues) : error + optionValues :=
  match opts with
  | [] => inr v
  | None :: _ => inl (invalid "nil option" None)
  | Some o :: rest =>
      if negb (validFor o scope)
      then inl (invalid (opt_name o +:+ " is not valid for this operation") None)
      else if existsb (String.eqb (opt_name o)) seen && negb (repeatable (opt_name o))
      then inl (invalid (opt_name o +:+ " specified more than once") None)
      else match opt_fn o v with
           | inl err => inl (invalid (opt_name o) (Some err))
           | inr v => parse_loop scope rest (opt_name o :: seen) v
           end
  end.

Definition parseOptions (scope : optionScope) (opts : list (option option_)) : error + optionValues :=
  parse_loop scope opts [] zero_options.

Definition makeOption (name : string) (scopes : optionScope)
    (fn : optionValues → error + optionValues) : option option_ :=
  Some {| opt_name := name; opt_scopes := scopes; opt_fn := fn |}.
Definition errorf (text : string) : error := Errorf text None.

(** [None] is a store of another type, or nil. *)
Definition WithStore (s : option St) := makeOption "WithStore" (Z.lor scopeAuthority scopeIssuerManager)
  (λ o, match s with
        | None => inl (errorf "supported store is required")
        | Some b => inr o {{ store := Some b }}
        end).
Definition WithLogger (l : bool) := makeOption "WithLogger"
  (Z.lor scopeAuthority (Z.lor scopeIssuerManager scopeCSR)) (λ o, inr o {{ logger := l }}).
Definition WithAuthorityName (name : string) := makeOption "WithAuthorityName" scopeAuthority
  (λ o, inr o {{ authorityName := name; authorityNameSet := true }}).
Definition WithIdentity (v : Identity) := makeOption "WithIdentity" scopeAuthority
  (λ o, inr o {{ identity := v; identitySet := true }}).
Definition WithOwner (v : string) := makeOption "WithOwner" (Z.lor scopeAuthority scopeStore)
  (λ o, inr o {{ owner := v; ownerSet := true }}).
Definition WithGroup (v : string) := makeOption "WithGroup" (Z.lor scopeAuthority scopeStore)
  (λ o, inr o {{ group := v; groupSet := true }}).
Definition WithRootKeySpec (v : KeySpec) := makeOption "WithRootKeySpec" scopeAuthority
  (λ o, inr o {{ rootKeySpec := v; rootKeySpecSet := true }}).
Definition WithIssuanceMode (v : IssuanceMode) := makeOption "WithIssuanceMode" scopeAuthority
  (λ o, inr o {{ issuanceMode := v; issuanceModeSet := true }}).
Definition WithIssuer (v : IssuerDefinition) := makeOption "WithIssuer" scopeAuthority
  (λ o, inr o {{ issuers := issuers o ++ [v] }}).
Definition WithRootValidity (v : Duration) := makeOption "WithRootValidity" scopeAuthority
  (λ o, inr o {{ rootValidity := v; rootValiditySet := true }}).
Definition WithRootRotateBefore (v : Duration) := makeOption "WithRootRotateBefore" scopeEnsure
  (λ o, inr o {{ rootRotateBefore := v; rootRotateBeforeSet := true }}).
Definition WithIssuerRotateBefore (name : string) (v : Duration) :=
  makeOption "WithIssuerRotateBefore" scopeEnsure
  (λ o, match issuerRotateBefore o !! name with
        | Some _ => inl (errorf "issuer specified more than once")
        | None => inr o {{ issuerRotateBefore := <[name := v]> (issuerRotateBefore o) }}
        end).
Definition WithIssuerName (v : string) := makeOption "WithIssuerName" scopeIssuerManager
  (λ o, inr o {{ issuerName := v; issuerNameSet := true }}).
Definition WithRootUnlock (v : string) := makeOption "WithRootUnlock" (Z.lor scopeAuthority scopePromote)
  (λ o, if String.eqb v "" then inl (errorf "unlock secret is empty")
        else inr o {{ rootUnlock := v; rootUnlockSet := true }}).
Definition WithProfile (v : Profile) := makeOption "WithProfile" scopeSign
  (λ o, inr o {{ profile := v; profileSet := true }}).
Definition WithLifetime (v : Duration) := makeOption "WithLifetime" scopeSign
  (λ o, inr o {{ lifetime := v; lifetimeSet := true }}).
Definition WithSubject (v : Identity) := makeOption "WithSubject" (Z.lor scopeSign scopeCSR)
  (λ o, inr o {{ subject := v; subjectSet := true }}).
Definition WithSANs (v : SANs) := makeOption "WithSANs" (Z.lor scopeSign scopeCSR)
  (λ o, inr o {{ sans := v; sansSet := true }}).
Definition WithAdditionalSANs (v : SANs) := makeOption "WithAdditionalSANs" scopeSign
  (λ o, inr o {{ additionalSANs := v; additionalSANsSet := true }}).
Definition WithKeySpec (v : KeySpec) := makeOption "WithKeySpec" scopeCSR
  (λ o, inr o {{ keySpec := v; keySpecSet := true }}).
Definition WithKeyPassphrase (v : string) := makeOption "WithKeyPassphrase" (Z.lor scopeCSR scopeLoad)
  (λ o, if String.eqb v "" then inl (errorf "passphrase is empty")
        else inr o {{ keyPassphrase := v; keyPassphraseSet := true }}).
(** A nil certificate is [None]. *)
Definition WithCert (cert : option Certificate) :=
  makeOption "WithCert" (Z.lor scopeLoad scopeTrustBundle)
  (λ o, match cert with
        | None => inl (errorf "certificate is nil")
        | Some c => inr o {{ certificates := certificates o ++ [c] }}
        end).
Definition WithCertPEM (data : string) := makeOption "WithCertPEM" (Z.lor scopeLoad scopeTrustBundle)
  (λ o, if String.eqb data "" then inl (errorf "PEM data is empty")
        else inr o {{ certPEM := certPEM o ++ [data] }}).
Definition WithCertPath (path : string) := makeOption "WithCertPath" (Z.lor scopeLoad scopeTrustBundle)
  (λ o, if String.eqb path "" then inl (errorf "path is empty")
        else inr o {{ certPaths := certPaths o ++ [path] }}).
(** A nil key, typed or not, is [None]. *)
Definition WithKey (k : option Signer) := makeOption "WithKey" scopeLoad
  (λ o, match k with
        | None => inl (errorf "key is nil")
        | Some k =>
            if keyPathSet o then inl (errorf "key path is already specified")
            else inr o {{ key := Some k; keySet := true }}
        end).
Definition WithKeyPath (path : string) := makeOption "WithKeyPath" scopeLoad
  (λ o, if String.eqb path "" then inl (errorf "path is empty")
        else if keySet o then inl (errorf "key is already specified")
        else inr o {{ keyPath := path; keyPathSet := true }}).
Definition WithReplace := makeOption "WithReplace" scopeSave (λ o, inr o {{ replace := true }}).
Definition WithIssuerValidity (v : Duration) := makeOption "WithIssuerValidity" scopeIssuerDefinition
  (λ o, inr o {{ issuerValidity := v; issuerValiditySet := true }}).
Definition WithAllowedProfiles (v : list Profile) := makeOption "WithAllowedProfiles" scopeIssuerDefinition
  (λ o, inr o {{ profiles := v; profilesSet := true }}).
Definition WithSubjectOwner (v : string) := makeOption "WithSubjectOwner" scopeIssuerDefinition
  (λ o, inr o {{ subjectOwner := v }}).
Definition WithRequiredSubject (v : Identity) := makeOption "WithRequiredSubject" scopeIssuerDefinition
  (λ o, inr o {{ requiredSubject := v; requiredSubjectSet := true }}).

(** The eight policy options: two names for each part of the policy. *)
Definition dns_policy (v : list string) (o : optionValues) : error + optionValues :=
  if dnsSuffixesSet o then inl (errorf "DNS suffix policy already specified")
  else inr o {{ dnsSuffixesSet := true; sanPolicy := (sanPolicy o) {{ DNSSuffixes := v }} }}.
Definition ip_policy (v : list (option IPNet)) (o : optionValues) : error + optionValues :=
  if ipRangesSet o then inl (errorf "IP range policy already specified")
  else inr o {{ ipRangesSet := true; sanPolicy := (sanPolicy o) {{ IPRanges := v }} }}.
Definition uri_policy (v : list string) (o : optionValues) : error + optionValues :=
  if uriPrefixesSet o then inl (errorf "URI prefix policy already specified")
  else inr o {{ uriPrefixesSet := true; sanPolicy := (sanPolicy o) {{ URIPrefixes := v }} }}.
Definition email_policy (v : list string) (o : optionValues) : error + optionValues :=
  if emailDomainsSet o then inl (errorf "email domain policy already specified")
  else inr o {{ emailDomainsSet := true; sanPolicy := (sanPolicy o) {{ EmailDomains := v }} }}.
Definition WithDNSPolicy v := makeOption "WithDNSPolicy" scopeIssuerDefinition (dns_policy v).
Definition WithDNSSuffixes v := makeOption "WithDNSSuffixes" scopeIssuerDefinition (dns_policy v).
Definition WithIPPolicy v := makeOption "WithIPPolicy" scopeIssuerDefinition (ip_policy v).
Definition WithIPRanges v := makeOption "WithIPRanges" scopeIssuerDefinition (ip_policy v).
Definition WithURIPolicy v := makeOption "WithURIPolicy" scopeIssuerDefinition (uri_policy v).
Definition WithURIPrefixes v := makeOption "WithURIPrefixes" scopeIssuerDefinition (uri_policy v).
Definition WithEmailPolicy v := makeOption "WithEmailPolicy" scopeIssuerDefinition (email_policy v).
Definition WithEmailDomains v := makeOption "WithEmailDomains" scopeIssuerDefinition (email_policy v).
End options.
Arguments optionValues {_} St.
Arguments option_ {_} St.

(** ** Issuer definitions *)

Definition default_issuer_validity : Duration := 2 * 365 * 24 * Hour.
Definition all_profiles : list Profile := [TLSClient; TLSServer; TLSClientServer].

Fixpoint first_duplicate (l seen : list string) : bool :=
  match l with
  | [] => false
  | x :: rest => existsb (String.eqb x) seen || first_duplicate rest (x :: seen)
  end.

Section definitions.
Context `{Unicode, Crypto, URLParser} {St : Type}.

Fixpoint normalize_suffixes (l : list string) : error + list string :=
  match l with
  | [] => inr []
  | suffix :: rest =>
      let suffix := ToLower (Trim (TrimSpace suffix) ".") in
      if negb (validDNSName suffix false) then inl (invalid "invalid DNS policy suffix" None)
      else match normalize_suffixes rest with
           | inl e => inl e
           | inr out => inr (suffix :: out)
           end
  end.

Fixpoint check_ranges (l : list (option IPNet)) : option error :=
  match l with
  | [] => None
  | n :: rest =>
      match n with
      | None => Some (invalid "invalid IP policy range" None)
      | Some n => if String.eqb (net_IP n) "" then Some (invalid "invalid IP policy range" None)
                  else check_ranges rest
      end
  end.

Fixpoint check_prefixes (l : list string) : option error :=
  match l with
  | [] => None
  | p :: rest =>
      match url_Parse p with
      | inl e => Some (invalid "invalid URI policy prefix" (Some (Sys e)))
      | inr u => if String.eqb (Scheme u) "" then Some (invalid "invalid URI policy prefix" None)
                 else check_prefixes rest
      end
  end.

(** Space, at sign, NUL, CR and LF. *)
Definition domain_bad : string := unchars (map chr [32; 64; 0; 13; 10]).
Fixpoint normalize_domains (l : list string) : error + list string :=
  match l with
  | [] => inr []
  | d :: rest =>
      let d := ToLower (TrimSpace d) in
      if String.eqb d "" || ContainsAny d domain_bad
      then inl (invalid "invalid email policy domain" None)
      else match normalize_domains rest with
           | inl e => inl e
           | inr out => inr (d :: out)
           end
  end.

Definition owner_bad : string := unchars (map chr [0; 13; 10]).

Definition finishIssuerDefinition (name : string) (o : optionValues St) : error + IssuerDefinition :=
  let validity := if issuerValiditySet o then issuerValidity o else default_issuer_validity in
  let allowed := if profilesSet o then profiles o else all_profiles in
  let owner := TrimSpace (subjectOwner o) in
  if issuerValiditySet o && (issuerValidity o <=? 0)
  then inl (invalid "issuer validity must be positive" None)
  else if profilesSet o && Nat.eqb (length (profiles o)) 0
  then inl (invalid "at least one allowed profile is required" None)
  else if negb (forallb Profile_valid allowed) then inl (invalid "unsupported profile" None)
  else if first_duplicate allowed [] then inl (invalid "duplicate allowed profile" None)
  else if ContainsAny owner owner_bad then inl (invalid "invalid subject owner" None)
  else
  match (if requiredSubjectSet o then normalizeIdentity (requiredSubject o) else inr zero_Identity) with
  | inl e => inl e
  | inr required =>
  match normalize_suffixes (DNSSuffixes (sanPolicy o)) with
  | inl e => inl e
  | inr suffixes =>
  match check_ranges (IPRanges (sanPolicy o)) with
  | Some e => inl e
  | None =>
  match check_prefixes (URIPrefixes (sanPolicy o)) with
  | Some e => inl e
  | None =>
  match normalize_domains (EmailDomains (sanPolicy o)) with
  | inl e => inl e
  | inr domains => inr {|
      def_Name := name; def_Slug := Slugify name "-" Lower; def_Validity := validity;
      def_AllowedProfiles := allowed; def_SubjectOwner := owner; def_RequiredSubject := required;
      def_SANPolicy := {| DNSSuffixes := suffixes; IPRanges := IPRanges (sanPolicy o);
                          URIPrefixes := URIPrefixes (sanPolicy o); EmailDomains := domains |} |}
  end end end end end.

Definition NewIssuerDefinition (name : string) (opts : list (option (option_ St)))
    : error + IssuerDefinition :=
  match normalizeDisplayName name with
  | inl e => inl e
  | inr n =>
      match parseOptions scopeIssuerDefinition opts with
      | inl e => inl e
      | inr o => finishIssuerDefinition n o
      end
  end.

(** [validateDefinition] of authority.go. *)
Definition definition_options (d : IssuerDefinition) : optionValues St :=
  zero_options {{
    issuerValiditySet := true;
    issuerValidity := if def_Validity d =? 0 then default_issuer_validity else def_Validity d;
    profilesSet := true;
    profiles := match def_AllowedProfiles d with [] => all_profiles | l => l end;
    subjectOwner := def_SubjectOwner d;
    requiredSubject := def_RequiredSubject d;
    requiredSubjectSet := negb (bool_decide (def_RequiredSubject d = zero_Identity));
    sanPolicy := def_SANPolicy d }}.

Definition validateDefinition (d : IssuerDefinition) (name : string) : error + IssuerDefinition :=
  if String.eqb (def_Name d) "" then inl (invalid "issuer name is required" None)
  else if negb (String.eqb (def_Slug d) "") && negb (String.eqb (def_Slug d) (slug name))
  then inl (invalid "issuer slug does not match its name" None)
  else finishIssuerDefinition name (definition_options d).
End definitions.
