(* ===== verification/CertsOptionsFacts.v ===== *)
(** * What option parsing and issuer definitions guarantee *)
From S2P Require Import Prelude.
From S2P Require Import GoStrings.
From S2P Require Import Utf8.
From S2P Require Import Text.
From S2P Require Import Errors.
From S2P Require Import GoNet.
From S2P Require Import CertsTypes.
From S2P Require Import CertsNames.
From S2P Require Import CertsCrypto.
From S2P Require Import CertsOptions.
#[local] Open Scope stdpp_scope.
#[local] Open Scope Z_scope.

Section parse.
Context `{Crypto} {St : Type}.
Implicit Types (o : option_ St) (v : optionValues St).

(** An option may appear when it belongs to the operation and, unless it is
    repeatable, has not appeared before. *)
Definition admissible (scope : Z) (seen : list string) (o : option_ St) : Prop :=
  validFor o scope = true ∧ (repeatable (opt_name o) = true ∨ opt_name o ∉ seen).

(** The options of an accepted list, applied from left to right. *)
Inductive applied (scope : Z) : list (option (option_ St)) → list string →
    optionValues St → optionValues St → Prop :=
  | applied_nil seen v : applied scope [] seen v v
  | applied_cons o rest seen v v1 v2 :
      admissible scope seen o → opt_fn o v = inr v1 →
      applied scope rest (opt_name o :: seen) v1 v2 →
      applied scope (Some o :: rest) seen v v2.

Lemma parse_loop_spec scope opts seen v v' :
  parse_loop scope opts seen v = inr v' ↔ applied scope opts seen v v'.
Proof.
  split.
  - revert seen v. induction opts as [|[o|] opts IH]; intros seen v; cbn [parse_loop].
    + intros [= <-]. constructor.
    + destruct (validFor o scope) eqn:Ev; [|done]. cbn [negb].
      destruct (existsb _ seen && _) eqn:Er; [done|].
      destruct (opt_fn o v) as [|v1] eqn:Ef; [done|]. intros E.
      econstructor; [split; [done|]|done|by apply IH].
      apply andb_false_iff in Er as [Er|Er].
      * right. by apply existsb_eqb_false.
      * left. by apply negb_false_iff.
    + done.
  - induction 1 as [|o rest seen v v1 v2 [Hs Hr] Hf _ IH]; [done|]. cbn [parse_loop].
    rewrite Hs, Hf. cbn [negb].
    assert (existsb (String.eqb (opt_name o)) seen && negb (repeatable (opt_name o)) = false) as ->; [|done].
    destruct Hr as [->|Hr]; [by rewrite andb_false_r|].
    by rewrite (proj2 (existsb_eqb_false _ _) Hr).
Qed.

(** option parsing is strict and complete: a list is accepted exactly when
    no option is nil, each one is declared for the operation, no option that
    is not repeatable is given twice and every update succeeds; the result is
    then the updates in order. *)
Theorem parseOptions_spec scope opts v :
  parseOptions scope opts = inr v ↔ applied scope opts [] zero_options v.
Proof. apply parse_loop_spec. Qed.
End parse.

Section definitions.
Context `{Uni : Unicode, !UnicodeLaws, Crypto, URLParser} {St : Type}.

Lemma first_duplicate_spec l seen :
  first_duplicate l seen = false ↔ NoDup l ∧ ∀ x, x ∈ l → x ∉ seen.
Proof.
  revert seen. induction l as [|x l IH]; intros seen; cbn [first_duplicate].
  - split; [|done]. intros _. split; [constructor|]. intros x Hx. by apply elem_of_nil in Hx.
  - rewrite orb_false_iff, existsb_eqb_false, IH. split.
    + intros (Hx & Hn & Hl). split.
      * constructor; [|done]. intros Hin. apply (Hl x Hin). left.
      * intros y [->|Hy]%elem_of_cons; [done|]. intros Hs. apply (Hl y Hy). by right.
    + intros (Hn & Hl). apply NoDup_cons in Hn as [Hx Hn]. split_and!; [apply Hl; left|done|].
      intros y Hy [->|Hs]%elem_of_cons; [done|]. apply (Hl y); [by right|done].
Qed.

Lemma trim_left_keep set c s : in_set set c = false → trim_left set (String c s) = String c s.
Proof. intros Hc. cbn [trim_left]. by rewrite Hc. Qed.

(** A valid name does not begin with a dot. *)
Lemma valid_head s : validDNSName s false = true → ∃ c s', s = String c s' ∧ c ≠ "."%char.
Proof.
  intros Hv. unfold validDNSName in Hv. cbn [andb] in Hv. destruct (_ || _); [|done].
  destruct (String.eqb_spec s "") as [|Hne]; [done|]. cbn [orb] in Hv. destruct (_ || _); [done|].
  destruct s as [|c s]; [done|]. exists c, s. split; [done|]. by intros ->.
Qed.

Lemma suffix_fix s : validDNSName s false = true → ToLower s = s → ToLower (Trim (TrimSpace s) ".") = s.
Proof.
  intros Hv Hl. rewrite (validDNSName_trimmed _ _ Hv). unfold Trim.
  assert (trim_left "." s = s) as ->.
  { destruct (valid_head _ Hv) as (c & s' & -> & Hc). apply trim_left_keep. rewrite in_set_one.
    by destruct (Ascii.eqb_spec c "."). }
  destruct (validDNSName_spec _ _ Hv) as [_ (p & c & E & Hc)]. rewrite E in Hl |- *.
  rewrite trim_right_keep; [done|]. rewrite in_set_one.
  destruct (Ascii.eqb_spec c ".") as [->|]; done.
Qed.

Lemma normalize_suffixes_valid l out :
  normalize_suffixes l = inr out → Forall (λ s, validDNSName s false = true ∧ ToLower s = s) out.
Proof.
  revert out. induction l as [|s l IH]; intros out; cbn [normalize_suffixes]; [by intros [= <-]|].
  set (s' := ToLower _). destruct (validDNSName s' false) eqn:Ev; [|done]. cbn [negb].
  destruct (normalize_suffixes l) as [|o] eqn:E; [done|]. intros [= <-].
  constructor; [|by apply IH]. split; [done|apply ToLower_idem].
Qed.

Lemma normalize_suffixes_fix l out : normalize_suffixes l = inr out → normalize_suffixes out = inr out.
Proof.
  revert out. induction l as [|s l IH]; intros out; cbn [normalize_suffixes]; [by intros [= <-]|].
  set (s' := ToLower _). destruct (validDNSName s' false) eqn:Ev; [|done]. cbn [negb].
  destruct (normalize_suffixes l) as [|o] eqn:E; [done|]. intros [= <-]. cbn [normalize_suffixes].
  rewrite suffix_fix; [|done|apply ToLower_idem]. rewrite Ev. cbn [negb]. by rewrite (IH o).
Qed.

Lemma normalize_domains_fix l out : normalize_domains l = inr out → normalize_domains out = inr out.
Proof.
  revert out. induction l as [|s l IH]; intros out; cbn [normalize_domains]; [by intros [= <-]|].
  set (s' := ToLower _). destruct (String.eqb s' "" || _) eqn:Ev; [done|].
  destruct (normalize_domains l) as [|o] eqn:E; [done|]. intros [= <-]. cbn [normalize_domains].
  assert (ToLower (TrimSpace s') = s') as ->.
  { subst s'. rewrite TrimSpace_ToLower by apply TrimSpace_idem. apply ToLower_idem. }
  rewrite Ev. by rewrite (IH o).
Qed.

(** What a finished definition satisfies. *)
Record normal_definition (d : IssuerDefinition) : Prop := {
  nd_name : display_name (def_Name d);
  nd_slug : def_Slug d = slug (def_Name d);
  nd_validity : 0 < def_Validity d;
  nd_profiles : def_AllowedProfiles d ≠ [];
  nd_supported : Forall (λ p, Profile_valid p = true) (def_AllowedProfiles d);
  nd_distinct : NoDup (def_AllowedProfiles d);
  nd_owner : TrimSpace (def_SubjectOwner d) = def_SubjectOwner d;
  nd_owner_chars : ContainsAny (def_SubjectOwner d) owner_bad = false;
  nd_subject : def_RequiredSubject d = zero_Identity ∨ normal_identity (def_RequiredSubject d);
  nd_suffixes : normalize_suffixes (DNSSuffixes (def_SANPolicy d)) = inr (DNSSuffixes (def_SANPolicy d));
  nd_ranges : check_ranges (IPRanges (def_SANPolicy d)) = None;
  nd_prefixes : check_prefixes (URIPrefixes (def_SANPolicy d)) = None;
  nd_domains : normalize_domains (EmailDomains (def_SANPolicy d)) = inr (EmailDomains (def_SANPolicy d));
}.

Lemma finishIssuerDefinition_normal name (o : optionValues St) d :
  display_name name → finishIssuerDefinition name o = inr d → normal_definition d ∧ def_Name d = name.
Proof.
  intros Hn. unfold finishIssuerDefinition.
  destruct (issuerValiditySet o && _) eqn:E1; [done|].
  destruct (profilesSet o && _) eqn:E2; [done|].
  destruct (forallb Profile_valid _) eqn:E3; [|done]. cbn [negb].
  destruct (first_duplicate _ _) eqn:E4; [done|].
  destruct (ContainsAny _ _) eqn:E5; [done|].
  destruct (if requiredSubjectSet o then _ else _) as [|required] eqn:E6; [done|].
  destruct (normalize_suffixes _) as [|suffixes] eqn:E7; [done|].
  destruct (check_ranges _) eqn:E8; [done|]. destruct (check_prefixes _) eqn:E9; [done|].
  destruct (normalize_domains _) as [|domains] eqn:E10; [done|]. intros [= <-].
  split; [|done]. destruct (slug_display name Hn) as (Hs & _). split; cbn.
  - done.
  - done.
  - destruct (issuerValiditySet o); [|done]. cbn in E1. apply Z.leb_gt in E1. done.
  - destruct (profilesSet o); [|done]. by destruct (profiles o).
  - by apply forallb_Forall.
  - by apply first_duplicate_spec in E4 as [? _].
  - apply TrimSpace_idem.
  - done.
  - destruct (requiredSubjectSet o); [|left; congruence]. right. by eapply normalizeIdentity_normal.
  - by eapply normalize_suffixes_fix.
  - done.
  - done.
  - by eapply normalize_domains_fix.
Qed.

(** The values that [validateDefinition] hands on. *)
Lemma definition_options_fields d (o := definition_options (St := St) d) :
  issuerValiditySet o = true ∧
  issuerValidity o = (if def_Validity d =? 0 then default_issuer_validity else def_Validity d) ∧
  profilesSet o = true ∧
  profiles o = match def_AllowedProfiles d with [] => all_profiles | l => l end ∧
  subjectOwner o = def_SubjectOwner d ∧ requiredSubject o = def_RequiredSubject d ∧
  requiredSubjectSet o = negb (bool_decide (def_RequiredSubject d = zero_Identity)) ∧
  sanPolicy o = def_SANPolicy d.
Proof. done. Qed.

Lemma validateDefinition_fix d :
  normal_definition d → validateDefinition (St := St) d (def_Name d) = inr d.
Proof.
  intros [Hn Hs Hv Hp Hsup Hd Ho Hoc Hsub Hsuf Hr Hpre Hdom]. unfold validateDefinition.
  destruct (String.eqb_spec (def_Name d) "") as [E|_].
  { destruct Hn as (ws & Hne & Hws & En). rewrite E in En. symmetry in En. by apply Join_words_ne in En. }
  rewrite Hs, String.eqb_refl, andb_false_r. unfold finishIssuerDefinition.
  destruct (definition_options_fields d) as (-> & -> & -> & -> & -> & -> & -> & ->).
  assert ((def_Validity d =? 0) = false) as -> by (apply Z.eqb_neq; lia).
  assert ((match def_AllowedProfiles d with [] => all_profiles | l => l end) = def_AllowedProfiles d) as ->
    by (by destruct (def_AllowedProfiles d)).
  assert ((def_Validity d <=? 0) = false) as -> by (apply Z.leb_gt; lia).
  assert ((length (def_AllowedProfiles d) =? 0)%nat = false) as ->
    by (by destruct (def_AllowedProfiles d)).
  cbn [andb].
  rewrite (proj2 (forallb_Forall _ _) Hsup). cbn [negb].
  rewrite (proj2 (first_duplicate_spec _ _)) by
    (split; [done|]; intros ??; apply not_elem_of_nil).
  rewrite Ho, Hoc.
  assert ((if negb (bool_decide (def_RequiredSubject d = zero_Identity))
           then normalizeIdentity (def_RequiredSubject d) else inr zero_Identity)
          = inr (def_RequiredSubject d)) as ->.
  { case_bool_decide as E; cbn [negb]; [by rewrite E|]. apply normalizeIdentity_fix. by destruct Hsub. }
  rewrite Hsuf, Hr, Hpre, Hdom. destruct (slug_display _ Hn) as (E & _). rewrite <- E, <- Hs.
  by destruct d as [? ? ? ? ? ? []].
Qed.

(** An issuer definition that [NewIssuerDefinition] returns is well-formed
    (its validity is positive; its profiles are supported, distinct and not
    empty; its slug is that of its name), and [validateDefinition], which
    every stored definition must pass, returns it unchanged. *)
Theorem NewIssuerDefinition_spec name (opts : list (option (option_ St))) d :
  NewIssuerDefinition name opts = inr d →
  normal_definition d ∧ validateDefinition (St := St) d (def_Name d) = inr d.
Proof.
  unfold NewIssuerDefinition. destruct (normalizeDisplayName name) as [|n] eqn:En; [done|].
  destruct (parseOptions _ _) as [|o]; [done|]. intros Hf.
  destruct (finishIssuerDefinition_normal n o d) as [Hd _];
    [by eapply normalizeDisplayName_display|done|]. split; [done|by apply validateDefinition_fix].
Qed.

(** Definitions that the manager accepts are stored in normal form. *)
Lemma validateDefinition_normal d name d' :
  display_name name → validateDefinition (St := St) d name = inr d' →
  normal_definition d' ∧ def_Name d' = name.
Proof.
  intros Hn. unfold validateDefinition. destruct (String.eqb _ _); [done|].
  destruct (_ && _); [done|]. by apply finishIssuerDefinition_normal.
Qed.
End definitions.
