(* ===== verification/CertsState.v ===== *)
(** * The authority state and its validation

    The persistent records of [store.go], [validateState] and the ledger checks
    of [validate.go], and the name merging of [issuer.go] that they share.  A Go
    map of pointers is a [gmap] of records: nil records are not represented, so
    the guards against them are the ones for absent keys. *)
From S2P Require Import Prelude.
From S2P Require Import GoStrings.
From S2P Require Import Utf8.
From S2P Require Import Text.
From S2P Require Import Errors.
From S2P Require Import GoNet.
From S2P Require Import CertsTypes.
From S2P Require Import CertsNames.
From S2P Require Import CertsCrypto.
From S2P Require Import CertsOptions.
#[local] Open Scope stdpp_scope.
#[local] Open Scope Z_scope.

Definition clockSkew : Duration := 5 * Minute.
Definition defaultRotateBefore : Duration := 20 * 24 * Hour.
Definition maximumLeafValidity : Duration := 365 * 24 * Hour.
Definition stateFormatVersion : Z := 1.
Definition u64 (z : Z) : Z := z mod 2 ^ 64.

(** ** store.go *)

Record authoritySpec := {
  ID : string;
  FormatVersion : Z;
  spec_Name : string;
  spec_Identity : Identity;
  RootValidity : Duration;
  spec_KeySpec : KeySpec;
  EncryptedRootKeys : bool;
  spec_IssuanceMode : IssuanceMode;
  spec_Owner : string;
  spec_Group : string;
  spec_Backend : string;
}.

(** A key that was erased is empty. *)
Record rootRecord := {
  Generation : Z;
  root_CertificateDER : string;
  EncryptedKeyDER : string;
  root_Fingerprint : string;
  RetiredTrustUntil : Time;
}.

Record issuerVersion := {
  Version : Z;
  RootGeneration : Z;
  CertificateDER : string;
  KeyDER : string;
  Fingerprint : string;
}.

Record issuerRecord := {
  Definition_ : IssuerDefinition;
  ActiveVersion : Z;
  Versions : gmap Z issuerVersion;
}.

Record pendingManifest := {
  Kind_ : string;
  ExpectedRevision : Z;
  p_RootGeneration : Z;
  p_Issuers : gmap string Z;
  CreatedAt : Time;
}.

Record authorityState := {
  Spec : authoritySpec;
  Revision : Z;
  ActiveRoot : Z;
  Roots : gmap Z rootRecord;
  Issuers : gmap string issuerRecord;
  Pending : option pendingManifest;
}.

#[global] Instance authoritySpec_eq_dec : EqDecision authoritySpec.
Proof. solve_decision. Defined.
#[global] Instance rootRecord_eq_dec : EqDecision rootRecord.
Proof. solve_decision. Defined.
#[global] Instance issuerVersion_eq_dec : EqDecision issuerVersion.
Proof. solve_decision. Defined.
#[global] Instance issuerRecord_eq_dec : EqDecision issuerRecord.
Proof. solve_decision. Defined.
#[global] Instance pendingManifest_eq_dec : EqDecision pendingManifest.
Proof. solve_decision. Defined.
#[global] Instance authorityState_eq_dec : EqDecision authorityState.
Proof. solve_decision. Defined.

Definition zero_spec : authoritySpec :=
  Build_authoritySpec "" 0 "" zero_Identity 0 "" false "" "" "" "".
Definition zero_state : authorityState := Build_authorityState zero_spec 0 0 ∅ ∅ None.

Record LedgerRecord := {
  AuthorityRevision : Z;
  l_Fingerprint : string;
  Issuer : string;
  IssuerVersion : Z;
  Serial : string;
  l_CertificateDER : string;
  l_Subject : Identity;
  l_SANs : SANs;
  l_Profile : Profile;
  IssuedAt : Time;
  ExpiresAt : Time;
}.

#[global] Instance LedgerRecord_eq_dec : EqDecision LedgerRecord.
Proof. solve_decision. Defined.

(** ** Comparison by JSON text

    [encoding/json] writes a string with U+FFFD for every byte that is not
    UTF-8, and an address as its text; an address of another length cannot be
    written, and [json.Marshal] then returns no bytes. *)
Definition json_string (s : string) : string := encode (runes s).

Definition json_identity (v : Identity) : list string :=
  map json_string [Organization v; OrganizationalUnit v; Country v; Province v; Locality v; CommonName v].

Definition json_net (n : option IPNet) : option (option (string * string)) :=
  match n with
  | None => Some None
  | Some n =>
      if String.eqb (net_IP n) "" || negb (To16_nil (net_IP n))
      then Some (Some ((if String.eqb (net_IP n) "" then "" else IP_String (net_IP n)), net_Mask n))
      else None
  end.

Definition json_definition (d : IssuerDefinition) :=
  nets ← mapM json_net (IPRanges (def_SANPolicy d));
  Some (map json_string [def_Name d; def_Slug d; def_SubjectOwner d], def_Validity d,
        map json_string (def_AllowedProfiles d), json_identity (def_RequiredSubject d),
        (map json_string (DNSSuffixes (def_SANPolicy d)), nets,
         map json_string (URIPrefixes (def_SANPolicy d)),
         map json_string (EmailDomains (def_SANPolicy d)))).

Definition definitionsEqual (a b : IssuerDefinition) : bool :=
  bool_decide (json_definition a = json_definition b).

(** ** issuer.go: merging names *)
Section merge.
Context `{Unicode}.

Section dedupe.
Context {A : Type} (one : A → error + A) (key : A → string).
Fixpoint dedupe (l : list A) (seen : list string) : error + list A :=
  match l with
  | [] => inr []
  | x :: rest =>
      match one x with
      | inl e => inl e
      | inr x =>
          if existsb (String.eqb (key x)) seen then dedupe rest seen
          else match dedupe rest (key x :: seen) with
               | inl e => inl e
               | inr out => inr (x :: out)
               end
      end
  end.
End dedupe.

Definition one_dns (d : string) : error + string :=
  match normalizeSANs (Build_SANs [d] [] [] []) with
  | inl e => inl e
  | inr s => inr (first (DNSNames s))
  end.
Definition one_ip (ip : IP) : error + IP :=
  match normalizeSANs (Build_SANs [] [ip] [] []) with
  | inl e => inl e
  | inr s => inr (first (IPAddresses s))
  end.
Definition one_uri (u : option URL) : error + option URL :=
  match normalizeSANs (Build_SANs [] [] [u] []) with
  | inl e => inl e
  | inr s => inr (match URIs s with [] => None | u :: _ => u end)
  end.
Definition one_email (e : string) : error + string :=
  match normalizeSANs (Build_SANs [] [] [] [e]) with
  | inl err => inl err
  | inr s => inr (first (EmailAddresses s))
  end.

Definition normalizeSANsAllowDuplicates (s : SANs) : error + SANs :=
  match dedupe one_dns id (DNSNames s) [] with
  | inl e => inl e
  | inr dns =>
  match dedupe one_ip IP_String (IPAddresses s) [] with
  | inl e => inl e
  | inr ips =>
  match dedupe one_uri uri_key (URIs s) [] with
  | inl e => inl e
  | inr uris =>
  match dedupe one_email ToLower (EmailAddresses s) [] with
  | inl e => inl e
  | inr emails => inr (Build_SANs dns ips uris emails)
  end end end end.

Definition mergeSANs (a b : SANs) : error + SANs :=
  normalizeSANsAllowDuplicates (Build_SANs (DNSNames a ++ DNSNames b)
    (IPAddresses a ++ IPAddresses b) (URIs a ++ URIs b) (EmailAddresses a ++ EmailAddresses b)).

(** [SANs.MarshalJSON]. *)
Definition json_SANs (s : SANs) : list string * list string * list string * list string :=
  (map json_string (DNSNames s), map IP_String (IPAddresses s),
   map (λ u, json_string (URL_String u)) (omap id (URIs s)), map json_string (EmailAddresses s)).
End merge.

(** ** validate.go *)
Section validate.
Context `{Unicode, Crypto, URLParser} {St : Type}.

Definition no_bit (usage bit : Z) : bool := Z.land usage bit =? 0.
Definition signature_ok (child parent : Certificate) : bool :=
  bool_decide (CheckSignatureFrom child parent = None).

Definition pending_root (s : authorityState) (generation : Z) : bool :=
  match Pending s with
  | Some p => String.eqb (Kind_ p) "root" && (generation =? p_RootGeneration p)
  | None => false
  end.

Definition pending_version (s : authorityState) (slug : string) (version : Z) : bool :=
  match Pending s with
  | Some p => default 0 (p_Issuers p !! slug) =? version
  | None => false
  end.

Definition validate_root (s : authorityState) (generation : Z) (r : rootRecord) : option error :=
  if negb (Generation r =? generation) then Some (corrupt "invalid root generation record" None) else
  match parseCertDER (root_CertificateDER r) with
  | inl e => Some e
  | inr c =>
      if negb (IsCA c) || negb (BasicConstraintsValid c) || negb (MaxPathLen c =? 1)
         || no_bit (KeyUsage c) KeyUsageCertSign || no_bit (KeyUsage c) KeyUsageCRLSign
         || negb (signature_ok c c)
      then Some (corrupt "invalid root certificate" None)
      else if negb (String.eqb (fingerprint c) (root_Fingerprint r))
      then Some (DriftError "root fingerprint" (AString (root_Fingerprint r)) (AString (fingerprint c)))
      else
      match keySpecForPublic (cert_PublicKey c) with
      | inl e => Some (corrupt "root key specification mismatch" (Some e))
      | inr spec =>
          if negb (String.eqb spec (spec_KeySpec (Spec s)))
          then Some (corrupt "root key specification mismatch" None)
          else
          let requiresKey := (generation =? ActiveRoot s) || pending_root s generation in
          if requiresKey && String.eqb (EncryptedKeyDER r) ""
          then Some (corrupt "active or pending root key is missing" None)
          else if negb requiresKey && negb (String.eqb (EncryptedKeyDER r) "")
          then Some (corrupt "retired root private key was retained" None)
          else
          let expected := rootCommonName (spec_Name (Spec s)) generation in
          if negb (String.eqb (n_CommonName (Subject c)) expected)
             || negb (bool_decide (identityFromCAName (Subject c) = spec_Identity (Spec s)))
          then Some (DriftError "root subject" (AString expected) (AString (Name_String (Subject c))))
          else None
      end
  end.

Definition validate_version (s : authorityState) (slug : string) (issuer : issuerRecord)
    (version : Z) (v : issuerVersion) : option error :=
  if negb (Version v =? version) then Some (corrupt "invalid issuer version record" None) else
  match parseCertDER (CertificateDER v) with
  | inl e => Some e
  | inr c =>
  match Roots s !! RootGeneration v with
  | None => Some (corrupt "issuer refers to missing root" None)
  | Some root =>
  match parseCertDER (root_CertificateDER root) with
  | inl e => Some e (* not reached: the loop over the roots has parsed it *)
  | inr rc =>
      if negb (signature_ok c rc) || negb (IsCA c) || negb (BasicConstraintsValid c)
         || negb (MaxPathLen c =? 0) || negb (MaxPathLenZero c) || no_bit (KeyUsage c) KeyUsageCertSign
      then Some (corrupt "invalid issuer certificate" None)
      else if negb (String.eqb (n_CommonName (Subject c))
                (issuerCommonName (spec_Name (Spec s)) (RootGeneration v) (def_Name (Definition_ issuer)) version))
      then Some (DriftError "issuer subject" (AString (def_Name (Definition_ issuer)))
             (AString (n_CommonName (Subject c))))
      else if negb (String.eqb (fingerprint c) (Fingerprint v))
      then Some (DriftError "issuer fingerprint" (AString (Fingerprint v)) (AString (fingerprint c)))
      else
      match keySpecForPublic (cert_PublicKey c) with
      | inl e => Some (corrupt "issuer key specification mismatch" (Some e))
      | inr spec =>
          if negb (String.eqb spec (spec_KeySpec (Spec s)))
          then Some (corrupt "issuer key specification mismatch" None)
          else if NotAfter rc - clockSkew <? NotAfter c
          then Some (corrupt "issuer validity exceeds its root" None)
          else
          let requiresKey := (version =? ActiveVersion issuer) || pending_version s slug version in
          if requiresKey && String.eqb (KeyDER v) ""
          then Some (corrupt "active or pending issuer key is missing" None)
          else if negb requiresKey && negb (String.eqb (KeyDER v) "")
          then Some (corrupt "retired issuer private key was retained" None)
          else None
      end
  end end end.

(** The checks of the active version, after the loop over the versions. *)
Definition validate_active (s : authorityState) (active : issuerVersion) : option error :=
  if negb (RootGeneration active =? ActiveRoot s)
  then Some (corrupt "active issuer is not under the active root" None)
  else if String.eqb (KeyDER active) "" then Some (corrupt "active issuer key is missing" None)
  else
  match parseKeyDER (KeyDER active) "" with
  | inl e => Some e
  | inr key =>
      match parseCertDER (CertificateDER active) with
      | inl e => Some e (* not reached: the loop over the versions has parsed it *)
      | inr cert =>
          if negb (publicKeysEqual (Public key) (cert_PublicKey cert))
          then Some (corrupt "issuer key does not match certificate" None)
          else None
      end
  end.

Definition validate_issuer (s : authorityState) (slug : string) (issuer : issuerRecord) : option error :=
  match Versions issuer !! ActiveVersion issuer with
  | None => Some (corrupt "invalid issuer topology" None)
  | Some active =>
      if negb (String.eqb (def_Slug (Definition_ issuer)) slug) || (ActiveVersion issuer <? 1)
      then Some (corrupt "invalid issuer topology" None)
      else
      match validateDefinition (St := St) (Definition_ issuer) (def_Name (Definition_ issuer)) with
      | inl e => Some (corrupt "invalid stored issuer definition" (Some e))
      | inr normalized =>
          if negb (definitionsEqual normalized (Definition_ issuer))
          then Some (corrupt "invalid stored issuer definition" None)
          else
          match first_error (map (λ p, validate_version s slug issuer p.1 p.2)
                  (map_to_list (Versions issuer))) with
          | Some e => Some e
          | None => validate_active s active
          end
      end
  end.

Definition validate_pending (s : authorityState) : option error :=
  match Pending s with
  | None => None
  | Some p =>
      if Revision s <? ExpectedRevision p then Some (corrupt "pending revision is impossible" None)
      else if negb (String.eqb (Kind_ p) "root") && negb (String.eqb (Kind_ p) "issuer")
      then Some (corrupt "unknown pending operation" None)
      else if String.eqb (Kind_ p) "root" && bool_decide (Roots s !! p_RootGeneration p = None)
      then Some (corrupt "pending root is missing" None)
      else if String.eqb (Kind_ p) "root" && negb (Nat.eqb (size (p_Issuers p)) (size (Issuers s)))
      then Some (corrupt "pending root does not cascade every issuer" None)
      else first_error (map (λ q,
        if bool_decide ((Issuers s !! q.1 ≫= λ i, Versions i !! q.2) = None)
        then Some (corrupt "pending issuer is missing" None) else None)
        (map_to_list (p_Issuers p)))
  end.

Definition validate_spec (s : authorityState) : option error :=
  let spec := Spec s in
  if String.eqb (ID spec) "" then Some (corrupt "missing authority specification" None)
  else if negb (FormatVersion spec =? stateFormatVersion)
  then Some (UnavailableError "unsupported authority format version" None)
  else if negb (KeySpec_valid (spec_KeySpec spec)) || negb (IssuanceMode_valid (spec_IssuanceMode spec))
          || negb (EncryptedRootKeys spec)
  then Some (corrupt "invalid authority specification" None)
  else
  match normalizeDisplayName (spec_Name spec) with
  | inl e => Some (corrupt "invalid stored authority name" (Some e))
  | inr name =>
      if negb (String.eqb name (spec_Name spec)) then Some (corrupt "invalid stored authority name" None)
      else
      match normalizeIdentity (spec_Identity spec) with
      | inl e => Some (corrupt "invalid stored authority identity" (Some e))
      | inr v =>
          if negb (bool_decide (v = spec_Identity spec))
          then Some (corrupt "invalid stored authority identity" None)
          else if (ActiveRoot s <? 1) || bool_decide (Roots s !! ActiveRoot s = None)
          then Some (corrupt "missing active root" None)
          else None
      end
  end.

(** The loops run over the maps in the order of [map_to_list]; Go's order is
    random, and only which of several errors is reported depends on it. *)
Definition validateState (s : authorityState) : option error :=
  first_error
    [validate_spec s;
     first_error (map (λ p, validate_root s p.1 p.2) (map_to_list (Roots s)));
     first_error (map (λ p, validate_issuer s p.1 p.2) (map_to_list (Issuers s)));
     validate_pending s].

Definition validateLedgerRecord (r : LedgerRecord) : option error :=
  if (AuthorityRevision r =? 0) || String.eqb (l_Fingerprint r) "" || String.eqb (Issuer r) ""
     || (IssuerVersion r <? 1) || String.eqb (Serial r) "" || String.eqb (l_CertificateDER r) ""
  then Some (corrupt "incomplete ledger record" None)
  else
  match parseCertDER (l_CertificateDER r) with
  | inl e => Some e
  | inr c =>
      if negb (String.eqb (fingerprint c) (l_Fingerprint r))
      then Some (corrupt "ledger fingerprint mismatch" None)
      else if negb (String.eqb (hex_text (SerialNumber c)) (ToLower (Serial r)))
      then Some (corrupt "ledger serial mismatch" None)
      else
      match HexDecode_error (l_Fingerprint r) with
      | Some e => Some (corrupt "invalid ledger fingerprint" (Some (Sys e)))
      | None =>
      if negb (Profile_valid (l_Profile r)) || (IssuedAt r =? 0) || (ExpiresAt r =? 0)
         || negb (NotAfter c =? ExpiresAt r) || negb (NotBefore c + clockSkew =? IssuedAt r)
      then Some (corrupt "ledger certificate metadata mismatch" None)
      else if negb (bool_decide (identityFromName (Subject c) = l_Subject r))
      then Some (corrupt "ledger subject mismatch" None)
      else
      match normalizeSANsAllowDuplicates (cert_SANs c) with
      | inl e => Some (corrupt "invalid ledger certificate SAN" (Some e))
      | inr certSANs =>
      match normalizeSANsAllowDuplicates (l_SANs r) with
      | inl e => Some (corrupt "invalid ledger SAN record" (Some e))
      | inr recordSANs =>
          if negb (bool_decide (json_SANs certSANs = json_SANs recordSANs))
          then Some (corrupt "ledger SAN mismatch" None)
          else
          let '(usage, extended) := Profile_usages (l_Profile r) in
          if negb (KeyUsage c =? usage) || negb (bool_decide (ExtKeyUsage c = extended))
          then Some (corrupt "ledger profile usage mismatch" None)
          else None
      end end end
  end.

Definition validateLedgerAuthority (s : authorityState) (r : LedgerRecord) : option error :=
  if negb (Revision s =? AuthorityRevision r)
  then Some (ConflictError "authority revision changed during signing" None)
  else
  match Issuers s !! Issuer r with
  | None => Some (ConflictError "active issuer changed during signing" None)
  | Some issuer =>
      if negb (ActiveVersion issuer =? IssuerVersion r)
      then Some (ConflictError "active issuer changed during signing" None)
      else validateLedgerRecord r
  end.

Definition validate_ledger_entry (s : authorityState) (r : LedgerRecord) : option error :=
  if Revision s <? AuthorityRevision r
  then Some (corrupt "ledger record has a future authority revision" None)
  else
  match Issuers s !! Issuer r with
  | None => Some (corrupt "ledger refers to unknown issuer" None)
  | Some issuer =>
  match Versions issuer !! IssuerVersion r with
  | None => Some (corrupt "ledger refers to unknown issuer version" None)
  | Some version =>
  match parseCertDER (l_CertificateDER r) with
  | inl e => Some e
  | inr cert =>
  match parseCertDER (CertificateDER version) with
  | inl e => Some e
  | inr parent =>
      if negb (signature_ok cert parent)
      then Some (corrupt "ledger certificate signature mismatch" None) else None
  end end end end.

Definition validateLedgerRecords (s : authorityState) (records : list LedgerRecord) : option error :=
  first_error (map (validate_ledger_entry s) records).
End validate.
