(* ===== verification/CertsBackend.v ===== *)
(** * The store interface

    The [backend] interface of [store.go] as a class, and what its
    implementations promise to the managers as a class of laws.  A world holds
    the store, the memory of the manager that runs, and the number of clock and
    random calls so far. *)
From S2P Require Import Prelude.
From S2P Require Import GoStrings.
From S2P Require Import Utf8.
From S2P Require Import Text.
From S2P Require Import Errors.
From S2P Require Import GoNet.
From S2P Require Import CertsTypes.
From S2P Require Import CertsNames.
From S2P Require Import CertsCrypto.
From S2P Require Import CertsOptions.
From S2P Require Import CertsState.
#[local] Open Scope stdpp_scope.
#[local] Open Scope Z_scope.

Record world (D M : Type) := { w_disk : D; w_mem : M; w_tick : nat }.
Arguments w_disk {_ _}. Arguments w_mem {_ _}. Arguments w_tick {_ _}.

Definition set_mem {D M} (m : M) (w : world D M) : world D M :=
  {| w_disk := w_disk w; w_mem := m; w_tick := w_tick w |}.
Definition set_disk {D M} (d : D) (w : world D M) : world D M :=
  {| w_disk := d; w_mem := w_mem w; w_tick := w_tick w |}.
Definition bump_tick {D M} (w : world D M) : world D M :=
  {| w_disk := w_disk w; w_mem := w_mem w; w_tick := S (w_tick w) |}.

Definition get_mem {D M} : stm (world D M) M := λ w, (w_mem w, w).
Definition put_mem {D M} (m : M) : stm (world D M) () := λ w, ((), set_mem m w).
(** Readings of the clock and of the random source, by the number of the call. *)
Class Draws (W : Type) := draw : ∀ A, (nat → A) → stm W A.
Arguments draw {_ _ _}.
#[export] Instance world_draws {D M} : Draws (world D M) := λ A f w, (f (w_tick w), bump_tick w).

(** What a mutation passed to [update] answers: an error, [errNoMutation], or
    the mutated state; the latter two with the values the closure assigned. *)
Inductive outcome (A : Type) :=
  | MError (e : error)
  | MNoMutation (a : A)
  | MDone (a : A) (s : authorityState).
Arguments MError {_}. Arguments MNoMutation {_}. Arguments MDone {_}.

Class Backend (D : Type) := {
  b_load M : bool → stm (world D M) (error + authorityState);
  b_update M A : (authorityState → stm (world D M) (outcome A)) → stm (world D M) (error + A);
  b_purge M : stm (world D M) (option error);
  b_loadUnlocks M : stm (world D M) (error + gmap Z string);
  b_storeUnlocks M : gmap Z string → bool → stm (world D M) (option error);
  b_appendLedger M : LedgerRecord → stm (world D M) (option error);
  b_lookupLedger M : string → Z → string → stm (world D M) (error + LedgerRecord);
  b_listLedger M : string → Z → stm (world D M) (error + (list LedgerRecord * string));
  b_kind : string;
  b_principal : string * string;
  (** [securedBackend]. *)
  b_authorizeOwner M : stm (world D M) (option error);
  b_authorizeIssuer M : stm (world D M) (option error);
}.
Arguments b_load {_ _ _}. Arguments b_update {_ _ _ _}. Arguments b_purge {_ _ _}.
Arguments b_loadUnlocks {_ _ _}. Arguments b_storeUnlocks {_ _ _}.
Arguments b_appendLedger {_ _ _}. Arguments b_lookupLedger {_ _ _}. Arguments b_listLedger {_ _ _}.
Arguments b_authorizeOwner {_ _ _}. Arguments b_authorizeIssuer {_ _ _}.

(** The revision that [update] stores. *)
Definition bump_revision (before : Z) (s : authorityState) : authorityState :=
  {| Spec := Spec s;
     Revision := if Revision s <=? before then u64 (before + 1) else Revision s;
     ActiveRoot := ActiveRoot s; Roots := Roots s; Issuers := Issuers s; Pending := Pending s |}.

(** ** Promises

    [stored] is the authority document that the store holds, if any.  [keeps]
    relates a world to a later one in which neither the document nor the
    manager's memory has changed. *)
Section laws.
Context `{Unicode, Crypto, URLParser} {D St : Type}.
Context (stored : D → option authorityState).

Definition keeps {M} (w w' : world D M) : Prop :=
  stored (w_disk w') = stored (w_disk w) ∧ w_mem w' = w_mem w.

Definition keeps_document {M} (w w' : world D M) : Prop :=
  stored (w_disk w') = stored (w_disk w).

Definition valid (s : authorityState) : Prop := validateState (St := St) s = None.

(** The state that a mutation is applied to. *)
Definition opened {M} (w : world D M) (s : authorityState) : Prop :=
  stored (w_disk w) = Some s ∧ valid s ∨ stored (w_disk w) = None ∧ s = zero_state.

(** How an update ends when its mutation was run in [w1] on [s]. *)
Definition update_end {M A} (s : authorityState) (o : outcome A) (w1 : world D M)
    (r : error + A) (w' : world D M) : Prop :=
  w_mem w' = w_mem w1 ∧
  match o with
  | MError e => r = inl e ∧ keeps_document w1 w'
  | MNoMutation a => r = inr a ∧ keeps_document w1 w'
  | MDone a s1 =>
      let s2 := bump_revision (Revision s) s1 in
      (r = inr a ∧ valid s2 ∧ stored (w_disk w') = Some s2) ∨
      (∃ e, r = inl e ∧ (keeps_document w1 w' ∨ valid s2 ∧ stored (w_disk w') = Some s2))
  end.
End laws.

Class BackendLaws `{Unicode, Crypto, URLParser} (D St : Type) `{!Backend D}
    (stored : D → option authorityState) := {
  (** Loading reports the stored document, and only a valid one. *)
  load_law M issuer (w w' : world D M) r :
    b_load issuer w = (r, w') →
    keeps stored w w' ∧ ∀ s, r = inr s → stored (w_disk w) = Some s ∧ valid (St := St) s;
  (** An update runs its mutation at most once, on the stored document, and
      writes the result only when it is valid. *)
  update_law M A (f : authorityState → stm (world D M) (outcome A)) (w w' : world D M) r :
    b_update f w = (r, w') →
    (∃ e, r = inl e ∧ keeps stored w w') ∨
    (∃ s w0 o w1, keeps stored w w0 ∧ opened (St := St) stored w0 s ∧ f s w0 = (o, w1) ∧
      update_end (St := St) stored s o w1 r w');
  (** The other operations leave the document alone; a purge removes it or
      leaves it. *)
  purge_law M (w w' : world D M) r :
    b_purge w = (r, w') → w_mem w' = w_mem w ∧
    (keeps_document stored w w' ∨ stored (w_disk w') = None);
  loadUnlocks_law M (w w' : world D M) r : b_loadUnlocks w = (r, w') → keeps stored w w';
  storeUnlocks_law M v b (w w' : world D M) r : b_storeUnlocks v b w = (r, w') → keeps stored w w';
  appendLedger_law M rec (w w' : world D M) r : b_appendLedger rec w = (r, w') → keeps stored w w';
  lookupLedger_law M i v n (w w' : world D M) r : b_lookupLedger i v n w = (r, w') → keeps stored w w';
  listLedger_law M c l (w w' : world D M) r : b_listLedger c l w = (r, w') → keeps stored w w';
  authorizeOwner_law M (w w' : world D M) r : b_authorizeOwner w = (r, w') → keeps stored w w';
  authorizeIssuer_law M (w w' : world D M) r : b_authorizeIssuer w = (r, w') → keeps stored w w';
}.
