(* ===== verification/CertsAuthority.v ===== *)
(** * The authority manager

    [authority.go] and [authority_operations.go]: the constructor, [Ensure] with
    provisioning and the preparation of staged rotations, promotion, discarding,
    unlock secrets, pruning and purging.  Every operation is a procedure over a
    [world] whose memory is the manager.  Log calls are left out. *)
From S2P Require Import Prelude.
From S2P Require Import GoStrings.
From S2P Require Import Utf8.
From S2P Require Import Text.
From S2P Require Import Errors.
From S2P Require Import GoNet.
From S2P Require Import CertsTypes.
From S2P Require Import CertsNames.
From S2P Require Import CertsCrypto.
From S2P Require Import CertsOptions.
From S2P Require Import CertsState.
From S2P Require Import CertsBackend.
From coqutil Require Import Datatypes.RecordSetters.
Import DoubleBraceUpdate.
#[local] Open Scope stdpp_scope.
#[local] Open Scope Z_scope.

(** [as_sys r] passes an error of the standard library on. *)
Definition as_sys {A} (r : sys_error + A) : error + A :=
  match r with inl e => inl (Sys e) | inr a => inr a end.

(** A nil pointer dereference; validated states do not lead to one. *)
Definition panic_nil : error := Errorf "nil pointer dereference" None.

Definition quoted (s : string) : string := String (chr 34) (s +:+ String (chr 34) "").

(** [fmt.Sprint] of an identity: its fields, one space apart, in braces. *)
Definition Sprint_identity (v : Identity) : string :=
  "{" +:+ Join [Organization v; OrganizationalUnit v; Country v; Province v; Locality v; CommonName v] " " +:+ "}".

Section authority.
Context `{Unicode, Crypto, !Env, URLParser} {D St : Type} `{!Backend D}.

(** The fields of the manager that change; store, logger and clock do not. *)
Record AuthorityManager := {
  config : optionValues St;
  generated : gmap Z string;
  closed : bool;
}.

Abbreviation proc_ A := (stm (world D AuthorityManager) A).

(** ** Keys and certificates *)

Definition generateSigner {W} `{!Draws W} (spec : KeySpec) : stm W (error + Signer) :=
  let spec := if String.eqb spec "" then ECDSAP256 else spec in
  if KeySpec_valid spec then
    r ← draw (λ t, env_GenerateKey t spec); mret (as_sys r)
  else mret (inl (invalid "unsupported key specification" None)).

Definition randomSerial {M} : stm (world D M) (error + Z) :=
  r ← draw (λ t, env_rand t 20);
  mret (match r with inl e => inl (Sys e) | inr b => inr (serial_of_bytes b) end).

Definition randomID {M} : stm (world D M) (error + string) :=
  r ← draw (λ t, env_rand t 16);
  mret (match r with inl e => inl (Sys e) | inr b => inr (id_of_bytes b) end).

Definition now {M} : stm (world D M) Time := draw env_now.

Definition marshalKeyDER (key : Signer) : error + string := as_sys (MarshalPKCS8PrivateKey key).

Definition marshalKeyPEM {W} `{!Draws W} (key : Signer) (passphrase : string) : stm W (error + string) :=
  r ← (if String.eqb passphrase ""
       then mret (MarshalPKCS8PrivateKey key)
       else draw (λ t, env_pkcs8_MarshalPrivateKey t key passphrase));
  mret (match r with
        | inl e => inl (Errorf "encode private key" (Some (Sys e)))
        | inr der => inr (pem_Encode (if String.eqb passphrase "" then "PRIVATE KEY"
                                      else "ENCRYPTED PRIVATE KEY") der)
        end).

(** A CA template: what [makeRoot] and [makeIssuer] set in an [x509.Certificate]. *)
Definition ca_template (serial : Z) (subject : Name) (notBefore notAfter : Time)
    (maxPathLen : Z) (maxPathLenZero : bool) (ski aki : string) : Certificate := {|
  Raw := ""; RawSubject := ""; RawIssuer := "";
  Subject := subject; SerialNumber := serial; NotBefore := notBefore; NotAfter := notAfter;
  IsCA := true; BasicConstraintsValid := true;
  MaxPathLen := maxPathLen; MaxPathLenZero := maxPathLenZero;
  KeyUsage := Z.lor KeyUsageCertSign KeyUsageCRLSign; ExtKeyUsage := [];
  cert_PublicKey := OtherKey ""; SubjectKeyId := ski; AuthorityKeyId := aki;
  cert_SANs := zero_SANs |}.

Definition makeRoot {M} (spec : authoritySpec) (generation : Z) (now : Time)
    : stm (world D M) (error + (rootRecord * Signer * string)) :=
  let! key := generateSigner (spec_KeySpec spec) else e => mret (inl e) in
  let! ski := mret (subjectKeyID (Public key)) else e => mret (inl e) in
  let! serial := randomSerial else e => mret (inl e) in
  let t := ca_template serial (caName (spec_Identity spec) (rootCommonName (spec_Name spec) generation))
    (now - clockSkew) (now + RootValidity spec) 1 false ski ski in
  let! der := draw (λ n, env_CreateCertificate n t t (Public key) key) else e => mret (inl (Sys e)) in
  let! cert := mret (x509_ParseCertificate der) else e => mret (inl (Sys e)) in
  let! secret := draw (λ n, env_rand n 32) else e => mret (inl (Sys e)) in
  let! pemKey := marshalKeyPEM key secret else e => mret (inl e) in
  match pem_Decode pemKey with
  | None => mret (inl panic_nil)
  | Some (_, bytes, _) =>
      mret (inr ({| Generation := generation; root_CertificateDER := der; EncryptedKeyDER := bytes;
                    root_Fingerprint := fingerprint cert; RetiredTrustUntil := 0 |}, key, secret))
  end.

Definition makeIssuer {M} (spec : authoritySpec) (generation version : Z) (d : IssuerDefinition)
    (root : rootRecord) (rootKey : Signer) (now : Time) : stm (world D M) (error + issuerVersion) :=
  let! rc := mret (parseCertDER (root_CertificateDER root)) else e => mret (inl e) in
  let notAfter := now + def_Validity d in
  if NotAfter rc - clockSkew <? notAfter
  then mret (inl (invalid "issuer validity does not fit within root validity" None)) else
  let! key := generateSigner (spec_KeySpec spec) else e => mret (inl e) in
  let! ski := mret (subjectKeyID (Public key)) else e => mret (inl e) in
  let! serial := randomSerial else e => mret (inl e) in
  let t := ca_template serial
    (caName (spec_Identity spec) (issuerCommonName (spec_Name spec) generation (def_Name d) version))
    (now - clockSkew) notAfter 0 true ski (SubjectKeyId rc) in
  let! der := draw (λ n, env_CreateCertificate n t rc (Public key) rootKey) else e => mret (inl (Sys e)) in
  match x509_ParseCertificate der with
  | inl _ => mret (inl panic_nil)
  | inr cert =>
      let! keyDER := mret (marshalKeyDER key) else e => mret (inl e) in
      mret (inr {| Version := version; RootGeneration := generation; CertificateDER := der;
                   KeyDER := keyDER; Fingerprint := fingerprint cert |})
  end.

(** ** NewAuthorityManager *)

Fixpoint fix_issuers (l : list IssuerDefinition) (seen : list (string * string))
    : error + list IssuerDefinition :=
  match l with
  | [] => inr []
  | d :: rest =>
      match normalizeDisplayName (def_Name d) with
      | inl e => inl e
      | inr n =>
          match validateDefinition (St := St) d n with
          | inl e => inl e
          | inr fixed =>
              match list_find (λ p, p.1 = def_Slug fixed) seen with
              | Some (_, (_, prior)) =>
                  inl (ConflictError ("issuer names " +:+ quoted prior +:+ " and " +:+
                    quoted (def_Name fixed) +:+ " have the same storage identifier") None)
              | None =>
                  match fix_issuers rest ((def_Slug fixed, def_Name fixed) :: seen) with
                  | inl e => inl e
                  | inr out => inr (fixed :: out)
                  end
              end
          end
      end
  end.

(** The checks between the store's authorisation and the first load. *)
Definition manager_config (o : optionValues St) : error + optionValues St :=
  let '(ow, gr) := b_principal in
  if ownerSet o && negb (String.eqb (owner o) ow)
  then inl (invalid "manager owner differs from store owner" None)
  else if groupSet o && negb (String.eqb (group o) gr)
  then inl (invalid "manager group differs from store group" None)
  else
  let o := o {{ owner := ow; group := gr }} in
  if rootKeySpecSet o && negb (KeySpec_valid (rootKeySpec o))
  then inl (invalid "unsupported root key specification" None)
  else if issuanceModeSet o && negb (IssuanceMode_valid (issuanceMode o))
  then inl (invalid "unsupported issuance mode" None)
  else
  match (if identitySet o then normalizeIdentity (identity o) else inr (identity o)) with
  | inl e => inl e
  | inr v =>
  let o := o {{ identity := v }} in
  match (if authorityNameSet o then normalizeDisplayName (authorityName o) else inr (authorityName o)) with
  | inl e => inl e
  | inr name =>
  let o := o {{ authorityName := name }} in
  match (if negb (authorityNameSet o) && identitySet o && negb (String.eqb (Organization (identity o)) "")
         then match normalizeDisplayName (Organization (identity o)) with
              | inl e => inl (invalid "identity organization requires an explicit valid authority name" (Some e))
              | inr n => inr (o {{ authorityName := n; authorityNameSet := true }})
              end
         else inr o) with
  | inl e => inl e
  | inr o =>
  match fix_issuers (issuers o) [] with
  | inl e => inl e
  | inr l =>
      if rootValiditySet o && (rootValidity o <=? 0)
      then inl (invalid "root validity must be positive" None)
      else inr (o {{ issuers := l }})
  end end end end.

Definition NewAuthorityManager {M} (opts : list (option (option_ St)))
    : stm (world D M) (error + AuthorityManager) :=
  let! o := mret (parseOptions scopeAuthority opts) else e => mret (inl e) in
  match store o with
  | None => mret (inl (invalid "WithStore is required" None))
  | Some _ =>
      check! b_authorizeOwner else e => mret (inl e) in
      let! o := mret (manager_config o) else e => mret (inl e) in
      let manager := inr {| config := o; generated := ∅; closed := false |} in
      r ← b_load false;
      match r with
      | inr _ => mret manager
      | inl loadErr =>
          if AsNotFound loadErr && negb (authorityNameSet o)
          then mret (inl (invalid "WithAuthorityName or WithIdentity is required for a new authority" None))
          else if negb (AsNotFound loadErr) then mret (inl loadErr)
          else mret manager
      end
  end.

(** ** Ensure *)

Record EnsureResult := {
  Created : bool;
  r_Pending : bool;
  r_PendingKind : PendingKind;
  r_RootGeneration : Z;
  r_Revision : Z;
  r_Issuers : list string;
}.
Definition zero_EnsureResult : EnsureResult := Build_EnsureResult false false PendingNone 0 0 [].

Definition pendingKind (kind : string) : PendingKind :=
  if String.eqb kind "root" then PendingRoot
  else if String.eqb kind "issuer" then PendingIssuer else PendingNone.

(** [m.generated[g] = secret]. *)
Definition remember (g : Z) (secret : string) : proc_ () :=
  m ← get_mem;
  put_mem {| config := config m; generated := <[g := secret]> (generated m); closed := closed m |}.

Definition new_issuer (d : IssuerDefinition) (v : issuerVersion) : issuerRecord :=
  {| Definition_ := d; ActiveVersion := 1; Versions := {[ 1 := v ]} |}.

Definition add_issuer (slug : string) (i : issuerRecord) (s : authorityState) : authorityState :=
  {| Spec := Spec s; Revision := Revision s; ActiveRoot := ActiveRoot s; Roots := Roots s;
     Issuers := <[slug := i]> (Issuers s); Pending := Pending s |}.
Definition add_root (g : Z) (r : rootRecord) (s : authorityState) : authorityState :=
  {| Spec := Spec s; Revision := Revision s; ActiveRoot := ActiveRoot s;
     Roots := <[g := r]> (Roots s); Issuers := Issuers s; Pending := Pending s |}.
Definition set_pending (p : option pendingManifest) (s : authorityState) : authorityState :=
  {| Spec := Spec s; Revision := Revision s; ActiveRoot := ActiveRoot s; Roots := Roots s;
     Issuers := Issuers s; Pending := p |}.
Definition set_versions (vs : gmap Z issuerVersion) (i : issuerRecord) : issuerRecord :=
  {| Definition_ := Definition_ i; ActiveVersion := ActiveVersion i; Versions := vs |}.

Definition provision_spec (o : optionValues St) (id : string) : authoritySpec := {|
  ID := id; FormatVersion := stateFormatVersion; spec_Name := authorityName o;
  spec_Identity := identity o;
  RootValidity := if rootValiditySet o then rootValidity o else 10 * 365 * 24 * Hour;
  spec_KeySpec := if rootKeySpecSet o then rootKeySpec o else ECDSAP256;
  EncryptedRootKeys := true;
  spec_IssuanceMode := if issuanceModeSet o then issuanceMode o else IssuanceNone;
  spec_Owner := owner o; spec_Group := group o; spec_Backend := b_kind |}.

Definition provision (s : authorityState) : proc_ (error + (EnsureResult * authorityState)) :=
  m ← get_mem;
  let o := config m in
  if String.eqb (authorityName o) "" then mret (inl (invalid "authority name is required" None)) else
  let! id := randomID else e => mret (inl e) in
  let spec := provision_spec o id in
  t ← now;
  let! made := makeRoot spec 1 t else e => mret (inl e) in
  let '(root, key, secret) := made in
  _ ← remember 1 secret;
  let s := {| Spec := spec; Revision := Revision s; ActiveRoot := 1; Roots := {[ 1 := root ]};
              Issuers := ∅; Pending := Pending s |} in
  r ← for_each (λ d s,
        t ← now;
        v ← makeIssuer spec 1 1 d root key t;
        mret (match v with
              | inl e => inl e
              | inr v => inr (add_issuer (def_Slug d) (new_issuer d v) s)
              end)) (issuers o) s;
  mret (match r with
        | inl e => inl e
        | inr s => inr ({| Created := true; r_Pending := false; r_PendingKind := PendingNone;
                           r_RootGeneration := 1; r_Revision := 0; r_Issuers := [] |}, s)
        end).

Definition assertSpec (o : optionValues St) (s : authorityState) : option error :=
  let '(ow, gr) := b_principal in
  let spec := Spec s in
  if negb (String.eqb (spec_Backend spec) b_kind)
  then Some (DriftError "backend" (AString (spec_Backend spec)) (AString b_kind))
  else if negb (String.eqb (spec_Owner spec) ow) || negb (String.eqb (spec_Group spec) gr)
  then Some (DriftError "store principal" (AString (spec_Owner spec +:+ ":" +:+ spec_Group spec))
         (AString (ow +:+ ":" +:+ gr)))
  else first_error
    [ if authorityNameSet o && negb (String.eqb (authorityName o) (spec_Name spec))
      then Some (DriftError "authority name" (AString (spec_Name spec)) (AString (authorityName o))) else None;
      if identitySet o && negb (String.eqb (Sprint_identity (identity o)) (Sprint_identity (spec_Identity spec)))
      then Some (DriftError "identity" (AIdentity (spec_Identity spec)) (AIdentity (identity o))) else None;
      if rootKeySpecSet o && negb (String.eqb (rootKeySpec o) (spec_KeySpec spec))
      then Some (DriftError "root key specification" (AString (spec_KeySpec spec)) (AString (rootKeySpec o))) else None;
      if issuanceModeSet o && negb (String.eqb (issuanceMode o) (spec_IssuanceMode spec))
      then Some (DriftError "issuance mode" (AString (spec_IssuanceMode spec)) (AString (issuanceMode o))) else None;
      if rootValiditySet o && negb (rootValidity o =? RootValidity spec)
      then Some (DriftError "root validity" (AInt (RootValidity spec)) (AInt (rootValidity o))) else None ].

Definition unlock_missing (what : string) (g : Z) : error :=
  NotFoundError ("unlock secret for " +:+ what +:+ " G" +:+ Itoa g) None.

(** The secret in [unlocks] for [g]; an absent file counts as no secret. *)
Definition stored_secret (g : Z) : proc_ (error + string) :=
  r ← b_loadUnlocks;
  mret (match r with
        | inr unlocks => inr (default "" (unlocks !! g))
        | inl e => if AsNotFound e then inr "" else inl e
        end).

Definition activeRootSigner (s : authorityState) : proc_ (error + Signer) :=
  m ← get_mem;
  let v := default "" (generated m !! ActiveRoot s) in
  let secret := if String.eqb v "" then rootUnlock (config m) else v in
  let! secret := (if String.eqb secret "" then stored_secret (ActiveRoot s) else mret (inr secret))
    else e => mret (inl e) in
  if String.eqb secret "" then mret (inl (unlock_missing "root" (ActiveRoot s))) else
  match Roots s !! ActiveRoot s with
  | None => mret (inl panic_nil)
  | Some r =>
      match parseKeyDER (EncryptedKeyDER r) secret with
      | inl _ => mret (inl (invalid "root unlock secret is incorrect" None))
      | inr signer =>
          match parseCertDER (root_CertificateDER r) with
          | inl e => mret (inl e)
          | inr cert =>
              if negb (publicKeysEqual (Public signer) (cert_PublicKey cert))
              then mret (inl (corrupt "root key does not match certificate" None))
              else mret (inr signer)
          end
      end
  end.

(** The generations of a state are finite, so the search ends. *)
Fixpoint free_generation (fuel : nat) (roots : gmap Z rootRecord) (g : Z) : Z :=
  match fuel with
  | O => g
  | S fuel' => if bool_decide (roots !! g = None) then g else free_generation fuel' roots (g + 1)
  end.

(** One issuer of a staged rotation: the new version is added and noted. *)
Definition stage_issuer (spec : authoritySpec) (g : Z) (root : rootRecord) (key : Signer) (t : Time)
    (slug : string) (acc : authorityState * gmap string Z)
    : proc_ (error + (authorityState * gmap string Z)) :=
  let '(s, staged) := acc in
  match Issuers s !! slug with
  | None => mret (inl panic_nil)
  | Some issuer =>
      let v := ActiveVersion issuer + 1 in
      r ← makeIssuer spec g v (Definition_ issuer) root key t;
      mret (match r with
            | inl e => inl e
            | inr record =>
                inr (add_issuer slug (set_versions (<[v := record]> (Versions issuer)) issuer) s,
                     <[slug := v]> staged)
            end)
  end.

Definition prepareRoot (s : authorityState) (t : Time) : proc_ (error + authorityState) :=
  let g := free_generation (S (size (Roots s))) (Roots s) (ActiveRoot s + 1) in
  let! made := makeRoot (Spec s) g t else e => mret (inl e) in
  let '(r, key, secret) := made in
  _ ← remember g secret;
  x ← for_each (stage_issuer (Spec s) g r key t) (map_to_list (Issuers s)).*1 (add_root g r s, ∅);
  mret (match x with
        | inl e => inl e
        | inr (s', staged) =>
            inr (set_pending (Some {| Kind_ := "root"; ExpectedRevision := Revision s;
                   p_RootGeneration := g; p_Issuers := staged; CreatedAt := t |}) s')
        end).

Definition prepareIssuers (s : authorityState) (due : list string) (t : Time)
    : proc_ (error + authorityState) :=
  let! key := activeRootSigner s else e => mret (inl e) in
  match Roots s !! ActiveRoot s with
  | None => mret (inl panic_nil)
  | Some root =>
      x ← for_each (stage_issuer (Spec s) (ActiveRoot s) root key t) due (s, ∅);
      mret (match x with
            | inl e => inl e
            | inr (s', staged) =>
                inr (set_pending (Some {| Kind_ := "issuer"; ExpectedRevision := Revision s;
                       p_RootGeneration := 0; p_Issuers := staged; CreatedAt := t |}) s')
            end)
  end.

(** The loop of [Ensure] over the declared issuers; the accumulator is the
    state and the names of the issuers created. *)
Definition ensure_issuer (d : IssuerDefinition) (acc : authorityState * list string)
    : proc_ (error + (authorityState * list string)) :=
  let '(s, created) := acc in
  match Issuers s !! def_Slug d with
  | Some existing =>
      if negb (definitionsEqual (Definition_ existing) d)
      then mret (inl (DriftError ("issuer " +:+ def_Name d) (ADefinition (Definition_ existing)) (ADefinition d)))
      else mret (inr acc)
  | None =>
      if existsb (λ p, String.eqb (def_Slug (Definition_ p.2)) (def_Slug d)
                       && negb (String.eqb (def_Name (Definition_ p.2)) (def_Name d)))
           (map_to_list (Issuers s))
      then mret (inl (ConflictError "issuer slug collision" None))
      else
      let! signer := activeRootSigner s else e => mret (inl e) in
      match Roots s !! ActiveRoot s with
      | None => mret (inl panic_nil)
      | Some root =>
          t ← now;
          v ← makeIssuer (Spec s) (ActiveRoot s) 1 d root signer t;
          mret (match v with
                | inl e => inl e
                | inr v => inr (add_issuer (def_Slug d) (new_issuer d v) s, created ++ [def_Name d])
                end)
      end
  end.

(** Whether an issuer is due for rotation. *)
Definition issuer_due (o : optionValues St) (t : Time) (issuer : issuerRecord) : bool :=
  let '(before, explicit) := match issuerRotateBefore o !! def_Name (Definition_ issuer) with
    | Some v => (v, true)
    | None => (defaultRotateBefore, false)
    end in
  match Versions issuer !! ActiveVersion issuer with
  | None => false
  | Some v =>
      match parseCertDER (CertificateDER v) with
      | inl _ => false (* not reached in a validated state *)
      | inr cert => (explicit && (before =? 0)) || (NotAfter cert <=? t + before)
      end
  end.

Definition root_due (o : optionValues St) (t : Time) (s : authorityState) : bool :=
  let before := if rootRotateBeforeSet o then rootRotateBefore o else defaultRotateBefore in
  match Roots s !! ActiveRoot s with
  | None => false
  | Some r =>
      match parseCertDER (root_CertificateDER r) with
      | inl _ => false (* not reached in a validated state *)
      | inr cert => (rootRotateBeforeSet o && (before =? 0)) || (NotAfter cert <=? t + before)
      end
  end.

Definition ensure_mutation (o : optionValues St) (s : authorityState) : proc_ (outcome EnsureResult) :=
  if String.eqb (ID (Spec s)) "" then
    r ← provision s;
    mret (match r with inl e => MError e | inr (res, s) => MDone res s end)
  else
  m ← get_mem;
  match assertSpec (config m) s with
  | Some e => mret (MError e)
  | None =>
  match Pending s with
  | Some p =>
      mret (MError (ConflictError "a pending operation must be promoted or discarded"
        (Some (PendingConflictError (pendingKind (Kind_ p))))))
  | None =>
  let! _ := activeRootSigner s else e => mret (MError e) in
  let! acc := for_each ensure_issuer (issuers (config m)) (s, []) else e => mret (MError e) in
  let '(s, created) := acc in
  t ← now;
  if root_due o t s then
    r ← prepareRoot s t;
    mret (match r with
          | inl e => MError e
          | inr s' => MDone {| Created := false; r_Pending := true; r_PendingKind := PendingRoot;
              r_RootGeneration := match Pending s' with Some p => p_RootGeneration p | None => 0 end;
              r_Revision := 0; r_Issuers := created |} s'
          end)
  else
  let due := (filter (λ p, issuer_due o t p.2 = true) (map_to_list (Issuers s))).*1 in
  match due with
  | [] =>
      let res := {| Created := false; r_Pending := false; r_PendingKind := PendingNone;
                    r_RootGeneration := ActiveRoot s; r_Revision := 0; r_Issuers := created |} in
      mret (match created with [] => MNoMutation res | _ => MDone res s end)
  | _ =>
      r ← prepareIssuers s due t;
      mret (match r with
            | inl e => MError e
            | inr s' => MDone {| Created := false; r_Pending := true; r_PendingKind := PendingIssuer;
                r_RootGeneration := ActiveRoot s'; r_Revision := 0; r_Issuers := created |} s'
            end)
  end end end.

(** The checks of the per-issuer rotation windows. *)
Definition check_rotation (p : string * Duration) : option error :=
  if p.2 <? 0 then Some (invalid "issuer rotate-before cannot be negative" None) else
  match normalizeDisplayName p.1 with
  | inl e => Some (invalid "issuer rotation name must be normalized" (Some e))
  | inr n => if negb (String.eqb n p.1)
             then Some (invalid "issuer rotation name must be normalized" None) else None
  end.

Definition closed_error : error := ConflictError "authority manager is closed" None.

Definition Ensure (opts : list (option (option_ St))) : proc_ (error + EnsureResult) :=
  let! o := mret (parseOptions scopeEnsure opts) else e => mret (inl e) in
  if rootRotateBeforeSet o && (rootRotateBefore o <? 0)
  then mret (inl (invalid "root rotate-before cannot be negative" None)) else
  match first_error (map check_rotation (map_to_list (issuerRotateBefore o))) with
  | Some e => mret (inl e)
  | None =>
      m ← get_mem;
      if closed m then mret (inl closed_error) else
      let! result := b_update (ensure_mutation o) else e => mret (inl e) in
      let! s := b_load false else e => mret (inl e) in
      mret (inr {| Created := Created result; r_Pending := r_Pending result;
                   r_PendingKind := r_PendingKind result;
                   r_RootGeneration := if r_RootGeneration result =? 0 then ActiveRoot s
                                       else r_RootGeneration result;
                   r_Revision := Revision s; r_Issuers := r_Issuers result |})
  end.

(** ** PromotePending *)

Record PromotionResult := { pr_RootGeneration : Z; pr_Revision : Z }.

(** Paging through the ledger with pages of 500. *)
Definition deadline_of (s : authorityState) (generation : Z) (records : list LedgerRecord)
    (deadline : Time) : Time :=
  foldl (λ deadline r,
    match Issuers s !! Issuer r with
    | None => deadline
    | Some issuer =>
        match Versions issuer !! IssuerVersion r with
        | None => deadline
        | Some v =>
            if (RootGeneration v =? generation) && (deadline <? ExpiresAt r + clockSkew)
            then ExpiresAt r + clockSkew else deadline
        end
    end) deadline records.

(** [None] is a loop that has not ended within [fuel] pages. *)
Fixpoint ledgerTrustDeadline (fuel : nat) (s : authorityState) (generation : Z) (cursor : string)
    (deadline : Time) : proc_ (option (error + Time)) :=
  match fuel with
  | O => mret None
  | S fuel' =>
      r ← b_listLedger cursor 500;
      match r with
      | inl e => mret (Some (inl e))
      | inr (records, next) =>
          let deadline := deadline_of s generation records deadline in
          if String.eqb next "" then mret (Some (inr deadline))
          else ledgerTrustDeadline fuel' s generation next deadline
      end
  end.

(** The pending root's key must open with the secret. *)
Definition check_pending_root (r : rootRecord) (secret : string) : option error :=
  match parseKeyDER (EncryptedKeyDER r) secret with
  | inl _ => Some (invalid "pending root unlock secret is incorrect" None)
  | inr key =>
      match parseCertDER (root_CertificateDER r) with
      | inl _ => Some panic_nil
      | inr cert =>
          if negb (publicKeysEqual (Public key) (cert_PublicKey cert))
          then Some (corrupt "pending root key mismatch" None) else None
      end
  end.

Definition check_pending_issuer (s : authorityState) (q : string * Z) : option error :=
  match Issuers s !! q.1 ≫= λ i, Versions i !! q.2 with
  | None => Some panic_nil
  | Some record =>
      match parseKeyDER (KeyDER record) "" with
      | inl e => Some e
      | inr key =>
          match parseCertDER (CertificateDER record) with
          | inl _ => Some panic_nil
          | inr cert =>
              if negb (publicKeysEqual (Public key) (cert_PublicKey cert))
              then Some (corrupt "pending issuer key mismatch" None) else None
          end
      end
  end.

Definition erase_root_key (r : rootRecord) : rootRecord :=
  {| Generation := Generation r; root_CertificateDER := root_CertificateDER r; EncryptedKeyDER := "";
     root_Fingerprint := root_Fingerprint r; RetiredTrustUntil := RetiredTrustUntil r |}.
Definition retire_root (t : Time) (r : rootRecord) : rootRecord :=
  {| Generation := Generation r; root_CertificateDER := root_CertificateDER r;
     EncryptedKeyDER := EncryptedKeyDER r; root_Fingerprint := root_Fingerprint r;
     RetiredTrustUntil := t |}.
Definition erase_issuer_key (v : issuerVersion) : issuerVersion :=
  {| Version := Version v; RootGeneration := RootGeneration v; CertificateDER := CertificateDER v;
     KeyDER := ""; Fingerprint := Fingerprint v |}.

(** Activating one staged issuer version erases the key of the old one. *)
Definition activate (v : Z) (i : issuerRecord) : issuerRecord :=
  {| Definition_ := Definition_ i; ActiveVersion := v;
     Versions := alter erase_issuer_key (ActiveVersion i) (Versions i) |}.

Definition activate_all (staged : gmap string Z) (issuers : gmap string issuerRecord)
    : gmap string issuerRecord :=
  map_imap (λ slug i, Some (match staged !! slug with Some v => activate v i | None => i end)) issuers.

(** The state after promotion; [deadline] is for the replaced root. *)
Definition promoted (p : pendingManifest) (deadline : Time) (s : authorityState) : authorityState :=
  {| Spec := Spec s; Revision := Revision s;
     ActiveRoot := if String.eqb (Kind_ p) "root" then p_RootGeneration p else ActiveRoot s;
     Roots := if String.eqb (Kind_ p) "root"
              then alter (retire_root deadline) (ActiveRoot s) (alter erase_root_key (ActiveRoot s) (Roots s))
              else Roots s;
     Issuers := activate_all (p_Issuers p) (Issuers s);
     Pending := None |}.

(** The secret that opens the pending root, and the copy that is kept for the
    unlock file: a secret that came from the file itself is not copied. *)
Definition promotion_secret (o : optionValues St) (g : Z) : proc_ (error + (string * string)) :=
  m ← get_mem;
  let secret := if String.eqb (rootUnlock o) "" then default "" (generated m !! g) else rootUnlock o in
  if negb (String.eqb secret "") then mret (inr (secret, secret)) else
  let! found := stored_secret g else e => mret (inl e) in
  mret (inr (found, "")).

(** [ledger_fuel] bounds the number of ledger pages; the deadline must not be
    read before the old key is dropped, which has no effect of its own here. *)
Definition promotion_deadline (ledger_fuel : nat) (p : pendingManifest) (s : authorityState) (t : Time)
    : proc_ (option (error + Time)) :=
  if String.eqb (spec_IssuanceMode (Spec s)) IssuanceLedger then
    r ← ledgerTrustDeadline ledger_fuel s (ActiveRoot s) "" 0;
    mret (match r with
          | Some (inr d) => Some (inr (if d =? 0 then t else d))
          | _ => r
          end)
  else mret (Some (inr (t + (maximumLeafValidity + clockSkew)))).

Definition promote_mutation (ledger_fuel : nat) (o : optionValues St) (s : authorityState)
    : proc_ (outcome (option (PromotionResult * string))) :=
  m ← get_mem;
  match assertSpec (config m) s with
  | Some e => mret (MError e)
  | None =>
  match Pending s with
  | None => mret (MError (NotFoundError "pending operation" None))
  | Some p =>
      let is_root := String.eqb (Kind_ p) "root" in
      let! promotedSecret :=
        (if is_root then
           let! secrets := promotion_secret o (p_RootGeneration p) else e => mret (inl e) in
           let '(secret, copy) := secrets in
           if String.eqb secret "" then mret (inl (unlock_missing "pending root" (p_RootGeneration p))) else
           match Roots s !! p_RootGeneration p with
           | None => mret (inl panic_nil)
           | Some r =>
               match check_pending_root r secret with
               | Some e => mret (inl e)
               | None => mret (inr copy)
               end
           end
         else mret (inr "")) else e => mret (MError e) in
      match first_error (map (check_pending_issuer s) (map_to_list (p_Issuers p))) with
      | Some e => mret (MError e)
      | None =>
          t ← now;
          d ← (if is_root then promotion_deadline ledger_fuel p s t else mret (Some (inr 0)));
          mret (match d with
                | None => MNoMutation None (* the page bound was reached *)
                | Some (inl e) => MError e
                | Some (inr deadline) =>
                    let s' := promoted p deadline s in
                    MDone (Some ({| pr_RootGeneration := ActiveRoot s'; pr_Revision := 0 |}, promotedSecret)) s'
                end)
      end
  end end.

(** Only the secrets of the active root are kept. *)
Definition kept_secret (g : Z) (unlocks gen : gmap Z string) (promotedSecret : string) : gmap Z string :=
  let v := default "" (unlocks !! g) in
  let w := default "" (gen !! g) in
  let secret := if negb (String.eqb promotedSecret "") then promotedSecret
                else if negb (String.eqb w "") then w else v in
  if String.eqb secret "" then ∅ else {[ g := secret ]}.

Definition forget_others (g : Z) : proc_ () :=
  m ← get_mem;
  put_mem {| config := config m; generated := filter (λ p, p.1 = g) (generated m); closed := closed m |}.

(** The error that comes with a result is the second component. *)
Definition PromotePending (ledger_fuel : nat) (opts : list (option (option_ St)))
    : proc_ (option (error + (PromotionResult * option error))) :=
  match parseOptions scopePromote opts with
  | inl e => mret (Some (inl e))
  | inr o =>
      m ← get_mem;
      if closed m then mret (Some (inl closed_error)) else
      let! u := b_update (promote_mutation ledger_fuel o) else e => mret (Some (inl e)) in
      match u with
      | None => mret None
      | Some (result, promotedSecret) =>
          let! s := b_load false else e => mret (Some (inl e)) in
          let result := {| pr_RootGeneration := pr_RootGeneration result; pr_Revision := Revision s |} in
          m ← get_mem;
          unlocks ← b_loadUnlocks;
          cleanup ← (match unlocks with
            | inl _ => mret None
            | inr unlocks =>
                let keep := kept_secret (ActiveRoot s) unlocks (generated m) promotedSecret in
                if bool_decide (keep = ∅) then mret None else b_storeUnlocks keep true
            end);
          match cleanup with
          | Some e => mret (Some (inr (result, Some (PartialOperationError "promotion unlock cleanup" (Some e)))))
          | None => _ ← forget_others (ActiveRoot s); mret (Some (inr (result, None)))
          end
      end
  end.

(** ** DiscardPending *)

Definition discard_issuers (staged : gmap string Z) (issuers : gmap string issuerRecord)
    : gmap string issuerRecord :=
  map_imap (λ slug i, Some (match staged !! slug with
    | Some v => set_versions (delete v (Versions i)) i
    | None => i
    end)) issuers.

Definition discarded (p : pendingManifest) (s : authorityState) : authorityState :=
  {| Spec := Spec s; Revision := Revision s; ActiveRoot := ActiveRoot s;
     Roots := if 0 <? p_RootGeneration p then delete (p_RootGeneration p) (Roots s) else Roots s;
     Issuers := discard_issuers (p_Issuers p) (Issuers s);
     Pending := None |}.

(** The value is the list of discarded root generations. *)
Definition discard_mutation (s : authorityState) : proc_ (outcome (list Z)) :=
  m ← get_mem;
  match assertSpec (config m) s with
  | Some e => mret (MError e)
  | None =>
  match Pending s with
  | None => mret (MError (NotFoundError "pending operation" None))
  | Some p => mret (MDone (if 0 <? p_RootGeneration p then [p_RootGeneration p] else []) (discarded p s))
  end end.

Definition delete_all (gs : list Z) (m : gmap Z string) : gmap Z string :=
  foldr (λ g m, delete g m) m gs.

Definition DiscardPending : proc_ (option error) :=
  m ← get_mem;
  if closed m then mret (Some closed_error) else
  let! generations := b_update discard_mutation else e => mret (Some e) in
  m ← get_mem;
  _ ← put_mem {| config := config m; generated := delete_all generations (generated m); closed := closed m |};
  unlocks ← b_loadUnlocks;
  match unlocks with
  | inl _ => mret None
  | inr unlocks =>
      check! b_storeUnlocks (delete_all generations unlocks) true
        else e => mret (Some (PartialOperationError "discard unlock cleanup" (Some e))) in
      mret None
  end.

(** ** Unlock secrets *)

Definition ExportGeneratedUnlock : proc_ (error + string) :=
  m ← get_mem;
  if closed m then mret (inl closed_error) else
  let! s := b_load false else e => mret (inl e) in
  let g := match Pending s with
    | Some p => if String.eqb (Kind_ p) "root" then p_RootGeneration p else ActiveRoot s
    | None => ActiveRoot s
    end in
  let secret := default "" (generated m !! g) in
  if String.eqb secret "" then mret (inl (NotFoundError "newly generated unlock secret" None))
  else mret (inr secret).

Definition required_roots (s : authorityState) : list Z :=
  ActiveRoot s :: match Pending s with
    | Some p => if String.eqb (Kind_ p) "root" then [p_RootGeneration p] else []
    | None => []
    end.

(** What [StoreLocalUnlock] writes for one required root. *)
Definition local_unlock (m : AuthorityManager) (s : authorityState) (values : gmap Z string) (g : Z)
    : gmap Z string :=
  let v := default "" (generated m !! g) in
  if negb (String.eqb v "") then <[g := v]> values
  else if String.eqb (default "" (values !! g)) "" && (g =? ActiveRoot s) && rootUnlockSet (config m)
  then <[g := rootUnlock (config m)]> values
  else values.

Definition StoreLocalUnlock (opts : list (option (option_ St))) : proc_ (option error) :=
  m ← get_mem;
  if closed m then mret (Some closed_error) else
  let! o := mret (parseOptions scopeSave opts) else e => mret (Some e) in
  let! s := b_load false else e => mret (Some e) in
  current ← b_loadUnlocks;
  match (match current with
         | inr c => inr c
         | inl e => if AsNotFound e then inr ∅ else inl e
         end) with
  | inl e => mret (Some e)
  | inr values =>
      let required := required_roots s in
      let values := foldl (local_unlock m s) values required in
      match first_error (map (λ g, if String.eqb (default "" (values !! g)) ""
                                   then Some (unlock_missing "root" g) else None) required) with
      | Some e => mret (Some e)
      | None => b_storeUnlocks values (replace o)
      end
  end.

(** ** Inspection, pruning, purging, closing *)

Record Inspection := {
  AuthorityID : string;
  i_Revision : Z;
  AuthorityName : string;
  i_ActiveRoot : Z;
  ActiveRootFingerprint : string;
  i_PendingKind : PendingKind;
  i_Issuers : gmap string Z;
}.

Definition Inspect : proc_ (error + Inspection) :=
  let! s := b_load false else e => mret (inl e) in
  match Roots s !! ActiveRoot s with
  | None => mret (inl panic_nil)
  | Some r => mret (inr {|
      AuthorityID := ID (Spec s); i_Revision := Revision s; AuthorityName := spec_Name (Spec s);
      i_ActiveRoot := ActiveRoot s; ActiveRootFingerprint := root_Fingerprint r;
      i_PendingKind := match Pending s with Some p => pendingKind (Kind_ p) | None => PendingNone end;
      i_Issuers := list_to_map (map (λ p, (def_Name (Definition_ p.2), ActiveVersion p.2))
                     (map_to_list (Issuers s))) |})
  end.

Definition Repair : proc_ (option error) :=
  let! s := b_load false else e => mret (Some e) in
  mret (validateState (St := St) s).

Definition prune_mutation (generation : Z) (expectedFingerprint : string) (s : authorityState)
    : proc_ (outcome ()) :=
  if (generation =? ActiveRoot s)
     || match Pending s with Some p => generation =? p_RootGeneration p | None => false end
  then mret (MError (ConflictError "cannot prune an active or pending root" None)) else
  match Roots s !! generation with
  | None => mret (MError (NotFoundError "root generation" None))
  | Some r =>
      if negb (String.eqb (root_Fingerprint r) expectedFingerprint)
      then mret (MError (DriftError "root fingerprint" (AString (root_Fingerprint r)) (AString expectedFingerprint)))
      else
      t ← now;
      if t <? RetiredTrustUntil r
      then mret (MError (ConflictError "root is still inside its required trust window" None))
      else mret (MDone () (add_root generation (retire_root 0 r) s))
  end.

Definition PruneRoot (generation : Z) (expectedFingerprint : string) : proc_ (option error) :=
  if (generation <? 1) || String.eqb expectedFingerprint ""
  then mret (Some (invalid "generation and fingerprint are required" None)) else
  r ← b_update (prune_mutation generation expectedFingerprint);
  mret (match r with inl e => Some e | inr _ => None end).

Definition Purge (expectedAuthorityID expectedRootFingerprint : string) : proc_ (option error) :=
  let! s := b_load false else e => mret (Some e) in
  if String.eqb expectedAuthorityID "" || String.eqb expectedRootFingerprint ""
  then mret (Some (invalid "expected authority ID and root fingerprint are required" None))
  else if negb (String.eqb (ID (Spec s)) expectedAuthorityID)
  then mret (Some (DriftError "authority ID" (AString (ID (Spec s))) (AString expectedAuthorityID)))
  else
  let fp := from_option root_Fingerprint "" (Roots s !! ActiveRoot s) in
  if negb (String.eqb fp expectedRootFingerprint)
  then mret (Some (DriftError "root fingerprint" (AString fp) (AString expectedRootFingerprint)))
  else
  check! b_purge else e => mret (Some e) in
  m ← get_mem;
  _ ← put_mem {| config := config m; generated := ∅; closed := true |};
  mret None.

(** Zeroing keeps the length of the unlock secret. *)
Definition Close : proc_ (option error) :=
  m ← get_mem;
  if closed m then mret None else
  _ ← put_mem {| config := (config m) {{ rootUnlock :=
           unchars (replicate (slen (rootUnlock (config m))) (chr 0)) }};
         generated := ∅; closed := true |};
  mret None.
End authority.
Arguments AuthorityManager {_} St.
