(* ===== verification/CertsStateFacts.v ===== *)
(** * What a validated authority state satisfies

    [validateState] as a proposition: each check of the code is one field, so
    that operations can be shown to preserve the whole. *)
From S2P Require Import Prelude.
From S2P Require Import GoStrings.
From S2P Require Import Utf8.
From S2P Require Import Text.
From S2P Require Import Errors.
From S2P Require Import GoNet.
From S2P Require Import CertsTypes.
From S2P Require Import CertsNames.
From S2P Require Import CertsCrypto.
From S2P Require Import CertsOptions.
From S2P Require Import CertsOptionsFacts.
From S2P Require Import CertsState.
#[local] Open Scope stdpp_scope.
#[local] Open Scope Z_scope.

Lemma first_error_map {A} (f : A → option error) l :
  first_error (map f l) = None ↔ ∀ x, x ∈ l → f x = None.
Proof. by rewrite first_error_None, Forall_map, Forall_forall. Qed.

Lemma first_error_map_to_list {K V} `{Countable K} (f : K → V → option error) (m : gmap K V) :
  first_error (map (λ p, f p.1 p.2) (map_to_list m)) = None ↔ map_Forall (λ k v, f k v = None) m.
Proof.
  rewrite first_error_map. split.
  - intros Hf k v Hkv. apply (Hf (k, v)). by apply elem_of_map_to_list.
  - intros Hf [k v] Hkv%elem_of_map_to_list. by apply Hf.
Qed.

Lemma guard_None (b : bool) (e : error) (k : option error) :
  (if b then Some e else k) = None ↔ b = false ∧ k = None.
Proof. destruct b; [split; [done|by intros [? _]]|by split; [|intros [_ ?]]]. Qed.

Lemma negb_eqb a b : negb (String.eqb a b) = false ↔ a = b.
Proof. by rewrite negb_false_iff, String.eqb_eq. Qed.

Section facts.
Context `{Unicode, Crypto, URLParser} {St : Type}.

Lemma parseCertDER_inr der c : parseCertDER der = inr c ↔ x509_ParseCertificate der = inr c.
Proof.
  unfold parseCertDER. destruct (x509_ParseCertificate der); split; intros; simplify_eq; done.
Qed.

(** A CA certificate that [validateState] accepts as a root. *)
Record root_cert_ok (sp : authoritySpec) (g : Z) (c : Certificate) : Prop := {
  rc_ca : IsCA c = true;
  rc_constraints : BasicConstraintsValid c = true;
  rc_path : MaxPathLen c = 1;
  rc_sign : no_bit (KeyUsage c) KeyUsageCertSign = false;
  rc_crl : no_bit (KeyUsage c) KeyUsageCRLSign = false;
  rc_self : CheckSignatureFrom c c = None;
  rc_key : keySpecForPublic (cert_PublicKey c) = inr (spec_KeySpec sp);
  rc_name : n_CommonName (Subject c) = rootCommonName (spec_Name sp) g;
  rc_identity : identityFromCAName (Subject c) = spec_Identity sp;
}.

(** A root record; [keyed] says whether its private key must be there. *)
Definition root_ok (sp : authoritySpec) (keyed : Prop) (g : Z) (r : rootRecord) : Prop :=
  Generation r = g ∧
  (∃ c, parseCertDER (root_CertificateDER r) = inr c ∧ root_cert_ok sp g c ∧
        fingerprint c = root_Fingerprint r) ∧
  (EncryptedKeyDER r ≠ "" ↔ keyed).

Record version_cert_ok (sp : authoritySpec) (name : string) (v : issuerVersion)
    (rc c : Certificate) : Prop := {
  vc_signed : CheckSignatureFrom c rc = None;
  vc_ca : IsCA c = true;
  vc_constraints : BasicConstraintsValid c = true;
  vc_path : MaxPathLen c = 0 ∧ MaxPathLenZero c = true;
  vc_sign : no_bit (KeyUsage c) KeyUsageCertSign = false;
  vc_name : n_CommonName (Subject c) =
    issuerCommonName (spec_Name sp) (RootGeneration v) name (Version v);
  vc_key : keySpecForPublic (cert_PublicKey c) = inr (spec_KeySpec sp);
  vc_expiry : NotAfter c ≤ NotAfter rc - clockSkew;
}.

(** An issuer version; [root_der] gives the certificate of a generation. *)
Definition version_ok (sp : authoritySpec) (root_der : Z → option string) (name : string)
    (keyed : Prop) (n : Z) (v : issuerVersion) : Prop :=
  Version v = n ∧
  (∃ c der rc, parseCertDER (CertificateDER v) = inr c ∧ root_der (RootGeneration v) = Some der ∧
     parseCertDER der = inr rc ∧ version_cert_ok sp name v rc c ∧ fingerprint c = Fingerprint v) ∧
  (KeyDER v ≠ "" ↔ keyed).

(** The private key of a version belongs to its certificate. *)
Definition key_matches (v : issuerVersion) : Prop :=
  ∃ key c, parseKeyDER (KeyDER v) "" = inr key ∧ parseCertDER (CertificateDER v) = inr c ∧
    publicKeysEqual (Public key) (cert_PublicKey c) = true.

Definition definition_ok (d : IssuerDefinition) : Prop :=
  ∃ n, validateDefinition (St := St) d (def_Name d) = inr n ∧ definitionsEqual n d = true.

Definition root_der (roots : gmap Z rootRecord) (g : Z) : option string :=
  root_CertificateDER <$> roots !! g.

Definition issuer_ok (sp : authoritySpec) (rd : Z → option string) (active : Z)
    (staged : Z → Prop) (slug : string) (i : issuerRecord) : Prop :=
  def_Slug (Definition_ i) = slug ∧ 1 ≤ ActiveVersion i ∧ definition_ok (Definition_ i) ∧
  (∃ v, Versions i !! ActiveVersion i = Some v ∧ RootGeneration v = active ∧ key_matches v) ∧
  map_Forall (λ n v, version_ok sp rd (def_Name (Definition_ i)) (n = ActiveVersion i ∨ staged n) n v)
    (Versions i).

Record spec_ok (sp : authoritySpec) : Prop := {
  so_id : ID sp ≠ "";
  so_version : FormatVersion sp = stateFormatVersion;
  so_key : KeySpec_valid (spec_KeySpec sp) = true;
  so_mode : IssuanceMode_valid (spec_IssuanceMode sp) = true;
  so_encrypted : EncryptedRootKeys sp = true;
  so_name : normalizeDisplayName (spec_Name sp) = inr (spec_Name sp);
  so_identity : normalizeIdentity (spec_Identity sp) = inr (spec_Identity sp);
}.

Definition pending_ok (s : authorityState) : Prop :=
  match Pending s with
  | None => True
  | Some p =>
      ExpectedRevision p ≤ Revision s ∧ (Kind_ p = "root" ∨ Kind_ p = "issuer") ∧
      (Kind_ p = "root" → is_Some (Roots s !! p_RootGeneration p) ∧
                          size (p_Issuers p) = size (Issuers s)) ∧
      map_Forall (λ slug n, ∃ i v, Issuers s !! slug = Some i ∧ Versions i !! n = Some v) (p_Issuers p)
  end.

Record state_ok (s : authorityState) : Prop := {
  st_spec : spec_ok (Spec s);
  st_active : 1 ≤ ActiveRoot s ∧ is_Some (Roots s !! ActiveRoot s);
  st_roots : map_Forall (λ g r, root_ok (Spec s) (g = ActiveRoot s ∨ pending_root s g = true) g r) (Roots s);
  st_issuers : map_Forall (λ slug i, issuer_ok (Spec s) (root_der (Roots s)) (ActiveRoot s)
                 (λ n, pending_version s slug n = true) slug i) (Issuers s);
  st_pending : pending_ok s;
}.

Lemma signature_ok_true c p : signature_ok c p = true ↔ CheckSignatureFrom c p = None.
Proof. unfold signature_ok. by rewrite bool_decide_eq_true. Qed.

(** The two checks on a private key say that it is there exactly when it is
    required. *)
Lemma key_checks (req : bool) (der : string) e1 e2 :
  (if req && String.eqb der "" then Some e1
   else if negb req && negb (String.eqb der "") then Some e2 else None) = @None error ↔
  (der ≠ "" ↔ req = true).
Proof.
  destruct req, (String.eqb_spec der ""); cbn; intuition congruence.
Qed.

Lemma key_bools (req : bool) (der : string) :
  (req && String.eqb der "") = false ∧ (negb req && negb (String.eqb der "")) = false ↔
  (der ≠ "" ↔ req = true).
Proof. destruct req, (String.eqb_spec der ""); cbn; intuition congruence. Qed.

Lemma validate_root_None s g r :
  validate_root s g r = None ↔ root_ok (Spec s) (g = ActiveRoot s ∨ pending_root s g = true) g r.
Proof.
  unfold validate_root, root_ok. rewrite guard_None, negb_false_iff, Z.eqb_eq. apply and_iff_compat_l.
  destruct (parseCertDER _) as [e|c]; [split; [done|intros [(? & ? & _) _]; done]|].
  rewrite guard_None, !orb_false_iff, !negb_false_iff, Z.eqb_eq, signature_ok_true.
  rewrite guard_None, negb_eqb.
  destruct (keySpecForPublic _) as [e|spec] eqn:Ek.
  { split; [intros (_ & _ & ?); done|]. intros [(? & [= <-] & [] & _) _]. congruence. }
  rewrite guard_None, negb_eqb.
  set (req := (g =? ActiveRoot s) || pending_root s g).
  assert ((if req && String.eqb (EncryptedKeyDER r) ""
     then Some (corrupt "active or pending root key is missing" None)
     else if negb req && negb (String.eqb (EncryptedKeyDER r) "")
     then Some (corrupt "retired root private key was retained" None)
     else if negb (String.eqb (n_CommonName (Subject c)) (rootCommonName (spec_Name (Spec s)) g))
             || negb (bool_decide (identityFromCAName (Subject c) = spec_Identity (Spec s)))
          then Some (DriftError "root subject" (AString (rootCommonName (spec_Name (Spec s)) g))
                       (AString (Name_String (Subject c)))) else None) = None ↔
    (EncryptedKeyDER r ≠ "" ↔ g = ActiveRoot s ∨ pending_root s g = true) ∧
    n_CommonName (Subject c) = rootCommonName (spec_Name (Spec s)) g ∧
    identityFromCAName (Subject c) = spec_Identity (Spec s)) as ->.
  { assert (req = true ↔ g = ActiveRoot s ∨ pending_root s g = true) as Hreq
      by (unfold req; by rewrite orb_true_iff, Z.eqb_eq).
    rewrite <- Hreq. rewrite <- (key_checks req (EncryptedKeyDER r)
      (corrupt "active or pending root key is missing" None)
      (corrupt "retired root private key was retained" None)).
    destruct (req && _); [split; [done|by intros [? _]]|].
    destruct (negb req && _); [split; [done|by intros [? _]]|].
    rewrite guard_None, orb_false_iff, negb_eqb, negb_false_iff, bool_decide_eq_true. intuition. }
  split.
  - intros ((((((? & ?) & ?) & ?) & ?) & ?) & ? & -> & ? & ? & ?). split; [|done].
    exists c. split; [done|]. split; [|done]. by constructor.
  - intros [(? & [= <-] & [] & ?) ?]. split_and!; congruence || done.
Qed.

Lemma validate_version_None s slug i n v :
  validate_version s slug i n v = None ↔
  version_ok (Spec s) (root_der (Roots s)) (def_Name (Definition_ i))
    (n = ActiveVersion i ∨ pending_version s slug n = true) n v.
Proof.
  unfold validate_version, version_ok, root_der. rewrite guard_None, negb_false_iff, Z.eqb_eq.
  split.
  - intros [Hv Hc]. split; [done|].
    destruct (parseCertDER (CertificateDER v)) as [e|c]; [done|].
    destruct (Roots s !! RootGeneration v) as [root|]; [|done].
    destruct (parseCertDER (root_CertificateDER root)) as [e|rc] eqn:Er; [done|].
    rewrite guard_None, !orb_false_iff, !negb_false_iff, Z.eqb_eq, signature_ok_true in Hc.
    destruct Hc as ((((((Hs & Hca) & Hbc) & Hmp) & Hmz) & Hu) & Hc).
    rewrite !guard_None, !negb_eqb in Hc. destruct Hc as (Hn & Hf & Hc).
    destruct (keySpecForPublic _) as [e|spec] eqn:Ek; [done|].
    rewrite !guard_None, negb_eqb, Z.ltb_ge in Hc. destruct Hc as (-> & He & Hkm & Hc).
    assert (KeyDER v ≠ "" ↔ (n =? ActiveVersion i) || pending_version s slug n = true) as Hkey.
    { apply key_bools. by destruct Hc as [? _]. }
    rewrite orb_true_iff, Z.eqb_eq in Hkey. split; [|done].
    exists c, (root_CertificateDER root), rc. split_and!; [done|done|done| |done].
    constructor; try done. by rewrite Hv.
  - intros [Hv [(c & der & rc & Ec & Ed & Er & [Hs Hca Hbc [Hmp Hmz] Hu Hn Hk He] & Hf) Hkey]].
    split; [done|]. rewrite Ec. destruct (Roots s !! RootGeneration v) as [root|]; [|done].
    injection Ed as <-. rewrite Er.
    rewrite guard_None, !orb_false_iff, !negb_false_iff, Z.eqb_eq, signature_ok_true.
    split; [done|]. rewrite !guard_None, !negb_eqb. split; [by rewrite <- Hv|]. split; [done|].
    rewrite Hk, !guard_None, negb_eqb, Z.ltb_ge. split; [done|]. split; [done|].
    assert (KeyDER v ≠ "" ↔ (n =? ActiveVersion i) || pending_version s slug n = true) as Hb
      by (by rewrite orb_true_iff, Z.eqb_eq).
    apply key_bools in Hb as [? ?]. done.
Qed.

Lemma validate_issuer_None s slug i :
  validate_issuer (St := St) s slug i = None ↔
  issuer_ok (Spec s) (root_der (Roots s)) (ActiveRoot s) (λ n, pending_version s slug n = true) slug i.
Proof.
  unfold validate_issuer, issuer_ok. destruct (Versions i !! ActiveVersion i) as [active|] eqn:Ea.
  2:{ split; [done|]. intros (_ & _ & _ & (? & ? & _) & _). done. }
  rewrite guard_None, orb_false_iff, negb_eqb, Z.ltb_ge.
  unfold definition_ok. destruct (validateDefinition _ _) as [e|d] eqn:Ed.
  { split; [by intros (_ & ?)|]. intros (_ & _ & (? & ? & _) & _). done. }
  rewrite guard_None, negb_false_iff.
  assert (∀ P : Prop, (match first_error (map (λ p, validate_version s slug i p.1 p.2)
      (map_to_list (Versions i))) with Some e => Some e | None => validate_active s active end = None)
    ↔ (first_error (map (λ p, validate_version s slug i p.1 p.2) (map_to_list (Versions i))) = None
       ∧ validate_active s active = None)) as Hm.
  { intros _. destruct (first_error _); [split; [done|by intros [? _]]|]. by split; [|intros [_ ?]]. }
  rewrite (Hm True), (first_error_map_to_list (validate_version s slug i)).
  assert (map_Forall (λ n v, validate_version s slug i n v = None) (Versions i) ↔
    map_Forall (λ n v, version_ok (Spec s) (root_der (Roots s)) (def_Name (Definition_ i))
      (n = ActiveVersion i ∨ pending_version s slug n = true) n v) (Versions i)) as Hvs.
  { split; intros Hf n v Hn; apply validate_version_None, Hf, Hn. }
  rewrite Hvs. clear Hm Hvs.
  assert (validate_active s active = None ↔ RootGeneration active = ActiveRoot s ∧
    KeyDER active ≠ "" ∧ (∃ key, parseKeyDER (KeyDER active) "" = inr key ∧
      match parseCertDER (CertificateDER active) with
      | inl _ => False
      | inr c => publicKeysEqual (Public key) (cert_PublicKey c) = true
      end)) as ->.
  { unfold validate_active. rewrite !guard_None, negb_false_iff, Z.eqb_eq, String.eqb_neq.
    apply and_iff_compat_l, and_iff_compat_l.
    destruct (parseKeyDER _ _) as [e|key]; [split; [done|by intros (? & ? & _)]|].
    destruct (parseCertDER _) as [e|c]; [split; [done|by intros (? & _ & ?)]|].
    rewrite guard_None, negb_false_iff. split; [intros [? _]; eauto|]. by intros (? & [= <-] & ?). }
  split.
  - intros ((? & ?) & ? & Hvs & ? & _ & (key & Hk & Hp)). split_and!; [done|done|by eauto| |done].
    exists active. split; [done|]. split; [done|].
    destruct (parseCertDER (CertificateDER active)) as [|c] eqn:Ec; [done|]. exists key, c. by rewrite Ec.
  - intros (Hs & Ha & (n & [= <-] & Hd) & (v & [= <-] & Hr & (key & c & Hk & Ec & Hp)) & Hvs).
    split_and!; try done.
    + apply (Hvs _ _ Ea). by left.
    + exists key. by rewrite Ec.
Qed.

Lemma validate_pending_None s : validate_pending s = None ↔ pending_ok s.
Proof.
  unfold validate_pending, pending_ok. destruct (Pending s) as [p|]; [|done].
  rewrite !guard_None, Z.ltb_ge. apply and_iff_compat_l.
  rewrite first_error_map.
  assert ((∀ x : string * Z, x ∈ map_to_list (p_Issuers p) →
     (if bool_decide ((Issuers s !! x.1 ≫= λ i, Versions i !! x.2) = None)
      then Some (corrupt "pending issuer is missing" None) else None) = @None error) ↔
    map_Forall (λ slug n, ∃ i v, Issuers s !! slug = Some i ∧ Versions i !! n = Some v) (p_Issuers p)) as ->.
  { split.
    - intros Hx slug n Hn. specialize (Hx (slug, n) (proj2 (elem_of_map_to_list _ _ _) Hn)).
      rewrite guard_None, bool_decide_eq_false in Hx. destruct Hx as [Hx _]. cbn [fst snd] in Hx.
      destruct (Issuers s !! slug) as [i|]; cbn [mbind option_bind] in Hx; [|done].
      destruct (Versions i !! n) as [v|] eqn:Ev; [by exists i, v|done].
    - intros Hx [slug n] Hn%elem_of_map_to_list. destruct (Hx slug n Hn) as (i & v & Ei & Ev).
      rewrite guard_None, bool_decide_eq_false. cbn [fst snd]. rewrite Ei.
      cbn [mbind option_bind]. by rewrite Ev. }
  destruct (String.eqb_spec (Kind_ p) "root") as [E|E]; cbn.
  - rewrite negb_false_iff, Nat.eqb_eq, bool_decide_eq_false, <- not_eq_None_Some. intuition.
  - rewrite negb_false_iff, String.eqb_eq. intuition.
Qed.

Lemma validate_spec_None s :
  validate_spec s = None ↔ spec_ok (Spec s) ∧ 1 ≤ ActiveRoot s ∧ is_Some (Roots s !! ActiveRoot s).
Proof.
  unfold validate_spec. rewrite !guard_None, String.eqb_neq, !orb_false_iff, !negb_false_iff, Z.eqb_eq.
  split.
  - intros (? & ? & ((? & ?) & ?) & Hn).
    destruct (normalizeDisplayName _) as [|n] eqn:En; [done|].
    rewrite guard_None, negb_eqb in Hn. destruct Hn as [-> Hn].
    destruct (normalizeIdentity _) as [|v] eqn:Ev; [done|].
    rewrite !guard_None, negb_false_iff, bool_decide_eq_true, orb_false_iff, Z.ltb_ge,
      bool_decide_eq_false, not_eq_None_Some in Hn. destruct Hn as (-> & (? & ?) & _).
    split; [by constructor|done].
  - intros ([] & ? & ?). split_and!; try done.
    rewrite so_name0, guard_None, negb_eqb. split; [done|].
    rewrite so_identity0, !guard_None, negb_false_iff, bool_decide_eq_true, orb_false_iff, Z.ltb_ge,
      bool_decide_eq_false, not_eq_None_Some. done.
Qed.

Lemma validateState_None s : validateState (St := St) s = None ↔ state_ok s.
Proof.
  unfold validateState. rewrite first_error_None, !Forall_cons.
  rewrite validate_spec_None, (first_error_map_to_list (validate_root s)),
    (first_error_map_to_list (validate_issuer (St := St) s)), validate_pending_None.
  split.
  - intros ((Hs & Ha) & Hr & Hi & Hp & _). constructor; try done.
    + intros g r Hg. by apply validate_root_None, Hr.
    + intros slug i Hs'. by apply validate_issuer_None, Hi.
  - intros [Hs [Ha1 Ha2] Hr Hi Hp]. split_and!; try done.
    + intros g r Hg. by apply validate_root_None, Hr.
    + intros slug i Hs'. by apply validate_issuer_None, Hi.
Qed.

(** C27: [validateState] accepts exactly the states that are well-formed as a
    whole: a valid specification with a normalised name and identity, an
    active root, every root a self-signed CA certificate of the declared key
    type and subject whose fingerprint matches and whose private key is there
    exactly when it is active or pending, every issuer version signed by its
    root within the root's lifetime, with its key there exactly when it is
    active or pending, the active version below the active root with its own
    key, and a pending manifest that refers to records of the state. *)
Theorem validateState_spec s : validateState (St := St) s = None ↔ state_ok s.
Proof. apply validateState_None. Qed.
End facts.
