(* ===== verification/CertsFiles.v ===== *)
(** * Files

    [save.go] and [readRegular] of [bundle.go].  The operating system is a
    parameter: [Host] answers each call from the history of calls, so a theorem
    holds whatever the answers are, also when files change between two calls.
    The paths are those of a Unix system. *)
From S2P Require Import Prelude.
From S2P Require Import GoStrings.
From S2P Require Import GoPath.
From S2P Require Import Utf8.
From S2P Require Import Errors.
From S2P Require Import GoNet.
From S2P Require Import CertsTypes.
From S2P Require Import CertsCrypto.
From S2P Require Import CertsOptions.
#[local] Open Scope stdpp_scope.
#[local] Open Scope Z_scope.

(** [os.FileInfo]: the type of a file, its permission bits and its owner. *)
Record FileInfo := {
  fi_symlink : bool;
  fi_dir : bool;
  fi_regular : bool;
  fi_perm : Z;
  fi_uid : Z;
  fi_gid : Z;
}.

Inductive fs_call :=
  | FAbs (path : string)
  | FLstat (path : string)
  | FReadFile (path : string)
  | FCreateTemp (dir : string)
  | FChmod (path : string) (mode : Z)
  | FWrite (path data : string)
  | FSync (path : string)
  | FClose (path : string)
  | FRename (from to : string)
  | FRemove (path : string)
  | FSyncDir (dir : string).

Abbreviation history := (list fs_call).

Class Host := {
  h_Abs : history → string → sys_error + string;
  h_Lstat : history → string → sys_error + FileInfo;
  h_ReadFile : history → string → sys_error + string;
  (** The name of the new file. *)
  h_CreateTemp : history → string → sys_error + string;
  (** The other calls succeed or fail. *)
  h_do : history → fs_call → option sys_error;
}.

(** Looking at paths, in any world. *)
Class PathFS (W : Type) := {
  fs_Abs : string → stm W (sys_error + string);
  fs_Lstat : string → stm W (sys_error + FileInfo);
}.

Definition os_Lstat `{Host} (path : string) : proc fs_call (sys_error + FileInfo) :=
  perform (FLstat path) (λ h, h_Lstat h path).

#[export] Instance host_paths `{Host} : PathFS history := {|
  fs_Abs path := perform (FAbs path) (λ h, h_Abs h path);
  fs_Lstat path := os_Lstat path |}.

(** ** save.go *)
Section paths.
Context `{PathFS W}.

Definition check_part (part current : string) : stm W (option error + string) :=
  if String.eqb part "" then mret (inr current) else
  let current := PJoin [current; part] in
  info ← fs_Lstat current;
  mret (match info with
        | inl e => if decide (e = ErrNotExist) then inl None else inl (Some (Sys e))
        | inr info =>
            if fi_symlink info && negb (String.eqb current "/var")
            then inl (Some (ForbiddenError "path traverses a symbolic link" None))
            else inr current
        end).

Definition rejectSymlinkParents (path : string) : stm W (option error) :=
  let! abs := fs_Abs path else e => mret (Some (Sys e)) in
  r ← for_each check_part (Split (TrimPrefix abs "/") "/") "/";
  mret (match r with inl e => e | inr _ => None end).
End paths.

Section files.
Context `{Host, Crypto} {St : Type}.

Abbreviation io A := (proc fs_call A).

Definition os_do (c : fs_call) : io (option sys_error) := perform c (λ h, h_do h c).

Definition validateDirectory (path : string) : io (option error) :=
  if String.eqb path "" then mret (Some (invalid "directory is required" None)) else
  let! info := os_Lstat path else e => mret (Some (Errorf "certs: inspect directory" (Some (Sys e)))) in
  if fi_symlink info || negb (fi_dir info)
  then mret (Some (invalid "save location must be an existing non-symlink directory" None))
  else rejectSymlinkParents path.

(** The checks on an existing target. *)
Definition check_target (replace : bool) (info : sys_error + FileInfo) : option error :=
  match info with
  | inr info =>
      if fi_symlink info then Some (ConflictError "target is a symlink" None)
      else if negb (fi_regular info) then Some (ConflictError "target is not a regular file" None)
      else if negb replace then Some (ConflictError "target already exists" None) else None
  | inl e =>
      if decide (e = ErrNotExist) then None else Some (Errorf "certs: inspect target" (Some (Sys e)))
  end.

(** Mode, content and synchronisation of the temporary file; it is closed in
    every case, and the first error counts. *)
Definition fill_temp (tmp data : string) (mode : Z) : io (option sys_error) :=
  err ← os_do (FChmod tmp mode);
  err ← match err with None => os_do (FWrite tmp data) | Some _ => mret err end;
  err ← match err with None => os_do (FSync tmp) | Some _ => mret err end;
  closeErr ← os_do (FClose tmp);
  mret (match err with None => closeErr | Some _ => err end).

(** The second look at the target before it is published. *)
Definition still_absent (replace : bool) (path : string) : io bool :=
  if replace then mret true else
  info ← os_Lstat path;
  mret (match info with inr _ => false | inl _ => true end).

Definition remove_temp (tmp : string) (e : error) : io (option error) :=
  _ ← os_do (FRemove tmp); mret (Some e).

Definition atomicSave (path data : string) (mode : Z) (opts : list (option (option_ St))) : io (option error) :=
  match parseOptions scopeSave opts with
  | inl e => mret (Some e)
  | inr o =>
      if String.eqb path "" then mret (Some (invalid "path is required" None)) else
      let dir := Dir path in
      check! validateDirectory dir else e => mret (Some e) in
      info ← os_Lstat path;
      match check_target (replace o) info with
      | Some e => mret (Some e)
      | None =>
          let! tmp := perform (FCreateTemp dir) (λ h, h_CreateTemp h dir)
            else e => mret (Some (Errorf "certs: create temporary file" (Some (Sys e)))) in
          check! fill_temp tmp data mode
            else e => remove_temp tmp (Errorf "certs: write file" (Some (Sys e))) in
          absent ← still_absent (replace o) path;
          if negb absent then remove_temp tmp (ConflictError "target already exists" None) else
          check! os_do (FRename tmp path)
            else e => remove_temp tmp (Errorf "certs: publish file" (Some (Sys e))) in
          _ ← os_do (FSyncDir dir);
          mret None
      end
  end.

(** ** readRegular *)

Definition readRegular (path : string) : io (error + string) :=
  check! rejectSymlinkParents (Dir path) else e => mret (inl e) in
  info ← os_Lstat path;
  match info with
  | inl e =>
      mret (inl (if decide (e = ErrNotExist) then NotFoundError path (Some (Sys e)) else Sys e))
  | inr info =>
      if fi_symlink info || negb (fi_regular info)
      then mret (inl (invalid "input must be a regular non-symlink file" None))
      else r ← perform (FReadFile path) (λ h, h_ReadFile h path);
           mret (match r with inl e => inl (Sys e) | inr d => inr d end)
  end.
End files.

(** ** What a save does *)
Section facts.
Context `{Host, Crypto} {St : Type}.

(** Calls that change nothing. *)
Definition looks (c : fs_call) : Prop :=
  match c with FAbs _ | FLstat _ => True | _ => False end.

Lemma emits_Lstat p : emits looks (os_Lstat p).
Proof. by apply emits_perform. Qed.
#[local] Hint Resolve emits_Lstat : emits.

Lemma emits_fs_Lstat p : emits looks (fs_Lstat p).
Proof. apply emits_Lstat. Qed.
Lemma emits_fs_Abs p : emits looks (fs_Abs p).
Proof. by apply emits_perform. Qed.
#[local] Hint Resolve emits_fs_Lstat emits_fs_Abs : emits.

Lemma emits_rejectSymlinkParents p : emits looks (rejectSymlinkParents p).
Proof.
  unfold rejectSymlinkParents, check_part. by go_emits.
Qed.
#[local] Hint Resolve emits_rejectSymlinkParents : emits.

Lemma emits_validateDirectory p : emits looks (validateDirectory p).
Proof. unfold validateDirectory. by go_emits. Qed.

(** The parents of a path that were looked at, none of them a symbolic link
    other than /var, up to the first that does not exist. *)
Definition write_calls (tmp data : string) (mode : Z) : history :=
  [FChmod tmp mode; FWrite tmp data; FSync tmp; FClose tmp].

(** From history [h], every call of [t] succeeded. *)
Fixpoint all_done (h t : history) : Prop :=
  match t with
  | [] => True
  | c :: t' => h_do h c = None ∧ all_done (h ++ [c]) t'
  end.

Lemma os_do_run c h r h' : os_do c h = (r, h') → r = h_do h c ∧ h' = h ++ [c].
Proof. by intros [= <- <-]. Qed.

(** Only the temporary file is touched, and nothing but what is asked is
    written to it. *)
Definition temp_call (tmp data : string) (mode : Z) (c : fs_call) : Prop := c ∈ write_calls tmp data mode.

Lemma fill_temp_run tmp data mode h r h' :
  fill_temp tmp data mode h = (r, h') →
  ∃ t, h' = h ++ t ∧ Forall (temp_call tmp data mode) t ∧ last t = Some (FClose tmp) ∧
    (r = None → t = write_calls tmp data mode ∧ all_done h t).
Proof.
  unfold fill_temp. intros E. inv_run E. apply os_do_run in E0 as [-> ->].
  assert (temp_call tmp data mode (FChmod tmp mode)) as T1 by left.
  assert (temp_call tmp data mode (FWrite tmp data)) as T2 by (right; left).
  assert (temp_call tmp data mode (FSync tmp)) as T3 by (do 2 right; left).
  assert (temp_call tmp data mode (FClose tmp)) as T4 by (do 3 right; left).
  destruct (h_do h (FChmod tmp mode)) as [e|] eqn:D1.
  { do 2 (inv_run E; injection E0 as <- <-). inv_run E. apply os_do_run in E0 as [-> ->]. injection E as <- <-.
    exists [FChmod tmp mode; FClose tmp]. rewrite <- app_assoc. split_and!; [done| |done|done]. by repeat constructor. }
  inv_run E. apply os_do_run in E0 as [-> ->]. destruct (h_do _ (FWrite tmp data)) as [e|] eqn:D2.
  { inv_run E. injection E0 as <- <-. inv_run E. apply os_do_run in E0 as [-> ->]. injection E as <- <-.
    exists [FChmod tmp mode; FWrite tmp data; FClose tmp]. rewrite <- !app_assoc.
    split_and!; [done| |done|done]. by repeat constructor. }
  inv_run E. apply os_do_run in E0 as [-> ->]. inv_run E. apply os_do_run in E0 as [-> ->].
  injection E as <- <-. exists (write_calls tmp data mode). rewrite <- !app_assoc.
  split_and!; [done|by repeat constructor|done|].
  intros Hr. split; [done|]. cbn. rewrite <- !app_assoc in *. cbn in *.
  destruct (h_do _ (FSync tmp)) eqn:D3; [done|]. done.
Qed.

(** A run of a save that reported success, from history [h]. *)
Definition save_done (path data : string) (mode : Z) (replace : bool) (h t : history) : Prop :=
  ∃ look tmp again, let made := h ++ look ++ [FCreateTemp (Dir path)] in
    t = look ++ [FCreateTemp (Dir path)] ++ write_calls tmp data mode ++ again ++
        [FRename tmp path; FSyncDir (Dir path)] ∧
    Forall looks look ∧ h_CreateTemp (h ++ look) (Dir path) = inr tmp ∧
    all_done made (write_calls tmp data mode) ∧
    h_do (made ++ write_calls tmp data mode ++ again) (FRename tmp path) = None ∧
    (∃ pre, look = pre ++ [FLstat path] ∧ check_target replace (h_Lstat (h ++ pre) path) = None) ∧
    (if replace then again = [] else
     again = [FLstat path] ∧ ∃ e, h_Lstat (made ++ write_calls tmp data mode) path = inl e).

(** A run of a save that reported an error: nothing was created, or the
    temporary file was removed and no renaming succeeded. *)
Definition save_failed (path data : string) (mode : Z) (h t : history) : Prop :=
  Forall looks t ∨ ∃ look, Forall looks look ∧
    ((t = look ++ [FCreateTemp (Dir path)] ∧ ∃ e, h_CreateTemp (h ++ look) (Dir path) = inl e) ∨
     ∃ tmp mid, h_CreateTemp (h ++ look) (Dir path) = inr tmp ∧
       t = look ++ [FCreateTemp (Dir path)] ++ mid ++ [FRemove tmp] ∧
       ∀ m1 c m2, mid = m1 ++ c :: m2 → temp_call tmp data mode c ∨ looks c ∨
         c = FRename tmp path ∧ h_do (h ++ look ++ [FCreateTemp (Dir path)] ++ m1) c ≠ None).

Lemma remove_temp_run tmp e h r h' :
  remove_temp tmp e h = (r, h') → r = Some e ∧ h' = h ++ [FRemove tmp].
Proof. intros E. unfold remove_temp in E. inv_run E. apply os_do_run in E0 as [_ ->]. by injection E as <- <-. Qed.

Lemma elem_split_Forall {A} (P : A → Prop) l : Forall P l → ∀ m1 c m2, l = m1 ++ c :: m2 → P c.
Proof. intros Hl m1 c m2 ->. apply Forall_app in Hl as [_ Hl]. by inversion Hl. Qed.

Lemma still_absent_run replace path h b h' :
  still_absent replace path h = (b, h') →
  ∃ again, h' = h ++ again ∧ Forall looks again ∧ (b = true →
    if replace then again = [] else again = [FLstat path] ∧ ∃ e, h_Lstat h path = inl e).
Proof.
  unfold still_absent. intros E. destruct replace.
  - injection E as <- <-. exists []. by rewrite app_nil_r.
  - inv_run E. injection E0 as <- <-. injection E as <- <-. exists [FLstat path].
    split_and!; [done|by repeat constructor|]. destruct (h_Lstat h path); [|done]. eauto.
Qed.

Lemma split_last {A} (l : list A) x m1 c m2 :
  l ++ [x] = m1 ++ c :: m2 → (m1 = l ∧ c = x ∧ m2 = []) ∨ ∃ m3, m2 = m3 ++ [x] ∧ l = m1 ++ c :: m3.
Proof.
  destruct m2 as [|y m2 _] using rev_ind; intros E.
  - left. apply app_inj_tail in E as [-> ->]. done.
  - right. exists m2. rewrite app_comm_cons, app_assoc in E. apply app_inj_tail in E as [-> ->]. done.
Qed.

(** C16: saving a file is atomic.  Success means that the data was written,
    synchronised and closed under a fresh name in the same directory, every
    step succeeding, and then renamed onto the path, after the path was seen to
    be absent, or to be a regular file when replacing was asked for; without
    it the path was looked at a second time and was still not there.  An error
    means that no renaming succeeded, that no other file was touched, and that
    the temporary file was removed. *)
Theorem atomicSave_spec path data mode (opts : list (option (option_ St))) h r h' :
  atomicSave path data mode opts h = (r, h') →
  ∃ t, h' = h ++ t ∧
    match r with
    | None => ∃ o, parseOptions scopeSave opts = inr o ∧ save_done path data mode (replace o) h t
    | Some _ => save_failed path data mode h t
    end.
Proof.
  unfold atomicSave. destruct (parseOptions scopeSave opts) as [e|o].
  { intros [= <- <-]. exists []. rewrite app_nil_r. split; [done|]. by left. }
  destruct (String.eqb path "").
  { intros [= <- <-]. exists []. rewrite app_nil_r. split; [done|]. by left. }
  intros E. inv_run E. apply (emits_run _ _ _ _ _ (emits_validateDirectory _)) in E0 as (t1 & -> & Ht1).
  destruct r0 as [e|]; [injection E as <- <-; exists t1; split; [done|by left]|].
  inv_run E. injection E0 as <- <-. destruct (check_target _ _) eqn:Ec.
  { injection E as <- <-. exists (t1 ++ [FLstat path]). rewrite app_assoc. split; [done|]. left.
    apply Forall_app. split; [done|by repeat constructor]. }
  set (look := t1 ++ [FLstat path]). assert (Forall looks look) as Hlook
    by (apply Forall_app; split; [done|by repeat constructor]).
  inv_run E. injection E0 as <- <-. rewrite <- (app_assoc h t1) in E. fold look in E.
  destruct (h_CreateTemp (h ++ look) (Dir path)) as [e|tmp] eqn:Etmp.
  { injection E as <- <-. exists (look ++ [FCreateTemp (Dir path)]). rewrite app_assoc. split; [done|].
    right. exists look. split; [done|]. left. split; [done|by exists e]. }
  rewrite <- app_assoc in E. inv_run E. apply fill_temp_run in E0 as (t2 & -> & Ht2 & _ & Hdone).
  assert (∀ mid, (∀ m1 c m2, mid = m1 ++ c :: m2 → temp_call tmp data mode c ∨ looks c ∨
      c = FRename tmp path ∧ h_do (h ++ look ++ [FCreateTemp (Dir path)] ++ m1) c ≠ None) →
    ∃ t, h ++ look ++ [FCreateTemp (Dir path)] ++ mid ++ [FRemove tmp] = h ++ t ∧ save_failed path data mode h t) as Hfail.
  { intros mid Hmid. exists (look ++ [FCreateTemp (Dir path)] ++ mid ++ [FRemove tmp]).
    split; [done|]. right. exists look. split; [done|]. right. by exists tmp, mid. }
  destruct r0 as [e|].
  { apply remove_temp_run in E as [-> ->]. rewrite <- !app_assoc. apply Hfail.
    intros m1 c m2 ->. left. by eapply (elem_split_Forall (temp_call tmp data mode)). }
  destruct (Hdone eq_refl) as [-> Hall]. inv_run E. apply still_absent_run in E0 as (again & -> & Hagain & Habs).
  assert (Forall (λ c, temp_call tmp data mode c ∨ looks c) (write_calls tmp data mode ++ again)) as Hboth.
  { apply Forall_app. split; [eapply Forall_impl; [exact Ht2|by left]|eapply Forall_impl; [exact Hagain|by right]]. }
  destruct r0; cbn [negb] in E.
  2:{ apply remove_temp_run in E as [-> ->]. rewrite <- !app_assoc, (app_assoc (write_calls _ _ _)). apply Hfail.
      intros m1 c m2 Em. pose proof (elem_split_Forall _ _ Hboth _ _ _ Em) as Hc. cbn beta in Hc. tauto. }
  inv_run E. apply os_do_run in E0 as [-> ->]. destruct (h_do _ (FRename tmp path)) as [e|] eqn:Eren.
  { apply remove_temp_run in E as [-> ->]. rewrite <- !app_assoc, (app_assoc again), (app_assoc (write_calls _ _ _)).
    apply Hfail. rewrite app_assoc. intros m1 c m2 Em. apply split_last in Em as [(-> & -> & ->)|(m3 & -> & Em)].
    - right. right. split; [done|]. rewrite <- !app_assoc in Eren. congruence.
    - pose proof (elem_split_Forall _ _ Hboth _ _ _ Em) as Hc. cbn beta in Hc. tauto. }
  inv_run E. apply os_do_run in E0 as [_ ->]. injection E as <- <-.
  exists (look ++ [FCreateTemp (Dir path)] ++ write_calls tmp data mode ++ again ++ [FRename tmp path; FSyncDir (Dir path)]).
  split; [by rewrite <- !app_assoc|]. exists o. split; [done|]. exists look, tmp, again. cbn zeta. split_and!; try done.
  - by rewrite app_assoc.
  - by exists t1.
  - by apply Habs.
Qed.
End facts.
