(* ===== verification/CertsDisk.v ===== *)
(** * Files and locks of a Unix system

    The functions of Go's [os] package that the file store calls, on a disk
    that maps absolute clean paths to nodes.  [Kernel] is what the disk does not
    determine: the working directory, the user, the random part of temporary
    names, locks held by others, cancellation, and which call fails how.  A call
    never fails with [ErrNotExist] or [ErrExist] unless the tree says so.
    Directories above a named path are resolved the same way throughout; links
    at the end of a path are nodes that [Lstat] shows and opening refuses. *)
From S2P Require Import Prelude.
From S2P Require Import GoStrings.
From S2P Require Import GoPath.
From S2P Require Import Utf8.
From S2P Require Import Errors.
From S2P Require Import GoNet.
From S2P Require Import CertsTypes.
From S2P Require Import CertsNames.
From S2P Require Import CertsCrypto.
From S2P Require Import CertsOptions.
From S2P Require Import CertsState.
From S2P Require Import CertsBackend.
From S2P Require Import CertsFiles.
#[local] Open Scope stdpp_scope.
#[local] Open Scope Z_scope.

Inductive node_kind :=
  | KDir
  | KFile (data : string)
  | KSymlink
  | KOther.
Record node := { nd_kind : node_kind; nd_perm : Z; nd_uid : Z; nd_gid : Z }.

Abbreviation tree := (gmap string node).
(** The files, and the number of calls made so far. *)
Record disk := { d_tree : tree; d_calls : nat }.

Class Kernel := {
  k_Getwd : string;
  k_Geteuid : Z;
  k_Getegid : Z;
  k_umask : Z;
  (** [os/user]: the identifiers of a user and of a group, as text. *)
  k_Lookup : string → sys_error + string;
  k_LookupGroup : string → sys_error + string;
  (** By the number of the call: the groups of the process, a random number,
      an error that the call fails with and how many bytes it still wrote, how
      often a lock is found busy before it is free, and the state of the
      context. *)
  k_Getgroups : nat → sys_error + list Z;
  k_random : nat → N;
  k_fault : nat → option (string * nat);
  k_busy : nat → nat;
  k_ctx : nat → option sys_error;
}.

(** ** Calls *)
Section calls.
Context `{Kernel} {M : Type}.

Abbreviation os A := (stm (world disk M) A).

Definition fault (n : nat) : option (sys_error * nat) :=
  match k_fault n with Some (text, written) => Some (SysError text, written) | None => None end.

Definition call {A} (f : nat → tree → A * tree) : os A := λ w,
  let d := w_disk w in
  let '(a, t) := f (d_calls d) (d_tree d) in
  (a, set_disk {| d_tree := t; d_calls := S (d_calls d) |} w).

(** A call that answers from the tree, and one that changes it. *)
Definition look {A} (f : tree → sys_error + A) : os (sys_error + A) :=
  call (λ n t, (match fault n with Some (e, _) => inl e | None => f t end, t)).
Definition change {A} (f : nat → tree → sys_error + (A * tree)) : os (sys_error + A) :=
  call (λ n t, match fault n with
               | Some (e, _) => (inl e, t)
               | None => match f n t with inl e => (inl e, t) | inr (a, t') => (inr a, t') end
               end).
Definition failed (r : sys_error + ()) : option sys_error :=
  match r with inl e => Some e | inr _ => None end.
Definition change_ (f : tree → sys_error + tree) : os (option sys_error) :=
  r ← change (λ _ t, match f t with inl e => inl e | inr t' => inr ((), t') end);
  mret (failed r).

(** ** Names *)

Definition wd : string := Clean ("/" +:+ k_Getwd).
Definition key (p : string) : string := Abs wd p.

Fixpoint proper_prefixes {A} (l : list A) : list (list A) :=
  match l with [] => [] | x :: l' => [] :: map (cons x) (proper_prefixes l') end.
Definition ancestors (k : string) : list string :=
  map abs_path (proper_prefixes (tail (Split k sep))).

Definition is_dir (n : node) : bool := match nd_kind n with KDir => true | _ => false end.
Definition passable (n : node) : bool :=
  match nd_kind n with KDir | KSymlink => true | KFile _ | KOther => false end.
Definition not_a_directory : sys_error := SysError "not a directory".

Definition not_found (t : tree) (k : string) : sys_error :=
  if existsb (λ a, match t !! a with Some n => negb (passable n) | None => false end) (ancestors k)
  then not_a_directory else ErrNotExist.

Definition node_at (t : tree) (p : string) : sys_error + node :=
  match t !! key p with Some n => inr n | None => inl (not_found t (key p)) end.

(** A name can be made where its directory exists. *)
Definition can_make (t : tree) (k : string) : option sys_error :=
  match t !! Dir k with
  | Some n => if passable n then None else Some not_a_directory
  | None => Some (not_found t (Dir k))
  end.

Definition info_of (n : node) : FileInfo := {|
  fi_symlink := match nd_kind n with KSymlink => true | _ => false end;
  fi_dir := is_dir n;
  fi_regular := match nd_kind n with KFile _ => true | _ => false end;
  fi_perm := nd_perm n; fi_uid := nd_uid n; fi_gid := nd_gid n |}.

#[export] Instance disk_paths : PathFS (world disk M) := {|
  fs_Abs p := look (λ _, inr (key p));
  fs_Lstat p := look (λ t, match node_at t p with inl e => inl e | inr n => inr (info_of n) end) |}.

(** ** Files; a [*os.File] is known by its path *)

Definition new_node (k : node_kind) (mode : Z) : node :=
  {| nd_kind := k; nd_perm := Z.ldiff mode k_umask; nd_uid := k_Geteuid; nd_gid := k_Getegid |}.

Definition make (k : node_kind) (mode : Z) (p : string) (t : tree) : sys_error + tree :=
  match t !! key p with
  | Some _ => inl ErrExist
  | None => match can_make t (key p) with
            | Some e => inl e
            | None => inr (<[key p := new_node k mode]> t)
            end
  end.

Inductive open_flags := O_RDONLY | O_RDWR | O_CREATE_RDWR | O_APPEND_WRONLY.

(** [os.OpenFile] with [O_NOFOLLOW]. *)
Definition open_file (flags : open_flags) (mode : Z) (p : string) (t : tree) : sys_error + (string * tree) :=
  match t !! key p with
  | Some n =>
      match nd_kind n, flags with
      | KFile _, _ | KDir, O_RDONLY => inr (p, t)
      | KDir, _ => inl (SysError "is a directory")
      | KSymlink, _ => inl (SysError "too many levels of symbolic links")
      | KOther, _ => inl (SysError "no such device or address")
      end
  | None =>
      match flags with
      | O_CREATE_RDWR => match make (KFile "") mode p t with inl e => inl e | inr t' => inr (p, t') end
      | _ => inl (not_found t (key p))
      end
  end.
Definition os_OpenFile (p : string) (flags : open_flags) (mode : Z) : os (sys_error + string) :=
  change (λ _ t, open_file flags mode p t).

(** [os.Open], used on a directory. *)
Definition os_Open (p : string) : os (sys_error + string) :=
  look (λ t, match node_at t p with inl e => inl e | inr _ => inr p end).

Definition content (n : node) : sys_error + string :=
  match nd_kind n with
  | KFile data => inr data
  | KDir => inl (SysError "is a directory")
  | _ => inl (SysError "not a regular file")
  end.
Definition content_at (t : tree) (p : string) : sys_error + string :=
  match node_at t p with inl e => inl e | inr n => content n end.

Definition os_ReadFile (p : string) : os (sys_error + string) := look (λ t, content_at t p).

(** Reading an open file to its end: what was read, and the error if the end
    was not reached. *)
Definition f_Read (f : string) : os (string * option sys_error) :=
  call (λ n t, (match content_at t f, fault n with
                | inl e, _ => ("", Some e)
                | inr data, None => (data, None)
                | inr data, Some (e, k) => (stake k data, Some e)
                end, t)).

Definition alter (g : node → node) (p : string) (t : tree) : sys_error + tree :=
  match node_at t p with inl e => inl e | inr n => inr (<[key p := g n]> t) end.

Definition os_Chmod (p : string) (mode : Z) : os (option sys_error) :=
  change_ (alter (λ n, {| nd_kind := nd_kind n; nd_perm := mode; nd_uid := nd_uid n; nd_gid := nd_gid n |}) p).
Definition os_Chown (p : string) (uid gid : Z) : os (option sys_error) :=
  change_ (alter (λ n, {| nd_kind := nd_kind n; nd_perm := nd_perm n; nd_uid := uid; nd_gid := gid |}) p).

Definition append_data (data : string) (n : node) : node := {|
  nd_kind := match nd_kind n with KFile old => KFile (old +:+ data) | k => k end;
  nd_perm := nd_perm n; nd_uid := nd_uid n; nd_gid := nd_gid n |}.

(** Writing at the end of a file: of a failed write some bytes may remain. *)
Definition f_Write (f data : string) : os (option sys_error) :=
  call (λ n t,
    match fault n with
    | None => match alter (append_data data) f t with inl e => (Some e, t) | inr t' => (None, t') end
    | Some (e, k) => match alter (append_data (stake k data)) f t with
                     | inl _ => (Some e, t)
                     | inr t' => (Some e, t')
                     end
    end).
Definition f_Sync (f : string) : os (option sys_error) := change_ inr.
Definition f_Close (f : string) : os (option sys_error) := change_ inr.

Definition rename (from to : string) (t : tree) : sys_error + tree :=
  match node_at t from with
  | inl e => inl e
  | inr n =>
      match (match t !! key to with
             | Some m => if is_dir m || is_dir n then Some ErrExist else None
             | None => can_make t (key to)
             end) with
      | Some e => inl e
      | None => inr (<[key to := n]> (delete (key from) t))
      end
  end.
Definition os_Rename (from to : string) : os (option sys_error) := change_ (rename from to).

Definition os_Mkdir (p : string) (mode : Z) : os (option sys_error) := change_ (make KDir mode p).

(** The names in a directory. *)
Definition children (t : tree) (k : string) : list string :=
  omap (λ q, if String.eqb (Dir q.1) k && negb (String.eqb q.1 k) then Some (Base q.1) else None)
    (map_to_list t).

Definition os_ReadDir (p : string) : os (sys_error + list (string * bool)) :=
  look (λ t,
    match node_at t p with
    | inl e => inl e
    | inr n =>
        if negb (passable n) then inl not_a_directory
        else inr (map (λ name, (name, match t !! PJoin [key p; name] with
                                      | Some m => is_dir m
                                      | None => false
                                      end))
                    (sort_strings (children t (key p))))
    end).

Definition remove (p : string) (t : tree) : sys_error + tree :=
  match node_at t p with
  | inl e => inl e
  | inr n =>
      if is_dir n && negb (bool_decide (children t (key p) = []))
      then inl (SysError "directory not empty")
      else inr (delete (key p) t)
  end.
Definition os_Remove (p : string) : os (option sys_error) := change_ (remove p).

(** [os.CreateTemp]: [pattern] is [prefix*suffix]. *)
Definition temp_name (dir prefix suffix : string) (n : N) : string :=
  (if HasSuffix dir "/" then dir else dir +:+ "/") +:+ (prefix +:+ Itoa (Z.of_N n) +:+ suffix).
Fixpoint temp_tries (fuel : nat) (dir prefix suffix : string) : os (sys_error + string) :=
  match fuel with
  | O => mret (inl ErrExist)
  | S fuel' =>
      r ← change (λ n t, let p := temp_name dir prefix suffix (k_random n) in
                         match make (KFile "") 384 p t with inl e => inl e | inr t' => inr (p, t') end);
      match r with
      | inl ErrExist => temp_tries fuel' dir prefix suffix
      | _ => mret r
      end
  end.
Definition os_CreateTemp (dir prefix suffix : string) : os (sys_error + string) :=
  temp_tries (Z.to_nat 10000) dir prefix suffix.

(** ** The process *)

Definition ctx_Err : os (option sys_error) := call (λ n t, (k_ctx n, t)).
Definition os_Getgroups : os (sys_error + list Z) := call (λ n t, (k_Getgroups n, t)).
(** One [Flock] that does not block: by the number of the call it fails. *)
Definition unix_Flock : os (option sys_error) := change_ inr.
End calls.

(** ** security_unix.go *)
Section security.
Context `{Kernel} {M : Type}.
Abbreviation os A := (stm (world disk M) A).

Definition effectiveUID : Z := k_Geteuid.
Definition effectiveGID : Z := k_Getegid.
Definition supplementaryGroups : os (sys_error + list Z) := os_Getgroups.

Definition fileOwnership (info : FileInfo) : option (Z * Z) := Some (fi_uid info, fi_gid info).

Definition openNoFollow (path : string) (flags : open_flags) (mode : Z) : os (sys_error + string) :=
  os_OpenFile path flags mode.

(** The rounds in which another process holds the lock: each one ends with the
    cancellation of the context or the next attempt. *)
Fixpoint lock_rounds (busy : nat) : os (option sys_error) :=
  match busy with
  | O => unix_Flock
  | S busy' => check! ctx_Err else e => mret (Some e) in lock_rounds busy'
  end.
Definition acquireFileLock (file : string) : os (option sys_error) :=
  busy ← call (λ n t, (k_busy n, t)); lock_rounds busy.
Definition acquireFileReadLock (file : string) : os (option sys_error) :=
  busy ← call (λ n t, (k_busy n, t)); lock_rounds busy.
Definition releaseFileLock (file : string) : os () := _ ← unix_Flock; mret ().
End security.

(** * What calls change on a disk

    Frames of procedures over a disk: [frame P m] says that [m] changes the
    type and the data of no file outside [P] and leaves the memory alone,
    whatever fails. *)
(** What is at a key, and the data of the file there. *)
Definition kind_at (t : tree) (k : string) : option node_kind := nd_kind <$> t !! k.
Definition data_of (n : node_kind) : option string := match n with KFile d => Some d | _ => None end.
Definition data (t : tree) (k : string) : option string := kind_at t k ≫= data_of.

Definition tree_of {M} (w : world disk M) : tree := d_tree (w_disk w).

Definition only (P : string → Prop) (t t' : tree) : Prop := ∀ k, ¬ P k → kind_at t' k = kind_at t k.

Definition changes {M} (P : string → Prop) (w w' : world disk M) : Prop :=
  w_mem w' = w_mem w ∧ only P (tree_of w) (tree_of w').

#[export] Instance only_preorder P : PreOrder (only P).
Proof. split; [by intros t k|]. intros t1 t2 t3 H1 H2 k Hk. by rewrite H2, H1. Qed.
#[export] Instance changes_preorder {M} P : PreOrder (changes (M := M) P).
Proof.
  split; [by intros w|]. intros w1 w2 w3 [H1 H2] [H3 H4]. split; [by rewrite H3|].
  by transitivity (tree_of w2).
Qed.

Lemma only_mono P P' t t' : (∀ k, P k → P' k) → only P t t' → only P' t t'.
Proof. intros HP Ht k Hk. apply Ht. auto. Qed.

Lemma kind_insert t k n k' : kind_at (<[k:=n]> t) k' = if decide (k = k') then Some (nd_kind n) else kind_at t k'.
Proof.
  unfold kind_at. case_decide as E; [subst; by rewrite lookup_insert_eq|by rewrite lookup_insert_ne].
Qed.
Lemma kind_delete t k k' : kind_at (delete k t) k' = if decide (k = k') then None else kind_at t k'.
Proof.
  unfold kind_at. case_decide as E; [subst; by rewrite lookup_delete_eq|by rewrite lookup_delete_ne].
Qed.

Lemma only_data P t t' k : only P t t' → ¬ P k → data t' k = data t k.
Proof. intros Ht Hk. unfold data. by rewrite Ht. Qed.

Section frames.
Context `{Kernel} {M : Type}.
Implicit Types (P : string → Prop) (w : world disk M).
Abbreviation os A := (stm (world disk M) A).

Definition post {A} P (Q : A → Prop) (m : os A) : Prop := ∀ w, step_post (changes P) Q m w.
Definition frame {A} P (m : os A) : Prop := post P (λ _, True) m.

Lemma frame_ret {A} P (a : A) : frame P (mret a).
Proof. intros w. by apply step_ret; [apply _|]. Qed.

Lemma frame_bind_post {A B} P (Q : A → Prop) (m : os A) (f : A → os B) :
  post P Q m → (∀ a, Q a → frame P (f a)) → frame P (m ≫= f).
Proof.
  intros Hm Hf w. eapply step_bind; [apply _|apply Hm|]. intros a w' _ Ha. by apply Hf.
Qed.

Lemma frame_bind {A B} P (m : os A) (f : A → os B) :
  frame P m → (∀ a, frame P (f a)) → frame P (m ≫= f).
Proof. intros Hm Hf. eapply frame_bind_post; [apply Hm|auto]. Qed.

Lemma frame_for_each {A S R} P (body : A → S → os (R + S)) l s :
  (∀ a s, a ∈ l → frame P (body a s)) → frame P (for_each body l s).
Proof.
  revert s. induction l as [|a l IH]; intros s Hb; cbn [for_each]; [apply frame_ret|].
  apply frame_bind; [apply Hb; left|]. intros [r|s']; [apply frame_ret|].
  apply IH. intros. apply Hb. by right.
Qed.

Lemma frame_run {A} P (m : os A) w a w' : frame P m → m w = (a, w') → changes P w w'.
Proof. intros Hm E. by destruct (step_run _ _ _ _ _ _ (Hm w) E). Qed.

Lemma frame_mono {A} P P' (m : os A) : (∀ k, P k → P' k) → frame P m → frame P' m.
Proof.
  intros HP Hm w. destruct (Hm w) as [[H1 H2] _]. split; [|done]. split; [done|]. by eapply only_mono.
Qed.

(** ** Single calls *)

Lemma frame_call {A} P (f : nat → tree → A * tree) :
  (∀ n t, only P t (f n t).2) → frame P (call f).
Proof.
  intros Hf w. unfold step_post, call, changes, tree_of. specialize (Hf (d_calls (w_disk w)) (d_tree (w_disk w))).
  by destruct (f _ _).
Qed.

Lemma frame_look {A} P (f : tree → sys_error + A) : frame P (look f).
Proof. apply frame_call. by intros n t k. Qed.

Lemma frame_change_post {A} P (Q : A → Prop) (f : nat → tree → sys_error + (A * tree)) :
  (∀ n t a t', f n t = inr (a, t') → only P t t' ∧ Q a) →
  post P (λ r, match r with inl _ => True | inr a => Q a end) (change f).
Proof.
  intros Hf w. unfold step_post, change, call, changes, tree_of.
  destruct (fault _) as [[e k]|]; [by split|].
  specialize (Hf (d_calls (w_disk w)) (d_tree (w_disk w))).
  destruct (f _ _) as [e|[a t']]; [by split|]. destruct (Hf a t' eq_refl). by split.
Qed.

Lemma frame_post {A} P (Q : A → Prop) (m : os A) : post P Q m → frame P m.
Proof. intros Hm w. by destruct (Hm w). Qed.

Lemma frame_change {A} P (f : nat → tree → sys_error + (A * tree)) :
  (∀ n t a t', f n t = inr (a, t') → only P t t') → frame P (change f).
Proof. intros Hf. eapply frame_post, (frame_change_post _ (λ _, True)). eauto. Qed.

Lemma frame_change_ P (f : tree → sys_error + tree) :
  (∀ t t', f t = inr t' → only P t t') → frame P (change_ f).
Proof.
  intros Hf. apply frame_bind; [|intros; apply frame_ret]. apply frame_change.
  intros n t [] t' E. destruct (f t) as [|t1] eqn:Ef; [done|]. injection E as <-. by apply Hf.
Qed.

Lemma make_only P k mode p t t' :
  P (key p) → make k mode p t = inr t' → only P t t'.
Proof.
  unfold make. intros HP E. destruct (t !! key p) eqn:Et; [done|]. destruct (can_make _ _); [done|].
  injection E as <-. intros q Hq. rewrite kind_insert. by case_decide; subst.
Qed.

Lemma alter_only P g p t t' :
  (P (key p) ∨ ∀ n, nd_kind (g n) = nd_kind n) → alter g p t = inr t' → only P t t'.
Proof.
  unfold alter, node_at. intros HP E. destruct (t !! key p) as [n|] eqn:Et; [|done].
  injection E as <-. intros q Hq. rewrite kind_insert. case_decide as Eq; [|done]. subst q.
  destruct HP as [?|Hg]; [done|]. unfold kind_at. by rewrite Et, Hg.
Qed.

Lemma frame_OpenFile P p flags mode :
  (P (key p) ∨ flags ≠ O_CREATE_RDWR) → frame P (os_OpenFile p flags mode).
Proof.
  intros HP. apply frame_change. intros _ t a t'. unfold open_file.
  destruct (t !! key p) as [n|] eqn:Et.
  - destruct (nd_kind n), flags; intros E; simplify_eq; done.
  - destruct flags; try done. destruct HP as [HP|]; [|done].
    destruct (make _ _ _ _) eqn:Em; [done|]. intros E. simplify_eq. by eapply make_only.
Qed.

Lemma frame_Open P p : frame P (os_Open p).
Proof. apply frame_look. Qed.
Lemma frame_ReadFile P p : frame P (os_ReadFile p).
Proof. apply frame_look. Qed.
Lemma frame_ReadDir P p : frame P (os_ReadDir p).
Proof. apply frame_look. Qed.
Lemma frame_fs_Abs P p : frame P (fs_Abs p : os _).
Proof. apply frame_look. Qed.
Lemma frame_fs_Lstat P p : frame P (fs_Lstat p : os _).
Proof. apply frame_look. Qed.
Lemma frame_Read P f : frame P (f_Read f).
Proof. apply frame_call. by intros n t k. Qed.
Lemma frame_Chmod P p mode : frame P (os_Chmod p mode).
Proof. apply frame_change_. intros t t'. apply alter_only. by right. Qed.
Lemma frame_Chown P p u g : frame P (os_Chown p u g).
Proof. apply frame_change_. intros t t'. apply alter_only. by right. Qed.
Lemma frame_idle P : frame P (change_ inr).
Proof. apply frame_change_. by intros t t' [= <-]. Qed.
Lemma frame_Sync P f : frame P (f_Sync f).
Proof. apply frame_idle. Qed.
Lemma frame_Close P f : frame P (f_Close f).
Proof. apply frame_idle. Qed.
Lemma frame_Mkdir P p mode : P (key p) → frame P (os_Mkdir p mode).
Proof. intros HP. apply frame_change_. intros t t'. by apply make_only. Qed.
Lemma frame_ctx_Err P : frame P ctx_Err.
Proof. apply frame_call. by intros n t k. Qed.
Lemma frame_groups P : frame P supplementaryGroups.
Proof. apply frame_call. by intros n t k. Qed.

Lemma frame_Write P f d : P (key f) → frame P (f_Write f d).
Proof.
  intros HP. apply frame_call. intros n t. destruct (fault n) as [[e k]|].
  - destruct (alter _ _ _) as [|t'] eqn:E; [done|]. eapply alter_only; [|done]. by left.
  - destruct (alter _ _ _) as [|t'] eqn:E; [done|]. eapply alter_only; [|done]. by left.
Qed.

Lemma frame_Rename P p q : P (key p) → P (key q) → frame P (os_Rename p q).
Proof.
  intros Hp Hq. apply frame_change_. intros t t'. unfold rename.
  destruct (node_at t p) as [|n]; [done|]. destruct (match t !! key q with Some _ => _ | None => _ end); [done|].
  intros [= <-] k Hk. rewrite kind_insert, kind_delete. by repeat case_decide; subst.
Qed.

Lemma frame_Remove P p : P (key p) → frame P (os_Remove p).
Proof.
  intros Hp. apply frame_change_. intros t t'. unfold remove.
  destruct (node_at t p) as [|n]; [done|]. destruct (_ && _); [done|].
  intros [= <-] k Hk. rewrite kind_delete. by repeat case_decide; subst.
Qed.

Lemma post_CreateTemp P dir prefix suffix :
  (∀ n, P (key (temp_name dir prefix suffix n))) →
  post P (λ r, match r with inl _ => True | inr p => ∃ n, p = temp_name dir prefix suffix n end)
    (os_CreateTemp dir prefix suffix).
Proof.
  intros HP. unfold os_CreateTemp. induction (Z.to_nat 10000) as [|fuel IH].
  { intros w. by apply step_ret; [apply _|]. }
  cbn [temp_tries]. intros w. eapply step_bind; [apply _| |].
  - apply (frame_change_post P (λ p, ∃ n, p = temp_name dir prefix suffix n)).
    intros n t a t' E. cbn zeta in E. destruct (make _ _ _ _) eqn:Em; [done|]. injection E as <- <-.
    split; [by eapply make_only|by eexists].
  - intros [e|p] w' _ Hp; [|by apply step_ret; [apply _|]].
    destruct e; try (by apply step_ret; [apply _|]). apply IH.
Qed.
End frames.

(** [go_frame] walks through a procedure. *)
Create HintDb frames discriminated.
#[export] Hint Resolve frame_ret frame_look frame_Open frame_ReadFile frame_ReadDir frame_fs_Abs frame_fs_Lstat
  frame_Read frame_Chmod frame_Chown frame_Sync frame_Close frame_ctx_Err frame_groups frame_idle : frames.

Ltac go_frame_step :=
  first
    [ progress intros
    | apply frame_ret
    | solve [eauto with frames]
    | apply frame_bind
    | apply frame_for_each
    | case_match ].
Ltac go_frame := repeat go_frame_step.

Section frame_lemmas.
Context `{Kernel} {M : Type}.
Abbreviation os A := (stm (world disk M) A).

Lemma frame_lock_rounds P n : frame P (lock_rounds n : os _).
Proof. induction n; cbn [lock_rounds]; go_frame. Qed.
#[local] Hint Resolve frame_lock_rounds : frames.

Lemma frame_busy P : frame P (call (λ n t, (k_busy n, t)) : os _).
Proof. apply frame_call. by intros n t k. Qed.
#[local] Hint Resolve frame_busy : frames.

Lemma frame_acquire P f : frame P (acquireFileLock f : os _).
Proof. unfold acquireFileLock. go_frame. Qed.
Lemma frame_acquire_read P f : frame P (acquireFileReadLock f : os _).
Proof. unfold acquireFileReadLock. go_frame. Qed.
Lemma frame_release P f : frame P (releaseFileLock f : os _).
Proof. unfold releaseFileLock, unix_Flock. go_frame. Qed.

Lemma frame_rejectSymlinkParents P p : frame P (rejectSymlinkParents p : os _).
Proof. unfold rejectSymlinkParents, check_part. go_frame. Qed.
End frame_lemmas.
#[export] Hint Resolve frame_acquire frame_acquire_read frame_release frame_rejectSymlinkParents : frames.

(** ** Keys *)
Section keys.
Context `{Kernel}.

Lemma wd_abs : IsAbs wd = true.
Proof. reflexivity. Qed.

Lemma key_rcomps p : key p = abs_path (reverse (rcomps wd p)).
Proof. apply Abs_rcomps, wd_abs. Qed.

Lemma key_eq p q : key p = key q ↔ rcomps wd p = rcomps wd q.
Proof.
  rewrite !key_rcomps. split; [|congruence]. intros E.
  apply abs_path_inj in E; [by apply (inj reverse)| |]; apply Forall_reverse, rcomps_plain.
Qed.

Lemma key_below dir n m : dir ≠ "" → plain n → plain m → key (PJoin [dir; n]) = key (PJoin [dir; m]) ↔ n = m.
Proof.
  intros Hd Hn Hm. rewrite key_eq, !rcomps_PJoin by done. split; congruence.
Qed.

(** The name that [CreateTemp] makes is in the directory too. *)
Lemma rcomps_temp dir prefix suffix n :
  dir ≠ "" → plain (prefix +:+ Itoa (Z.of_N n) +:+ suffix) →
  rcomps wd (temp_name dir prefix suffix n) = (prefix +:+ Itoa (Z.of_N n) +:+ suffix) :: rcomps wd dir.
Proof.
  intros Hd Hp. unfold temp_name. set (x := prefix +:+ _) in *. destruct (HasSuffix dir "/") eqn:E.
  - apply HasSuffix_spec in E as [d ->]. unfold rcomps.
    rewrite sapp_assoc. assert (IsAbs (d +:+ "/" +:+ x) = IsAbs (d +:+ "/")) as ->
      by (destruct d; [done|by rewrite !IsAbs_app_ne]).
    change (Split (d +:+ "/") sep) with (Split (d +:+ "/" +:+ "") sep).
    rewrite !Split_join_sep, (Split_no_sep x), !foldl_app by apply Hp. cbn [foldl]. by rewrite clean_step_plain.
  - rewrite sapp_assoc. by apply (rcomps_below wd dir x).
Qed.
End keys.

(** ** What a successful call did *)
Section runs.
Context `{Kernel} {M : Type}.
Implicit Types w : world disk M.

Lemma change_run f w r w' :
  change_ f w = (r, w') →
  w_mem w' = w_mem w ∧ match r with None => f (tree_of w) = inr (tree_of w') | Some _ => tree_of w' = tree_of w end.
Proof.
  unfold change_. intros E. inv_run E. injection E as <- <-. unfold change, call, tree_of in *.
  destruct (fault _) as [[e k]|]; [by injection E0 as <- <-|].
  destruct (f (d_tree (w_disk w))) as [e|t']; injection E0 as <- <-; done.
Qed.

Lemma idle_run w r w' : change_ inr w = (r, w') → w_mem w' = w_mem w ∧ tree_of w' = tree_of w.
Proof. intros [Hm Ht]%change_run. split; [done|]. destruct r; [done|]. congruence. Qed.

Lemma alter_run g p w w' n :
  change_ (alter g p) w = (None, w') → tree_of w !! key p = Some n → tree_of w' = <[key p := g n]> (tree_of w).
Proof.
  intros [_ E]%change_run Hn. unfold alter, node_at in E. rewrite Hn in E. by injection E as <-.
Qed.

Lemma Write_run f d w w' n :
  f_Write f d w = (None, w') → tree_of w !! key f = Some n →
  tree_of w' = <[key f := append_data d n]> (tree_of w).
Proof.
  unfold f_Write, call, tree_of. intros E Hn. destruct (fault _) as [[e k]|].
  - destruct (alter _ _ _); by injection E.
  - unfold alter, node_at in E. rewrite Hn in E. by injection E as <-.
Qed.

Lemma Rename_run p q w w' :
  os_Rename p q w = (None, w') → tree_of w' !! key q = tree_of w !! key p.
Proof.
  intros [_ E]%change_run. unfold rename, node_at in E. destruct (tree_of w !! key p) as [n|]; [|done].
  destruct (match tree_of w !! key q with Some _ => _ | None => _ end); [done|].
  injection E as <-. by rewrite lookup_insert_eq.
Qed.

Lemma CreateTemp_run dir prefix suffix w p w' :
  os_CreateTemp dir prefix suffix w = (inr p, w') →
  tree_of w' !! key p = Some (new_node (KFile "") 384).
Proof.
  unfold os_CreateTemp. revert w. induction (Z.to_nat 10000) as [|fuel IH]; intros w; [done|]. cbn [temp_tries].
  intros E. inv_run E. unfold change, call in E0. destruct (fault _) as [[e k]|] eqn:Ef.
  { injection E0 as <- <-. unfold fault in Ef. destruct (k_fault _) as [[? ?]|]; [|done]. injection Ef as <- <-.
    discriminate E. }
  destruct (make _ _ _ _) as [e|t'] eqn:Em; injection E0 as <- <-.
  - destruct e; try discriminate E. by apply IH in E.
  - injection E as <- <-. unfold make in Em. destruct (d_tree (w_disk w) !! _); [done|].
    destruct (can_make _ _); [done|].
    injection Em as <-. unfold tree_of. cbn. by rewrite lookup_insert_eq.
Qed.
End runs.
