(* ===== verification/CertsFileStore.v ===== *)
(** * The file store

    [file_store.go]: an authority kept in one directory as [ca.json], its lock
    [ca.lock], the unlock secrets [localunlock] and, in ledger mode, [ledger/]
    with one JSON line per issued certificate.  The methods are procedures over
    a world whose disk is that of [CertsDisk]; [encoding/json] is a
    parameter. *)
From S2P Require Import Prelude.
From S2P Require Import GoStrings.
From S2P Require Import GoPath.
From S2P Require Import Utf8.
From S2P Require Import Errors.
From S2P Require Import GoNet.
From S2P Require Import CertsTypes.
From S2P Require Import CertsNames.
From S2P Require Import CertsCrypto.
From S2P Require Import CertsOptions.
From S2P Require Import CertsState.
From S2P Require Import CertsBackend.
From S2P Require Import CertsFiles.
From S2P Require Import CertsDisk.
#[local] Open Scope stdpp_scope.
#[local] Open Scope Z_scope.

(** [json.MarshalIndent] of a state, [json.Marshal] of the other two, and
    [json.Unmarshal]. *)
Class JSON := {
  json_state : authorityState → sys_error + string;
  unjson_state : string → sys_error + authorityState;
  json_unlocks : gmap Z string → sys_error + string;
  unjson_unlocks : string → sys_error + gmap Z string;
  json_record : LedgerRecord → sys_error + string;
  unjson_record : string → sys_error + LedgerRecord;
}.

Definition newline : ascii := "010".
Definition nl : string := String newline "".

(** What the store relies on: a valid document is read back from its text, and
    the text of a ledger record is one line from which it is read back.  Values
    are taken up to what their text determines, so the two forms of an IPv4
    address are one address. *)
Class JSONLaws `{JSON, Unicode, Crypto, URLParser} (St : Type) := {
  json_state_law s d :
    valid (St := St) s → json_state s = inr d → unjson_state (d +:+ nl) = inr s;
  json_record_law r d :
    validateLedgerRecord r = None → json_record r = inr d →
    newline ∉ chars d ∧ unjson_record (d +:+ nl) = inr r;
}.

(** Permission bits by the digits of their octal form. *)
Definition mode (u g o : Z) : Z := u * 64 + g * 8 + o.

(** What [strconv.Atoi] returns next to its error. *)
Definition Atoi_value (s : string) : Z :=
  match Atoi s with
  | inr z => z
  | inl GoStrings.ErrSyntax => 0
  | inl GoStrings.ErrRange => if HasPrefix s "-" then min_int64 else max_int64
  end.

(** A sum of two [int]s. *)
Definition int64 (z : Z) : Z := (z + 2 ^ 63) mod 2 ^ 64 - 2 ^ 63.

Module FileStore.

Record FileStore := {
  directory : string;
  owner : string;
  group : string;
  uid : Z;
  gid : Z;
}.

Section store.
Context `{Kernel, JSON, Unicode, Crypto, URLParser} {St M : Type}.
Implicit Types (s : FileStore) (st : authorityState).
Abbreviation op A := (stm (world disk M) A).

Definition sys (e : sys_error) : option error := Some (Sys e).
Definition as_error (r : option sys_error) : option error := option_map Sys r.
(** The closures of the lock functions return an error only. *)
Definition done_ (r : error + ()) : option error := match r with inl e => Some e | inr _ => None end.
Definition result (r : option error) : error + () := match r with Some e => inl e | None => inr () end.

Definition forbidden (message : string) : option error := Some (ForbiddenError message None).

Definition kind : string := "file".
Definition principal s : string * string := (owner s, group s).

Definition authorizeOwner s : op (option error) :=
  mret (if negb (effectiveUID =? uid s)
        then forbidden "authority operations require the configured owner" else None).

Definition authorizeIssuer s : op (option error) :=
  if effectiveUID =? uid s then mret None else
  let! groups := supplementaryGroups
    else e => mret (Some (ForbiddenError "cannot inspect issuer group membership" (Some (Sys e)))) in
  mret (if existsb (Z.eqb (gid s)) groups then None
        else forbidden "issuer operations require configured group membership").

Definition directory_error s (requireOwner : bool) (info : FileInfo) : option error :=
  if fi_symlink info || negb (fi_dir info)
  then forbidden "authority path must be a non-symlink directory"
  else
  match fileOwnership info with
  | None => Some (UnavailableError "filesystem ownership inspection" None)
  | Some (u, g) =>
      if requireOwner && (negb (u =? uid s) || negb (g =? gid s))
      then forbidden "authority directory owner or group does not match"
      else if negb (fi_perm info =? mode 7 5 0) then forbidden "authority directory mode must be 0750"
      else None
  end.

Definition validateDirectory s (requireOwner : bool) : op (option error) :=
  check! rejectSymlinkParents (directory s) else e => mret (Some e) in
  let! info := fs_Lstat (directory s)
    else e => mret (Some (invalid "authority directory must already exist" (Some (Sys e)))) in
  mret (directory_error s requireOwner info).

Definition file_error s (path : string) (m : Z) (info : FileInfo) : option error :=
  if fi_symlink info || negb (fi_regular info)
  then forbidden "store file must be regular and not a symlink"
  else if negb (fi_perm info =? m) then forbidden ("invalid mode for " +:+ Base path)
  else
  match fileOwnership info with
  | None => Some (UnavailableError "filesystem ownership inspection" None)
  | Some (u, g) =>
      if negb (u =? uid s) || negb (g =? gid s)
      then forbidden "store file owner or group does not match" else None
  end.

Definition validateFile s (path : string) (m : Z) : op (option error) :=
  let! info := fs_Lstat path else e => mret (sys e) in
  mret (file_error s path m info).

Definition statePath s : string := PJoin [directory s; "ca.json"].
Definition lockPath s : string := PJoin [directory s; "ca.lock"].
Definition unlockPath s : string := PJoin [directory s; "localunlock"].

(** An absent file is the resource that is not there. *)
Definition absent (resource : string) (e : error) : error :=
  if IsSys ErrNotExist e then NotFoundError resource (Some e) else e.

Definition decode_state (data : string) : error + authorityState :=
  match unjson_state data with
  | inl e => inl (corrupt "malformed ca.json" (Some (Sys e)))
  | inr st => match validateState (St := St) st with Some e => inl e | None => inr st end
  end.

Definition load s (issuer : bool) : op (error + authorityState) :=
  check! ctx_Err else e => mret (inl (Sys e)) in
  check! validateDirectory s true else e => mret (inl e) in
  check! validateFile s (statePath s) (mode 6 4 0) else e => mret (inl (absent "authority" e)) in
  let! data := os_ReadFile (statePath s) else e => mret (inl (Sys e)) in
  mret (decode_state data).

(** ** Locks *)

(** The deferred calls run in the reverse of their order. *)
Definition holding {A} (f : string) (acquire : string → op (option sys_error)) (fn : op (error + A))
    : op (error + A) :=
  err ← acquire f;
  match err with
  | Some e => _ ← f_Close f; mret (inl (Sys e))
  | None =>
      r ← fn;
      _ ← releaseFileLock f;
      _ ← f_Close f;
      mret r
  end.

Definition withLock {A} s (fn : op (error + A)) : op (error + A) :=
  let! f := openNoFollow (lockPath s) O_CREATE_RDWR (mode 6 4 0) else e => mret (inl (Sys e)) in
  _ ← os_Chmod f (mode 6 4 0);
  _ ← os_Chown f (uid s) (gid s);
  holding f acquireFileLock fn.

Definition withAuthorityReadLock {A} s (fn : op (error + A)) : op (error + A) :=
  let! f := openNoFollow (lockPath s) O_RDONLY 0 else e => mret (inl (Sys e)) in
  holding f acquireFileReadLock fn.

(** ** Writing files *)

(** The temporary file gets its mode, its owner and its content, and is closed
    in every case; the first error counts. *)
Definition fill (f data : string) (m : Z) (own : option (Z * Z)) : op (option sys_error) :=
  err ← os_Chmod f m;
  err ← match err, own with None, Some (u, g) => os_Chown f u g | _, _ => mret err end;
  err ← match err with None => f_Write f data | Some _ => mret err end;
  err ← match err with None => f_Sync f | Some _ => mret err end;
  closeErr ← f_Close f;
  mret (match err with None => closeErr | Some _ => err end).

Definition discard (tmp : string) (e : sys_error) : op (option error) :=
  _ ← os_Remove tmp; mret (sys e).

Definition writeState s st : op (option error) :=
  match json_state st with
  | inl e => mret (sys e)
  | inr data =>
      let! tmp := os_CreateTemp (directory s) ".ca-" ".json" else e => mret (sys e) in
      check! fill tmp (data +:+ nl) (mode 6 4 0) (Some (uid s, gid s)) else e => discard tmp e in
      check! os_Rename tmp (statePath s) else e => discard tmp e in
      let! d := os_Open (directory s) else e => mret (sys e) in
      err ← f_Sync d;
      _ ← f_Close d;
      mret (as_error err)
  end.

Definition atomicStoreFile (path data : string) (m u g : Z) : op (option error) :=
  let dir := Dir path in
  let! tmp := os_CreateTemp dir ".store-" "" else e => mret (sys e) in
  check! fill tmp data m (if (0 <=? u) && (0 <=? g) then Some (u, g) else None) else e => discard tmp e in
  check! os_Rename tmp path else e => discard tmp e in
  mret None.

(** ** The ledger files *)

Definition ledgerDir s : string := PJoin [directory s; "ledger"].
Definition ledgerData s : string := PJoin [ledgerDir s; "ledger.jsonl"].
Definition ledgerLock s : string := PJoin [ledgerDir s; "ledger.lock"].
Definition ledgerPaths s : string * string * string := (ledgerDir s, ledgerData s, ledgerLock s).

(** A loop body over paths that ends the function with an error. *)
Definition stop_or_go (r : option error) : error + () := result r.

Definition validateLedgerStorage s : op (option error) :=
  let '(d, data, lock) := ledgerPaths s in
  let! info := fs_Lstat d else e => mret (sys e) in
  if fi_symlink info || negb (fi_dir info) || negb (fi_perm info =? mode 7 7 0)
  then mret (forbidden "invalid ledger directory") else
  if match fileOwnership info with
     | None => true
     | Some (u, g) => negb (u =? uid s) || negb (g =? gid s)
     end
  then mret (forbidden "ledger directory owner or group does not match") else
  r ← for_each (λ path _, err ← validateFile s path (mode 6 6 0); mret (stop_or_go err)) [data; lock] ();
  mret (done_ r).

(** The ledger directory, made when it does not exist. *)
Definition ensure_dir s (d : string) : op (option error) :=
  r ← fs_Lstat d;
  match r with
  | inr existing =>
      mret (if fi_symlink existing || negb (fi_dir existing)
            then forbidden "invalid ledger directory" else None)
  | inl e =>
      if negb (bool_decide (e = ErrNotExist)) then mret (sys e) else
      check! os_Mkdir d (mode 7 7 0) else e => mret (sys e) in
      check! os_Chmod d (mode 7 7 0) else e => mret (sys e) in
      check! os_Chown d (uid s) (gid s) else e => mret (sys e) in
      mret None
  end.

Definition open_ledger_file s (p : string) (created : bool) : op (option error) :=
  let! f := openNoFollow p O_CREATE_RDWR (mode 6 6 0) else e => mret (sys e) in
  err ← (if created
         then err ← os_Chmod f (mode 6 6 0);
              match err with None => os_Chown f (uid s) (gid s) | Some _ => mret err end
         else mret None);
  closeErr ← f_Close f;
  match (match err with None => closeErr | Some _ => err end) with
  | Some e => mret (sys e)
  | None => validateFile s p (mode 6 6 0)
  end.

Definition ensure_file s (p : string) : op (option error) :=
  r ← fs_Lstat p;
  match r with
  | inr existing =>
      if fi_symlink existing || negb (fi_regular existing)
      then mret (forbidden "invalid ledger file") else open_ledger_file s p false
  | inl e =>
      if negb (bool_decide (e = ErrNotExist)) then mret (sys e) else open_ledger_file s p true
  end.

Definition ensureLedger s : op (option error) :=
  let '(d, data, lock) := ledgerPaths s in
  check! ensure_dir s d else e => mret (Some e) in
  r ← for_each (λ p _, err ← ensure_file s p; mret (stop_or_go err)) [data; lock] ();
  match r with
  | inl e => mret (Some e)
  | inr _ => validateLedgerStorage s
  end.

(** The lines of the ledger that end in a newline, then what follows the last
    newline. *)
Fixpoint read_lines (lines : list string) (tail : string) (readErr : option sys_error)
    (out : list LedgerRecord) : op (error + list LedgerRecord) :=
  match lines with
  | line :: lines' =>
      match unjson_record (line +:+ nl) with
      | inl e => mret (inl (corrupt "malformed ledger record" (Some (Sys e))))
      | inr r =>
          match validateLedgerRecord r with
          | Some e => mret (inl e)
          | None =>
              check! ctx_Err else e => mret (inl (Sys e)) in
              read_lines lines' tail readErr (out ++ [r])
          end
      end
  | [] =>
      mret (if negb (String.eqb tail "") then inl (corrupt "incomplete final ledger record" None)
            else match readErr with Some e => inl (Sys e) | None => inr out end)
  end.

Definition readLedger s : op (error + list LedgerRecord) :=
  r ← openNoFollow (ledgerData s) O_RDONLY 0;
  match r with
  | inl e => mret (if bool_decide (e = ErrNotExist) then inr [] else inl (Sys e))
  | inr f =>
      '(text, readErr) ← f_Read f;
      let parts := Split text newline in
      r ← read_lines (removelast parts) (List.last parts "") readErr [];
      _ ← f_Close f;
      mret r
  end.

(** ** Updates *)

Definition check_ledger s st : op (option error) :=
  check! validateLedgerStorage s else e => mret (Some e) in
  let! records := readLedger s else e => mret (Some e) in
  mret (validateLedgerRecords st records).

Definition ledger_mode st : bool := String.eqb (spec_IssuanceMode (Spec st)) IssuanceLedger.

(** The mutated state, checked and written. *)
Definition store_mutation {A} s (existingState : bool) (before : Z) (a : A) st : op (error + A) :=
  if String.eqb (ID (Spec st)) "" then mret (inl (corrupt "mutation produced empty authority" None)) else
  let st := bump_revision before st in
  match validateState (St := St) st with
  | Some e => mret (inl e)
  | None =>
      check! (if ledger_mode st && negb existingState then ensureLedger s else mret None)
        else e => mret (inl e) in
      check! writeState s st else e => mret (inl e) in
      mret (inr a)
  end.

Definition update_locked {A} s (mutate : authorityState → op (outcome A)) : op (error + A) :=
  current ← load s false;
  match (match current with
         | inr st => inr (st, true)
         | inl e => if AsNotFound e then inr (zero_state, false) else inl e
         end) with
  | inl e => mret (inl e)
  | inr (state, existingState) =>
      check! (if existingState && ledger_mode state then check_ledger s state else mret None)
        else e => mret (inl e) in
      let before := Revision state in
      o ← mutate state;
      match o with
      | MNoMutation a => mret (inr a)
      | MError e => mret (inl e)
      | MDone a st => store_mutation s existingState before a st
      end
  end.

Definition update {A} s (mutate : authorityState → op (outcome A)) : op (error + A) :=
  withLock s (update_locked s mutate).

(** ** Purging *)

Definition remove_if_there (p : string) : op (option error) :=
  err ← os_Remove p;
  mret (match err with Some e => if decide (e = ErrNotExist) then None else sys e | None => None end).

Definition purge_ledger s : op (option error) :=
  entries ← os_ReadDir (ledgerDir s);
  match entries with
  | inl _ => mret None
  | inr entries =>
      r ← for_each (λ '(name, isdir) _,
             if isdir : bool then mret (result (forbidden "unexpected directory in ledger")) else
             err ← os_Remove (PJoin [ledgerDir s; name]);
             mret (result (as_error err))) entries ();
      match r with
      | inl e => mret (Some e)
      | inr _ => err ← os_Remove (ledgerDir s); mret (as_error err)
      end
  end.

Definition purge_locked s : op (option error) :=
  r ← for_each (λ p _, err ← remove_if_there p; mret (result err)) [statePath s; unlockPath s] ();
  match r with
  | inl e => mret (Some e)
  | inr _ => purge_ledger s
  end.

Definition purge s : op (option error) :=
  r ← withLock s (r ← purge_locked s; mret (result r));
  match r with
  | inl e => mret (Some e)
  | inr _ => remove_if_there (lockPath s)
  end.

(** ** Unlock secrets *)

Definition loadUnlocks s : op (error + gmap Z string) :=
  check! ctx_Err else e => mret (inl (Sys e)) in
  check! validateFile s (unlockPath s) (mode 6 0 0) else e => mret (inl (absent "local unlock" e)) in
  let! data := os_ReadFile (unlockPath s) else e => mret (inl (Sys e)) in
  mret (match unjson_unlocks data with
        | inl e => inl (corrupt "malformed localunlock" (Some (Sys e)))
        | inr v => inr v
        end).

Definition storeUnlocks s (v : gmap Z string) (replace : bool) : op (option error) :=
  check! ctx_Err else e => mret (sys e) in
  r ← fs_Lstat (unlockPath s);
  if match r with inr _ => negb replace | inl _ => false end
  then mret (Some (ConflictError "local unlock already exists" None)) else
  match json_unlocks v with
  | inl e => mret (sys e)
  | inr data => atomicStoreFile (unlockPath s) (data +:+ nl) (mode 6 0 0) (uid s) (gid s)
  end.

(** ** Ledger records *)

Definition conflict (records : list LedgerRecord) (r : LedgerRecord) : option error :=
  first_error (map (λ x,
    if String.eqb (Issuer x) (Issuer r) && (IssuerVersion x =? IssuerVersion r)
       && String.eqb (Serial x) (Serial r)
    then Some (ConflictError "issuer serial already recorded" None)
    else if String.eqb (l_Fingerprint x) (l_Fingerprint r)
    then Some (ConflictError "certificate already recorded" None) else None) records).

(** One line is added at the end of the file. *)
Definition append_line s (r : LedgerRecord) : op (option error) :=
  match json_record r with
  | inl e => mret (sys e)
  | inr b =>
      let! out := openNoFollow (ledgerData s) O_APPEND_WRONLY 0 else e => mret (sys e) in
      err ← f_Write out (b +:+ nl);
      err ← match err with None => f_Sync out | Some _ => mret err end;
      ce ← f_Close out;
      mret (as_error (match err with None => ce | Some _ => err end))
  end.

Definition appendLedgerRecord s (r : LedgerRecord) : op (option error) :=
  let! f := openNoFollow (ledgerLock s) O_RDWR 0 else e => mret (sys e) in
  res ← holding f acquireFileLock (
    let! records := readLedger s else e => mret (inl e) in
    match conflict records r with
    | Some e => mret (inl e)
    | None => err ← append_line s r; mret (result err)
    end);
  mret (done_ res).

Definition appendLedger s (r : LedgerRecord) : op (option error) :=
  check! validateLedgerStorage s else e => mret (Some e) in
  res ← withAuthorityReadLock s (
    let! state := load s true else e => mret (inl e) in
    match validateLedgerAuthority state r with
    | Some e => mret (inl e)
    | None => err ← appendLedgerRecord s r; mret (result err)
    end);
  mret (done_ res).

Definition entry_of (issuer : string) (version : Z) (serial : string) (r : LedgerRecord) : bool :=
  String.eqb (Issuer r) issuer && (IssuerVersion r =? version) && String.eqb (Serial r) serial.

Definition lookupLedger s (issuer : string) (version : Z) (serial : string) : op (error + LedgerRecord) :=
  let! v := readLedger s else e => mret (inl e) in
  mret (match List.find (entry_of issuer version serial) v with
        | Some r => inr r
        | None => inl (NotFoundError "ledger certificate" None)
        end).

Definition withLedgerReadLock {A} s (fn : op (error + A)) : op (error + A) :=
  check! validateLedgerStorage s else e => mret (inl e) in
  let! f := openNoFollow (ledgerLock s) O_RDONLY 0 else e => mret (inl (Sys e)) in
  holding f acquireFileReadLock fn.

Definition panic_slice : error := Errorf "slice bounds out of range" None.

(** The page of [v] that starts at [start], and the cursor of the next one. *)
Definition page (v : list LedgerRecord) (start limit : Z) : error + (list LedgerRecord * string) :=
  let len := Z.of_nat (length v) in
  if (start <? 0) || (len <? start) then inl (invalid "invalid ledger cursor" None) else
  let limit := if limit <=? 0 then 100 else limit in
  let end_ := int64 (start + limit) in
  let end_ := if len <? end_ then len else end_ in
  let next := if end_ <? len then Itoa end_ else "" in
  if end_ <? start then inl panic_slice
  else inr (take (Z.to_nat (end_ - start)) (drop (Z.to_nat start) v), next).

Definition listLedger s (cursor : string) (limit : Z) : op (error + (list LedgerRecord * string)) :=
  let! v := withLedgerReadLock s (readLedger s) else e => mret (inl e) in
  let start := if String.eqb cursor "" then 0 else Atoi_value cursor in
  mret (page v start limit).

(** ** NewFileStore *)

Definition as_sys_error (e : num_err) : sys_error :=
  match e with GoStrings.ErrSyntax => ErrSyntax | GoStrings.ErrRange => ErrRange end.

Definition NewFileStore (dir : string) (opts : list (option (option_ St))) : op (error + FileStore) :=
  match parseOptions scopeStore opts with
  | inl e => mret (inl e)
  | inr o =>
      if negb (ownerSet o) || String.eqb (TrimSpace (CertsOptions.owner o)) ""
      then mret (inl (invalid "FileStore requires WithOwner" None)) else
      if negb (groupSet o) || String.eqb (TrimSpace (CertsOptions.group o)) ""
      then mret (inl (invalid "FileStore requires WithGroup" None)) else
      match k_Lookup (CertsOptions.owner o) with
      | inl e => mret (inl (invalid "unknown owner" (Some (Sys e))))
      | inr u =>
      match k_LookupGroup (CertsOptions.group o) with
      | inl e => mret (inl (invalid "unknown group" (Some (Sys e))))
      | inr g =>
      match Atoi u with
      | inl e => mret (inl (Sys (as_sys_error e)))
      | inr u =>
      match Atoi g with
      | inl e => mret (inl (Sys (as_sys_error e)))
      | inr g =>
          let s := {| directory := Clean dir; owner := CertsOptions.owner o;
                      group := CertsOptions.group o; uid := u; gid := g |} in
          check! validateDirectory s true else e => mret (inl e) in
          mret (inr s)
      end end end end
  end.
End store.

(** A file store is a store of the managers. *)
Definition file_backend `{Kernel, JSON, Unicode, Crypto, URLParser} (St : Type) (s : FileStore) : Backend disk := {|
  b_load M issuer := load (St := St) s issuer;
  b_update M A f := update (St := St) s f;
  b_purge M := purge s;
  b_loadUnlocks M := loadUnlocks s;
  b_storeUnlocks M v replace := storeUnlocks s v replace;
  b_appendLedger M r := appendLedger (St := St) s r;
  b_lookupLedger M issuer version serial := lookupLedger s issuer version serial;
  b_listLedger M cursor limit := listLedger s cursor limit;
  b_kind := kind;
  b_principal := principal s;
  b_authorizeOwner M := authorizeOwner s;
  b_authorizeIssuer M := authorizeIssuer s |}.

End FileStore.
