(* ===== verification/CertsSql.v ===== *)
(** * The databases of the SQLite store

    The tables of [sqlite_store.go] and the statements that it runs on them, one
    definition per statement.  A database is a file: [SQLite] gives the bytes of
    a database, what a data source name opens, and so what [modernc.org/sqlite]
    determines; which call fails is up to [Kernel].  A statement outside a
    transaction reads the file and writes it back; a transaction works on the
    tables that it found and writes the file when it commits. *)
From S2P Require Import Prelude.
From S2P Require Import GoStrings.
From S2P Require Import GoPath.
From S2P Require Import Errors.
From S2P Require Import GoNet.
From S2P Require Import CertsTypes.
From S2P Require Import CertsState.
From S2P Require Import CertsBackend.
From S2P Require Import CertsFiles.
From S2P Require Import CertsDisk.
From S2P Require Import CertsFileStore.
From Stdlib Require Import Ascii.
#[local] Open Scope stdpp_scope.
#[local] Open Scope Z_scope.

(** ** Tables *)

Record ledger_row := {
  lr_fingerprint : string;
  lr_issuer : string;
  lr_issuer_version : Z;
  lr_serial : string;
  lr_document : string;
}.

(** A table is [None] before it is created; otherwise its rows by primary key.
    The rows of the ledger are in the order of their [rowid]. *)
Record database := {
  journal_mode : string;
  schema_migrations : option (gset Z);
  authority_state : option (gmap Z (Z * string));
  authority_records : option (gmap string (Z * string));
  root_generations : option (gmap Z (string * string * string));
  issuer_definitions : option (gmap string (string * string));
  issuer_versions : option (gmap (string * Z) (Z * string * string));
  topology_state : option (gmap Z (Z * Z * option string));
  encrypted_keys : option (gmap (string * string) string);
  ledger : option (list ledger_row);
}.

Definition empty_database : database := {|
  journal_mode := "delete"; schema_migrations := None; authority_state := None; authority_records := None;
  root_generations := None; issuer_definitions := None; issuer_versions := None; topology_state := None;
  encrypted_keys := None; ledger := None |}.

Definition with_journal (j : string) (d : database) : database :=
  Build_database j (schema_migrations d) (authority_state d) (authority_records d) (root_generations d)
    (issuer_definitions d) (issuer_versions d) (topology_state d) (encrypted_keys d) (ledger d).
Definition with_migrations (t : gset Z) (d : database) : database :=
  Build_database (journal_mode d) (Some t) (authority_state d) (authority_records d) (root_generations d)
    (issuer_definitions d) (issuer_versions d) (topology_state d) (encrypted_keys d) (ledger d).
Definition with_state (t : gmap Z (Z * string)) (d : database) : database :=
  Build_database (journal_mode d) (schema_migrations d) (Some t) (authority_records d) (root_generations d)
    (issuer_definitions d) (issuer_versions d) (topology_state d) (encrypted_keys d) (ledger d).
Definition with_records (t : gmap string (Z * string)) (d : database) : database :=
  Build_database (journal_mode d) (schema_migrations d) (authority_state d) (Some t) (root_generations d)
    (issuer_definitions d) (issuer_versions d) (topology_state d) (encrypted_keys d) (ledger d).
Definition with_roots (t : gmap Z (string * string * string)) (d : database) : database :=
  Build_database (journal_mode d) (schema_migrations d) (authority_state d) (authority_records d) (Some t)
    (issuer_definitions d) (issuer_versions d) (topology_state d) (encrypted_keys d) (ledger d).
Definition with_definitions (t : gmap string (string * string)) (d : database) : database :=
  Build_database (journal_mode d) (schema_migrations d) (authority_state d) (authority_records d)
    (root_generations d) (Some t) (issuer_versions d) (topology_state d) (encrypted_keys d) (ledger d).
Definition with_versions (t : gmap (string * Z) (Z * string * string)) (d : database) : database :=
  Build_database (journal_mode d) (schema_migrations d) (authority_state d) (authority_records d)
    (root_generations d) (issuer_definitions d) (Some t) (topology_state d) (encrypted_keys d) (ledger d).
Definition with_topology (t : gmap Z (Z * Z * option string)) (d : database) : database :=
  Build_database (journal_mode d) (schema_migrations d) (authority_state d) (authority_records d)
    (root_generations d) (issuer_definitions d) (issuer_versions d) (Some t) (encrypted_keys d) (ledger d).
Definition with_keys (t : gmap (string * string) string) (d : database) : database :=
  Build_database (journal_mode d) (schema_migrations d) (authority_state d) (authority_records d)
    (root_generations d) (issuer_definitions d) (issuer_versions d) (topology_state d) (Some t) (ledger d).
Definition with_ledger (t : list ledger_row) (d : database) : database :=
  Build_database (journal_mode d) (schema_migrations d) (authority_state d) (authority_records d)
    (root_generations d) (issuer_definitions d) (issuer_versions d) (topology_state d) (encrypted_keys d) (Some t).

(** ** Statements *)

Abbreviation sql_change := (database → sys_error + database).
Abbreviation sql_query A := (database → sys_error + A).

Definition no_such_table (name : string) : sys_error := SysError ("no such table: " +:+ name).
Definition unique_failed (columns : string) : sys_error :=
  SysError ("constraint failed: UNIQUE constraint failed: " +:+ columns).

Definition in_table {T A} (name : string) (t : option T) (f : T → sys_error + A) : sys_error + A :=
  match t with None => inl (no_such_table name) | Some t => f t end.

(** The row of a primary key. *)
Definition row_of `{Countable K} {V} (name : string) (t : option (gmap K V)) (k : K) : sys_error + V :=
  in_table name t (λ t, match t !! k with Some v => inr v | None => inl ErrNoRows end).
Definition count_of `{Countable K} {V} (name : string) (t : option (gmap K V)) : sys_error + Z :=
  in_table name t (λ t, inr (Z.of_nat (size t))).
Definition add_row `{Countable K} {V} (name columns : string) (t : option (gmap K V)) (k : K) (v : V)
    : sys_error + gmap K V :=
  in_table name t (λ t, match t !! k with Some _ => inl (unique_failed columns) | None => inr (<[k := v]> t) end).

Definition updated {T} (w : T → database → database) (d : database) (t : sys_error + T) : sys_error + database :=
  match t with inl e => inl e | inr t => inr (w t d) end.

(** A [uint64] with the high bit set is no argument of a statement. *)
Definition bind_uint64 (z : Z) : sys_error + Z :=
  if 2 ^ 63 <=? z then inl (SysError "uint64 values with high bit set are not supported") else inr z.

(** [PRAGMA journal_mode=DELETE], [PRAGMA foreign_keys=ON]; no table has a foreign key. *)
Definition pragma_journal_delete : sql_change := λ d, inr (with_journal "delete" d).
Definition pragma_foreign_keys : sql_change := λ d, inr d.

(** [CREATE TABLE IF NOT EXISTS]. *)
Definition create_table {T} (t : option T) (empty : T) (w : T → database → database) : sql_change := λ d,
  inr (match t with None => w empty d | Some _ => d end).
Definition create_migrations : sql_change := λ d, create_table (schema_migrations d) ∅ with_migrations d.
Definition create_state : sql_change := λ d, create_table (authority_state d) ∅ with_state d.
Definition create_records : sql_change := λ d, create_table (authority_records d) ∅ with_records d.
Definition create_roots : sql_change := λ d, create_table (root_generations d) ∅ with_roots d.
Definition create_definitions : sql_change := λ d, create_table (issuer_definitions d) ∅ with_definitions d.
Definition create_versions : sql_change := λ d, create_table (issuer_versions d) ∅ with_versions d.
Definition create_topology : sql_change := λ d, create_table (topology_state d) ∅ with_topology d.
Definition create_keys : sql_change := λ d, create_table (encrypted_keys d) ∅ with_keys d.
Definition create_ledger : sql_change := λ d, create_table (ledger d) [] with_ledger d.

(** [INSERT OR IGNORE INTO schema_migrations(version) VALUES (1)]. *)
Definition insert_migration : sql_change := λ d,
  updated with_migrations d (in_table "schema_migrations" (schema_migrations d) (λ t, inr ({[1]} ∪ t))).
(** [SELECT max(version) FROM schema_migrations]; the maximum of nothing is NULL, which no [int] takes. *)
Definition select_version : sql_query Z := λ d,
  in_table "schema_migrations" (schema_migrations d) (λ t,
    match elements t with
    | [] => inl (SysError "converting NULL to int is unsupported")
    | v :: vs => inr (foldr Z.max v vs)
    end).
(** [PRAGMA journal_mode]. *)
Definition select_journal_mode : sql_query string := λ d, inr (journal_mode d).

(** [SELECT document FROM authority_state WHERE singleton=1]. *)
Definition select_document : sql_query string := λ d,
  match row_of "authority_state" (authority_state d) 1 with inl e => inl e | inr (_, document) => inr document end.
(** [INSERT INTO authority_state ... ON CONFLICT(singleton) DO UPDATE]. *)
Definition upsert_document (revision : Z) (document : string) : sql_change := λ d,
  match bind_uint64 revision with
  | inl e => inl e
  | inr revision =>
      updated with_state d (in_table "authority_state" (authority_state d) (λ t, inr (<[1 := (revision, document)]> t)))
  end.

(** [DELETE FROM] a table, in the order of the code. *)
Definition delete_all {T} (name : string) (t : option T) (empty : T) (w : T → database → database) : sql_change := λ d,
  updated w d (in_table name t (λ _, inr empty)).
Definition delete_statements : list sql_change :=
  [λ d, delete_all "authority_records" (authority_records d) ∅ with_records d;
   λ d, delete_all "root_generations" (root_generations d) ∅ with_roots d;
   λ d, delete_all "issuer_definitions" (issuer_definitions d) ∅ with_definitions d;
   λ d, delete_all "issuer_versions" (issuer_versions d) ∅ with_versions d;
   λ d, delete_all "topology_state" (topology_state d) ∅ with_topology d;
   λ d, delete_all "encrypted_keys" (encrypted_keys d) ∅ with_keys d].

Definition insert_record (id : string) (format : Z) (specification : string) : sql_change := λ d,
  updated with_records d
    (add_row "authority_records" "authority_records.authority_id" (authority_records d) id (format, specification)).
Definition insert_root (generation : Z) (der fingerprint retired : string) : sql_change := λ d,
  updated with_roots d
    (add_row "root_generations" "root_generations.generation" (root_generations d) generation (der, fingerprint, retired)).
Definition insert_definition (slug name definition : string) : sql_change := λ d,
  updated with_definitions d
    (add_row "issuer_definitions" "issuer_definitions.slug" (issuer_definitions d) slug (name, definition)).
Definition insert_version (slug : string) (version root : Z) (der fingerprint : string) : sql_change := λ d,
  updated with_versions d
    (add_row "issuer_versions" "issuer_versions.issuer_slug, issuer_versions.version" (issuer_versions d)
       (slug, version) (root, der, fingerprint)).
Definition insert_topology (revision root : Z) (pending : option string) : sql_change := λ d,
  match bind_uint64 revision with
  | inl e => inl e
  | inr revision =>
      updated with_topology d
        (add_row "topology_state" "topology_state.singleton" (topology_state d) 1 (revision, root, pending))
  end.
Definition insert_key (kind id der : string) : sql_change := λ d,
  updated with_keys d
    (add_row "encrypted_keys" "encrypted_keys.key_kind, encrypted_keys.key_id" (encrypted_keys d) (kind, id) der).

(** [SELECT authority_id,format_version,specification FROM authority_records]:
    some row if there are several. *)
Definition select_record : sql_query (string * Z * string) := λ d,
  in_table "authority_records" (authority_records d) (λ t,
    match map_to_list t with
    | [] => inl ErrNoRows
    | (id, (format, specification)) :: _ => inr (id, format, specification)
    end).
Definition select_topology : sql_query (Z * Z * option string) := λ d,
  row_of "topology_state" (topology_state d) 1.
Definition count_roots : sql_query Z := λ d, count_of "root_generations" (root_generations d).
Definition select_root (generation : Z) : sql_query (string * string * string) := λ d,
  row_of "root_generations" (root_generations d) generation.
Definition count_definitions : sql_query Z := λ d, count_of "issuer_definitions" (issuer_definitions d).
Definition select_definition (slug : string) : sql_query (string * string) := λ d,
  row_of "issuer_definitions" (issuer_definitions d) slug.
Definition count_versions : sql_query Z := λ d, count_of "issuer_versions" (issuer_versions d).
Definition select_issuer_version (slug : string) (version : Z) : sql_query (Z * string * string) := λ d,
  row_of "issuer_versions" (issuer_versions d) (slug, version).
Definition count_keys : sql_query Z := λ d, count_of "encrypted_keys" (encrypted_keys d).
Definition select_key (kind id : string) : sql_query string := λ d,
  row_of "encrypted_keys" (encrypted_keys d) (kind, id).

(** ** Statements on the ledger *)

Definition same_entry (r x : ledger_row) : bool :=
  String.eqb (lr_issuer x) (lr_issuer r) && (lr_issuer_version x =? lr_issuer_version r)
  && String.eqb (lr_serial x) (lr_serial r).
(** [INSERT INTO ledger]: [fingerprint] is the primary key, the entry is unique. *)
Definition insert_ledger (r : ledger_row) : sql_change := λ d,
  updated with_ledger d (in_table "ledger" (ledger d) (λ rows,
    if existsb (λ x, String.eqb (lr_fingerprint x) (lr_fingerprint r)) rows
    then inl (unique_failed "ledger.fingerprint")
    else if existsb (same_entry r) rows
    then inl (unique_failed "ledger.issuer, ledger.issuer_version, ledger.serial")
    else inr (rows ++ [r]))).
(** [SELECT document FROM ledger WHERE issuer=? AND issuer_version=? AND serial=?]. *)
Definition select_entry (issuer : string) (version : Z) (serial : string) : sql_query string := λ d,
  in_table "ledger" (ledger d) (λ rows,
    match List.find (λ x, String.eqb (lr_issuer x) issuer && (lr_issuer_version x =? version)
                          && String.eqb (lr_serial x) serial) rows with
    | Some x => inr (lr_document x)
    | None => inl ErrNoRows
    end).
(** [SELECT document FROM ledger ORDER BY rowid LIMIT ? OFFSET ?]; a negative
    limit is none. *)
Definition select_page (limit offset : Z) : sql_query (list string) := λ d,
  in_table "ledger" (ledger d) (λ rows,
    let rows := drop (Z.to_nat offset) rows in
    inr (map lr_document (if limit <? 0 then rows else take (Z.to_nat limit) rows))).

(** ** Data source names *)

(** [url.URL.String] of a URL with the scheme [file] and a path. *)
Definition path_byte (c : ascii) : bool :=
  let n := ord c in
  ((48 <=? n) && (n <=? 57)) || ((65 <=? n) && (n <=? 90)) || ((97 <=? n) && (n <=? 122))
  || in_set "-_.~$&+,/:;=@" c.
Definition upper_hex (n : Z) : ascii := chr (if n <? 10 then 48 + n else 55 + n).
Definition escape_byte (c : ascii) : string :=
  if path_byte c then String c ""
  else String "%" (String (upper_hex (ord c / 16)) (String (upper_hex (ord c mod 16)) "")).
Definition escape_path (p : string) : string := if String.eqb p "*" then p else replace_bytes escape_byte p.
Definition file_url (p : string) : string := "file:" +:+ (if String.eqb p "" then "" else "//" +:+ escape_path p).

Definition sqliteReadOnlyDSN (path : string) : string := file_url path +:+ "?mode=ro".

(** The bytes of a database, and the path and mode of a data source name. *)
Class SQLite := {
  db_image : database → string;
  db_parse : string → sys_error + database;
  open_dsn : string → sys_error + (string * bool);
}.

(** A database is read back from its bytes and an empty file is an empty one.  A
    name that is no URI is a path up to a question mark; a URI without an
    authority names the path that it escapes, and one with another authority
    than [localhost] is refused. *)
Class SQLiteLaws `{SQLite} := {
  db_parse_image d : db_parse (db_image d) = inr d;
  db_parse_empty : db_parse "" = inr empty_database;
  open_path p : IsAbs p = true → in_set p "?" = false → open_dsn p = inr (p, false);
  open_uri p : IsAbs p = true → open_dsn (sqliteReadOnlyDSN p) = inr (p, true);
  open_authority host p : host ≠ "" → host ≠ "localhost" → in_set host "/" = false →
    ∃ e, open_dsn (sqliteReadOnlyDSN (host +:+ "/" +:+ p)) = inl e;
}.

(** ** Calls *)
Section calls.
Context `{Kernel, SQLite} {M : Type}.
Abbreviation os A := (stm (world disk M) A).

Definition cannot_open : sys_error := SysError "unable to open database file (14)".
Definition readonly_database : sys_error := SysError "attempt to write a readonly database (8)".

Definition set_data (data : string) (n : node) : node :=
  {| nd_kind := KFile data; nd_perm := nd_perm n; nd_uid := nd_uid n; nd_gid := nd_gid n |}.

(** The file of a database; a connection that may write makes a missing one. *)
Definition open_database (p : string) (ro : bool) (t : tree) : sys_error + (node * string * tree) :=
  match t !! key p with
  | Some n => match nd_kind n with KFile data => inr (n, data, t) | _ => inl cannot_open end
  | None =>
      if ro then inl cannot_open else
      match make (KFile "") (mode 6 4 4) p t with
      | inl _ => inl cannot_open
      | inr t' => inr (new_node (KFile "") (mode 6 4 4), "", t')
      end
  end.

(** A statement that commits by itself: what it answers and the files after it. *)
Definition run_statement {A} (dsn : string) (f : database → sys_error + (A * option database)) (t : tree)
    : (sys_error + A) * tree :=
  match open_dsn dsn with
  | inl e => (inl e, t)
  | inr (p, ro) =>
      match open_database p ro t with
      | inl e => (inl e, t)
      | inr (n, data, t') =>
          match db_parse data with
          | inl e => (inl e, t')
          | inr d =>
              match f d with
              | inl e => (inl e, t')
              | inr (a, None) => (inr a, t')
              | inr (a, Some d') =>
                  if ro : bool then (inl readonly_database, t')
                  else (inr a, <[key p := set_data (db_image d') n]> t')
              end
          end
      end
  end.

(** A statement fails before it did anything or after it was done. *)
Definition statement {A} (dsn : string) (f : database → sys_error + (A * option database)) : os (sys_error + A) :=
  call (λ n t,
    match fault n with
    | None => run_statement dsn f t
    | Some (e, O) => (inl e, t)
    | Some (e, S _) => (inl e, (run_statement dsn f t).2)
    end).

Definition sql_Open (dsn : string) : os (sys_error + string) := look (λ _, inr dsn).
Definition sql_Close : os (option sys_error) := change_ inr.

Definition sql_Exec (dsn : string) (f : sql_change) : os (option sys_error) :=
  r ← statement dsn (λ d, match f d with inl e => inl e | inr d' => inr ((), Some d') end);
  mret (failed r).
Definition db_query {A} (dsn : string) (f : sql_query A) : os (sys_error + A) :=
  statement dsn (λ d, match f d with inl e => inl e | inr a => inr (a, None) end).

(** A transaction: the tables that it has so far. *)
Definition sql_Begin (dsn : string) : os (sys_error + database) := db_query dsn inr.
Definition tx_exec (q : database) (f : sql_change) : os (sys_error + database) := look (λ _, f q).
Definition tx_query {A} (q : database) (f : sql_query A) : os (sys_error + A) := look (λ _, f q).
Definition tx_commit (dsn : string) (q : database) : os (option sys_error) := sql_Exec dsn (λ _, inr q).

(** [sqliteQueryRower]. *)
Inductive rower := RDB (dsn : string) | RTx (q : database).
Definition query_row {A} (r : rower) (f : sql_query A) : os (sys_error + A) :=
  match r with RDB dsn => db_query dsn f | RTx q => tx_query q f end.
End calls.
