(* ===== verification/CertsSqliteStore.v ===== *)
(** * The SQLite store

    [sqlite_store.go]: an authority kept in one database file, the document as
    JSON with tables that mirror it, the unlock secrets next to it and the
    ledger in a database of its own.  The methods are procedures over a world
    whose disk is that of [CertsDisk] and whose memory begins with the handle of
    the store: whether [s.db] is open. *)
From S2P Require Import Prelude.
From S2P Require Import GoStrings.
From S2P Require Import GoPath.
From S2P Require Import Utf8.
From S2P Require Import Errors.
From S2P Require Import GoNet.
From S2P Require Import CertsTypes.
From S2P Require Import CertsNames.
From S2P Require Import CertsCrypto.
From S2P Require Import CertsOptions.
From S2P Require Import CertsState.
From S2P Require Import CertsBackend.
From S2P Require Import CertsFiles.
From S2P Require Import CertsDisk.
From S2P Require Import CertsFileStore.
From S2P Require Import CertsSql.
#[local] Open Scope stdpp_scope.
#[local] Open Scope Z_scope.

(** [json.Marshal] of the document and of its parts, [Time.Format], and the user
    that runs the process. *)
Class SQLText := {
  marshal_state : authorityState → sys_error + string;
  marshal_spec : authoritySpec → sys_error + string;
  marshal_definition : IssuerDefinition → sys_error + string;
  marshal_pending : pendingManifest → sys_error + string;
  marshal_record : LedgerRecord → sys_error + string;
  format_time : Time → string;
  user_Current : sys_error + (string * string);
}.

(** A valid document, and a valid ledger record, is read back from its text. *)
Class SQLTextLaws `{SQLText, JSON, Unicode, Crypto, URLParser} (St : Type) := {
  marshal_state_law s d : valid (St := St) s → marshal_state s = inr d → unjson_state d = inr s;
  marshal_record_law r d : validateLedgerRecord r = None → marshal_record r = inr d → unjson_record d = inr r;
}.

Module SQLiteStore.

Record SQLiteStore := {
  path : string;
  owner : string;
  group : string;
  uid : Z;
  gid : Z;
  private : bool;
  readOnly : bool;
}.

Section store.
Context `{Kernel, JSON, SQLite, SQLText, Unicode, Crypto, URLParser} {St M : Type}.
Implicit Types (s : SQLiteStore) (st : authorityState).
Abbreviation op A := (stm (world disk (bool * M)) A).

Definition sys (e : sys_error) : option error := Some (Sys e).
Definition as_error (r : option sys_error) : option error := option_map Sys r.
Definition forbidden (message : string) : option error := Some (ForbiddenError message None).
Definition result (r : option error) : error + () := match r with Some e => inl e | None => inr () end.
Definition done_ (r : error + ()) : option error := match r with inl e => Some e | inr _ => None end.

(** ** The handle *)

(** A method of a nil [*sql.DB] panics. *)
Definition panic_nil : error := Errorf "invalid memory address or nil pointer dereference" None.

Definition set_open (b : bool) : op () := m ← get_mem; put_mem (b, m.2).
Definition is_open : op bool := m ← get_mem; mret m.1.

Definition dsn s : string := if readOnly s then sqliteReadOnlyDSN (path s) else path s.

(** [s.db]. *)
Definition store_db s : op (error + string) :=
  open ← is_open;
  mret (if open : bool then inr (dsn s) else inl panic_nil).

Definition kind : string := "sqlite".
Definition principal s : string * string := (owner s, group s).

Definition authorizeOwner s : op (option error) :=
  mret (if private s then None
        else if negb (effectiveUID =? uid s)
        then forbidden "authority operations require the configured owner" else None).

Definition authorizeIssuer s : op (option error) :=
  if private s || (effectiveUID =? uid s) then mret None else
  let! groups := supplementaryGroups
    else e => mret (Some (ForbiddenError "cannot inspect issuer group membership" (Some (Sys e)))) in
  mret (if existsb (Z.eqb (gid s)) groups then None
        else forbidden "issuer operations require configured group membership").

(** ** The schema *)

Definition migration_statements : list sql_change :=
  [pragma_journal_delete; pragma_foreign_keys; create_migrations; insert_migration; create_state; create_records;
   create_roots; create_definitions; create_versions; create_topology; create_keys].

Definition migrate (db : string) : op (option error) :=
  r ← for_each (λ q _,
        err ← sql_Exec db q;
        mret (match err with Some e => inl (Errorf "certs: SQLite migration: " (Some (Sys e))) | None => inr () end))
      migration_statements ();
  mret (done_ r).

Definition verifySchema (db : string) : op (option error) :=
  let! version := db_query db select_version else e => mret (sys e) in
  if negb (version =? 1) then mret (Some (UnavailableError "unsupported SQLite schema version" None)) else
  let! mode := db_query db select_journal_mode else e => mret (sys e) in
  mret (if negb (String.eqb (ToLower mode) "delete")
        then Some (corrupt "SQLite authority must use DELETE journal mode" None) else None).

(** ** Parity of the tables with the document *)

(** [json.Marshal] with its error ignored. *)
Definition text_of (r : sys_error + string) : string := match r with inl _ => "" | inr text => text end.

Definition drift (field : string) (expected actual : any) : option error := Some (DriftError field expected actual).

Definition validateSQLiteKey (q : rower) (kind_ id expected : string) : op (option error) :=
  let! actual := query_row q (select_key kind_ id)
    else e => mret (Some (corrupt "missing SQLite key record" (Some (Sys e)))) in
  mret (if negb (String.eqb actual expected) then drift "SQLite key record" (AString id) (AString "mismatch") else None).

Definition parity_record (q : rower) st : op (option error) :=
  let! (authorityID, format, specification) := query_row q select_record
    else e => mret (Some (corrupt "missing SQLite authority record" (Some (Sys e)))) in
  mret (if negb (String.eqb authorityID (ID (Spec st))) || negb (format =? FormatVersion (Spec st))
           || negb (String.eqb specification (text_of (marshal_spec (Spec st))))
        then drift "SQLite authority record" (AString (ID (Spec st))) (AString authorityID) else None).

Definition pending_text st : option string :=
  match Pending st with None => None | Some p => Some (text_of (marshal_pending p)) end.
(** [bytes.Equal], to which nil and empty are the same. *)
Definition same_bytes (a b : option string) : bool := String.eqb (default "" a) (default "" b).

Definition parity_topology (q : rower) st : op (option error) :=
  let! (revision, activeRoot, pending) := query_row q select_topology
    else e => mret (Some (corrupt "missing SQLite topology" (Some (Sys e)))) in
  mret (if negb (revision =? Revision st) || negb (activeRoot =? ActiveRoot st)
           || negb (same_bytes pending (pending_text st))
        then drift "SQLite topology" (AInt (Revision st)) (AInt revision) else None).

(** A count that fails or differs; after a failure the value [before] is
    reported, that of the count before it. *)
Definition parity_count (q : rower) (count : sql_query Z) (field : string) (before expected : Z) : op (option error) :=
  r ← query_row q count;
  mret (match r with
        | inl _ => drift field (AInt expected) (AInt before)
        | inr n => if negb (n =? expected) then drift field (AInt expected) (AInt n) else None
        end).

Definition parity_root (q : rower) (generation : Z) (root : rootRecord) : op (option error) :=
  let! (cert, fingerprint, retired) := query_row q (select_root generation)
    else e => mret (Some (corrupt "missing SQLite root generation" (Some (Sys e)))) in
  mret (if negb (String.eqb cert (root_CertificateDER root)) || negb (String.eqb fingerprint (root_Fingerprint root))
           || negb (String.eqb retired (format_time (RetiredTrustUntil root)))
        then drift "SQLite root generation" (AInt generation) (AString fingerprint) else None).

Definition parity_definition (q : rower) (slug : string) (issuer : issuerRecord) : op (option error) :=
  let! (display, definition) := query_row q (select_definition slug)
    else e => mret (Some (corrupt "missing SQLite issuer definition" (Some (Sys e)))) in
  mret (if negb (String.eqb display (def_Name (Definition_ issuer)))
           || negb (String.eqb definition (text_of (marshal_definition (Definition_ issuer))))
        then drift "SQLite issuer definition" (AString (def_Name (Definition_ issuer))) (AString display) else None).

Definition issuer_key_id (slug : string) (version : Z) : string := slug +:+ ":" +:+ Itoa version.

Definition parity_version (q : rower) (slug : string) (version : Z) (v : issuerVersion) : op (option error) :=
  let! (rootGeneration, cert, fingerprint) := query_row q (select_issuer_version slug version)
    else e => mret (Some (corrupt "missing SQLite issuer version" (Some (Sys e)))) in
  if negb (rootGeneration =? RootGeneration v) || negb (String.eqb cert (CertificateDER v))
     || negb (String.eqb fingerprint (Fingerprint v))
  then mret (drift "SQLite issuer version" (AInt version) (AString fingerprint)) else
  if String.eqb (KeyDER v) "" then mret None
  else validateSQLiteKey q "issuer" (issuer_key_id slug version) (KeyDER v).

Definition parity_root_key (q : rower) (generation : Z) (root : rootRecord) : op (option error) :=
  if String.eqb (EncryptedKeyDER root) "" then mret None
  else validateSQLiteKey q "root" (Itoa generation) (EncryptedKeyDER root).

(** The loops stop at the first error. *)
Definition all_checks {A} (check : A → op (option error)) (l : list A) : op (option error) :=
  r ← for_each (λ a _, err ← check a; mret (result err)) l ();
  mret (done_ r).

Definition parity_issuer (q : rower) (slug : string) (issuer : issuerRecord) : op (option error) :=
  check! parity_definition q slug issuer else e => mret (Some e) in
  all_checks (λ p, parity_version q slug p.1 p.2) (map_to_list (Versions issuer)).

Definition key_count {A} (key : A → string) (l : list A) : Z :=
  Z.of_nat (length (filter (λ a, String.eqb (key a) "" = false) l)).
Definition versions_of (p : string * issuerRecord) : list issuerVersion := map snd (map_to_list (Versions p.2)).
Definition all_versions st : list issuerVersion := concat (map versions_of (map_to_list (Issuers st))).
Definition versionCount st : Z := Z.of_nat (length (all_versions st)).
Definition keyCount st : Z :=
  key_count KeyDER (all_versions st) + key_count EncryptedKeyDER (map snd (map_to_list (Roots st))).

Definition validateSQLiteParity (q : rower) st : op (option error) :=
  let roots := Z.of_nat (size (Roots st)) in
  let issuers := Z.of_nat (size (Issuers st)) in
  check! parity_record q st else e => mret (Some e) in
  check! parity_topology q st else e => mret (Some e) in
  check! parity_count q count_roots "SQLite root count" 0 roots else e => mret (Some e) in
  check! all_checks (λ p, parity_root q p.1 p.2) (map_to_list (Roots st)) else e => mret (Some e) in
  check! parity_count q count_definitions "SQLite issuer count" roots issuers else e => mret (Some e) in
  check! all_checks (λ p, parity_issuer q p.1 p.2) (map_to_list (Issuers st)) else e => mret (Some e) in
  check! all_checks (λ p, parity_root_key q p.1 p.2) (map_to_list (Roots st)) else e => mret (Some e) in
  check! parity_count q count_versions "SQLite issuer version count" issuers (versionCount st)
    else e => mret (Some e) in
  parity_count q count_keys "SQLite key count" (versionCount st) (keyCount st).

(** ** Loading *)

(** The document in its text, checked with the tables that [q] sees. *)
Definition decode_document (q : rower) (data : string) : op (error + authorityState) :=
  match unjson_state data with
  | inl e => mret (inl (corrupt "malformed SQLite authority state" (Some (Sys e))))
  | inr st =>
      match validateState (St := St) st with
      | Some e => mret (inl e)
      | None =>
          check! validateSQLiteParity q st else e => mret (inl e) in
          mret (inr st)
      end
  end.

Definition load_rows (db : string) : op (error + authorityState) :=
  r ← db_query db select_document;
  match r with
  | inl ErrNoRows => mret (inl (NotFoundError "authority" None))
  | inl e => mret (inl (Sys e))
  | inr data => decode_document (RDB db) data
  end.

(** [PRAGMA query_only=ON], whose failure is ignored. *)
Definition pragma_query_only (db : string) : op () := _ ← db_query db (λ _, inr ()); mret ().

Definition load s (issuer : bool) : op (error + authorityState) :=
  if issuer then
    let! db := sql_Open (sqliteReadOnlyDSN (path s)) else e => mret (inl (Sys e)) in
    _ ← pragma_query_only db;
    r ← load_rows db;
    _ ← sql_Close;
    mret r
  else
    let! db := store_db s else e => mret (inl e) in
    load_rows db.

(** ** Writing the tables *)

(** A statement of a transaction for each element. *)
Definition exec_each {A} (f : A → database → op (sys_error + database)) (l : list A) (q : database)
    : op (sys_error + database) :=
  for_each (λ a q, f a q) l q.

Definition sync_root (p : Z * rootRecord) (q : database) : op (sys_error + database) :=
  let '(generation, root) := p in
  let! q := tx_exec q (insert_root generation (root_CertificateDER root) (root_Fingerprint root)
                         (format_time (RetiredTrustUntil root))) else e => mret (inl e) in
  if String.eqb (EncryptedKeyDER root) "" then mret (inr q)
  else tx_exec q (insert_key "root" (Itoa generation) (EncryptedKeyDER root)).

Definition sync_version (slug : string) (p : Z * issuerVersion) (q : database) : op (sys_error + database) :=
  let '(version, v) := p in
  let! q := tx_exec q (insert_version slug version (RootGeneration v) (CertificateDER v) (Fingerprint v))
    else e => mret (inl e) in
  if String.eqb (KeyDER v) "" then mret (inr q)
  else tx_exec q (insert_key "issuer" (issuer_key_id slug version) (KeyDER v)).

Definition sync_issuer (p : string * issuerRecord) (q : database) : op (sys_error + database) :=
  let '(slug, issuer) := p in
  match marshal_definition (Definition_ issuer) with
  | inl e => mret (inl e)
  | inr definition =>
      let! q := tx_exec q (insert_definition slug (def_Name (Definition_ issuer)) definition)
        else e => mret (inl e) in
      exec_each (sync_version slug) (map_to_list (Versions issuer)) q
  end.

Definition syncSQLiteTables (q : database) st : op (sys_error + database) :=
  let! q := exec_each (λ f q, tx_exec q f) delete_statements q else e => mret (inl e) in
  match marshal_spec (Spec st) with
  | inl e => mret (inl e)
  | inr spec =>
      let! q := tx_exec q (insert_record (ID (Spec st)) (FormatVersion (Spec st)) spec) else e => mret (inl e) in
      let! q := exec_each sync_root (map_to_list (Roots st)) q else e => mret (inl e) in
      let! q := exec_each sync_issuer (map_to_list (Issuers st)) q else e => mret (inl e) in
      match match Pending st with
            | None => inr None
            | Some p => match marshal_pending p with inl e => inl e | inr text => inr (Some text) end
            end with
      | inl e => mret (inl e)
      | inr pending => tx_exec q (insert_topology (Revision st) (ActiveRoot st) pending)
      end
  end.

(** ** The unlock secrets *)

Definition unlockPath s : string := path s +:+ ".localunlock".

Definition loadUnlocks s : op (error + gmap Z string) :=
  check! ctx_Err else e => mret (inl (Sys e)) in
  r ← fs_Lstat (unlockPath s);
  match r with
  | inl e => mret (inl (if bool_decide (e = ErrNotExist) then NotFoundError "local unlock" None else Sys e))
  | inr info =>
      if negb (fi_regular info) || fi_symlink info || negb (fi_perm info =? mode 6 0 0)
      then mret (inl (ForbiddenError "invalid local unlock file" None)) else
      let! data := os_ReadFile (unlockPath s) else e => mret (inl (Sys e)) in
      mret (match unjson_unlocks data with
            | inl e => inl (corrupt "malformed local unlock" (Some (Sys e)))
            | inr v => inr v
            end)
  end.

Definition read_only : error := ForbiddenError "SQLite authority was opened read-only" None.

Definition storeUnlocks s (v : gmap Z string) (replace : bool) : op (option error) :=
  if readOnly s then mret (Some read_only) else
  check! ctx_Err else e => mret (sys e) in
  r ← fs_Lstat (unlockPath s);
  if match r with inr _ => negb replace | inl _ => false end
  then mret (Some (ConflictError "local unlock already exists" None)) else
  match json_unlocks v with
  | inl e => mret (sys e)
  | inr data =>
      let '(u, g) := if private s then (-1, -1) else (uid s, gid s) in
      FileStore.atomicStoreFile (unlockPath s) (data +:+ nl) (mode 6 0 0) u g
  end.

(** ** The ledger database *)

Definition ledgerDirectory s : string := TrimSuffix (path s) (Ext (path s)) +:+ ".ledger".
Definition ledgerPath s : string := PJoin [ledgerDirectory s; "ledger.sqlite"].

Definition ledger_directory_mode s : Z := if private s then mode 7 0 0 else mode 7 7 0.
Definition ledger_file_mode s : Z := if private s then mode 6 0 0 else mode 6 6 0.

(** Whether the owner is another one; in private mode it is not looked at. *)
Definition wrong_owner s (info : FileInfo) : bool :=
  negb (private s) &&
  match fileOwnership info with None => true | Some (u, g) => negb (u =? uid s) || negb (g =? gid s) end.

Definition validateSQLiteLedgerDirectory s (info : FileInfo) (m : Z) : option error :=
  if fi_symlink info || negb (fi_dir info) || negb (fi_perm info =? m)
  then forbidden "invalid SQLite ledger directory"
  else if wrong_owner s info then forbidden "SQLite ledger directory owner or group does not match" else None.

Definition validateSQLiteLedgerFile s (info : FileInfo) (m : Z) : option error :=
  if fi_symlink info || negb (fi_regular info) || negb (fi_perm info =? m)
  then forbidden "invalid SQLite ledger file"
  else if wrong_owner s info then forbidden "SQLite ledger owner or group does not match" else None.

(** The ledger directory, made with its mode and owner when it is missing. *)
Definition ensure_ledger_directory s : op (option error) :=
  let d := ledgerDirectory s in
  r ← fs_Lstat d;
  match r with
  | inr existing => mret (validateSQLiteLedgerDirectory s existing (ledger_directory_mode s))
  | inl e =>
      if negb (bool_decide (e = ErrNotExist)) then mret (sys e) else
      check! os_Mkdir d (ledger_directory_mode s) else e => mret (sys e) in
      check! os_Chmod d (ledger_directory_mode s) else e => mret (sys e) in
      if private s then mret None else err ← os_Chown d (uid s) (gid s); mret (as_error err)
  end.

(** Whether the ledger file has still to be made. *)
Definition ledger_file_missing s : op (error + bool) :=
  r ← fs_Lstat (ledgerPath s);
  mret (match r with
        | inr existing =>
            match validateSQLiteLedgerFile s existing (ledger_file_mode s) with Some e => inl e | None => inr false end
        | inl e => if bool_decide (e = ErrNotExist) then inr true else inl (Sys e)
        end).

Definition ledger_statements : list sql_change := [pragma_journal_delete; create_ledger].

(** Statements, mode and owner of an opened ledger, and a last look at it. *)
Definition prepare_ledger s (db : string) (fileCreated : bool) : op (option error) :=
  r ← for_each (λ q _, err ← sql_Exec db q; mret (result (as_error err))) ledger_statements ();
  check! mret (done_ r) else e => mret (Some e) in
  check! (if fileCreated then os_Chmod (ledgerPath s) (ledger_file_mode s) else mret None) else e => mret (sys e) in
  check! (if fileCreated && negb (private s) then os_Chown (ledgerPath s) (uid s) (gid s) else mret None)
    else e => mret (sys e) in
  let! info := fs_Lstat (ledgerPath s) else e => mret (sys e) in
  mret (validateSQLiteLedgerFile s info (ledger_file_mode s)).

Definition openLedger s : op (error + string) :=
  check! ensure_ledger_directory s else e => mret (inl e) in
  let! fileCreated := ledger_file_missing s else e => mret (inl e) in
  let! db := sql_Open (ledgerPath s) else e => mret (inl (Sys e)) in
  check! prepare_ledger s db fileCreated else e => (_ ← sql_Close; mret (inl e)) in
  mret (inr db).

(** The checks before an existing ledger is opened. *)
Definition validate_ledger s : op (option error) :=
  let! info := fs_Lstat (ledgerDirectory s) else e => mret (sys e) in
  check! mret (validateSQLiteLedgerDirectory s info (ledger_directory_mode s)) else e => mret (Some e) in
  let! info := fs_Lstat (ledgerPath s) else e => mret (sys e) in
  mret (validateSQLiteLedgerFile s info (ledger_file_mode s)).

Definition openLedgerWriteExisting s : op (error + string) :=
  check! validate_ledger s else e => mret (inl e) in
  let! db := sql_Open (ledgerPath s) else e => mret (inl (Sys e)) in
  mret (inr db).

Definition openLedgerReadOnly s : op (error + string) :=
  check! validate_ledger s else e => mret (inl e) in
  let! db := sql_Open (sqliteReadOnlyDSN (ledgerPath s)) else e => mret (inl (Sys e)) in
  mret (inr db).

(** A body with the ledger open, which is closed after it. *)
Definition with_open_ledger {A} (open : op (error + string)) (body : string → op (error + A)) : op (error + A) :=
  let! db := open else e => mret (inl e) in
  r ← body db;
  _ ← sql_Close;
  mret r.

Definition decode_record (data : string) : error + LedgerRecord :=
  match unjson_record data with
  | inl e => inl (corrupt "malformed ledger record" (Some (Sys e)))
  | inr r => match validateLedgerRecord r with Some e => inl e | None => inr r end
  end.

Definition lookupLedger s (issuer : string) (version : Z) (serial : string) : op (error + LedgerRecord) :=
  with_open_ledger (openLedgerReadOnly s) (λ db,
    r ← db_query db (select_entry issuer version serial);
    mret (match r with
          | inl ErrNoRows => inl (NotFoundError "ledger certificate" None)
          | inl e => inl (Sys e)
          | inr data => decode_record data
          end)).

(** [strconv.Atoi] of a cursor; the error of a negative number is nil. *)
Definition cursor_offset (cursor : string) : error + Z :=
  if String.eqb cursor "" then inr 0 else
  match Atoi cursor with
  | inl e => inl (invalid "invalid ledger cursor" (Some (Sys (FileStore.as_sys_error e))))
  | inr offset => if offset <? 0 then inl (invalid "invalid ledger cursor" None) else inr offset
  end.

Fixpoint decode_rows (rows : list string) : error + list LedgerRecord :=
  match rows with
  | [] => inr []
  | data :: rest =>
      match decode_record data with
      | inl e => inl e
      | inr r => match decode_rows rest with inl e => inl e | inr l => inr (r :: l) end
      end
  end.

(** What a page of at most one row more than the limit gives. *)
Definition page_of (offset limit : Z) (out : list LedgerRecord) : list LedgerRecord * string :=
  if limit <? Z.of_nat (length out) then (take (Z.to_nat limit) out, Itoa (int64 (offset + limit))) else (out, "").

Definition listLedger s (cursor : string) (limit : Z) : op (error + (list LedgerRecord * string)) :=
  with_open_ledger (openLedgerReadOnly s) (λ db,
    match cursor_offset cursor with
    | inl e => mret (inl e)
    | inr offset =>
        let limit := if limit <=? 0 then 100 else limit in
        let! rows := db_query db (select_page (int64 (limit + 1)) offset) else e => mret (inl (Sys e)) in
        mret (match decode_rows rows with inl e => inl e | inr out => inr (page_of offset limit out) end)
    end).

(** The insertion's error; that of a unique constraint is a conflict. *)
Definition insert_error (e : sys_error) : error :=
  match e with
  | SysError text =>
      if Contains (ToLower text) "unique" then ConflictError "issuer serial already recorded" None else Sys e
  | _ => Sys e
  end.

Definition row_of_record (r : LedgerRecord) (data : string) : ledger_row := {|
  lr_fingerprint := l_Fingerprint r; lr_issuer := Issuer r; lr_issuer_version := IssuerVersion r;
  lr_serial := Serial r; lr_document := data |}.

Definition insert_record_row s (r : LedgerRecord) : op (error + ()) :=
  with_open_ledger (openLedgerWriteExisting s) (λ db,
    match marshal_record r with
    | inl e => mret (inl (Sys e))
    | inr data =>
        err ← sql_Exec db (insert_ledger (row_of_record r data));
        match err with
        | Some e => mret (inl (insert_error e))
        | None =>
            (* the read-only transaction on the authority has nothing to write *)
            err ← change_ inr;
            mret (result (as_error err))
        end
    end).

Definition appendLedger s (r : LedgerRecord) : op (option error) :=
  let! db := store_db s else e => mret (Some e) in
  let! q := sql_Begin db else e => mret (sys e) in
  let! data := tx_query q select_document else e => mret (sys e) in
  match unjson_state data with
  | inl e => mret (Some (corrupt "malformed SQLite authority state" (Some (Sys e))))
  | inr st =>
      match validateLedgerAuthority st r with
      | Some e => mret (Some e)
      | None => res ← insert_record_row s r; mret (done_ res)
      end
  end.

(** ** Updates *)

Definition check_ledger s st : op (option error) :=
  let! (records, _) := listLedger s "" max_int64 else e => mret (Some e) in
  mret (validateLedgerRecords st records).

(** The ledger database of a new authority. *)
Definition create_ledger_database s : op (option error) :=
  let! db := openLedger s else e => mret (Some e) in
  err ← sql_Close;
  mret (as_error err).

(** The mutated state, checked and written with its tables in one transaction. *)
Definition store_mutation {A} s (db : string) (q : database) (existingState : bool) (before : Z) (a : A) st
    : op (error + A) :=
  let st := bump_revision before st in
  match validateState (St := St) st with
  | Some e => mret (inl e)
  | None =>
      match marshal_state st with
      | inl e => mret (inl (Sys e))
      | inr data =>
          let! q := syncSQLiteTables q st else e => mret (inl (Sys e)) in
          let! q := tx_exec q (upsert_document (Revision st) data) else e => mret (inl (Sys e)) in
          check! (if FileStore.ledger_mode st && negb existingState then create_ledger_database s else mret None)
            else e => mret (inl e) in
          check! tx_commit db q else e => mret (inl (Sys e)) in
          mret (inr a)
      end
  end.

Definition mutate_document {A} s (db : string) (q : database) (existingState : bool) st
    (mutate : authorityState → op (outcome A)) : op (error + A) :=
  o ← mutate st;
  match o with
  | MNoMutation a => mret (inr a)
  | MError e => mret (inl e)
  | MDone a st' => store_mutation s db q existingState (Revision st) a st'
  end.

Definition update {A} s (mutate : authorityState → op (outcome A)) : op (error + A) :=
  if readOnly s then mret (inl read_only) else
  let! db := store_db s else e => mret (inl e) in
  let! q := sql_Begin db else e => mret (inl (Sys e)) in
  row ← tx_query q select_document;
  match row with
  | inl ErrNoRows => mutate_document s db q false zero_state mutate
  | inl e => mret (inl (Sys e))
  | inr data =>
      let! state := decode_document (RTx q) data else e => mret (inl e) in
      check! (if FileStore.ledger_mode state then check_ledger s state else mret None) else e => mret (inl e) in
      mutate_document s db q true state mutate
  end.

(** ** Purging and closing *)

Definition remove_if_there (p : string) : op (option error) :=
  err ← os_Remove p;
  mret (match err with Some e => if decide (e = ErrNotExist) then None else sys e | None => None end).

(** [Close] of the handle, which is nil afterwards. *)
Definition close_db : op (option sys_error) :=
  open ← is_open;
  if open : bool then err ← sql_Close; _ ← set_open false; mret err else mret None.

Definition database_files s : list string :=
  [path s; path s +:+ "-journal"; unlockPath s; ledgerPath s; ledgerPath s +:+ "-journal"].

Definition purge s : op (option error) :=
  if readOnly s then mret (Some read_only) else
  check! ctx_Err else e => mret (sys e) in
  _ ← close_db;
  r ← for_each (λ p _, err ← remove_if_there p; mret (result err)) (database_files s) ();
  match r with
  | inl e => mret (Some e)
  | inr _ => remove_if_there (ledgerDirectory s)
  end.

Definition Close s : op (option error) := err ← close_db; mret (as_error err).

(** ** NewSQLiteStore *)

Definition database_mode (private : bool) : Z := if private then mode 6 0 0 else mode 6 4 0.

(** The identity of the store: the named owner and group, or the user. *)
Definition split_principal (o : optionValues St) (info : FileInfo) (p : string) : error + SQLiteStore :=
  match k_Lookup (CertsOptions.owner o) with
  | inl e => inl (invalid "unknown owner" (Some (Sys e)))
  | inr u =>
  match k_LookupGroup (CertsOptions.group o) with
  | inl e => inl (invalid "unknown group" (Some (Sys e)))
  | inr g =>
      let s := {| path := p; owner := CertsOptions.owner o; group := CertsOptions.group o;
                  uid := Atoi_value u; gid := Atoi_value g; private := false; readOnly := false |} in
      if negb (fi_perm info =? mode 7 5 0)
      then inl (ForbiddenError "SQLite directory mode must be 0750" None)
      else if wrong_owner s info
      then inl (ForbiddenError "SQLite directory owner or group does not match" None)
      else inr s
  end end.

Definition private_principal (info : FileInfo) (p : string) : error + SQLiteStore :=
  match user_Current with
  | inl e => inl (Sys e)
  | inr (name, u) =>
      match Atoi u with
      | inl e => inl (UnavailableError "cannot resolve current user ID" (Some (Sys (FileStore.as_sys_error e))))
      | inr u =>
          if negb (Z.land (fi_perm info) (mode 0 7 7) =? 0)
          then inl (ForbiddenError "private SQLite directory must not permit group or other access" None)
          else inr {| path := p; owner := name; group := ""; uid := u; gid := effectiveGID; private := true;
                      readOnly := false |}
      end
  end.

(** Whether the database exists, and that it is as it should be. *)
Definition existing_database s (r : sys_error + FileInfo) : error + bool :=
  match r with
  | inl _ => inr false
  | inr existing =>
      if fi_symlink existing || negb (fi_regular existing)
      then inl (ForbiddenError "SQLite authority must be a regular non-symlink file" None)
      else if negb (fi_perm existing =? database_mode (private s))
      then inl (ForbiddenError "invalid SQLite authority mode" None)
      else if wrong_owner s existing
      then inl (ForbiddenError "SQLite authority owner or group does not match" None)
      else inr true
  end.

Definition with_read_only s (b : bool) : SQLiteStore := {|
  path := path s; owner := owner s; group := group s; uid := uid s; gid := gid s; private := private s;
  readOnly := b |}.

(** Schema, mode and owner of the opened database. *)
Definition prepare_database s (db : string) : op (option error) :=
  check! (if readOnly s then verifySchema db else migrate db) else e => mret (Some e) in
  check! (if readOnly s then mret None else os_Chmod (path s) (database_mode (private s)))
    else e => mret (sys e) in
  err ← (if negb (private s) && negb (readOnly s) then os_Chown (path s) (uid s) (gid s) else mret None);
  mret (as_error err).

Definition open_store s : op (error + SQLiteStore) :=
  let! existed := (r ← fs_Lstat (path s); mret (existing_database s r)) else e => mret (inl e) in
  let s := with_read_only s (existed && negb (private s) && negb (effectiveUID =? uid s)) in
  if negb existed && negb (effectiveUID =? uid s)
  then mret (inl (ForbiddenError "only the configured owner may create the SQLite authority" None)) else
  let! db := sql_Open (dsn s) else e => mret (inl (Sys e)) in
  check! prepare_database s db else e => (_ ← sql_Close; mret (inl e)) in
  _ ← set_open true;
  mret (inr s).

Definition NewSQLiteStore (p : string) (opts : list (option (option_ St))) : op (error + SQLiteStore) :=
  match parseOptions scopeStore opts with
  | inl e => mret (inl e)
  | inr o =>
      if String.eqb p "" then mret (inl (invalid "SQLite path is required" None)) else
      if negb (Bool.eqb (ownerSet o) (groupSet o))
      then mret (inl (invalid "SQLite split-principal mode requires both WithOwner and WithGroup" None)) else
      let directory := Dir p in
      check! rejectSymlinkParents directory else e => mret (inl e) in
      let! info := fs_Lstat directory
        else e => mret (inl (invalid "SQLite parent must be an existing non-symlink directory" (Some (Sys e)))) in
      if negb (fi_dir info) || fi_symlink info
      then mret (inl (invalid "SQLite parent must be an existing non-symlink directory" None)) else
      match (if ownerSet o then split_principal o info (Clean p) else private_principal info (Clean p)) with
      | inl e => mret (inl e)
      | inr s => open_store s
      end
  end.
End store.

(** ** The store as a store of the managers

    The handle belongs to the store, so it is part of its disk. *)

Record sqlite_disk := { q_files : disk; q_open : bool }.

Definition unpack {M} (w : world sqlite_disk M) : world disk (bool * M) := {|
  w_disk := q_files (w_disk w); w_mem := (q_open (w_disk w), w_mem w); w_tick := w_tick w |}.
Definition pack {M} (w : world disk (bool * M)) : world sqlite_disk M := {|
  w_disk := {| q_files := w_disk w; q_open := (w_mem w).1 |}; w_mem := (w_mem w).2; w_tick := w_tick w |}.

Definition lift {M A} (m : stm (world disk (bool * M)) A) : stm (world sqlite_disk M) A :=
  λ w, let '(a, w') := m (unpack w) in (a, pack w').
Definition lower {M A} (m : stm (world sqlite_disk M) A) : stm (world disk (bool * M)) A :=
  λ w, let '(a, w') := m (pack w) in (a, unpack w').

Definition sqlite_backend `{Kernel, JSON, SQLite, SQLText, Unicode, Crypto, URLParser} (St : Type)
    (s : SQLiteStore) : Backend sqlite_disk := {|
  b_load M issuer := lift (load (St := St) s issuer);
  b_update M A f := lift (update (St := St) s (λ st, lower (f st)));
  b_purge M := lift (purge s);
  b_loadUnlocks M := lift (loadUnlocks s);
  b_storeUnlocks M v replace := lift (storeUnlocks s v replace);
  b_appendLedger M r := lift (appendLedger s r);
  b_lookupLedger M issuer version serial := lift (lookupLedger s issuer version serial);
  b_listLedger M cursor limit := lift (listLedger s cursor limit);
  b_kind := kind;
  b_principal := principal s;
  b_authorizeOwner M := lift (authorizeOwner s);
  b_authorizeIssuer M := lift (authorizeIssuer s) |}.

End SQLiteStore.
