(* ===== verification/CertsFileStoreFacts.v ===== *)
(** * The file store keeps the promises of a store

    Which files each method may change, and that the methods satisfy the laws
    of the store interface whatever calls fail. *)
From stdpp Require Import pretty.
From S2P Require Import Prelude.
From S2P Require Import GoStrings.
From S2P Require Import GoPath.
From S2P Require Import Utf8.
From S2P Require Import Text.
From S2P Require Import Errors.
From S2P Require Import GoNet.
From S2P Require Import CertsTypes.
From S2P Require Import CertsNames.
From S2P Require Import CertsCrypto.
From S2P Require Import CertsOptions.
From S2P Require Import CertsState.
From S2P Require Import CertsBackend.
From S2P Require Import CertsFiles.
From S2P Require Import CertsDisk.
From S2P Require Import CertsFileStore.
#[local] Open Scope stdpp_scope.
#[local] Open Scope Z_scope.
Import FileStore.

(** ** Validation errors are not "not found" *)
Section quiet.
Context `{Unicode, Crypto, URLParser} {St : Type}.

Definition quiet (e : error) : Prop := AsNotFound e = false.
Definition quiet_result {A} (r : error + A) : Prop := ∀ e, r = inl e → quiet e.
Definition quiet_check (r : option error) : Prop := ∀ e, r = Some e → quiet e.

Lemma quiet_first l : Forall quiet_check l → quiet_check (first_error l).
Proof.
  induction l as [|[e|] l IH]; intros Hl; [done| |]; apply Forall_cons in Hl as [Hc Hl]; [|by apply IH].
  intros e' [= <-]. by apply Hc.
Qed.

Lemma quiet_map {A} (f : A → option error) l : (∀ a, quiet_check (f a)) → quiet_check (first_error (map f l)).
Proof. intros Hf. apply quiet_first, Forall_forall. intros c [a [-> _]]%list_elem_of_fmap. apply Hf. Qed.

Lemma quiet_corrupt m e : quiet e → quiet (corrupt m (Some e)).
Proof. done. Qed.

Ltac quiet_cases :=
  intros e E; simplify_eq/=; repeat (case_match; simplify_eq/=; try done); try apply quiet_corrupt.

Lemma quiet_parseCertDER der : quiet_result (parseCertDER der).
Proof. unfold parseCertDER. quiet_cases. Qed.
Lemma quiet_keySpec k : quiet_result (keySpecForPublic k).
Proof. unfold keySpecForPublic. quiet_cases. Qed.
Lemma quiet_parseKeyDER der p : quiet_result (parseKeyDER der p).
Proof. unfold parseKeyDER, supportedPublicKey. quiet_cases. Qed.
Lemma quiet_displayName n : quiet_result (normalizeDisplayName n).
Proof. unfold normalizeDisplayName. quiet_cases. Qed.

Lemma quiet_identity v : quiet_result (normalizeIdentity v).
Proof. unfold normalizeIdentity. quiet_cases. Qed.

Lemma quiet_suffixes l : quiet_result (normalize_suffixes l).
Proof. induction l as [|d l IH]; cbn [normalize_suffixes]; quiet_cases. by apply IH. Qed.
Lemma quiet_ranges l : quiet_check (check_ranges l).
Proof. induction l as [|n l IH]; cbn [check_ranges]; quiet_cases. by apply IH. Qed.
Lemma quiet_prefixes l : quiet_check (check_prefixes l).
Proof. induction l as [|n l IH]; cbn [check_prefixes]; quiet_cases. by apply IH. Qed.
Lemma quiet_domains l : quiet_result (normalize_domains l).
Proof. induction l as [|n l IH]; cbn [normalize_domains]; quiet_cases. by apply IH. Qed.

Lemma quiet_definition d n : quiet_result (validateDefinition (St := St) d n).
Proof.
  unfold validateDefinition, finishIssuerDefinition. quiet_cases.
  all: try first [by eapply quiet_identity|by eapply quiet_suffixes|by eapply quiet_ranges
          |by eapply quiet_prefixes|by eapply quiet_domains].
Qed.

Lemma quiet_root st g r : quiet_check (validate_root st g r).
Proof. unfold validate_root. quiet_cases. all: first [by eapply quiet_parseCertDER|by eapply quiet_keySpec]. Qed.
Lemma quiet_version st slug i v r : quiet_check (validate_version st slug i v r).
Proof. unfold validate_version. quiet_cases. all: first [by eapply quiet_parseCertDER|by eapply quiet_keySpec]. Qed.
Lemma quiet_active st v : quiet_check (validate_active st v).
Proof. unfold validate_active. quiet_cases. all: first [by eapply quiet_parseCertDER|by eapply quiet_parseKeyDER]. Qed.
Lemma quiet_issuer st slug i : quiet_check (validate_issuer (St := St) st slug i).
Proof.
  unfold validate_issuer. intros e E. repeat (case_match; simplify_eq; try done); try apply quiet_corrupt.
  - by eapply quiet_definition.
  - eapply quiet_map; [|done]. intros [v r]. apply quiet_version.
  - by eapply quiet_active.
Qed.
Lemma quiet_pending st : quiet_check (validate_pending st).
Proof.
  unfold validate_pending. intros e E. repeat (case_match; simplify_eq; try done).
  eapply quiet_map; [|done]. intros q e'. by case_match; intros; simplify_eq.
Qed.
Lemma quiet_spec st : quiet_check (validate_spec st).
Proof. unfold validate_spec. quiet_cases. all: first [by eapply quiet_displayName|by eapply quiet_identity]. Qed.

Lemma quiet_dns l seen : quiet_result (normalize_dns l seen).
Proof. revert seen. induction l as [|d l IH]; intros seen; cbn [normalize_dns]; quiet_cases. by eapply IH. Qed.
Lemma quiet_ips l seen : quiet_result (normalize_ips l seen).
Proof. revert seen. induction l as [|d l IH]; intros seen; cbn [normalize_ips]; quiet_cases. by eapply IH. Qed.
Lemma quiet_uris l seen : quiet_result (normalize_uris l seen).
Proof. revert seen. induction l as [|[u|] l IH]; intros seen; cbn [normalize_uris]; quiet_cases; [by eapply IH|done]. Qed.
Lemma quiet_emails l seen : quiet_result (normalize_emails l seen).
Proof. revert seen. induction l as [|d l IH]; intros seen; cbn [normalize_emails]; quiet_cases. by eapply IH. Qed.
Lemma quiet_SANs v : quiet_result (normalizeSANs v).
Proof.
  unfold normalizeSANs. intros e E. repeat (case_match; simplify_eq; try done).
  all: first [by eapply quiet_dns|by eapply quiet_ips|by eapply quiet_uris|by eapply quiet_emails].
Qed.

Lemma quiet_dedupe {A} (one : A → error + A) k l seen :
  (∀ x, quiet_result (one x)) → quiet_result (dedupe one k l seen).
Proof.
  intros Ho. revert seen. induction l as [|x l IH]; intros seen; cbn [dedupe]; [done|].
  intros e E. repeat (case_match; simplify_eq; try done). all: first [by eapply IH|by eapply Ho].
Qed.

Lemma quiet_merge v : quiet_result (normalizeSANsAllowDuplicates v).
Proof.
  unfold normalizeSANsAllowDuplicates. intros e E. repeat (case_match; simplify_eq; try done).
  all: match goal with X : dedupe _ _ _ _ = inl _ |- _ => eapply quiet_dedupe; [|exact X] end.
  all: intros x e' E'; unfold one_dns, one_ip, one_uri, one_email in E'; case_match; simplify_eq; by eapply quiet_SANs.
Qed.

Lemma quiet_record r : quiet_check (validateLedgerRecord r).
Proof.
  unfold validateLedgerRecord. intros e E. repeat (case_match; simplify_eq; try done); try apply quiet_corrupt.
  all: first [by eapply quiet_parseCertDER|by eapply quiet_merge].
Qed.

Lemma quiet_state st : quiet_check (validateState (St := St) st).
Proof.
  apply quiet_first. repeat constructor.
  - apply quiet_spec.
  - apply quiet_map. intros [g r]. apply quiet_root.
  - apply quiet_map. intros [sl i]. apply quiet_issuer.
  - apply quiet_pending.
Qed.
End quiet.

(** ** Names of the store's files *)

Lemma digits_no_sep x acc z : digits x acc = Some z → sep ∉ chars x.
Proof.
  revert acc. induction x as [|c x IH]; intros acc; cbn [digits chars]; [by intros _ ?%elem_of_nil|].
  destruct (digit c) eqn:Ed; [|done]. intros E [<-|Hin]%elem_of_cons; [done|]. by apply (IH _ E).
Qed.

Lemma temp_plain n suffix dot prefix :
  dot = ("." +:+ prefix) → prefix ≠ "" → sep ∉ chars dot → sep ∉ chars suffix → HasPrefix prefix "." = false →
  plain (dot +:+ Itoa (Z.of_N n) +:+ suffix).
Proof.
  intros -> Hp Hd Hs Hdot. destruct prefix as [|c prefix]; [done|]. repeat split; try done.
  - cbn. intros [= -> E]. by destruct prefix.
  - rewrite !chars_app. intros [?|[Hin|?]%elem_of_app]%elem_of_app; [done| |done].
    revert Hin. change (Itoa (Z.of_N n)) with (pretty (Z.of_N n)).
    assert (pretty (Z.of_N n) = pretty n) as -> by (by destruct n).
    eapply digits_no_sep, digits_pretty_N.
Qed.

Section names.
Context `{Kernel} (s : FileStore).
Context (Hdir : directory s ≠ "").

Definition store_dir : list string := rcomps wd (directory s).
Definition state_key : string := key (statePath s).

Lemma plain_name c : plain c → rcomps wd (PJoin [directory s; c]) = c :: store_dir.
Proof. intros Hc. by apply rcomps_PJoin. Qed.

Ltac name_plain := split_and!; [done|done|done|cbn; rewrite ?elem_of_cons, elem_of_nil; naive_solver].

Lemma rcomps_state : rcomps wd (statePath s) = "ca.json" :: store_dir.
Proof. apply plain_name. name_plain. Qed.
Lemma rcomps_lock : rcomps wd (lockPath s) = "ca.lock" :: store_dir.
Proof. apply plain_name. name_plain. Qed.
Lemma rcomps_unlock : rcomps wd (unlockPath s) = "localunlock" :: store_dir.
Proof. apply plain_name. name_plain. Qed.
Lemma rcomps_ledgerDir : rcomps wd (ledgerDir s) = "ledger" :: store_dir.
Proof. apply plain_name. name_plain. Qed.
Lemma rcomps_ledgerData : rcomps wd (ledgerData s) = "ledger.jsonl" :: "ledger" :: store_dir.
Proof.
  rewrite <- rcomps_ledgerDir. apply rcomps_PJoin; [by apply PJoin_ne|name_plain].
Qed.
Lemma rcomps_ledgerLock : rcomps wd (ledgerLock s) = "ledger.lock" :: "ledger" :: store_dir.
Proof.
  rewrite <- rcomps_ledgerDir. apply rcomps_PJoin; [by apply PJoin_ne|name_plain].
Qed.

(** A path whose last component is not [ca.json] is not the document. *)
Lemma not_state p c l : rcomps wd p = c :: l → c ≠ "ca.json" → key p ≠ state_key.
Proof. intros E Hc Ek. apply key_eq in Ek. rewrite E, rcomps_state in Ek. congruence. Qed.

Lemma lock_not_state : key (lockPath s) ≠ state_key.
Proof. by eapply not_state; [apply rcomps_lock|]. Qed.
Lemma unlock_not_state : key (unlockPath s) ≠ state_key.
Proof. by eapply not_state; [apply rcomps_unlock|]. Qed.
Lemma ledgerDir_not_state : key (ledgerDir s) ≠ state_key.
Proof. by eapply not_state; [apply rcomps_ledgerDir|]. Qed.
Lemma ledgerData_not_state : key (ledgerData s) ≠ state_key.
Proof. by eapply not_state; [apply rcomps_ledgerData|]. Qed.
Lemma ledgerLock_not_state : key (ledgerLock s) ≠ state_key.
Proof. by eapply not_state; [apply rcomps_ledgerLock|]. Qed.

Lemma ca_temp_plain n : plain (".ca-" +:+ Itoa (Z.of_N n) +:+ ".json").
Proof. apply (temp_plain n ".json" ".ca-" "ca-"); try done; cbn; rewrite ?elem_of_cons, elem_of_nil; naive_solver. Qed.
Lemma store_temp_plain n : plain (".store-" +:+ Itoa (Z.of_N n) +:+ "").
Proof. apply (temp_plain n "" ".store-" "store-"); try done; cbn; rewrite ?elem_of_cons, elem_of_nil; naive_solver. Qed.

Lemma ca_temp_not_state n : key (temp_name (directory s) ".ca-" ".json" n) ≠ state_key.
Proof.
  eapply not_state; [apply rcomps_temp; [done|apply ca_temp_plain]|done].
Qed.
Lemma store_temp_not_state dir n : dir ≠ "" → key (temp_name dir ".store-" "" n) ≠ state_key.
Proof.
  intros Hd. eapply not_state; [apply rcomps_temp; [done|apply store_temp_plain]|done].
Qed.
Lemma unlock_dir : Dir (unlockPath s) ≠ "".
Proof. unfold Dir. case_match; [apply Clean_ne|done]. Qed.
End names.

(** ** Which files a method changes *)
Section frames.
Context `{Kernel, JSON, Unicode, Crypto, URLParser} {St M : Type} (s : FileStore).
Implicit Types (P : string → Prop) (w : world disk M).
Abbreviation op A := (stm (world disk M) A).

Lemma frame_validateDirectory P b : frame P (validateDirectory s b : op _).
Proof. unfold validateDirectory. go_frame. Qed.
Lemma frame_validateFile P p m : frame P (validateFile s p m : op _).
Proof. unfold validateFile. go_frame. Qed.
#[local] Hint Resolve frame_validateDirectory frame_validateFile : frames.

Lemma frame_load P b : frame P (load (St := St) s b : op _).
Proof. unfold load. go_frame. Qed.

Lemma frame_open_old P p flags : flags ≠ O_CREATE_RDWR → frame P (openNoFollow p flags 0 : op _).
Proof. intros Hf. apply frame_OpenFile. by right. Qed.

Lemma frame_storage P : frame P (validateLedgerStorage s : op _).
Proof. unfold validateLedgerStorage. cbn [ledgerPaths]. go_frame. Qed.

Lemma frame_read_lines P lines tail e out : frame P (read_lines lines tail e out : op _).
Proof. revert out. induction lines as [|l lines IH]; intros out; cbn [read_lines]; go_frame. Qed.
#[local] Hint Resolve frame_read_lines frame_storage frame_load : frames.

Lemma frame_readLedger P : frame P (readLedger s : op _).
Proof.
  unfold readLedger. apply frame_bind; [by apply frame_open_old|]. intros [e|f]; [apply frame_ret|]. go_frame.
Qed.
#[local] Hint Resolve frame_readLedger : frames.

Lemma frame_check_ledger P st : frame P (check_ledger s st : op _).
Proof. unfold check_ledger. go_frame. Qed.

Lemma frame_holding {A} P f acquire (fn : op (error + A)) :
  frame P (acquire f : op _) → frame P fn → frame P (holding f acquire fn).
Proof. intros Ha Hf. unfold holding. go_frame. Qed.

Lemma frame_fill P f d m own : P (key f) → frame P (fill f d m own : op _).
Proof. intros HP. pose proof (frame_Write (M := M) P f d HP). unfold fill. go_frame. Qed.

Lemma frame_discard P f e : P (key f) → frame P (discard f e : op _).
Proof. intros HP. pose proof (frame_Remove (M := M) P f HP). unfold discard. go_frame. Qed.

Lemma frame_open_new P p m : P (key p) → frame P (openNoFollow p O_CREATE_RDWR m : op _).
Proof. intros HP. apply frame_OpenFile. by left. Qed.

Lemma frame_ensureLedger P :
  P (key (ledgerDir s)) → P (key (ledgerData s)) → P (key (ledgerLock s)) → frame P (ensureLedger s : op _).
Proof.
  intros Hdir Hd Hl. unfold ensureLedger. cbn [ledgerPaths]. pose proof (frame_Mkdir (M := M) P _ (mode 7 7 0) Hdir).
  apply frame_bind; [unfold ensure_dir; go_frame|]. intros [e|]; [apply frame_ret|].
  apply frame_bind; [|go_frame]. apply frame_for_each. intros p u Hp.
  assert (P (key p)) as HP.
  { apply elem_of_cons in Hp as [->|Hp]; [done|]. by apply list_elem_of_singleton in Hp as ->. }
  pose proof (frame_open_new P p (mode 6 6 0) HP).
  assert (∀ b, frame P (open_ledger_file s p b : op _)) as Ho by (intros b; unfold open_ledger_file; go_frame).
  apply frame_bind; [unfold ensure_file; go_frame; apply Ho|go_frame].
Qed.

Lemma frame_atomicStoreFile P path d m u g :
  P (key path) → (∀ n, P (key (temp_name (Dir path) ".store-" "" n))) →
  frame P (atomicStoreFile path d m u g : op _).
Proof.
  intros Hp Ht. unfold atomicStoreFile. cbn zeta. eapply frame_bind_post; [by apply post_CreateTemp|].
  intros [e|tmp]; [intros; apply frame_ret|]. intros [n ->].
  assert (∀ e, frame P (discard (temp_name (Dir path) ".store-" "" n) e : op _)) by (intros; by apply frame_discard).
  apply frame_bind; [by apply frame_fill|]. intros [e|]; [go_frame|].
  apply frame_bind; [by apply frame_Rename|]. go_frame.
Qed.

Lemma frame_storeUnlocks P v b :
  P (key (unlockPath s)) → (∀ n, P (key (temp_name (Dir (unlockPath s)) ".store-" "" n))) →
  frame P (storeUnlocks s v b : op _).
Proof.
  intros Hp Ht. unfold storeUnlocks. pose proof (λ d m u g, frame_atomicStoreFile P _ d m u g Hp Ht). go_frame.
Qed.

Lemma frame_loadUnlocks P : frame P (loadUnlocks s : op _).
Proof. unfold loadUnlocks. go_frame. Qed.

Lemma frame_authorizeIssuer P : frame P (authorizeIssuer s : op _).
Proof. unfold authorizeIssuer. go_frame. Qed.

Lemma frame_append_line P r : P (key (ledgerData s)) → frame P (append_line s r : op _).
Proof.
  intros HP. unfold append_line. destruct (json_record r) as [e|b]; [apply frame_ret|].
  apply frame_bind_post with (Q := λ r, match r with inl _ => True | inr p => p = ledgerData s end).
  - apply frame_change_post. intros n t a t' E. unfold open_file in E.
    destruct (t !! _) as [nd|]; [|done]. destruct (nd_kind nd); simplify_eq. by split.
  - intros [e|out]; [intros; apply frame_ret|]. intros ->. pose proof (frame_Write (M := M) P _ (b +:+ nl) HP). go_frame.
Qed.

Lemma frame_appendLedger P r : P (key (ledgerData s)) → frame P (appendLedger (St := St) s r : op _).
Proof.
  intros HP. pose proof (frame_append_line P r HP).
  pose proof (λ p, frame_open_old P p O_RDONLY ltac:(done)). pose proof (λ p, frame_open_old P p O_RDWR ltac:(done)).
  unfold appendLedger, withAuthorityReadLock, appendLedgerRecord. go_frame.
Qed.

Lemma frame_lookupLedger P i v n : frame P (lookupLedger s i v n : op _).
Proof. unfold lookupLedger. go_frame. Qed.

Lemma frame_listLedger P c l : frame P (listLedger s c l : op _).
Proof.
  pose proof (λ p, frame_open_old P p O_RDONLY ltac:(done)).
  unfold listLedger, withLedgerReadLock. go_frame.
Qed.
End frames.
