(* ===== verification/CertsFileStoreLaws.v ===== *)
(** * The file store refines the store interface

    Each method of the file store satisfies the law of [CertsBackend] for its
    operation, whatever calls fail: the document is replaced as a whole by a
    valid one, or it stays. *)
From S2P Require Import Prelude.
From S2P Require Import GoStrings.
From S2P Require Import GoPath.
From S2P Require Import Utf8.
From S2P Require Import Text.
From S2P Require Import Errors.
From S2P Require Import GoNet.
From S2P Require Import CertsTypes.
From S2P Require Import CertsNames.
From S2P Require Import CertsCrypto.
From S2P Require Import CertsOptions.
From S2P Require Import CertsState.
From S2P Require Import CertsBackend.
From S2P Require Import CertsFiles.
From S2P Require Import CertsDisk.
From S2P Require Import CertsFileStore.
From S2P Require Import CertsFileStoreFacts.
#[local] Open Scope stdpp_scope.
#[local] Open Scope Z_scope.
Import FileStore.

Definition nowhere : string → Prop := λ _, False.

Lemma nowhere_anywhere {M} P (w w' : world disk M) : changes nowhere w w' → changes P w w'.
Proof. intros [Hm Ht]. split; [done|]. eapply only_mono; [|done]. by intros k. Qed.

(** ** The document on a disk *)
Section document.
Context `{Kernel, JSON} (s : FileStore).

Definition stored_document (d : disk) : option authorityState :=
  text ← data (d_tree d) (state_key s);
  match unjson_state text with inl _ => None | inr st => Some st end.

(** Only files other than the document changed. *)
Definition elsewhere (k : string) : Prop := k ≠ state_key s.

Lemma elsewhere_data {M} (w w' : world disk M) :
  changes elsewhere w w' → data (tree_of w') (state_key s) = data (tree_of w) (state_key s).
Proof. intros [_ Ht]. eapply only_data; [done|]. unfold elsewhere. tauto. Qed.

Lemma elsewhere_document {M} (w w' : world disk M) :
  changes elsewhere w w' → keeps_document stored_document w w'.
Proof.
  intros Hc. unfold keeps_document, stored_document. pose proof (elsewhere_data w w' Hc) as E.
  unfold tree_of in E. by rewrite E.
Qed.

Lemma elsewhere_keeps {M} (w w' : world disk M) : changes elsewhere w w' → keeps stored_document w w'.
Proof. intros Hc. split; [by apply elsewhere_document|apply Hc]. Qed.

Lemma frame_keeps {M A} (m : stm (world disk M) A) w r w' :
  frame elsewhere m → m w = (r, w') → keeps stored_document w w'.
Proof. intros Hf E. eapply elsewhere_keeps, frame_run; done. Qed.
End document.

(** ** Writing the document *)
Section writing.
Context `{Kernel, JSON, Unicode, Crypto, URLParser} {St M : Type} `{!JSONLaws St} (s : FileStore).
Context (Hdir : directory s ≠ "").
Implicit Types w : world disk M.

Definition state_node (text : string) : node :=
  {| nd_kind := KFile (text +:+ nl); nd_perm := mode 6 4 0; nd_uid := uid s; nd_gid := gid s |}.

Lemma fill_run f d m u g w w' n :
  fill f d m (Some (u, g)) w = (None, w') → tree_of w !! key f = Some n → nd_kind n = KFile "" →
  tree_of w' !! key f = Some {| nd_kind := KFile d; nd_perm := m; nd_uid := u; nd_gid := g |}.
Proof.
  unfold fill. intros E Hn Hk. inv_run E. destruct r as [e|].
  { repeat (inv_run E; match goal with X : mret _ _ = _ |- _ => injection X as <- <- end).
    inv_run E. injection E as E _. done. }
  apply (alter_run _ _ _ _ _ E0) in Hn as Ht. clear E0.
  assert (tree_of h !! key f = Some {| nd_kind := KFile ""; nd_perm := m; nd_uid := nd_uid n; nd_gid := nd_gid n |}) as Hn1
    by (rewrite Ht, lookup_insert_eq, Hk; done).
  inv_run E. destruct r as [e|].
  { repeat (inv_run E; match goal with X : mret _ _ = _ |- _ => injection X as <- <- end).
    inv_run E. injection E as E _. done. }
  apply (alter_run _ _ _ _ _ E0) in Hn1 as Ht1. clear E0.
  inv_run E. destruct r as [e|].
  { repeat (inv_run E; match goal with X : mret _ _ = _ |- _ => injection X as <- <- end).
    inv_run E. injection E as E _. done. }
  eapply Write_run in E0 as Ht2; [|rewrite Ht1; apply lookup_insert_eq].
  inv_run E. apply idle_run in E1 as [_ Ht3]. inv_run E. apply idle_run in E1 as [_ Ht4].
  injection E as _ <-. rewrite Ht4, Ht3, Ht2, lookup_insert_eq. done.
Qed.

Lemma writeState_run st w r w' :
  writeState s st w = (r, w') →
  w_mem w' = w_mem w ∧
  ((∃ e, r = Some e ∧ changes (elsewhere s) w w') ∨
   ∃ text, json_state st = inr text ∧ tree_of w' !! state_key s = Some (state_node text)).
Proof.
  unfold writeState. destruct (json_state st) as [e|text].
  { intros [= <- <-]. split; [done|]. left. by eexists. }
  intros E. inv_run E.
  pose proof (post_CreateTemp (M := M) (elsewhere s) (directory s) ".ca-" ".json" (ca_temp_not_state s Hdir)) as Hpost.
  destruct (step_run _ _ _ _ _ _ (Hpost w) E0) as [Hc0 Hq]. destruct r0 as [e|tmp].
  { injection E as <- <-. split; [apply Hc0|]. left. by eexists. }
  destruct Hq as [n ->]. apply CreateTemp_run in E0. set (tmp := temp_name _ _ _ n) in *.
  assert (elsewhere s (key tmp)) as Htmp by apply ca_temp_not_state, Hdir.
  assert (∀ e w1 r1 w2, changes (elsewhere s) w w1 → discard tmp e w1 = (r1, w2) →
    w_mem w2 = w_mem w ∧ ((∃ e, r1 = Some e ∧ changes (elsewhere s) w w2) ∨
     ∃ t, (inr text : sys_error + string) = inr t ∧ tree_of w2 !! state_key s = Some (state_node t))) as Hfail.
  { intros e w1 r1 w2 Hc1 E1. pose proof (frame_run _ _ _ _ _ (frame_discard _ tmp e Htmp) E1) as Hc2.
    assert (changes (elsewhere s) w w2) as Hc by (by transitivity w1).
    split; [apply Hc|]. left. unfold discard in E1. inv_run E1. injection E1 as <- <-. by eexists. }
  inv_run E. pose proof (frame_run _ _ _ _ _ (frame_fill _ tmp _ _ _ Htmp) E1) as Hc1.
  assert (changes (elsewhere s) w h0) as Hc01 by (by transitivity h).
  destruct r0 as [e|]; [by eapply Hfail|].
  eapply fill_run in E1 as Hn1; [|done|done].
  inv_run E. destruct r0 as [e|].
  { apply change_run in E2 as [Hm2 Ht2]. eapply Hfail; [|done]. transitivity h0; [done|].
    split; [done|]. intros k _. by rewrite Ht2. }
  pose proof (Rename_run _ _ _ _ E2) as Hren. rewrite Hn1 in Hren.
  apply change_run in E2 as [Hm2 _].
  assert (tree_of w' = tree_of h1 ∧ w_mem w' = w_mem h1) as [Ht Hm].
  { inv_run E. unfold os_Open, look, call in E2. injection E2 as Er Eh. rewrite <- Eh in E. clear Eh h2.
    destruct r0 as [e|d]; [by injection E as _ <-|].
    inv_run E. apply idle_run in E2 as [? ?]. inv_run E. apply idle_run in E2 as [? ?]. injection E as _ <-.
    unfold tree_of in *. cbn in *. split; congruence. }
  split; [rewrite Hm, Hm2; apply Hc01|]. right. exists text. split; [done|]. by rewrite Ht.
Qed.

Lemma written_document st text (w : world disk M) :
  valid (St := St) st → json_state st = inr text → tree_of w !! state_key s = Some (state_node text) →
  stored_document s (w_disk w) = Some st.
Proof.
  intros Hv Hj Hn. unfold stored_document, data, kind_at. fold (tree_of w). rewrite Hn. cbn.
  by rewrite (json_state_law (St := St) st text Hv Hj).
Qed.
End writing.

(** ** Loading *)
Section loading.
Context `{Kernel, JSON, Unicode, Crypto, URLParser} {St M : Type} (s : FileStore).
Implicit Types w : world disk M.

Lemma quiet_parts l c :
  returns (for_each check_part l c : stm (world disk M) _)
    (λ r, match r with inl e => quiet_check e | inr _ => True end).
Proof.
  revert c. induction l as [|x l IH]; intros c; cbn [for_each]; [by apply returns_ret|].
  eapply returns_bind with (R := λ r, match r with inl e => quiet_check e | inr _ => True end).
  - unfold check_part. go_returns; try done; intros e' E; by simplify_eq.
  - intros [e|c'] Hr; [by apply returns_ret|apply IH].
Qed.

Lemma quiet_paths p : returns (rejectSymlinkParents p : stm (world disk M) _) quiet_check.
Proof.
  unfold rejectSymlinkParents. apply returns_bind_any. intros [e|a].
  { apply returns_ret. by intros e' [= <-]. }
  eapply returns_bind; [apply quiet_parts|]. intros [e|c] Hr; by apply returns_ret.
Qed.

Lemma quiet_directory b : returns (validateDirectory s b : stm (world disk M) _) quiet_check.
Proof.
  unfold validateDirectory. eapply returns_bind; [apply quiet_paths|]. intros [e|] Hr; [by apply returns_ret|].
  apply returns_bind_any. intros [e|info]; apply returns_ret; [by intros e' [= <-]|].
  unfold directory_error. intros e'. repeat case_match; intros [= <-]; done.
Qed.

Lemma look_run {A} (f : tree → sys_error + A) w r w' :
  look f w = (r, w') →
  w_mem w' = w_mem w ∧ tree_of w' = tree_of w ∧ (f (tree_of w) = r ∨ ∃ x, r = inl (SysError x)).
Proof.
  unfold look, call, tree_of, fault. intros [= <- <-]. split_and!; [done|done|].
  destruct (k_fault _) as [[x k]|]; [right; by eexists|by left].
Qed.

(** Why a file is rejected, and when it is reported as absent. *)
Lemma validateFile_run resource p m w r w' :
  validateFile s p m w = (r, w') →
  w_mem w' = w_mem w ∧ tree_of w' = tree_of w ∧
  match r with
  | Some e => AsNotFound (absent resource e) = true → data (tree_of w) (key p) = None
  | None => ∃ n, tree_of w !! key p = Some n ∧ file_error s p m (info_of n) = None
  end.
Proof.
  unfold validateFile. intros E. inv_run E. apply look_run in E0 as (Hm & Ht & Hr).
  destruct r0 as [e|info]; injection E as <- <-; (split; [done|]; split; [done|]).
  - unfold absent. intros Ha. destruct Hr as [Hr|[x [= ->]]]; [|done].
    unfold node_at in Hr. unfold data, kind_at. by destruct (tree_of w !! key p).
  - destruct Hr as [Hr|[x Hr]]; [|done]. unfold node_at in Hr.
    destruct (tree_of w !! key p) as [n|] eqn:En; [|done]. injection Hr as <-.
    destruct (file_error s p m (info_of n)) as [e|] eqn:Ef; [|by exists n].
    unfold file_error, forbidden in Ef. repeat case_match; simplify_eq; done.
Qed.

Lemma ReadFile_run p w r w' :
  os_ReadFile p w = (r, w') →
  w_mem w' = w_mem w ∧ tree_of w' = tree_of w ∧ ∀ d, r = inr d → data (tree_of w) (key p) = Some d.
Proof.
  intros E. apply look_run in E as (Hm & Ht & Hr). split_and!; [done|done|]. intros d ->.
  destruct Hr as [Hr|[x Hr]]; [|done]. unfold content_at, node_at in Hr. unfold data, kind_at.
  destruct (tree_of w !! key p) as [n|]; [|done]. unfold content in Hr. cbn. unfold data_of.
  destruct (nd_kind n); simplify_eq; done.
Qed.

Lemma load_run b w r w' :
  load (St := St) s b w = (r, w') →
  changes nowhere w w' ∧
  match r with
  | inr st => stored_document s (w_disk w) = Some st ∧ valid (St := St) st
  | inl e => AsNotFound e = true → stored_document s (w_disk w) = None
  end.
Proof.
  intros E. split; [eapply frame_run; [|exact E]; apply frame_load|].
  assert (∀ w1, only nowhere (tree_of w) (tree_of w1) → data (tree_of w1) (state_key s) = data (tree_of w) (state_key s)) as Hsame
    by (intros w1 Hw1; eapply only_data; [done|by intros []]).
  unfold load in E. inv_run E. pose proof (frame_run _ _ _ _ _ (frame_ctx_Err nowhere) E0) as [_ H0'].
  destruct r0 as [e|]; [by injection E as <- <-|].
  inv_run E. pose proof (frame_run _ _ _ _ _ (frame_validateDirectory s nowhere true) E1) as [_ H1'].
  destruct r0 as [e|].
  { injection E as <- <-. apply (returns_run _ _ _ _ _ (quiet_directory true)) in E1.
    specialize (E1 e eq_refl). unfold quiet in E1. congruence. }
  inv_run E. apply (validateFile_run "authority") in E2 as (_ & Ht & Hr).
  assert (only nowhere (tree_of w) (tree_of h0)) as Hw0 by (by transitivity (tree_of h)).
  destruct r0 as [e|].
  { injection E as <- <-. intros Ha. specialize (Hr Ha). change (key (statePath s)) with (state_key s) in Hr.
    unfold stored_document.
    fold (tree_of w). by rewrite <- (Hsame h0 Hw0), Hr. }
  inv_run E. apply ReadFile_run in E2 as (_ & _ & Hd). destruct r0 as [e|text]; [by injection E as <- <-|].
  specialize (Hd text eq_refl). rewrite Ht in Hd. fold (state_key s) in Hd. rewrite (Hsame h0) in Hd by done.
  injection E as <- <-. unfold decode_state. unfold stored_document. fold (tree_of w). rewrite Hd. cbn -[validateState].
  destruct (unjson_state text) as [e|st]; [done|].
  destruct (validateState (St := St) st) as [e|] eqn:Ev; [|done].
  intros Ha. apply quiet_state in Ev. unfold quiet in Ev. congruence.
Qed.
End loading.

(** ** Updating *)
Section updating.
Context `{Kernel, JSON, Unicode, Crypto, URLParser} {St M : Type} `{!JSONLaws St} (s : FileStore).
Context (Hdir : directory s ≠ "").
Implicit Types w : world disk M.

(** The body of a lock runs at most once, between calls that change nothing
    but the lock file. *)
Lemma holding_run {A} P f acquire (fn : stm (world disk M) (error + A)) w r w' :
  (∀ f, frame P (acquire f : stm (world disk M) _)) → holding f acquire fn w = (r, w') →
  (∃ e, r = inl e ∧ changes P w w') ∨
  ∃ w1 w2, changes P w w1 ∧ fn w1 = (r, w2) ∧ changes P w2 w'.
Proof.
  intros Ha E. unfold holding in E. inv_run E. apply (frame_run _ _ _ _ _ (Ha f)) in E0 as Hc0.
  destruct r0 as [e|].
  - inv_run E. apply (frame_run _ _ _ _ _ (frame_Close P f)) in E1. injection E as <- <-.
    left. eexists. split; [done|]. by transitivity h.
  - inv_run E. inv_run E. apply (frame_run _ _ _ _ _ (frame_release P f)) in E2.
    inv_run E. apply (frame_run _ _ _ _ _ (frame_Close P f)) in E3. injection E as <- <-.
    right. exists h, h0. split_and!; [done|done|by transitivity h1].
Qed.

Lemma withLock_run {A} P (fn : stm (world disk M) (error + A)) w r w' :
  P (key (lockPath s)) → withLock s fn w = (r, w') →
  (∃ e, r = inl e ∧ changes P w w') ∨
  ∃ w1 w2, changes P w w1 ∧ fn w1 = (r, w2) ∧ changes P w2 w'.
Proof.
  intros HP E. unfold withLock in E. inv_run E.
  apply (frame_run _ _ _ _ _ (frame_open_new P (lockPath s) _ HP)) in E0 as Hc0. destruct r0 as [e|f].
  { injection E as <- <-. left. by eexists. }
  inv_run E. apply (frame_run _ _ _ _ _ (frame_Chmod P f _)) in E1.
  inv_run E. apply (frame_run _ _ _ _ _ (frame_Chown P f _ _)) in E2.
  assert (changes P w h1) as Hc by (by transitivity h; [|transitivity h0]).
  apply (holding_run P) in E; [|intros; apply frame_acquire].
  destruct E as [(e & -> & He)|(w1 & w2 & Hw1 & Hf & Hw2)].
  - left. eexists. split; [done|]. by transitivity h1.
  - right. exists w1, w2. split_and!; [by transitivity h1|done|done].
Qed.

Lemma lock_elsewhere : elsewhere s (key (lockPath s)).
Proof. by apply lock_not_state. Qed.

(** Checking, preparing the ledger and writing the mutated state. *)
Lemma store_mutation_run {A} b (a : A) s0 st w r w' :
  store_mutation (St := St) s b (Revision s0) a st w = (r, w') →
  update_end (St := St) (stored_document s) s0 (MDone a st) w r w'.
Proof.
  unfold store_mutation, update_end. set (s2 := bump_revision (Revision s0) st). cbn zeta.
  assert (∀ e w1, changes (elsewhere s) w w1 → (inl e, w1) = (r, w') →
    w_mem w' = w_mem w ∧ ((r = inr a ∧ valid (St := St) s2 ∧ stored_document s (w_disk w') = Some s2) ∨
      ∃ e, r = inl e ∧ (keeps_document (stored_document s) w w' ∨
        valid (St := St) s2 ∧ stored_document s (w_disk w') = Some s2))) as Hkeep.
  { intros e w1 Hc [= <- <-]. split; [apply Hc|]. right. eexists. split; [done|]. left.
    by apply elsewhere_document. }
  destruct (String.eqb (ID (Spec st)) ""); [by apply Hkeep|].
  destruct (validateState (St := St) s2) as [e|] eqn:Ev; [by apply Hkeep|].
  intros E. inv_run E.
  assert (changes (elsewhere s) w h) as Hc0.
  { eapply frame_run; [|exact E0]. destruct (_ && _); [|apply frame_ret].
    apply frame_ensureLedger; [by apply ledgerDir_not_state|by apply ledgerData_not_state|by apply ledgerLock_not_state]. }
  destruct r0 as [e|]; [by eapply Hkeep|].
  inv_run E. apply writeState_run in E1 as [Hm Hw]; [|done].
  assert (w_mem w' = w_mem w) as Hmem.
  { destruct r0; injection E as _ <-; by rewrite Hm; apply Hc0. }
  split; [done|]. destruct Hw as [(e & -> & Hc)|(text & Hj & Hn)].
  - injection E as <- <-. right. eexists. split; [done|]. left. apply elsewhere_document. by transitivity h.
  - eapply written_document in Hn; [|exact Ev|done].
    destruct r0 as [e|]; injection E as <- <-; [right|by left]. eexists. split; [done|]. by right.
Qed.

Lemma update_end_outside {A} s0 (o : outcome A) w1 r w2 w3 :
  update_end (St := St) (stored_document s) s0 o w1 r w2 → changes (elsewhere s) w2 w3 →
  update_end (St := St) (stored_document s) s0 o w1 r w3.
Proof.
  intros [Hm Ho] Hc. pose proof (elsewhere_document s _ _ Hc) as Hd. destruct Hc as [Hm3 _].
  split; [congruence|]. unfold keeps_document in *. destruct o; cbn in *; rewrite Hd; done.
Qed.

Lemma update_run {A} (f : authorityState → stm (world disk M) (outcome A)) w r w' :
  update (St := St) s f w = (r, w') →
  (∃ e, r = inl e ∧ keeps (stored_document s) w w') ∨
  (∃ s0 w0 o w1, keeps (stored_document s) w w0 ∧ opened (St := St) (stored_document s) w0 s0 ∧
    f s0 w0 = (o, w1) ∧ update_end (St := St) (stored_document s) s0 o w1 r w').
Proof.
  unfold update. intros E. apply (withLock_run (elsewhere s)) in E; [|apply lock_elsewhere].
  destruct E as [(e & -> & Hc)|(w1 & w2 & Hc1 & E & Hc2)].
  { left. eexists. split; [done|]. by apply elsewhere_keeps. }
  assert (∀ e w3, changes (elsewhere s) w1 w3 → (inl e, w3) = (r, w2) →
    (∃ e, r = inl e ∧ keeps (stored_document s) w w')) as Hkeep.
  { intros e w3 Hc [= <- <-]. eexists. split; [done|]. apply elsewhere_keeps.
    transitivity w1; [done|]. by transitivity w3. }
  unfold update_locked in E. inv_run E. apply load_run in E0 as [Hc3 Hr].
  apply (nowhere_anywhere (elsewhere s)) in Hc3. pose proof (elsewhere_document s _ _ Hc3) as Hd3.
  assert (∀ st b, (match r0 with inr st => inr (st, true)
      | inl e => if AsNotFound e then inr (zero_state, false) else inl e end) = inr (st, b) →
      opened (St := St) (stored_document s) h st) as Hopen.
  { intros st b. unfold opened, keeps_document in *. rewrite Hd3. destruct r0 as [e|st']; [|intros [= <- <-]; by left].
    destruct (AsNotFound e); [|done]. intros [= <- <-]. right. auto. }
  destruct (match r0 with inr _ => _ | inl _ => _ end) as [e|[s0 b]]; [left; by eapply Hkeep|].
  specialize (Hopen s0 b eq_refl). inv_run E.
  assert (changes (elsewhere s) h h0) as Hc4.
  { eapply frame_run; [|exact E0]. destruct (_ && _); [apply frame_check_ledger|apply frame_ret]. }
  assert (changes (elsewhere s) w1 h0) as Hc5 by (by transitivity h).
  destruct r1 as [e|]; [left; by eapply Hkeep|]. inv_run E. right. exists s0, h0, r1, h1.
  split_and!; [|by unfold opened in *; rewrite (elsewhere_document s _ _ Hc4)|done|].
  { apply elsewhere_keeps. by transitivity w1. }
  eapply update_end_outside; [|exact Hc2].
  destruct r1 as [e|a|a st]; [by injection E as <- <-..|]. by apply store_mutation_run in E.
Qed.
End updating.

(** ** Purging *)
Section purging.
Context `{Kernel, JSON, Unicode, Crypto, URLParser} {M : Type} (s : FileStore).
Implicit Types w : world disk M.

(** The document stays or goes. *)
Definition shrinks w w' : Prop :=
  w_mem w' = w_mem w ∧
  (data (tree_of w') (state_key s) = data (tree_of w) (state_key s) ∨ data (tree_of w') (state_key s) = None).

#[local] Instance shrinks_preorder : PreOrder shrinks.
Proof.
  split; [intros w; split; [done|by left]|]. intros w1 w2 w3 [Hm1 H1'] [Hm2 H2']. split; [congruence|].
  destruct H1', H2'; (left; congruence) || (right; congruence).
Qed.

Definition shrinking {A} (m : stm (world disk M) A) : Prop := ∀ w, step_post shrinks (λ _, True) m w.

Lemma shrinking_frame {A} (m : stm (world disk M) A) : frame (elsewhere s) m → shrinking m.
Proof.
  intros Hf w. destruct (Hf w) as [Hc _]. split; [|done]. split; [apply Hc|]. left. by apply elsewhere_data.
Qed.

Lemma shrinking_ret {A} (a : A) : shrinking (mret a).
Proof. intros w. by apply step_ret; [apply _|]. Qed.

Lemma shrinking_bind {A B} (m : stm (world disk M) A) (f : A → stm (world disk M) B) :
  shrinking m → (∀ a, shrinking (f a)) → shrinking (m ≫= f).
Proof. intros Hm Hf w. eapply step_bind; [apply _|apply Hm|]. intros a w' _ _. apply Hf. Qed.

Lemma shrinking_for_each {A S R} (body : A → S → stm (world disk M) (R + S)) l st :
  (∀ a st, shrinking (body a st)) → shrinking (for_each body l st).
Proof.
  intros Hb. revert st. induction l as [|a l IH]; intros st; cbn [for_each]; [apply shrinking_ret|].
  apply shrinking_bind; [apply Hb|]. intros [r|st']; [apply shrinking_ret|apply IH].
Qed.

Lemma shrinking_Remove p : shrinking (os_Remove p).
Proof.
  intros w. split; [|done]. destruct (os_Remove p w) as [r w'] eqn:E. apply change_run in E as [Hm Hr].
  split; [done|]. cbn. destruct r; [left; by rewrite Hr|]. unfold remove in Hr.
  destruct (node_at _ _); [done|]. destruct (_ && _); [done|]. injection Hr as <-. unfold data. rewrite kind_delete.
  case_decide; auto.
Qed.

Lemma shrinking_purge : directory s ≠ "" → shrinking (purge s).
Proof.
  intros Hdir. assert (∀ p, shrinking (remove_if_there p)) as Hrem.
  { intros p. unfold remove_if_there. apply shrinking_bind; [apply shrinking_Remove|]. intros. apply shrinking_ret. }
  assert (shrinking (purge_ledger s)) as Hledger.
  { unfold purge_ledger. apply shrinking_bind; [apply shrinking_frame, frame_ReadDir|].
    intros [e|entries]; [apply shrinking_ret|]. apply shrinking_bind.
    - apply shrinking_for_each. intros [name []] u; [apply shrinking_ret|].
      apply shrinking_bind; [apply shrinking_Remove|]. intros. apply shrinking_ret.
    - intros [e|u]; [apply shrinking_ret|]. apply shrinking_bind; [apply shrinking_Remove|]. intros. apply shrinking_ret. }
  assert (shrinking (purge_locked s)) as Hlocked.
  { unfold purge_locked. apply shrinking_bind; [|by intros [e|u]; [apply shrinking_ret|]].
    apply shrinking_for_each. intros p u. apply shrinking_bind; [apply Hrem|]. intros. apply shrinking_ret. }
  unfold purge. apply shrinking_bind; [|by intros [e|u]; [apply shrinking_ret|]].
  unfold withLock, holding.
  apply shrinking_bind; [apply shrinking_frame, frame_open_new; by apply lock_not_state|].
  intros [e|f]; [apply shrinking_ret|].
  apply shrinking_bind; [apply shrinking_frame, frame_Chmod|]. intros _.
  apply shrinking_bind; [apply shrinking_frame, frame_Chown|]. intros _.
  apply shrinking_bind; [apply shrinking_frame, frame_acquire|]. intros [e|].
  - apply shrinking_bind; [apply shrinking_frame, frame_Close|]. intros. apply shrinking_ret.
  - apply shrinking_bind; [apply shrinking_bind; [done|intros; apply shrinking_ret]|]. intros r.
    apply shrinking_bind; [apply shrinking_frame, frame_release|]. intros _.
    apply shrinking_bind; [apply shrinking_frame, frame_Close|]. intros. apply shrinking_ret.
Qed.

Lemma purge_run w r w' :
  directory s ≠ "" → purge s w = (r, w') →
  w_mem w' = w_mem w ∧ (keeps_document (stored_document s) w w' ∨ stored_document s (w_disk w') = None).
Proof.
  intros Hdir E. destruct (step_run _ _ _ _ _ _ (shrinking_purge Hdir w) E) as [[Hm Hd] _].
  split; [done|]. unfold keeps_document, stored_document. fold (tree_of w) (tree_of w').
  destruct Hd as [->| ->]; [by left|by right].
Qed.
End purging.

(** C5: the file store refines the store interface.  Whatever calls of the
    operating system fail, whatever the clock and the context answer, and
    whatever a failed write left behind: loading reports the document only when
    it is valid; an update runs its mutation at most once, on the stored
    document, and either replaces the whole document by the mutated and checked
    one or leaves it as it was; every other method leaves the document alone,
    and a purge removes it or leaves it. *)
Theorem FileStore_refines `{Kernel, JSON, Unicode, Crypto, URLParser} {St : Type} `{!JSONLaws St} (s : FileStore) :
  directory s ≠ "" →
  BackendLaws disk St (Backend0 := file_backend St s) (stored_document s).
Proof.
  intros Hdir. unfold file_backend. constructor; cbn.
  - intros M b w w' r E. apply load_run in E as [Hc Hr]. split; [by apply elsewhere_keeps, nowhere_anywhere|].
    by intros st ->.
  - intros M A f w w' r. by apply update_run.
  - intros M w w' r. by apply purge_run.
  - intros M w w' r. apply frame_keeps, frame_loadUnlocks.
  - intros M v b w w' r. apply frame_keeps, frame_storeUnlocks; [by apply unlock_not_state|].
    intros n. apply store_temp_not_state; [done|apply unlock_dir].
  - intros M rec w w' r. apply frame_keeps, frame_appendLedger. by apply ledgerData_not_state.
  - intros M i v n w w' r. apply frame_keeps, frame_lookupLedger.
  - intros M c l w w' r. apply frame_keeps, frame_listLedger.
  - intros M w w' r. apply frame_keeps, frame_ret.
  - intros M w w' r. apply frame_keeps, frame_authorizeIssuer.
Qed.
