(* ===== verification/CertsSqliteFacts.v ===== *)
(** * What statements change

    The database at a path, the paths of a SQLite store, and that reading and
    the files of the ledger leave the database of the authority alone. *)
From S2P Require Import Prelude.
From S2P Require Import GoStrings.
From S2P Require Import GoPath.
From S2P Require Import Utf8.
From S2P Require Import Errors.
From S2P Require Import GoNet.
From S2P Require Import CertsTypes.
From S2P Require Import CertsNames.
From S2P Require Import CertsCrypto.
From S2P Require Import CertsOptions.
From S2P Require Import CertsState.
From S2P Require Import CertsBackend.
From S2P Require Import CertsFiles.
From S2P Require Import CertsDisk.
From S2P Require Import CertsFileStore.
From S2P Require Import CertsFileStoreFacts.
From S2P Require Import CertsFileStoreLaws.
From S2P Require Import CertsSql.
From S2P Require Import CertsSqliteStore.
#[local] Open Scope stdpp_scope.
#[local] Open Scope Z_scope.
Import SQLiteStore.

(** ** The database at a key *)
Section databases.
Context `{Kernel, SQLite}.

(** A missing file is an empty database; [None] is a file that is none. *)
Definition database_at (t : tree) (k : string) : option database :=
  match kind_at t k with
  | None => Some empty_database
  | Some (KFile text) => match db_parse text with inl _ => None | inr d => Some d end
  | Some _ => None
  end.

Lemma database_only P t t' k : only P t t' → ¬ P k → database_at t' k = database_at t k.
Proof. intros Ht Hk. unfold database_at. by rewrite Ht. Qed.

Lemma database_insert t k text n d : db_parse text = inr d →
  ∀ k', database_at (<[k := set_data text n]> t) k' = if decide (k = k') then Some d else database_at t k'.
Proof.
  intros Hd k'. unfold database_at. rewrite kind_insert. case_decide; [|done]. cbn. by rewrite Hd.
Qed.

Section laws.
Context `{!SQLiteLaws}.

(** Opening makes at most an empty file. *)
Lemma open_database_run p ro t n text t' : open_database p ro t = inr (n, text, t') →
  (∀ k, database_at t' k = database_at t k) ∧ only (λ k, k = key p) t t' ∧ (ro = true → t' = t) ∧
  ∀ d, db_parse text = inr d → database_at t (key p) = Some d.
Proof.
  unfold open_database. destruct (t !! key p) as [m|] eqn:Em.
  - destruct (nd_kind m) eqn:Ek; try done. intros [= <- <- <-]. split_and!; [done|done|done|].
    intros d Hd. unfold database_at, kind_at. rewrite Em. cbn. by rewrite Ek, Hd.
  - destruct ro; [done|]. unfold make. rewrite Em. destruct (can_make _ _); [done|]. intros [= <- <- <-].
    split_and!; [|by intros k Hk; rewrite kind_insert; case_decide; subst|done|].
    + intros k. change (new_node (KFile "") (mode 6 4 4)) with (set_data "" (new_node (KFile "") (mode 6 4 4))).
      rewrite (database_insert _ _ _ _ _ db_parse_empty). case_decide as E; [subst k|done].
      unfold database_at, kind_at. by rewrite Em.
    + rewrite db_parse_empty. intros d [= <-]. unfold database_at, kind_at. by rewrite Em.
Qed.

(** What a statement does to the files. *)
Lemma run_statement_run {A} dsn (f : database → sys_error + (A * option database)) t r t' :
  run_statement dsn f t = (r, t') →
  (is_Some (match r with inl e => Some e | inr _ => None end) ∧ t' = t) ∨
  ∃ p ro, open_dsn dsn = inr (p, ro) ∧ only (λ k, k = key p) t t' ∧ (ro = true → t' = t) ∧
    (∀ k, k ≠ key p → database_at t' k = database_at t k) ∧
    match r with
    | inl _ => database_at t' (key p) = database_at t (key p)
    | inr a => ∃ d o, database_at t (key p) = Some d ∧ f d = inr (a, o) ∧
        database_at t' (key p) = match o with None => database_at t (key p) | Some d' => Some d' end
    end.
Proof.
  unfold run_statement. destruct (open_dsn dsn) as [e|[p ro]] eqn:Eo; [intros [= <- <-]; left; by split|].
  destruct (open_database p ro t) as [e|[[n text] t1]] eqn:Ed; [intros [= <- <-]; left; by split|].
  apply open_database_run in Ed as (Hd & Ho & Hro & Hp). intros E. right. exists p, ro. split; [done|].
  destruct (db_parse text) as [e|d] eqn:Ep; [by injection E as <- <-|]. specialize (Hp d eq_refl).
  destruct (f d) as [e|[a [d'|]]] eqn:Ef; [by injection E as <- <-| |].
  - destruct ro; [by injection E as <- <-|]. injection E as <- <-. split_and!.
    + etransitivity; [exact Ho|]. intros k Hk. rewrite kind_insert. by case_decide; subst.
    + done.
    + intros k Hk. rewrite (database_insert _ _ _ _ d') by apply db_parse_image. by case_decide; subst.
    + exists d, (Some d'). split_and!; [done|done|].
      rewrite (database_insert _ _ _ _ d') by apply db_parse_image. by case_decide.
  - injection E as <- <-. split_and!; [done|done|done|]. exists d, None. by rewrite Hd.
Qed.

Context {M : Type}.
Implicit Types w : world disk M.

Definition same_databases w w' : Prop :=
  w_mem w' = w_mem w ∧ ∀ k, database_at (tree_of w') k = database_at (tree_of w) k.

(** Asking a database changes none. *)
Lemma db_query_run {A} dsn (f : sql_query A) w r w' :
  db_query dsn f w = (r, w') →
  same_databases w w' ∧
  ∀ a, r = inr a → ∃ p ro d, open_dsn dsn = inr (p, ro) ∧ database_at (tree_of w) (key p) = Some d ∧ f d = inr a.
Proof.
  unfold db_query, statement, call. set (g := λ d, match f d with inl e => inl e | inr a => inr (a, None) end).
  destruct (run_statement dsn g (d_tree (w_disk w))) as [r1 t1] eqn:Er.
  pose proof (run_statement_run _ _ _ _ _ Er) as Hr.
  assert (∀ k, database_at t1 k = database_at (tree_of w) k) as Hsame.
  { destruct Hr as [[_ ->]|(p & ro & _ & _ & _ & Hk & Hp)]; [done|]. intros k.
    destruct (decide (k = key p)) as [->|]; [|by apply Hk]. destruct r1 as [e|a]; [done|].
    destruct Hp as (d & o & _ & Hg & ->). unfold g in Hg. destruct (f d); simplify_eq. done. }
  destruct (fault _) as [[e [|n]]|]; intros [= <- <-]; (split; [by split|]); try done.
  intros a ->. destruct Hr as [[[] ?]|(p & ro & Ho & _ & _ & _ & d & o & Hd & Hg & _)]; [done|].
  exists p, ro, d. split_and!; [done|done|]. unfold g in Hg. by destruct (f d); simplify_eq.
Qed.

(** A changing statement replaces the database or not; its success says that it
    did. *)
Lemma sql_Exec_run dsn (f : sql_change) w r w' :
  sql_Exec dsn f w = (r, w') →
  w_mem w' = w_mem w ∧
  ((is_Some r ∧ tree_of w' = tree_of w) ∨
   ∃ p ro, open_dsn dsn = inr (p, ro) ∧ only (λ k, k = key p) (tree_of w) (tree_of w') ∧
     (∀ k, k ≠ key p → database_at (tree_of w') k = database_at (tree_of w) k) ∧
     ((is_Some r ∧ database_at (tree_of w') (key p) = database_at (tree_of w) (key p)) ∨
      ∃ d d', database_at (tree_of w) (key p) = Some d ∧ f d = inr d' ∧
        database_at (tree_of w') (key p) = Some d')).
Proof.
  unfold sql_Exec. intros E. inv_run E. injection E as <- <-. revert E0. unfold statement, call.
  set (g := λ d, match f d with inl e => inl e | inr d' => inr ((), Some d') end).
  destruct (run_statement dsn g (d_tree (w_disk w))) as [r1 t1] eqn:Er.
  pose proof (run_statement_run _ _ _ _ _ Er) as Hr. fold (tree_of w) in Hr.
  assert (∀ r2, (∀ e, r1 = inl e → ∃ e, r2 = inl e) → (r2, set_disk {| d_tree := t1; d_calls := S (d_calls (w_disk w)) |} w) = (r0, h) →
    w_mem h = w_mem w ∧
    ((is_Some (failed r0) ∧ tree_of h = tree_of w) ∨
     ∃ p ro, open_dsn dsn = inr (p, ro) ∧ only (λ k, k = key p) (tree_of w) (tree_of h) ∧
       (∀ k, k ≠ key p → database_at (tree_of h) k = database_at (tree_of w) k) ∧
       ((is_Some (failed r0) ∧ database_at (tree_of h) (key p) = database_at (tree_of w) (key p)) ∨
        ∃ d d', database_at (tree_of w) (key p) = Some d ∧ f d = inr d' ∧
          database_at (tree_of h) (key p) = Some d'))) as Hgo.
  { intros r2 Hr2 [= <- <-]. split; [done|]. destruct Hr as [[Hf ->]|(p & ro & Ho & Hon & _ & Hk & Hp)].
    - left. split; [|done]. destruct r1 as [e|]; [|by destruct Hf]. destruct (Hr2 e eq_refl) as [? ->]. by eexists.
    - right. exists p, ro. split_and!; [done|done|done|]. destruct r1 as [e|[]].
      + left. split; [|done]. destruct (Hr2 e eq_refl) as [? ->]. by eexists.
      + right. destruct Hp as (d & o & Hd & Hg & Hd'). exists d. unfold g in Hg.
        destruct (f d) as [|d'] eqn:Ef; [done|]. injection Hg as <-. by exists d'. }
  destruct (fault _) as [[e [|n]]|]; intros E.
  - injection E as <- <-. split; [done|]. left. by split; [eexists|].
  - eapply Hgo; [|exact E]. intros. by eexists.
  - eapply Hgo; [|exact E]. intros e' ->. by eexists.
Qed.
End laws.
End databases.

(** ** Paths of a store *)

Lemma LastIndexByte_split s b i : LastIndexByte s b = Some i → ∃ t, sdrop i s = String b t.
Proof.
  revert i. induction s as [|c s IH]; intros i; cbn; [done|]. destruct (LastIndexByte s b) as [n|] eqn:E.
  - intros [= <-]. cbn. by apply IH.
  - destruct (Ascii.eqb_spec c b) as [->|]; [|done]. intros [= <-]. cbn. by eexists.
Qed.

(** An absolute path up to its last component. *)
Definition parent_text (l : list string) : string := match l with [] => "/" | _ => abs_path l +:+ "/" end.
Lemma abs_path_last l c : abs_path (l ++ [c]) = parent_text l +:+ c.
Proof.
  destruct l as [|x l]; [done|]. rewrite abs_path_below by done. unfold parent_text. by rewrite sapp_assoc.
Qed.

Lemma Ext_abs_path l b : Forall plain (l ++ [b]) →
  ∃ stem, b = stem +:+ Ext (abs_path (l ++ [b])).
Proof.
  intros Hl. unfold Ext. rewrite Split_abs_path by done. rewrite decide_False by (by destruct l).
  change ("" :: l ++ [b]) with (("" :: l) ++ [b]). rewrite last_last.
  destruct (LastIndexByte b ".") as [i|]; [|exists b; by rewrite sapp_nil_r].
  exists (stake i b). by rewrite stake_sdrop.
Qed.

Lemma TrimSuffix_app a b : TrimSuffix (a +:+ b) b = a.
Proof.
  unfold TrimSuffix. rewrite HasSuffix_app, slen_app, Nat.add_sub. apply stake_app.
Qed.

(** The path is absolute, its name is none of a temporary file, and the ledger
    is kept beside it. *)
Record store_path (s : SQLiteStore) (l : list string) (b : string) : Prop := {
  sp_path : path s = abs_path (l ++ [b]);
  sp_plain : Forall plain (l ++ [b]);
  sp_text : in_set (path s) "?" = false;
  sp_name : HasPrefix b ".store-" = false;
  sp_ledger : ledgerDirectory s ≠ path s;
}.

Section paths.
Context `{Kernel} (s : SQLiteStore) (l : list string) (b : string) (Hs : store_path s l b).

Definition file_key : string := key (path s).

Lemma abs_key m : Forall plain m → key (abs_path m) = abs_path m.
Proof. intros Hm. unfold key, Abs. cbn [IsAbs HasPrefix abs_path]. by apply Clean_abs_path. Qed.

Lemma plain_l : Forall plain l.
Proof. pose proof (sp_plain _ _ _ Hs) as Hl. by apply Forall_app in Hl as [? _]. Qed.
Lemma plain_b : plain b.
Proof. pose proof (sp_plain _ _ _ Hs) as Hl. apply Forall_app in Hl as [_ Hb]. by inversion Hb. Qed.

Lemma file_key_path : file_key = abs_path (l ++ [b]).
Proof. unfold file_key. rewrite (sp_path _ _ _ Hs). apply abs_key, (sp_plain _ _ _ Hs). Qed.

Lemma path_abs : IsAbs (path s) = true.
Proof. by rewrite (sp_path _ _ _ Hs). Qed.

Lemma plain_snoc c d : plain c → sep ∉ chars d → (1 < slen d)%nat → plain (c +:+ d).
Proof.
  intros (Hc & _ & _ & Hsep) Hd Hlen. repeat split.
  - by destruct c.
  - intros E. apply (f_equal slen) in E. rewrite slen_app in E. destruct c; [done|]. cbn in E. unfold slen in *. cbn in *. lia.
  - intros E. apply (f_equal slen) in E. rewrite slen_app in E. destruct c; [done|]. cbn in E. unfold slen in *. cbn in *. lia.
  - rewrite chars_app. by intros [?|?]%elem_of_app.
Qed.

Ltac no_sep := cbn; rewrite ?elem_of_cons, elem_of_nil; naive_solver.

Lemma unlock_path_eq : unlockPath s = abs_path (l ++ [b +:+ ".localunlock"]).
Proof. unfold unlockPath. rewrite (sp_path _ _ _ Hs), !abs_path_last. by rewrite sapp_assoc. Qed.

Lemma plain_unlock : plain (b +:+ ".localunlock").
Proof. apply plain_snoc; [apply plain_b|no_sep|cbn; unfold slen; cbn; lia]. Qed.

Lemma snoc_plain c : plain c → Forall plain (l ++ [c]).
Proof. intros Hc. apply Forall_app. split; [apply plain_l|by constructor]. Qed.

Lemma unlock_elsewhere : key (unlockPath s) ≠ file_key.
Proof.
  rewrite unlock_path_eq, abs_key, file_key_path by apply snoc_plain, plain_unlock.
  intros E%abs_path_inj; [|apply snoc_plain, plain_unlock|apply (sp_plain _ _ _ Hs)].
  apply app_inj_2 in E as [_ [= E]]; [|done]. apply (f_equal slen) in E. rewrite slen_app in E.
  unfold slen in E. cbn in E. lia.
Qed.

Lemma ledger_directory_eq : ∃ c, plain c ∧ ledgerDirectory s = abs_path (l ++ [c]) ∧ ∀ x, x ∈ chars c → x ∈ chars b ∨ x ∈ chars ".ledger".
Proof.
  destruct (Ext_abs_path l b (sp_plain _ _ _ Hs)) as [stem Hb]. exists (stem +:+ ".ledger").
  assert (∀ x, x ∈ chars stem → x ∈ chars b) as Hin by (intros x Hx; rewrite Hb, chars_app; set_solver).
  split_and!.
  - repeat split.
    + by destruct stem.
    + intros E. apply (f_equal slen) in E. rewrite slen_app in E. unfold slen in E. cbn in E. lia.
    + intros E. apply (f_equal slen) in E. rewrite slen_app in E. unfold slen in E. cbn in E. lia.
    + rewrite chars_app. intros [Hx|Hx]%elem_of_app; [by apply plain_b, Hin|]. revert Hx. no_sep.
  - unfold ledgerDirectory. rewrite (sp_path _ _ _ Hs), abs_path_last.
    rewrite <- (abs_path_last l b). set (e := Ext _) in *.
    assert (abs_path (l ++ [b]) = (parent_text l +:+ stem) +:+ e) as -> by (rewrite abs_path_last, Hb, sapp_assoc; done).
    by rewrite TrimSuffix_app, abs_path_last, sapp_assoc.
  - intros x. rewrite chars_app. intros [Hx|Hx]%elem_of_app; auto.
Qed.

Lemma ledger_directory_elsewhere : key (ledgerDirectory s) ≠ file_key.
Proof.
  destruct ledger_directory_eq as (c & Hc & E & _). pose proof (sp_ledger _ _ _ Hs) as Hne.
  rewrite file_key_path, E, abs_key by (by apply snoc_plain). by rewrite <- E, <- (sp_path _ _ _ Hs).
Qed.

Lemma ledger_path_eq : ∃ c, plain c ∧ ledgerPath s = abs_path (l ++ [c; "ledger.sqlite"]) ∧
  ∀ x, x ∈ chars c → x ∈ chars b ∨ x ∈ chars ".ledger".
Proof.
  destruct ledger_directory_eq as (c & Hc & E & Hin). exists c. split_and!; [done| |done].
  unfold ledgerPath. rewrite E. change "ledger.sqlite" with (Join ["ledger.sqlite"] seps) at 1.
  rewrite PJoin_below; [by rewrite <- app_assoc|by apply snoc_plain| |done].
  repeat constructor; [done|done|done|]. no_sep.
Qed.

Lemma ledger_plain c : plain c → Forall plain (l ++ [c; "ledger.sqlite"]).
Proof.
  intros Hc. apply Forall_app. split; [apply plain_l|]. constructor; [done|]. repeat constructor; [done|done|done|]. no_sep.
Qed.

Lemma ledger_elsewhere : key (ledgerPath s) ≠ file_key.
Proof.
  destruct ledger_path_eq as (c & Hc & E & _). rewrite E, file_key_path, abs_key by (by apply ledger_plain).
  intros E'%abs_path_inj; [|by apply ledger_plain|apply (sp_plain _ _ _ Hs)].
  apply (f_equal length) in E'. rewrite !length_app in E'. cbn in E'. lia.
Qed.

Lemma temp_elsewhere n : key (temp_name (Dir (unlockPath s)) ".store-" "" n) ≠ file_key.
Proof.
  unfold file_key. intros E. apply key_eq in E.
  assert (Dir (unlockPath s) ≠ "") as Hd by (unfold Dir; case_match; [apply Clean_ne|done]).
  rewrite rcomps_temp in E by (done || (apply (temp_plain n "" ".store-" "store-"); (done || no_sep))).
  assert (rcomps wd (path s) = b :: reverse l) as Hp.
  { rewrite (sp_path _ _ _ Hs). unfold rcomps. cbn [IsAbs HasPrefix abs_path].
    change ("/" +:+ Join (l ++ [b]) seps) with (abs_path (l ++ [b])). rewrite Split_abs_path by apply (sp_plain _ _ _ Hs).
    rewrite decide_False by (by destruct l). cbn [foldl clean_step]. rewrite foldl_clean_plain by apply (sp_plain _ _ _ Hs).
    rewrite reverse_app. cbn. by rewrite app_nil_r. }
  rewrite Hp in E. injection E as E _. pose proof (sp_name _ _ _ Hs) as Hn. by rewrite <- E in Hn.
Qed.

(** The names that the driver opens. *)
Context `{SQLite} `{!SQLiteLaws}.

Lemma ledger_no_query : in_set (ledgerPath s) "?" = false.
Proof.
  destruct ledger_path_eq as (c & Hc & E & Hin). apply not_true_iff_false. rewrite in_set_spec.
  pose proof (sp_text _ _ _ Hs) as Hq. apply not_true_iff_false in Hq. rewrite in_set_spec in Hq.
  rewrite (sp_path _ _ _ Hs), abs_path_last, chars_app, not_elem_of_app in Hq. destruct Hq as [Hl Hb].
  rewrite E. change [c; "ledger.sqlite"] with ([c] ++ ["ledger.sqlite"]). rewrite app_assoc, abs_path_last.
  assert (parent_text (l ++ [c]) = abs_path (l ++ [c]) +:+ "/") as -> by (by destruct l).
  rewrite abs_path_last, !chars_app, !not_elem_of_app. split_and!; [done| |no_sep|no_sep].
  intros Hx. destruct (Hin _ Hx) as [?|Hx']; [done|]. revert Hx'. no_sep.
Qed.

Lemma open_plain_dsn : open_dsn (path s) = inr (path s, false).
Proof. apply open_path; [apply path_abs|apply (sp_text _ _ _ Hs)]. Qed.
Lemma open_ro_dsn : open_dsn (sqliteReadOnlyDSN (path s)) = inr (path s, true).
Proof. apply open_uri, path_abs. Qed.
Lemma open_dsn_store : ∃ ro, open_dsn (dsn s) = inr (path s, ro).
Proof. unfold dsn. destruct (readOnly s); eexists; [apply open_ro_dsn|apply open_plain_dsn]. Qed.
Lemma open_ledger_dsn : open_dsn (ledgerPath s) = inr (ledgerPath s, false).
Proof.
  apply open_path; [|apply ledger_no_query]. destruct ledger_path_eq as (c & _ & E & _). by rewrite E.
Qed.
Lemma open_ledger_ro_dsn : open_dsn (sqliteReadOnlyDSN (ledgerPath s)) = inr (ledgerPath s, true).
Proof. apply open_uri. destruct ledger_path_eq as (c & _ & E & _). by rewrite E. Qed.
End paths.
