(* ===== verification/CertsSqliteLaws.v ===== *)
(** * The SQLite store refines the store interface

    Each method of the SQLite store satisfies the law of [CertsBackend] for its
    operation, whatever calls fail: the document and its tables are replaced by
    one transaction, or they stay. *)
From S2P Require Import Prelude.
From S2P Require Import GoStrings.
From S2P Require Import GoPath.
From S2P Require Import Utf8.
From S2P Require Import Errors.
From S2P Require Import GoNet.
From S2P Require Import CertsTypes.
From S2P Require Import CertsNames.
From S2P Require Import CertsCrypto.
From S2P Require Import CertsOptions.
From S2P Require Import CertsState.
From S2P Require Import CertsBackend.
From S2P Require Import CertsFiles.
From S2P Require Import CertsDisk.
From S2P Require Import CertsFileStore.
From S2P Require Import CertsFileStoreFacts.
From S2P Require Import CertsFileStoreLaws.
From S2P Require Import CertsSql.
From S2P Require Import CertsSqliteStore.
From S2P Require Import CertsSqliteFacts.
#[local] Open Scope stdpp_scope.
#[local] Open Scope Z_scope.
Import SQLiteStore.

(** The document in the database of the authority. *)
Definition document_of `{JSON} (d : database) : option authorityState :=
  match select_document d with
  | inl _ => None
  | inr text => match unjson_state text with inl _ => None | inr st => Some st end
  end.
Definition sql_document `{Kernel, SQLite, JSON} (s : SQLiteStore) (t : tree) : option authorityState :=
  d ← database_at t (file_key s); document_of d.
Definition stored_sql `{Kernel, SQLite, JSON} (s : SQLiteStore) (d : sqlite_disk) : option authorityState :=
  sql_document s (d_tree (q_files d)).

(** ** Procedures that leave the database alone *)
Section settled.
Context `{Kernel, JSON, SQLite, SQLText, Unicode, Crypto, URLParser} {St M : Type} `{!SQLiteLaws}.
Context (s : SQLiteStore) (l : list string) (b : string) (Hs : store_path s l b).
Implicit Types w : world disk (bool * M).
Abbreviation op A := (stm (world disk (bool * M)) A).

Definition same_database w w' : Prop :=
  w_mem w' = w_mem w ∧ database_at (tree_of w') (file_key s) = database_at (tree_of w) (file_key s).
#[export] Instance same_database_preorder : PreOrder same_database.
Proof. split; [by intros w|]. intros w1 w2 w3 [? E1] [? E2]. split; [congruence|by rewrite E2]. Qed.

Definition settled {A} (m : op A) : Prop := ∀ w, step_post same_database (λ _, True) m w.
Definition aside (k : string) : Prop := k ≠ file_key s.

Lemma settled_ret {A} (a : A) : settled (mret a).
Proof. intros w. by apply step_ret; [apply _|]. Qed.
Lemma settled_bind {A B} (m : op A) (f : A → op B) : settled m → (∀ a, settled (f a)) → settled (m ≫= f).
Proof. intros Hm Hf w. eapply step_bind; [apply _|apply Hm|]. intros a w' _ _. apply Hf. Qed.
Lemma settled_for_each {A S R} (body : A → S → op (R + S)) l0 st :
  (∀ a st, settled (body a st)) → settled (for_each body l0 st).
Proof.
  intros Hb. revert st. induction l0 as [|a l0 IH]; intros st; cbn [for_each]; [apply settled_ret|].
  apply settled_bind; [apply Hb|]. intros [r|st']; [apply settled_ret|apply IH].
Qed.
Lemma settled_frame {A} (m : op A) : frame aside m → settled m.
Proof.
  intros Hf w. destruct (Hf w) as [[Hm Ht] _]. split; [|done]. split; [done|].
  eapply database_only; [done|]. unfold aside. tauto.
Qed.
Lemma settled_run {A} (m : op A) w a w' : settled m → m w = (a, w') → same_database w w'.
Proof. intros Hm E. by destruct (step_run _ _ _ _ _ _ (Hm w) E). Qed.

Lemma settled_db_query {A} db (f : sql_query A) : settled (db_query db f).
Proof.
  intros w. destruct (db_query db f w) as [r w'] eqn:E. unfold step_post. rewrite E.
  apply db_query_run in E as [[Hm Hd] _]. split; [|done]. split; [done|]. apply Hd.
Qed.
Lemma settled_query {A} q (f : sql_query A) : settled (query_row q f).
Proof. destruct q; [apply settled_db_query|apply settled_frame, frame_look]. Qed.

(** A statement on the ledger. *)
Lemma frame_ledger_exec (f : sql_change) : frame aside (sql_Exec (ledgerPath s) f : op _).
Proof.
  intros w. destruct (sql_Exec (ledgerPath s) f w) as [r w'] eqn:E. unfold step_post. rewrite E.
  apply sql_Exec_run in E as [Hm Hr]. split; [|done]. split; [done|].
  destruct Hr as [[_ Ht]|(p & ro & Ho & Hon & _)]; [cbn; by rewrite Ht|].
  rewrite (open_ledger_dsn s l b Hs) in Ho. injection Ho as <- <-. cbn. intros k Hk. apply Hon.
  unfold aside in Hk. intros ->. apply Hk. eapply ledger_elsewhere, Hs.
Qed.

Lemma frame_is_open P : frame P (is_open : op _).
Proof. intros w. by split. Qed.
Lemma frame_store_db P : frame P (store_db s : op _).
Proof. unfold store_db. apply frame_bind; [apply frame_is_open|intros; apply frame_ret]. Qed.
Lemma frame_sql_Open P d : frame P (sql_Open d : op _).
Proof. apply frame_look. Qed.
(** What is opened is the name that was given. *)
Lemma settled_open {A} d (f : sys_error + string → op A) :
  (∀ e, settled (f (inl e))) → settled (f (inr d)) → settled (sql_Open d ≫= f).
Proof.
  intros Hl Hr w. eapply step_bind with (P := λ r, match r with inl _ => True | inr x => x = d end); [apply _| |].
  - destruct (frame_look (M := bool * M) aside (λ _, inr d : sys_error + string) w) as [[Hm Ht] _].
    split; [split; [done|]|].
    + eapply database_only; [exact Ht|]. unfold aside. tauto.
    + unfold sql_Open, look, call. cbn. by destruct (fault _) as [[e n]|].
  - intros [e|x] w' _ Hx; [apply Hl|subst x; apply Hr].
Qed.
Lemma frame_sql_Close P : frame P (sql_Close : op _).
Proof. apply frame_idle. Qed.
Lemma frame_tx_exec P q f : frame P (tx_exec q f : op _).
Proof. apply frame_look. Qed.
Lemma frame_tx_query {A} P q (f : sql_query A) : frame P (tx_query q f : op _).
Proof. apply frame_look. Qed.
End settled.

Create HintDb settled discriminated.
#[export] Hint Resolve settled_ret settled_db_query settled_query : settled.
#[export] Hint Resolve frame_is_open frame_store_db frame_sql_Open frame_sql_Close frame_tx_exec frame_tx_query : frames.

Ltac go_settled_step :=
  first
    [ progress intros
    | apply settled_ret
    | solve [eauto with settled]
    | solve [apply settled_frame; eauto with frames]
    | apply settled_bind
    | apply settled_for_each
    | case_match ].
Ltac go_settled := repeat go_settled_step.

Section methods.
Context `{Kernel, JSON, SQLite, SQLText, Unicode, Crypto, URLParser} {St M : Type} `{!SQLiteLaws}.
Context (s : SQLiteStore) (l : list string) (b : string) (Hs : store_path s l b).
Implicit Types w : world disk (bool * M).
Abbreviation op A := (stm (world disk (bool * M)) A).
Abbreviation settled := (settled s).

Lemma frame_ledger_statement (f : sql_change) : frame (aside s) (sql_Exec (ledgerPath s) f : op _).
Proof. by eapply frame_ledger_exec. Qed.
#[local] Hint Resolve frame_ledger_statement : frames.

Lemma settled_all_checks {A} (check : A → op (option error)) (items : list A) :
  (∀ a, settled (check a)) → settled (all_checks check items).
Proof. intros Hc. unfold all_checks. apply settled_bind; [|go_settled]. apply settled_for_each. intros a u. apply settled_bind; [apply Hc|go_settled]. Qed.

Lemma settled_key q k i e : settled (validateSQLiteKey q k i e : op _).
Proof. unfold validateSQLiteKey. go_settled. Qed.
#[local] Hint Resolve settled_key : settled.

Lemma settled_parity q st : settled (validateSQLiteParity q st : op _).
Proof.
  unfold validateSQLiteParity, parity_record, parity_topology, parity_count.
  repeat (first [apply settled_all_checks; intros|go_settled_step]).
  all: unfold parity_root, parity_issuer, parity_definition, parity_version, parity_root_key.
  all: repeat (first [apply settled_all_checks; intros|go_settled_step]).
Qed.
#[local] Hint Resolve settled_parity : settled.

Lemma settled_decode q data : settled (decode_document (St := St) q data : op _).
Proof. unfold decode_document. go_settled. Qed.
#[local] Hint Resolve settled_decode : settled.

Lemma settled_load_rows db : settled (load_rows (St := St) db : op _).
Proof. unfold load_rows. go_settled. Qed.
#[local] Hint Resolve settled_load_rows : settled.

Lemma settled_load issuer : settled (load (St := St) s issuer : op _).
Proof. unfold load, pragma_query_only. go_settled. Qed.

Lemma settled_loadUnlocks : settled (loadUnlocks s : op _).
Proof. unfold loadUnlocks. go_settled. Qed.

Lemma settled_storeUnlocks v r : settled (storeUnlocks s v r : op _).
Proof.
  unfold storeUnlocks. assert (∀ d u g, frame (aside s) (FileStore.atomicStoreFile (unlockPath s) d (mode 6 0 0) u g : op _)).
  { intros. apply frame_atomicStoreFile; [by eapply unlock_elsewhere|]. intros n. by eapply temp_elsewhere. }
  go_settled.
Qed.

Lemma settled_openReadOnly : settled (openLedgerReadOnly s : op _).
Proof. unfold openLedgerReadOnly, validate_ledger. go_settled. Qed.
Lemma settled_openWriteExisting : settled (openLedgerWriteExisting s : op _).
Proof. unfold openLedgerWriteExisting, validate_ledger. go_settled. Qed.
#[local] Hint Resolve settled_openReadOnly settled_openWriteExisting : settled.

Lemma settled_lookupLedger i v n : settled (lookupLedger s i v n : op _).
Proof. unfold lookupLedger, with_open_ledger. go_settled. Qed.
Lemma settled_listLedger c n : settled (listLedger s c n : op _).
Proof. unfold listLedger, with_open_ledger. go_settled. Qed.
#[local] Hint Resolve settled_listLedger : settled.
Lemma settled_check_ledger st : settled (check_ledger s st : op _).
Proof. unfold check_ledger. go_settled. Qed.

Lemma settled_create_ledger : settled (create_ledger_database s : op _).
Proof.
  unfold create_ledger_database, openLedger, ensure_ledger_directory, ledger_file_missing, prepare_ledger.
  assert (frame (aside s) (os_Mkdir (ledgerDirectory s) (ledger_directory_mode s) : op _))
    by (apply frame_Mkdir; by eapply ledger_directory_elsewhere).
  repeat first [apply settled_open|go_settled_step].
Qed.

Lemma settled_authorize : settled (authorizeIssuer s : op _).
Proof. unfold authorizeIssuer. go_settled. Qed.

(** Appending: the statement is run on the ledger. *)
Lemma opens_ledger w :
  step_post (same_database s) (λ r, match r with inl _ => True | inr x => x = ledgerPath s end)
    (openLedgerWriteExisting s) w.
Proof.
  unfold openLedgerWriteExisting. eapply step_bind with (P := λ _, True); [apply _| |].
  { assert (settled (validate_ledger s : op _)) as Hv by (unfold validate_ledger; go_settled). apply Hv. }
  intros [e|] w1 _ _; [by apply step_ret; [apply _|]|].
  eapply step_bind with (P := λ r, match r with inl _ => True | inr x => x = ledgerPath s end); [apply _| |].
  - destruct (settled_frame s (sql_Open (ledgerPath s) : op _) (frame_sql_Open _ _) w1) as [Hs1 _].
    split; [exact Hs1|]. unfold sql_Open, look, call. cbn. by destruct (fault _) as [[e n]|].
  - intros [e|x] w2 _ Hx; by apply step_ret; [apply _|].
Qed.

Lemma settled_append_row r : settled (insert_record_row s r : op _).
Proof.
  unfold insert_record_row, with_open_ledger. intros w.
  eapply step_bind; [apply _|apply opens_ledger|]. intros x w' _ Hx. revert w'.
  match goal with |- ∀ w', step_post _ _ ?m w' => change (settled m) end.
  destruct x as [e|x]; [|subst x]; cbn iota; go_settled.
Qed.
#[local] Hint Resolve settled_append_row : settled.

Lemma settled_appendLedger r : settled (appendLedger s r : op _).
Proof. unfold appendLedger. go_settled. Qed.

Lemma settled_exec_each {A} (f : A → database → op (sys_error + database)) items q :
  (∀ a q, settled (f a q)) → settled (exec_each f items q).
Proof. intros Hf. apply settled_for_each. intros a q'. apply Hf. Qed.

Lemma settled_sync q st : settled (syncSQLiteTables q st : op _).
Proof.
  unfold syncSQLiteTables.
  repeat (first [apply settled_exec_each; intros|go_settled_step]).
  all: unfold sync_root, sync_issuer, sync_version.
  all: repeat (first [apply settled_exec_each; intros|go_settled_step]).
Qed.
End methods.

(** ** Loading and updating *)
Section updating.
Context `{Kernel, JSON, SQLite, SQLText, Unicode, Crypto, URLParser} {St M : Type} `{!SQLiteLaws, !SQLTextLaws St}.
Context (s : SQLiteStore) (l : list string) (b : string) (Hs : store_path s l b).
Implicit Types w : world disk (bool * M).
Abbreviation op A := (stm (world disk (bool * M)) A).

Lemma decode_document_run q data w st w' :
  decode_document (St := St) q data w = (inr st, w') → unjson_state data = inr st ∧ valid (St := St) st.
Proof.
  unfold decode_document. destruct (unjson_state data) as [e|st1]; [done|].
  destruct (validateState (St := St) st1) as [e|] eqn:Ev; [done|]. intros E. inv_run E.
  destruct r as [e|]; [done|]. injection E as <- _. done.
Qed.

Lemma load_rows_run db ro w st w' :
  open_dsn db = inr (path s, ro) → load_rows (St := St) db w = (inr st, w') →
  sql_document s (tree_of w) = Some st ∧ valid (St := St) st.
Proof.
  intros Ho E. unfold load_rows in E. inv_run E. apply db_query_run in E0 as [_ Hq].
  destruct r as [e|data]; [by destruct e|]. destruct (Hq data eq_refl) as (p & ro' & d & Ho' & Hd & Hf).
  rewrite Ho in Ho'. injection Ho' as <- <-. apply decode_document_run in E as [Hu Hv]. split; [|done].
  unfold sql_document, file_key. rewrite Hd. cbn. unfold document_of. by rewrite Hf, Hu.
Qed.

Lemma load_runs issuer w r w' :
  load (St := St) s issuer w = (r, w') →
  same_database s w w' ∧ ∀ st, r = inr st → sql_document s (tree_of w) = Some st ∧ valid (St := St) st.
Proof.
  intros E. split; [by eapply settled_run; [eapply settled_load|]|]. intros st ->. unfold load in E.
  destruct issuer.
  - inv_run E. assert (same_database s w h) as Hsame.
    { eapply settled_run; [|exact E0]. apply settled_frame, frame_look. }
    destruct r as [e|db]; [done|].
    assert (db = sqliteReadOnlyDSN (path s)) as ->.
    { unfold sql_Open, look, call in E0. injection E0 as E0 _. by destruct (fault _) as [[e n]|]; simplify_eq. }
    inv_run E. assert (same_database s h h0) as Hsame0.
    { eapply settled_run; [|exact E1]. unfold pragma_query_only. go_settled. }
    inv_run E. inv_run E. injection E as -> <-.
    apply (load_rows_run _ true) in E2 as [Hd Hv]; [|by eapply open_ro_dsn]. split; [|done].
    unfold sql_document in *. rewrite <- Hd. destruct Hsame as [_ <-], Hsame0 as [_ <-]. done.
  - inv_run E. unfold store_db in E0. inv_run E0. injection E1 as <- <-. injection E0 as <- <-.
    destruct (w_mem w).1; [|done]. destruct (open_dsn_store s l b Hs) as [ro Ho].
    by apply (load_rows_run _ ro) in E.
Qed.

Lemma same_document w w' : same_database s w w' → sql_document s (tree_of w') = sql_document s (tree_of w).
Proof. intros [_ E]. unfold sql_document. by rewrite E. Qed.

(** The transaction that ends an update. *)
Lemma commit_run db ro q w r w' :
  open_dsn db = inr (path s, ro) → tx_commit db q w = (r, w') →
  w_mem w' = w_mem w ∧
  ((is_Some r ∧ database_at (tree_of w') (file_key s) = database_at (tree_of w) (file_key s)) ∨
   database_at (tree_of w') (file_key s) = Some q).
Proof.
  intros Ho E. apply sql_Exec_run in E as [Hm Hr]. split; [done|].
  destruct Hr as [[? Ht]|(p & ro' & Ho' & _ & _ & Hr)]; [left; by rewrite Ht|].
  rewrite Ho in Ho'. injection Ho' as <- <-. destruct Hr as [?|(d & d' & _ & [= <-] & Hd)]; [by left|by right].
Qed.

Lemma upsert_select r data q q' : upsert_document r data q = inr q' → select_document q' = inr data.
Proof.
  unfold upsert_document, updated, in_table. destruct (bind_uint64 r) as [|r1]; [done|].
  destruct (authority_state q) as [t|]; [|done]. intros [= <-]. unfold select_document, row_of. cbn.
  by rewrite lookup_insert_eq.
Qed.

Lemma sql_store_mutation_run {A} db ro q e (a : A) s0 st w r w' :
  open_dsn db = inr (path s, ro) → store_mutation (St := St) s db q e (Revision s0) a st w = (r, w') →
  w_mem w' = w_mem w ∧
  let s2 := bump_revision (Revision s0) st in
  (r = inr a ∧ valid (St := St) s2 ∧ sql_document s (tree_of w') = Some s2) ∨
  (∃ err, r = inl err ∧ (sql_document s (tree_of w') = sql_document s (tree_of w) ∨
     valid (St := St) s2 ∧ sql_document s (tree_of w') = Some s2)).
Proof.
  intros Ho. unfold store_mutation. set (s2 := bump_revision (Revision s0) st). cbn zeta.
  assert (∀ err w1, same_database s w w1 → (inl err, w1) = (r, w') →
    w_mem w' = w_mem w ∧ ((r = inr a ∧ valid (St := St) s2 ∧ sql_document s (tree_of w') = Some s2) ∨
      ∃ err, r = inl err ∧ (sql_document s (tree_of w') = sql_document s (tree_of w) ∨
        valid (St := St) s2 ∧ sql_document s (tree_of w') = Some s2))) as Hkeep.
  { intros err w1 Hc [= <- <-]. split; [apply Hc|]. right. eexists. split; [done|]. left. by apply same_document. }
  destruct (validateState (St := St) s2) as [err|] eqn:Ev; [by apply Hkeep|].
  destruct (marshal_state s2) as [err|data] eqn:Ej; [by apply Hkeep|].
  intros E. inv_run E. apply (settled_run s) in E0; [|apply settled_sync].
  destruct r0 as [err|q1]; [by eapply Hkeep|]. inv_run E.
  assert (same_database s w h0) as Hc0.
  { destruct E0 as [E0m E0d]. apply (settled_run s) in E1 as [E1m E1d]; [|apply settled_frame, frame_tx_exec].
    split; [congruence|by rewrite E1d]. }
  destruct r0 as [err|q2]; [by eapply Hkeep|].
  assert (select_document q2 = inr data) as Hq.
  { unfold tx_exec, look, call in E1. injection E1 as E1 _. destruct (fault _) as [[x n]|]; [done|].
    by eapply upsert_select. }
  inv_run E. assert (same_database s w h1) as Hc1.
  { destruct Hc0 as [Hm0 Hd0]. apply (settled_run s) in E2 as [Hm2 Hd2].
    - split; [congruence|by rewrite Hd2].
    - destruct (_ && _); [by eapply settled_create_ledger|apply settled_ret]. }
  destruct r0 as [err|]; [by eapply Hkeep|]. inv_run E.
  apply (commit_run _ ro) in E3 as [Hm3 Hr3]; [|done].
  assert (w_mem w' = w_mem w) as Hmem by (destruct Hc1; destruct r0; injection E as _ <-; congruence).
  split; [done|].
  assert (database_at (tree_of h2) (file_key s) = Some q2 → sql_document s (tree_of h2) = Some s2) as Hdoc.
  { intros Hd. unfold sql_document. rewrite Hd. cbn. unfold document_of. rewrite Hq.
    by rewrite (marshal_state_law (St := St) s2 data Ev Ej). }
  destruct r0 as [err|]; injection E as <- <-.
  - right. eexists. split; [done|]. destruct Hr3 as [[_ Hd]|Hd]; [left|right; auto].
    unfold sql_document. rewrite Hd. by destruct Hc1 as [_ ->].
  - left. destruct Hr3 as [[[] ?]|Hd]; [done|]. auto.
Qed.

(** The mutation is run on the document that the transaction has read. *)
Lemma update_runs {A} (f : authorityState → op (outcome A)) w r w' :
  update (St := St) s f w = (r, w') →
  (∃ e, r = inl e ∧ same_database s w w') ∨
  ∃ st w0 o w1, same_database s w w0 ∧
    (sql_document s (tree_of w0) = Some st ∧ valid (St := St) st ∨ sql_document s (tree_of w0) = None ∧ st = zero_state) ∧
    f st w0 = (o, w1) ∧ w_mem w' = w_mem w1 ∧
    match o with
    | MError e => r = inl e ∧ w' = w1
    | MNoMutation a => r = inr a ∧ w' = w1
    | MDone a st1 =>
        let s2 := bump_revision (Revision st) st1 in
        (r = inr a ∧ valid (St := St) s2 ∧ sql_document s (tree_of w') = Some s2) ∨
        (∃ err, r = inl err ∧ (sql_document s (tree_of w') = sql_document s (tree_of w1) ∨
           valid (St := St) s2 ∧ sql_document s (tree_of w') = Some s2))
    end.
Proof.
  unfold update. assert (∀ e w3, same_database s w w3 → (inl e, w3) = (r, w') →
    (∃ e, r = inl e ∧ same_database s w w')) as Hkeep by (intros e w3 Hc [= <- <-]; by eexists).
  destruct (readOnly s); [intros E; left; by eapply Hkeep|].
  intros E. inv_run E. unfold store_db in E0. inv_run E0. injection E1 as <- <-. injection E0 as <- <-.
  destruct (w_mem w).1; [|left; by eapply Hkeep]. destruct (open_dsn_store s l b Hs) as [ro Ho].
  inv_run E. apply db_query_run in E0 as [[Hm0 Hd0] Hq]. assert (same_database s w h) as Hc0 by (split; [done|apply Hd0]).
  destruct r0 as [e|q]; [left; by eapply Hkeep|]. destruct (Hq q eq_refl) as (p & ro' & d & Ho' & Hd & [= <-]).
  rewrite Ho in Ho'. injection Ho' as <- <-. fold (file_key s) in Hd. clear Hq.
  inv_run E.
  assert (same_database s w h0 ∧ (r0 = select_document d ∨ ∃ x, r0 = inl (SysError x))) as [Hc1 Hrow].
  { apply look_run in E0 as (Hm & Ht & Hr). split; [|by destruct Hr as [<-|?]; [left|right]].
    destruct Hc0. split; [congruence|by rewrite Ht]. }
  assert (database_at (tree_of h0) (file_key s) = Some d) as Hd1 by (destruct Hc1 as [_ ->]; done).
  assert (∀ b0 st w0, same_database s w w0 →
    (document_of d = Some st ∧ valid (St := St) st ∨ document_of d = None ∧ st = zero_state) →
    mutate_document (St := St) s (dsn s) d b0 st f w0 = (r, w') →
    ∃ st w0 o w1, same_database s w w0 ∧
    (sql_document s (tree_of w0) = Some st ∧ valid (St := St) st ∨ sql_document s (tree_of w0) = None ∧ st = zero_state) ∧
    f st w0 = (o, w1) ∧ w_mem w' = w_mem w1 ∧
    match o with
    | MError e => r = inl e ∧ w' = w1
    | MNoMutation a => r = inr a ∧ w' = w1
    | MDone a st1 =>
        let s2 := bump_revision (Revision st) st1 in
        (r = inr a ∧ valid (St := St) s2 ∧ sql_document s (tree_of w') = Some s2) ∨
        (∃ err, r = inl err ∧ (sql_document s (tree_of w') = sql_document s (tree_of w1) ∨
           valid (St := St) s2 ∧ sql_document s (tree_of w') = Some s2))
    end) as Hmut.
  { intros b0 st w0 Hc Hst E1. unfold mutate_document in E1. inv_run E1. exists st, w0, r1, h1. split; [done|]. split.
    { unfold sql_document. destruct Hc as [_ Hc]. rewrite Hc, Hd. done. }
    split; [done|]. destruct r1 as [e|a|a st1]; [by injection E1 as <- <-..|].
    by apply (sql_store_mutation_run _ ro) in E1. }
  destruct r0 as [e|data].
  - assert ((e = ErrNoRows ∧ select_document d = inl ErrNoRows) ∨ e ≠ ErrNoRows) as [[-> Hn]|Hne].
    { destruct (decide (e = ErrNoRows)) as [->|]; [left|by right]. split; [done|]. by destruct Hrow as [<-|[x ?]]. }
    + right. eapply Hmut; [exact Hc1| |exact E]. right. split; [|done]. unfold document_of. by rewrite Hn.
    + left. eapply Hkeep; [exact Hc1|]. by destruct e.
  - destruct Hrow as [Hrow|[x ?]]; [|done]. inv_run E.
    apply (settled_run s) in E1 as Hc2; [|apply settled_decode].
    assert (same_database s w h1) as Hc3 by (destruct Hc1, Hc2; split; congruence).
    destruct r0 as [e|st]; [left; by eapply Hkeep|]. apply decode_document_run in E1 as [Hu Hv].
    inv_run E. assert (same_database s w h2) as Hc4.
    { apply (settled_run s) in E1 as [Hm Hdd]; [destruct Hc3; split; congruence|].
      destruct (FileStore.ledger_mode st); [by eapply settled_check_ledger|apply settled_ret]. }
    destruct r0 as [e|]; [left; by eapply Hkeep|]. right. eapply Hmut; [exact Hc4| |exact E].
    left. split; [|done]. unfold document_of. by rewrite <- Hrow, Hu.
Qed.
End updating.

(** ** Purging *)
Section sql_purging.
Context `{Kernel, JSON, SQLite, SQLText, Unicode, Crypto, URLParser} {M : Type} `{!SQLiteLaws}.
Context (s : SQLiteStore) (l : list string) (b : string) (Hs : store_path s l b).
Implicit Types w : world disk (bool * M).
Abbreviation op A := (stm (world disk (bool * M)) A).

(** The document stays or goes, and only the handle of the memory changes. *)
Definition sql_shrinks w w' : Prop :=
  (w_mem w').2 = (w_mem w).2 ∧
  (sql_document s (tree_of w') = sql_document s (tree_of w) ∨ sql_document s (tree_of w') = None).
#[local] Instance sql_shrinks_preorder : PreOrder sql_shrinks.
Proof.
  split; [intros w; split; [done|by left]|]. intros w1 w2 w3 [? H1'] [? H2']. split; [congruence|].
  destruct H1', H2'; (left; congruence) || (right; congruence).
Qed.
Definition sql_shrinking {A} (m : op A) : Prop := ∀ w, step_post sql_shrinks (λ _, True) m w.

Lemma sql_shrinking_settled {A} (m : op A) : settled s m → sql_shrinking m.
Proof.
  intros Hm w. destruct (Hm w) as [[Hmem Hd] _]. split; [|done]. split; [by rewrite Hmem|]. left. by apply same_document.
Qed.
Lemma sql_shrinking_bind {A B} (m : op A) (f : A → op B) :
  sql_shrinking m → (∀ a, sql_shrinking (f a)) → sql_shrinking (m ≫= f).
Proof. intros Hm Hf w. eapply step_bind; [apply _|apply Hm|]. intros a w' _ _. apply Hf. Qed.
Lemma sql_shrinking_ret {A} (a : A) : sql_shrinking (mret a).
Proof. apply sql_shrinking_settled, settled_ret. Qed.

Lemma sql_shrinking_Remove p : sql_shrinking (os_Remove p).
Proof.
  intros w. split; [|done]. destruct (os_Remove p w) as [r w'] eqn:E. apply change_run in E as [Hm Hr]. cbn.
  split; [by rewrite Hm|]. destruct r; [left; by rewrite Hr|]. unfold remove in Hr.
  destruct (node_at _ _); [done|]. destruct (_ && _); [done|]. injection Hr as <-.
  unfold sql_document, database_at. rewrite kind_delete. case_decide; [by right|by left].
Qed.

Lemma sql_shrinking_if_there p : sql_shrinking (remove_if_there p).
Proof. apply sql_shrinking_bind; [apply sql_shrinking_Remove|intros; apply sql_shrinking_ret]. Qed.

Lemma sql_shrinking_close : sql_shrinking close_db.
Proof.
  unfold close_db. apply sql_shrinking_bind; [apply sql_shrinking_settled, settled_frame, frame_is_open|].
  intros []; [|apply sql_shrinking_ret].
  apply sql_shrinking_bind; [apply sql_shrinking_settled, settled_frame, frame_sql_Close|]. intros r.
  apply sql_shrinking_bind; [|intros; apply sql_shrinking_ret]. intros w. split; [|done]. split; [done|by left].
Qed.

Lemma sql_shrinking_purge : sql_shrinking (purge s).
Proof.
  unfold purge. destruct (readOnly s); [apply sql_shrinking_ret|].
  apply sql_shrinking_bind; [apply sql_shrinking_settled, settled_frame, frame_ctx_Err|]. intros [e|]; [apply sql_shrinking_ret|].
  apply sql_shrinking_bind; [apply sql_shrinking_close|]. intros _. apply sql_shrinking_bind.
  - generalize (database_files s). intros ps. generalize tt. induction ps as [|p ps IH]; intros u; cbn [for_each];
      [apply sql_shrinking_ret|].
    apply sql_shrinking_bind; [apply sql_shrinking_bind; [apply sql_shrinking_if_there|intros; apply sql_shrinking_ret]|].
    intros [e|u']; [apply sql_shrinking_ret|apply IH].
  - intros [e|u]; [apply sql_shrinking_ret|apply sql_shrinking_if_there].
Qed.
End sql_purging.

(** ** The refinement *)
Section lifting.
Context `{Kernel, JSON, SQLite} {M : Type} (s : SQLiteStore).

Lemma unpack_packed (w : world disk (bool * M)) : unpack (pack w) = w.
Proof. by destruct w as [d [? ?] n]. Qed.
Lemma pack_unpack (w : world sqlite_disk M) : pack (unpack w) = w.
Proof. by destruct w as [[? ?] ? ?]. Qed.

Lemma lift_run {A} (m : stm (world disk (bool * M)) A) w r w' :
  lift m w = (r, w') → m (unpack w) = (r, unpack w').
Proof. unfold lift. destruct (m (unpack w)) as [a w1]. intros [= <- <-]. by rewrite unpack_packed. Qed.

Lemma lower_run {A} (m : stm (world sqlite_disk M) A) w r w' :
  lower m w = (r, w') → m (pack w) = (r, pack w').
Proof. unfold lower. destruct (m (pack w)) as [a w1]. intros [= <- <-]. by rewrite pack_unpack. Qed.

Lemma same_keeps (w w' : world sqlite_disk M) :
  same_database s (unpack w) (unpack w') → keeps (stored_sql s) w w'.
Proof.
  intros Hsame. pose proof (same_document s _ _ Hsame) as Hd. destruct Hsame as [Hm _]. split; [exact Hd|].
  by injection Hm.
Qed.

Lemma settled_keeps {A} (m : stm (world disk (bool * M)) A) w r w' :
  settled s m → lift m w = (r, w') → keeps (stored_sql s) w w'.
Proof. intros Hm E%lift_run. eapply same_keeps, settled_run; done. Qed.
End lifting.

(** C6: the SQLite store refines the store interface.  Whatever statements and
    calls of the system fail, before or after they took effect: loading reports
    the document only when it is valid; an update runs its mutation at most once,
    on the document of its transaction, and commits the mutated and checked
    document or leaves the old one; every other method leaves the document alone,
    and a purge removes it or leaves it. *)
Theorem SQLiteStore_refines `{Kernel, JSON, SQLite, SQLText, Unicode, Crypto, URLParser} {St : Type}
    `{!SQLiteLaws, !SQLTextLaws St} (s : SQLiteStore) l b :
  store_path s l b → BackendLaws sqlite_disk St (Backend0 := sqlite_backend St s) (stored_sql s).
Proof.
  intros Hs. unfold sqlite_backend. constructor; cbn.
  - intros M i w w' r E%lift_run. eapply load_runs in E as [Hc Hr]; [|done]. split; [by apply same_keeps|done].
  - intros M A f w w' r E%lift_run. eapply update_runs in E as [(e & -> & Hc)|(st & w0 & o & w1 & Hc & Hst & Hf & Hm & Ho)]; [| |done].
    + left. eexists. split; [done|]. by apply same_keeps.
    + right. apply lower_run in Hf. exists st, (pack w0), o, (pack w1). split.
      { apply same_keeps. by rewrite unpack_packed. }
      split; [exact Hst|]. split; [done|]. split.
      { change (w_mem w') with (w_mem (unpack w')).2. by rewrite Hm. }
      destruct o as [e|a|a st1]; [destruct Ho as [-> <-]; by split..|]. exact Ho.
  - intros M w w' r E%lift_run. destruct (step_run _ _ _ _ _ _ (sql_shrinking_purge s (unpack w)) E) as [[Hm Hd] _].
    by split.
  - intros M w w' r. apply settled_keeps, settled_loadUnlocks.
  - intros M v rp w w' r. eapply settled_keeps, settled_storeUnlocks, Hs.
  - intros M rec w w' r. eapply settled_keeps, settled_appendLedger, Hs.
  - intros M i v n w w' r. apply settled_keeps, settled_lookupLedger.
  - intros M c n w w' r. apply settled_keeps, settled_listLedger.
  - intros M w w' r E. eapply (settled_keeps s (authorizeOwner s)); [apply settled_ret|exact E].
  - intros M w w' r. apply settled_keeps, settled_authorize.
Qed.
