(* ===== verification/CertsSqliteParity.v ===== *)
(** * The tables of the SQLite store mirror its document

    What the parity check of the store accepts: exactly the tables whose rows are
    those of the document, no more and no fewer, when every call succeeds.  The
    tables that an update writes are such. *)
From stdpp Require Import pretty.
From S2P Require Import Prelude.
From S2P Require Import GoStrings.
From S2P Require Import Utf8.
From S2P Require Import Errors.
From S2P Require Import GoNet.
From S2P Require Import CertsTypes.
From S2P Require Import CertsNames.
From S2P Require Import CertsCrypto.
From S2P Require Import CertsOptions.
From S2P Require Import CertsState.
From S2P Require Import CertsBackend.
From S2P Require Import CertsFiles.
From S2P Require Import CertsDisk.
From S2P Require Import CertsFileStore.
From S2P Require Import CertsSql.
From S2P Require Import CertsSqliteStore.
From S2P Require Import CertsSqliteFacts.
From S2P Require Import CertsSqliteLaws.
From S2P Require Import CertsFileStoreFacts.
From S2P Require Import GoPath.
#[local] Open Scope stdpp_scope.
#[local] Open Scope Z_scope.
Import SQLiteStore.

(** ** Checks that are decided *)
Section deciding.
Context {W : Type} (P : W → Prop).

(** From the worlds of [P], [m] answers [a] and stays there. *)
Definition gives {A} (m : stm W A) (a : A) : Prop := ∀ w, P w → ∃ w', m w = (a, w') ∧ P w'.
(** The check [m] passes exactly when [Q]. *)
Definition decides (m : stm W (option error)) (Q : Prop) : Prop := ∃ r, gives m r ∧ (r = None ↔ Q).

Lemma gives_ret {A} (a : A) : gives (mret a) a.
Proof. intros w Hw. by exists w. Qed.
Lemma gives_bind {A B} (m : stm W A) (f : A → stm W B) a b : gives m a → gives (f a) b → gives (m ≫= f) b.
Proof.
  intros Hm Hf w Hw. destruct (Hm w Hw) as (w1 & E1 & Hw1). destruct (Hf w1 Hw1) as (w2 & E2 & Hw2).
  exists w2. split; [|done]. unfold mbind, stm_bind. by rewrite E1.
Qed.

Lemma decides_iff m Q R : decides m Q → (Q ↔ R) → decides m R.
Proof. intros (r & Hr & HQ) HR. exists r. by rewrite HQ. Qed.
Lemma decides_if (b : bool) e (Q : Prop) : (b = false ↔ Q) → decides (mret (if b then Some e else None)) Q.
Proof. intros HQ. eexists. split; [apply gives_ret|]. rewrite <- HQ. by destruct b. Qed.

Lemma decides_and m (f : option error → stm W (option error)) Q R :
  decides m Q → (∀ e, f (Some e) = mret (Some e)) → decides (f None) R → decides (m ≫= f) (Q ∧ R).
Proof.
  intros ([e|] & Hm & HQ) He (r & Hr & HR).
  - exists (Some e). split; [|naive_solver]. eapply gives_bind; [exact Hm|]. rewrite He. apply gives_ret.
  - exists r. split; [by eapply gives_bind|]. rewrite HR. naive_solver.
Qed.

Lemma decides_all {A} (check : A → stm W (option error)) (Q : A → Prop) l :
  (∀ a, decides (check a) (Q a)) →
  decides (r ← for_each (λ a _, err ← check a; mret (result err)) l (); mret (done_ r)) (Forall Q l).
Proof.
  intros Hc. assert (∃ r, gives (for_each (λ a _, err ← check a; mret (result err)) l ()) r ∧
    (done_ r = None ↔ Forall Q l)) as (r & Hr & HQ).
  { induction l as [|a l (r & Hr & HQ)]; cbn [for_each].
    - exists (inr ()). split; [apply gives_ret|]. by split.
    - destruct (Hc a) as ([e|] & He & Ha).
      + exists (inl e). split; [|by split; [|intros [?%Ha ?]%Forall_cons]].
        eapply gives_bind; [eapply gives_bind; [exact He|apply gives_ret]|apply gives_ret].
      + exists r. split; [|rewrite Forall_cons, HQ; naive_solver].
        eapply gives_bind; [eapply gives_bind; [exact He|apply gives_ret]|exact Hr]. }
  exists (done_ r). split; [|done]. eapply gives_bind; [exact Hr|apply gives_ret].
Qed.
End deciding.

(** ** The rows of a document *)
Section rows.
Context `{SQLText}.
Implicit Types st : authorityState.

Definition root_row (r : rootRecord) : string * string * string :=
  (root_CertificateDER r, root_Fingerprint r, format_time (RetiredTrustUntil r)).
Definition definition_row (i : issuerRecord) : string * string :=
  (def_Name (Definition_ i), text_of (marshal_definition (Definition_ i))).
Definition version_row (v : issuerVersion) : Z * string * string := (RootGeneration v, CertificateDER v, Fingerprint v).
Definition key_rows_of (kind_ id der : string) : list ((string * string) * string) :=
  if String.eqb der "" then [] else [((kind_, id), der)].

Definition root_rows st := map (λ p, (p.1, root_row p.2)) (map_to_list (Roots st)).
Definition definition_rows st := map (λ p, (p.1, definition_row p.2)) (map_to_list (Issuers st)).
(** The versions of an issuer, and of all, with the slug. *)
Definition pairs_of (p : string * issuerRecord) : list (string * (Z * issuerVersion)) :=
  map (pair p.1) (map_to_list (Versions p.2)).
Definition version_pairs st : list (string * (Z * issuerVersion)) := concat (map pairs_of (map_to_list (Issuers st))).
Definition version_rows_of := map (λ x : string * (Z * issuerVersion), ((x.1, x.2.1), version_row x.2.2)).
Definition version_rows st := version_rows_of (version_pairs st).
Definition root_keys (p : Z * rootRecord) := key_rows_of "root" (Itoa p.1) (EncryptedKeyDER p.2).
Definition version_keys (x : string * (Z * issuerVersion)) :=
  key_rows_of "issuer" (issuer_key_id x.1 x.2.1) (KeyDER x.2.2).
Definition key_rows st :=
  concat (map root_keys (map_to_list (Roots st))) ++ concat (map version_keys (version_pairs st)).

(** The tables are those of the document. *)
Record mirrors (d : database) st : Prop := {
  mr_record : select_record d = inr (ID (Spec st), FormatVersion (Spec st), text_of (marshal_spec (Spec st)));
  mr_topology : ∃ pending, select_topology d = inr (Revision st, ActiveRoot st, pending) ∧
    default "" pending = default "" (pending_text st);
  mr_roots : root_generations d = Some (list_to_map (root_rows st));
  mr_definitions : issuer_definitions d = Some (list_to_map (definition_rows st));
  mr_versions : issuer_versions d = Some (list_to_map (version_rows st));
  mr_keys : encrypted_keys d = Some (list_to_map (key_rows st));
}.

(** *** The rows have different keys *)

Lemma fst_map_pair {A B C} (f : B → C) (l : list (A * B)) : (map (λ p, (p.1, f p.2)) l).*1 = l.*1.
Proof. induction l as [|p l IH]; [done|]. cbn. by rewrite <- IH. Qed.
Lemma NoDup_root_rows st : NoDup (root_rows st).*1.
Proof. unfold root_rows. rewrite fst_map_pair. apply NoDup_fst_map_to_list. Qed.
Lemma NoDup_definition_rows st : NoDup (definition_rows st).*1.
Proof. unfold definition_rows. rewrite fst_map_pair. apply NoDup_fst_map_to_list. Qed.

(** Rows that are made from the elements of a list, apart for each element. *)
Lemma NoDup_concat {A B C} (key_of : A → B) (f : A → list C) (tag : C → B) l :
  NoDup (map key_of l) → (∀ a, a ∈ l → NoDup (f a)) → (∀ a c, a ∈ l → c ∈ f a → tag c = key_of a) →
  NoDup (concat (map f l)).
Proof.
  induction l as [|a l IH]; intros Hk Hf Ht; [constructor|]. cbn in *. apply NoDup_cons in Hk as [Ha Hk].
  apply NoDup_app. split_and!.
  - apply Hf. set_solver.
  - intros c Hc Hin. apply list_elem_of_In, in_concat in Hin as (l' & Hl' & Hin).
    apply in_map_iff in Hl' as (a' & <- & Ha'%list_elem_of_In). apply list_elem_of_In in Hin. apply Ha.
    rewrite <- (Ht a c), (Ht a' c) by set_solver. by apply list_elem_of_fmap_2.
  - apply IH; [done| |]; intros; [apply Hf|eapply Ht]; set_solver.
Qed.

Lemma version_rows_keys st :
  (version_rows st).*1 = concat (map (λ p, map (λ x, (p.1, x.1)) (map_to_list (Versions p.2))) (map_to_list (Issuers st))).
Proof.
  unfold version_rows, version_rows_of, version_pairs. change (@fmap list _ ?A ?B) with (@map A B).
  rewrite map_map, concat_map, map_map. f_equal. apply map_ext. intros p. unfold pairs_of. by rewrite map_map.
Qed.
Lemma NoDup_version_rows st : NoDup (version_rows st).*1.
Proof.
  rewrite version_rows_keys. apply NoDup_concat with (key_of := fst) (tag := fst).
  - apply NoDup_fst_map_to_list.
  - intros p _. rewrite <- (map_map fst (pair p.1)). apply NoDup_fmap_2; [by intros x y [= ->]|apply NoDup_fst_map_to_list].
  - intros p c _ (x & -> & _)%list_elem_of_fmap. done.
Qed.

(** The names of the keys. *)
Lemma digits_no_colon s : ∀ acc n, digits s acc = Some n → ":"%char ∉ chars s.
Proof.
  induction s as [|c s IH]; intros acc n; cbn; [intros _; apply not_elem_of_nil|].
  destruct (digit c) as [d|] eqn:Ed; [|done]. intros Hd. apply not_elem_of_cons. split; [|by eapply IH].
  by intros <-.
Qed.
Lemma Itoa_no_colon z : ":"%char ∉ chars (Itoa z).
Proof.
  assert (∀ n : N, ":"%char ∉ chars (pretty n)) as Hn by (intros n; eapply digits_no_colon, digits_pretty_N).
  unfold Itoa. destruct z as [|p|p]; [cbn; set_solver|apply Hn|].
  change (pretty (Z.neg p)) with (String "-" (pretty (N.pos p))). cbn. apply not_elem_of_cons. split; [done|apply Hn].
Qed.
Lemma issuer_key_id_inj slug v slug' v' :
  issuer_key_id slug v = issuer_key_id slug' v' → slug = slug' ∧ v = v'.
Proof.
  unfold issuer_key_id. intros E%(f_equal chars). rewrite !chars_app in E. cbn in E.
  apply not_elem_of_app_cons_inv_r in E as (Es & _ & Ev); [|apply Itoa_no_colon..].
  apply (inj chars) in Es. apply (inj chars) in Ev. split; [done|]. by apply (inj (pretty (A := Z))) in Ev.
Qed.

Lemma key_rows_sublist {A} (k : A → string * string) (der : A → string) l :
  (concat (map (λ a, key_rows_of (k a).1 (k a).2 (der a)) l)).*1 `sublist_of` map k l.
Proof.
  induction l as [|a l IH]; [done|]. cbn. rewrite fmap_app. unfold key_rows_of at 1. destruct (String.eqb _ _); cbn.
  - by apply sublist_cons.
  - destruct (k a). by apply sublist_skip.
Qed.
Lemma NoDup_key_rows st : NoDup (key_rows st).*1.
Proof.
  unfold key_rows. rewrite fmap_app.
  pose proof (key_rows_sublist (λ p, ("root", Itoa p.1)) (λ p, EncryptedKeyDER p.2) (map_to_list (Roots st))) as Hr.
  pose proof (key_rows_sublist (λ x, ("issuer", issuer_key_id x.1 x.2.1)) (λ x, KeyDER x.2.2) (version_pairs st)) as Hv.
  cbn in Hr, Hv. fold (version_keys) (root_keys) in *. apply NoDup_app. split_and!.
  - eapply sublist_NoDup; [|exact Hr]. rewrite <- (map_map fst (λ g, ("root", Itoa g))).
    apply NoDup_fmap_2; [|apply NoDup_fst_map_to_list]. intros x y [= E]. by apply (inj (pretty (A := Z))) in E.
  - intros k Hk Hk'. eapply sublist_subseteq in Hk; [|exact Hr]. eapply sublist_subseteq in Hk'; [|exact Hv].
    apply list_elem_of_fmap in Hk as (? & -> & _). by apply list_elem_of_fmap in Hk' as (? & ? & _).
  - eapply sublist_NoDup; [|exact Hv].
    rewrite <- (map_map (λ x : string * (Z * issuerVersion), (x.1, x.2.1)) (λ k, ("issuer", issuer_key_id k.1 k.2))).
    apply NoDup_fmap_2.
    + intros [] [] [= E]. cbn in E. by apply issuer_key_id_inj in E as [-> ->].
    + pose proof (NoDup_version_rows st) as Hn. unfold version_rows, version_rows_of in Hn.
      change (@fmap list _ ?A ?B) with (@map A B) in Hn. by rewrite map_map in Hn.
Qed.
End rows.

(** *** A table of given rows *)
Lemma table_exact `{Countable K} {V} (name : string) (t : option (gmap K V)) (rows : list (K * V)) :
  NoDup rows.*1 →
  count_of name t = inr (Z.of_nat (length rows)) ∧ Forall (λ p, row_of name t p.1 = inr p.2) rows ↔
  t = Some (list_to_map rows).
Proof.
  intros Hn. unfold count_of, row_of, in_table. destruct t as [t|]; [|by split; [intros [? _]|]]. split.
  - intros [Hc Hf]. f_equal. symmetry. apply map_subseteq_size_eq.
    + apply map_subseteq_spec. intros k v Hk%elem_of_list_to_map_2. rewrite Forall_forall in Hf. specialize (Hf _ Hk).
      cbn in Hf. destruct (t !! k); by simplify_eq.
    + rewrite map_size_list_to_map by done. injection Hc. lia.
  - intros [= ->]. rewrite map_size_list_to_map by done. split; [done|]. apply Forall_forall. intros [k v] Hk.
    cbn. by rewrite (elem_of_list_to_map_1 rows k v).
Qed.

(** ** The parity check *)
Section parity.
Context `{Kernel, JSON, SQLite, SQLText, Unicode, Crypto, URLParser} {M : Type}.
Context (P : world disk (bool * M) → Prop) (q : rower) (d : database).
Abbreviation op A := (stm (world disk (bool * M)) A).
(** From the worlds of [P] every query on [q] answers from [d]. *)
Context (Hq : ∀ A (f : sql_query A), gives P (query_row q f : op _) (f d)).
Abbreviation decides := (decides P).

Lemma decides_query {A} (f : sql_query A) (h : sys_error → error) (g : A → op (option error)) (Q : A → Prop) :
  (∀ a, decides (g a) (Q a)) →
  decides (let! a := query_row q f else e => mret (Some (h e)) in g a) (∃ a, f d = inr a ∧ Q a).
Proof.
  intros Hg. destruct (f d) as [e|a] eqn:Ef.
  - exists (Some (h e)). split; [|naive_solver].
    eapply gives_bind; [apply Hq|]. rewrite Ef. apply gives_ret.
  - destruct (Hg a) as (r & Hr & HQ). exists r. split; [|rewrite HQ; naive_solver].
    eapply gives_bind; [apply Hq|]. by rewrite Ef.
Qed.

(** A query whose row is compared. *)
Lemma decides_row {A} (f : sql_query A) (h : sys_error → error) (g : A → op (option error)) (a : A) :
  (∀ x, decides (g x) (x = a)) →
  decides (let! x := query_row q f else e => mret (Some (h e)) in g x) (f d = inr a).
Proof. intros Hg. eapply decides_iff; [exact (decides_query f h g _ Hg)|]. naive_solver. Qed.

Lemma decides_count (count : sql_query Z) field before n :
  decides (parity_count q count field before n : op _) (count d = inr n).
Proof.
  eexists. split; [eapply gives_bind; [apply Hq|apply gives_ret]|]. destruct (count d) as [e|m]; [done|].
  destruct (m =? n) eqn:E; cbn.
  - apply Z.eqb_eq in E as ->. by split.
  - apply Z.eqb_neq in E. split; [done|]. by intros [= ->].
Qed.

Lemma decides_key kind_ id der :
  decides (validateSQLiteKey q kind_ id der : op _) (select_key kind_ id d = inr der).
Proof.
  unfold validateSQLiteKey. apply decides_row. intros x. apply decides_if.
  by rewrite negb_false_iff, String.eqb_eq.
Qed.

Lemma decides_keys kind_ id der :
  decides (if String.eqb der "" then mret None else validateSQLiteKey q kind_ id der : op _)
    (Forall (λ p, select_key p.1.1 p.1.2 d = inr p.2) (key_rows_of kind_ id der)).
Proof.
  unfold key_rows_of. destruct (String.eqb der "").
  - exists None. split; [apply gives_ret|]. by split.
  - eapply decides_iff; [apply decides_key|]. by rewrite Forall_singleton.
Qed.

Lemma decides_record st :
  decides (parity_record q st : op _)
    (select_record d = inr (ID (Spec st), FormatVersion (Spec st), text_of (marshal_spec (Spec st)))).
Proof.
  unfold parity_record. apply decides_row. intros [[i f] t]. apply decides_if.
  rewrite !orb_false_iff, !negb_false_iff, !String.eqb_eq, Z.eqb_eq. naive_solver.
Qed.

Lemma decides_topology st :
  decides (parity_topology q st : op _)
    (∃ pending, select_topology d = inr (Revision st, ActiveRoot st, pending) ∧
      default "" pending = default "" (pending_text st)).
Proof.
  unfold parity_topology. eapply decides_iff.
  { apply decides_query with (Q := λ a, a.1 = (Revision st, ActiveRoot st) ∧ default "" a.2 = default "" (pending_text st)).
    intros [[r a] p]. apply decides_if. unfold same_bytes.
    rewrite !orb_false_iff, !negb_false_iff, String.eqb_eq, !Z.eqb_eq. cbn. naive_solver. }
  split; [intros ([[r a] p] & Ht & [= -> ->] & Hp); by exists p|intros (p & Ht & Hp); by eexists].
Qed.

Lemma decides_root p :
  decides (parity_root q p.1 p.2 : op _) (row_of "root_generations" (root_generations d) p.1 = inr (root_row p.2)).
Proof.
  unfold parity_root. apply (decides_row (select_root p.1)). intros [[c f] t]. apply decides_if. unfold root_row.
  rewrite !orb_false_iff, !negb_false_iff, !String.eqb_eq. naive_solver.
Qed.

Lemma decides_definition p :
  decides (parity_definition q p.1 p.2 : op _)
    (row_of "issuer_definitions" (issuer_definitions d) p.1 = inr (definition_row p.2)).
Proof.
  unfold parity_definition. apply (decides_row (select_definition p.1)). intros [n t]. apply decides_if. unfold definition_row.
  rewrite !orb_false_iff, !negb_false_iff, !String.eqb_eq. naive_solver.
Qed.

Definition version_right (x : string * (Z * issuerVersion)) : Prop :=
  row_of "issuer_versions" (issuer_versions d) (x.1, x.2.1) = inr (version_row x.2.2) ∧
  Forall (λ p, select_key p.1.1 p.1.2 d = inr p.2) (version_keys x).

Lemma decides_version slug p : decides (parity_version q slug p.1 p.2 : op _) (version_right (slug, p)).
Proof.
  unfold parity_version, version_right. eapply decides_iff.
  { apply (decides_query (select_issuer_version slug p.1)) with
      (Q := λ a, a = version_row p.2 ∧ Forall (λ p, select_key p.1.1 p.1.2 d = inr p.2) (version_keys (slug, p))).
    intros [[r c] f]. destruct (negb _ || _ || _) eqn:E.
    - exists (drift "SQLite issuer version" (AInt p.1) (AString f)). split; [apply gives_ret|]. split; [done|].
      intros [[= -> -> ->] _]. by rewrite Z.eqb_refl, !String.eqb_refl in E.
    - rewrite !orb_false_iff, !negb_false_iff, !String.eqb_eq, Z.eqb_eq in E. destruct E as [[-> ->] ->].
      eapply decides_iff; [apply decides_keys|]. unfold version_row, version_keys. naive_solver. }
  unfold select_issuer_version. naive_solver.
Qed.

Lemma decides_issuer p :
  decides (parity_issuer q p.1 p.2 : op _)
    (row_of "issuer_definitions" (issuer_definitions d) p.1 = inr (definition_row p.2) ∧ Forall version_right (pairs_of p)).
Proof.
  unfold parity_issuer. apply decides_and; [apply decides_definition|done|]. eapply decides_iff.
  { apply decides_all. intros x. apply decides_version. }
  unfold pairs_of. by rewrite Forall_map.
Qed.

Lemma version_count st : versionCount st = Z.of_nat (length (version_rows st)).
Proof.
  unfold versionCount, all_versions, version_rows, version_rows_of, version_pairs. rewrite length_map. f_equal.
  induction (map_to_list (Issuers st)) as [|p l IH]; [done|]. cbn. rewrite !length_app, IH. f_equal.
  unfold versions_of, pairs_of. by rewrite !length_map.
Qed.

Lemma key_count_rows {A} (k : A → string * string) (der : A → string) l :
  key_count der l = Z.of_nat (length (concat (map (λ a, key_rows_of (k a).1 (k a).2 (der a)) l))).
Proof.
  unfold key_count. f_equal. induction l as [|a l IH]; [done|]. cbn [map concat]. rewrite length_app, <- IH, filter_cons.
  unfold key_rows_of. by destruct (String.eqb _ _).
Qed.
Lemma key_count_map {A B} (f : A → B) (der : B → string) l : key_count der (map f l) = key_count (λ a, der (f a)) l.
Proof.
  unfold key_count. f_equal. induction l as [|a l IH]; [done|]. cbn [map]. rewrite !filter_cons.
  case_decide; cbn [length]; by rewrite IH.
Qed.
Lemma key_count_total st : keyCount st = Z.of_nat (length (key_rows st)).
Proof.
  unfold keyCount, key_rows. rewrite length_app, Nat2Z.inj_add, Z.add_comm. f_equal.
  - rewrite key_count_map. apply (key_count_rows (λ p, ("root", Itoa p.1))).
  - assert (all_versions st = map (λ x, x.2.2) (version_pairs st)) as ->.
    { unfold all_versions, version_pairs. rewrite concat_map, map_map. f_equal. apply map_ext. intros p.
      unfold versions_of, pairs_of. by rewrite map_map. }
    rewrite key_count_map. apply (key_count_rows (λ x, ("issuer", issuer_key_id x.1 x.2.1))).
Qed.

(** The rows that the loops look at, table by table. *)
Lemma version_rights st :
  Forall (λ p, Forall version_right (pairs_of p)) (map_to_list (Issuers st)) ↔
  Forall (λ p, row_of "issuer_versions" (issuer_versions d) p.1 = inr p.2) (version_rows st) ∧
  Forall (λ p, select_key p.1.1 p.1.2 d = inr p.2) (concat (map version_keys (version_pairs st))).
Proof.
  unfold version_rows, version_rows_of, version_pairs.
  induction (map_to_list (Issuers st)) as [|p l IH]; cbn.
  { rewrite !Forall_nil. tauto. }
  rewrite Forall_cons, IH, !map_app, !concat_app, !Forall_app.
  enough (Forall version_right (pairs_of p) ↔
    Forall (λ p0, row_of "issuer_versions" (issuer_versions d) p0.1 = inr p0.2)
      (map (λ x : string * (Z * issuerVersion), (x.1, x.2.1, version_row x.2.2)) (pairs_of p)) ∧
    Forall (λ p0, select_key p0.1.1 p0.1.2 d = inr p0.2) (concat (map version_keys (pairs_of p)))) as -> by tauto.
  induction (pairs_of p) as [|x xs IHx]; cbn; [rewrite !Forall_nil; tauto|].
  rewrite !Forall_cons, !Forall_app, IHx. unfold version_right. cbn. tauto.
Qed.

(** The check passes exactly the databases that mirror the document. *)
Lemma parity_decides st : decides (validateSQLiteParity q st : op _) (mirrors d st).
Proof.
  unfold validateSQLiteParity. cbn zeta. eapply decides_iff.
  { apply decides_and; [apply decides_record|done|]. apply decides_and; [apply decides_topology|done|].
    apply decides_and; [apply decides_count|done|].
    apply decides_and; [apply decides_all with (Q := λ p, row_of "root_generations" (root_generations d) p.1 = inr (root_row p.2));
      intros; apply decides_root|done|].
    apply decides_and; [apply decides_count|done|].
    apply decides_and; [apply decides_all; intros; apply decides_issuer|done|].
    apply decides_and; [apply decides_all with (Q := λ p, Forall (λ p, select_key p.1.1 p.1.2 d = inr p.2) (root_keys p));
      intros; apply decides_keys|done|].
    apply decides_and; [apply decides_count|done|apply decides_count]. }
  rewrite Forall_and, version_rights, version_count, key_count_total.
  pose proof (table_exact "root_generations" (root_generations d) _ (NoDup_root_rows st)) as Hr.
  pose proof (table_exact "issuer_definitions" (issuer_definitions d) _ (NoDup_definition_rows st)) as Hd.
  pose proof (table_exact "issuer_versions" (issuer_versions d) _ (NoDup_version_rows st)) as Hv.
  pose proof (table_exact "encrypted_keys" (encrypted_keys d) _ (NoDup_key_rows st)) as Hk.
  unfold root_rows at 1 2 in Hr. unfold definition_rows at 1 2 in Hd. rewrite length_map, Forall_map in Hr, Hd.
  unfold key_rows at 2 in Hk. rewrite Forall_app, !Forall_concat, !Forall_map in Hk.
  rewrite !Forall_concat, !Forall_map.
  rewrite <- (length_map_to_list (Roots st)), <- (length_map_to_list (Issuers st)).
  split.
  - intros (H1' & H2' & H3' & H4' & H5' & (H6a & H6b & H6c) & H7' & H8' & H9'). constructor; try done.
    + by apply Hr.
    + by apply Hd.
    + by apply Hv.
    + by apply Hk.
  - intros [H1' H2' H3' H4' H5' H6']. apply Hr in H3' as [? ?]. apply Hd in H4' as [? ?].
    apply Hv in H5' as [? ?]. apply Hk in H6' as [? [? ?]]. split_and!; done.
Qed.
End parity.

(** ** The tables that an update writes *)

(** The rows that statements add to the tables. *)
Record changes := {
  ch_roots : list (Z * (string * string * string));
  ch_definitions : list (string * (string * string));
  ch_versions : list ((string * Z) * (Z * string * string));
  ch_keys : list ((string * string) * string);
}.
Definition nothing : changes := Build_changes [] [] [] [].
Definition after (a b : changes) : changes :=
  Build_changes (ch_roots a ++ ch_roots b) (ch_definitions a ++ ch_definitions b) (ch_versions a ++ ch_versions b)
    (ch_keys a ++ ch_keys b).
Definition each {A} (f : A → changes) (l : list A) : changes := foldr (λ a, after (f a)) nothing l.

Lemma each_cons {A} (f : A → changes) a l : each f (a :: l) = after (f a) (each f l).
Proof. done. Qed.

Definition grown `{Countable K} {V} (t : option (gmap K V)) (rows : list (K * V)) : option (gmap K V) :=
  (λ m, m ∪ list_to_map rows) <$> t.

(** The tables with the rows added; the others stay. *)
Record adds (q : database) (c : changes) (q' : database) : Prop := {
  ad_records : authority_records q' = authority_records q;
  ad_topology : topology_state q' = topology_state q;
  ad_roots : root_generations q' = grown (root_generations q) (ch_roots c);
  ad_definitions : issuer_definitions q' = grown (issuer_definitions q) (ch_definitions c);
  ad_versions : issuer_versions q' = grown (issuer_versions q) (ch_versions c);
  ad_keys : encrypted_keys q' = grown (encrypted_keys q) (ch_keys c);
}.

Lemma grown_nil `{Countable K} {V} (t : option (gmap K V)) : grown t [] = t.
Proof. unfold grown. destruct t; cbn; [|done]. by rewrite map_union_empty. Qed.
Lemma grown_app `{Countable K} {V} (t : option (gmap K V)) a b : grown (grown t a) b = grown t (a ++ b).
Proof. unfold grown. destruct t; cbn; [|done]. by rewrite list_to_map_app, map_union_assoc. Qed.
Lemma add_row_grown `{Countable K} {V} name columns (t : option (gmap K V)) k v t' :
  add_row name columns t k v = inr t' → Some t' = grown t [(k, v)].
Proof.
  unfold add_row, in_table. destruct t as [t|]; [|done]. destruct (t !! k) eqn:E; [done|]. intros [= <-].
  unfold grown. cbn. by rewrite insert_empty, insert_union_singleton_r.
Qed.

Lemma adds_nothing q : adds q nothing q.
Proof. by constructor; cbn; rewrite ?grown_nil. Qed.
Lemma adds_after q a q1 b q2 : adds q a q1 → adds q1 b q2 → adds q (after a b) q2.
Proof.
  intros [] []. constructor; cbn; [congruence..| | | |]; rewrite <- grown_app; congruence.
Qed.

Ltac one_row :=
  unfold updated; let E := fresh in destruct (add_row _ _ _ _ _) eqn:E; [done|]; intros [= <-];
  apply add_row_grown in E; by constructor; cbn; rewrite ?grown_nil.

Lemma insert_root_adds g c f r q q' :
  insert_root g c f r q = inr q' → adds q (Build_changes [(g, (c, f, r))] [] [] []) q'.
Proof. unfold insert_root. one_row. Qed.
Lemma insert_definition_adds slug n t q q' :
  insert_definition slug n t q = inr q' → adds q (Build_changes [] [(slug, (n, t))] [] []) q'.
Proof. unfold insert_definition. one_row. Qed.
Lemma insert_version_adds slug v r c f q q' :
  insert_version slug v r c f q = inr q' → adds q (Build_changes [] [] [((slug, v), (r, c, f))] []) q'.
Proof. unfold insert_version. one_row. Qed.
Lemma insert_key_adds k i der q q' :
  insert_key k i der q = inr q' → adds q (Build_changes [] [] [] [((k, i), der)]) q'.
Proof. unfold insert_key. one_row. Qed.

Section writing.
Context `{Kernel, JSON, SQLite, SQLText, Unicode, Crypto, URLParser} {M : Type}.
Implicit Types (w : world disk (bool * M)) (st : authorityState).
Abbreviation op A := (stm (world disk (bool * M)) A).

Lemma tx_exec_run q f w q' w' : tx_exec q f w = (inr q', w') → f q = inr q'.
Proof. unfold tx_exec, look, call. destruct (fault _) as [[e n]|]; intros E; by simplify_eq/=. Qed.

Lemma exec_each_adds {A} (f : A → database → op (sys_error + database)) (c : A → changes) l :
  (∀ a q w q' w', f a q w = (inr q', w') → adds q (c a) q') →
  ∀ q w q' w', exec_each f l q w = (inr q', w') → adds q (each c l) q'.
Proof.
  intros Hf. unfold exec_each. induction l as [|a l IH]; intros q w q' w' E; cbn [for_each] in E.
  - injection E as -> _. apply adds_nothing.
  - inv_run E. destruct r as [e|q1]; [done|]. eapply adds_after; [by eapply Hf|by eapply IH].
Qed.

(** An optional key after other rows. *)
Lemma sync_key_adds q kind_ id der w q' w' :
  (if String.eqb der "" then mret (inr q) else tx_exec q (insert_key kind_ id der) : op _) w = (inr q', w') →
  adds q (Build_changes [] [] [] (key_rows_of kind_ id der)) q'.
Proof.
  unfold key_rows_of. destruct (String.eqb der ""); intros E.
  - injection E as -> _. apply adds_nothing.
  - by eapply insert_key_adds, tx_exec_run.
Qed.

Lemma sync_root_adds p q w q' w' :
  sync_root p q w = (inr q', w') → adds q (Build_changes [(p.1, root_row p.2)] [] [] (root_keys p)) q'.
Proof.
  destruct p as [g r]. cbn. intros E. inv_run E. destruct r0 as [e|q1]; [done|].
  apply tx_exec_run, insert_root_adds in E0. apply sync_key_adds in E. exact (adds_after _ _ _ _ _ E0 E).
Qed.

Definition version_changes (x : string * (Z * issuerVersion)) : changes :=
  Build_changes [] [] [((x.1, x.2.1), version_row x.2.2)] (version_keys x).
Lemma sync_version_adds slug p q w q' w' :
  sync_version slug p q w = (inr q', w') → adds q (version_changes (slug, p)) q'.
Proof.
  destruct p as [v r]. cbn. intros E. inv_run E. destruct r0 as [e|q1]; [done|].
  apply tx_exec_run, insert_version_adds in E0. apply sync_key_adds in E. exact (adds_after _ _ _ _ _ E0 E).
Qed.

Definition issuer_changes (p : string * issuerRecord) : changes :=
  after (Build_changes [] [(p.1, definition_row p.2)] [] []) (each version_changes (pairs_of p)).
Lemma sync_issuer_adds p q w q' w' : sync_issuer p q w = (inr q', w') → adds q (issuer_changes p) q'.
Proof.
  destruct p as [slug i]. cbn. unfold issuer_changes, definition_row.
  destruct (marshal_definition (Definition_ i)) as [e|text] eqn:Em; [done|]. intros E. inv_run E.
  destruct r as [e|q1]; [done|]. apply tx_exec_run, insert_definition_adds in E0.
  eapply adds_after; [cbn; rewrite Em; exact E0|].
  eapply exec_each_adds with (c := λ p, version_changes (slug, p)) in E; [|intros; by eapply sync_version_adds].
  unfold pairs_of. cbn. assert (∀ l, each version_changes (map (pair slug) l) =
    each (λ p, version_changes (slug, p)) l) as ->; [|done].
  intros l. induction l as [|x l IH]; [done|]. cbn [map]. by rewrite !each_cons, IH.
Qed.

(** Everything the loops write. *)
Lemma changes_of st :
  after (each (λ p, Build_changes [(p.1, root_row p.2)] [] [] (root_keys p)) (map_to_list (Roots st)))
    (each issuer_changes (map_to_list (Issuers st))) =
  Build_changes (root_rows st) (definition_rows st) (version_rows st) (key_rows st).
Proof.
  assert (∀ l, each (λ p, Build_changes [(p.1, root_row p.2)] [] [] (root_keys p)) l =
    Build_changes (map (λ p, (p.1, root_row p.2)) l) [] [] (concat (map root_keys l))) as ->.
  { intros l. induction l as [|p l IH]; [done|]. by rewrite each_cons, IH. }
  assert (∀ l, each version_changes l =
    Build_changes [] [] (version_rows_of l) (concat (map version_keys l))) as Hv.
  { intros l. induction l as [|p l IH]; [done|]. by rewrite each_cons, IH. }
  assert (∀ l, each issuer_changes l = Build_changes [] (map (λ p, (p.1, definition_row p.2)) l)
    (version_rows_of (concat (map pairs_of l))) (concat (map version_keys (concat (map pairs_of l))))) as ->.
  { intros l. induction l as [|p l IH]; [done|]. rewrite each_cons, IH. unfold issuer_changes. rewrite Hv. unfold after. cbn.
    unfold version_rows_of. by rewrite !map_app, concat_app. }
  unfold after. cbn. by rewrite !app_nil_r.
Qed.

(** The tables are emptied first. *)
Lemma deleted_run q w q' w' :
  exec_each (λ f q, tx_exec q f) delete_statements q w = (inr q', w') →
  authority_records q' = Some ∅ ∧ root_generations q' = Some ∅ ∧ issuer_definitions q' = Some ∅ ∧
  issuer_versions q' = Some ∅ ∧ topology_state q' = Some ∅ ∧ encrypted_keys q' = Some ∅.
Proof.
  unfold exec_each, delete_statements. cbn [for_each]. intros E.
  repeat match type of E with
  | _ = _ => inv_run E; match goal with H : tx_exec _ _ _ = (?r, _) |- _ =>
      destruct r as [?|?]; [done|]; apply tx_exec_run in H; unfold delete_all, updated, in_table in H; case_match; [done|];
      injection H as <- end
  end.
  injection E as <- _. repeat match goal with H : match ?t with _ => _ end = inr _ |- _ => destruct t; simplify_eq end.
  done.
Qed.

(** A document written to the tables is mirrored by them. *)
Lemma sync_mirrors q st w q' w' : syncSQLiteTables q st w = (inr q', w') → mirrors q' st.
Proof.
  unfold syncSQLiteTables. intros E. inv_run E. destruct r as [e|q1]; [done|].
  apply deleted_run in E0 as (H1' & H2' & H3' & H4' & H5' & H6').
  destruct (marshal_spec (Spec st)) as [e|spec] eqn:Em; [done|]. inv_run E. destruct r as [e|q2]; [done|].
  apply tx_exec_run in E0. unfold insert_record, updated, add_row, in_table in E0. rewrite H1', lookup_empty in E0.
  injection E0 as <-. inv_run E. destruct r as [e|q3]; [done|].
  eapply exec_each_adds in E0; [|intros; by eapply sync_root_adds]. inv_run E. destruct r as [e|q4]; [done|].
  eapply exec_each_adds in E1; [|intros; by eapply sync_issuer_adds].
  pose proof (adds_after _ _ _ _ _ E0 E1) as Hall. rewrite changes_of in Hall. clear E0 E1.
  destruct Hall as [Hr Ht Hg Hd Hv Hk]. cbn in *. rewrite H2', H3', H4', H6' in *. unfold grown in *. cbn in *.
  rewrite !map_empty_union in *.
  match type of E with match ?m with _ => _ end _ = _ => destruct m as [e|pending] eqn:Ep end; [done|].
  apply tx_exec_run in E. unfold insert_topology, updated, add_row, in_table, bind_uint64 in E.
  destruct (_ <=? _); [done|]. rewrite Ht, H5', lookup_empty in E. injection E as <-. constructor; cbn; try done.
  - unfold select_record, in_table. cbn. rewrite Hr, insert_empty, map_to_list_singleton. by rewrite Em.
  - exists pending. unfold select_topology, row_of, in_table. cbn. rewrite lookup_insert_eq. split; [done|].
    unfold pending_text. destruct (Pending st) as [p|]; [|by injection Ep as <-].
    destruct (marshal_pending p); by simplify_eq/=.
Qed.
End writing.

(** ** Loading what is stored *)
Section loading.
Context `{Kernel, JSON, SQLite, SQLText, Unicode, Crypto, URLParser} {St M : Type} `{!SQLiteLaws, !SQLTextLaws St}.
Implicit Types (w : world disk (bool * M)) (s : SQLiteStore) (st : authorityState).
Abbreviation op A := (stm (world disk (bool * M)) A).

(** No call fails from the [n]th on. *)
Definition quiet_from (n : nat) : Prop := ∀ k, (n ≤ k)%nat → fault k = None.
(** There is a file with the database [d]. *)
Definition database_file (t : tree) (k : string) (d : database) : Prop :=
  ∃ text, kind_at t k = Some (KFile text) ∧ db_parse text = inr d.
(** The database holds the valid document [st] and its rows. *)
Definition authentic (d : database) (st : authorityState) : Prop :=
  ∃ data, select_document d = inr data ∧ unjson_state data = inr st ∧ valid (St := St) st ∧ mirrors d st.

Lemma quiet_next n : quiet_from n → quiet_from (S n).
Proof. intros Hn k Hk. apply Hn. lia. Qed.

Definition calm (d : database) (p : string) (b : bool) w : Prop :=
  quiet_from (d_calls (w_disk w)) ∧ database_file (tree_of w) (key p) d ∧ (w_mem w).1 = b.

Lemma calm_call {A} d p b (f : nat → tree → A * tree) (a : A) :
  (∀ n t, fault n = None → database_file t (key p) d → f n t = (a, t)) → gives (calm d p b) (call f : op _) a.
Proof.
  intros Hf w (Hn & Hd & Hb). eexists. split.
  - unfold call. rewrite Hf; [reflexivity|by apply Hn|done].
  - split; [by apply quiet_next|]. by split.
Qed.

Lemma calm_look {A} d p b (f : tree → sys_error + A) r :
  (∀ t, database_file t (key p) d → f t = r) → gives (calm d p b) (look f : op _) r.
Proof. intros Hf. apply calm_call. intros n t Hn Ht. by rewrite Hn, Hf. Qed.

Lemma calm_query {A} d dsn p ro b (f : sql_query A) :
  open_dsn dsn = inr (p, ro) → gives (calm d p b) (db_query dsn f : op _) (f d).
Proof.
  intros Ho. apply calm_call. intros n t Hn (text & Hk & Hp). rewrite Hn. unfold run_statement. rewrite Ho.
  unfold kind_at in Hk. unfold open_database. destruct (t !! key p) as [m|]; [|done]. cbn in Hk. injection Hk as Hk.
  rewrite Hk, Hp. by destruct (f d).
Qed.

Lemma gives_iff {A} (P : world disk (bool * M) → Prop) (m : op (error + A)) (Q : A → Prop) :
  (∃ r, gives P m r ∧ ∀ a, r = inr a ↔ Q a) → ∀ w, P w → ∃ r w', m w = (r, w') ∧ ∀ a, r = inr a ↔ Q a.
Proof. intros (r & Hr & HQ) w Hw. destruct (Hr w Hw) as (w' & E & _). by exists r, w'. Qed.

Lemma calm_decode d p b dsn ro data :
  open_dsn dsn = inr (p, ro) →
  ∃ r, gives (calm d p b) (decode_document (St := St) (RDB dsn) data) r ∧
    ∀ st, r = inr st ↔ unjson_state data = inr st ∧ valid (St := St) st ∧ mirrors d st.
Proof.
  intros Ho. unfold decode_document. destruct (unjson_state data) as [e|st1].
  { eexists. split; [apply gives_ret|]. naive_solver. }
  destruct (validateState (St := St) st1) as [e|] eqn:Ev.
  { eexists. split; [apply gives_ret|]. intros st. split; [done|]. intros ([= <-] & Hv & _). unfold valid in Hv. congruence. }
  destruct (parity_decides (calm d p b) (RDB dsn) d (λ A f, calm_query d dsn p ro b f Ho) st1) as ([e|] & Hr & HQ).
  - exists (inl e). split; [eapply gives_bind; [exact Hr|apply gives_ret]|]. intros st. split; [done|].
    intros ([= <-] & _ & Hm). by apply HQ in Hm.
  - exists (inr st1). split; [eapply gives_bind; [exact Hr|apply gives_ret]|]. intros st. split.
    + intros [= <-]. split; [done|]. split; [exact Ev|by apply HQ].
    + by intros ([= <-] & _).
Qed.

Lemma calm_load_rows d p b dsn ro :
  open_dsn dsn = inr (p, ro) →
  ∃ r, gives (calm d p b) (load_rows (St := St) dsn) r ∧ ∀ st, r = inr st ↔ authentic d st.
Proof.
  intros Ho. unfold load_rows, authentic. destruct (select_document d) as [e|data] eqn:Es.
  - assert (∃ e', gives (calm d p b) (load_rows (St := St) dsn) (inl e')) as [e' He'].
    { destruct e; eexists; (eapply gives_bind; [by eapply calm_query|]); rewrite Es; apply gives_ret. }
    exists (inl e'). split; [exact He'|]. naive_solver.
  - destruct (calm_decode d p b dsn ro data Ho) as (r & Hr & HQ). exists r. split.
    + eapply gives_bind; [by eapply calm_query|]. by rewrite Es.
    + intros st. rewrite HQ. naive_solver.
Qed.

Lemma calm_load s l b0 issuer d b :
  store_path s l b0 → (issuer = true ∨ b = true) →
  ∃ r, gives (calm d (path s) b) (load (St := St) s issuer) r ∧ ∀ st, r = inr st ↔ authentic d st.
Proof.
  intros Hs Hb. unfold load. destruct issuer.
  - destruct (calm_load_rows d (path s) b (sqliteReadOnlyDSN (path s)) true) as (r & Hr & HQ); [by eapply open_ro_dsn|].
    exists r. split; [|done]. eapply gives_bind; [by apply calm_look|]. cbn iota.
    eapply gives_bind; [eapply gives_bind; [eapply calm_query; by eapply open_ro_dsn|apply gives_ret]|].
    eapply gives_bind; [exact Hr|]. eapply gives_bind; [|apply gives_ret].
    unfold sql_Close, change_. eapply gives_bind; [|apply gives_ret]. apply calm_call. intros n t Hn _. by rewrite Hn.
  - destruct Hb as [Hb|Hb]; [done|]; subst b. destruct (open_dsn_store s l b0 Hs) as [ro Ho].
    destruct (calm_load_rows d (path s) true (dsn s) ro Ho) as (r & Hr & HQ). exists r. split; [|done].
    eapply gives_bind with (a := inr (dsn s)); [|exact Hr]. unfold store_db, is_open, get_mem. intros w Hw. exists w. split; [|done].
    destruct Hw as (_ & _ & Hm). unfold mbind, stm_bind. cbn. by rewrite Hm.
Qed.

(** A committed mutation leaves an authentic database. *)
Lemma mutation_authentic {A} s l b db ro q e (a : A) before st w w' :
  store_path s l b → open_dsn db = inr (path s, ro) →
  store_mutation (St := St) s db q e before a st w = (inr a, w') →
  ∃ d, database_at (tree_of w') (file_key s) = Some d ∧ authentic d (bump_revision before st).
Proof.
  intros Hs Ho. unfold store_mutation. set (s2 := bump_revision before st).
  destruct (validateState (St := St) s2) as [err|] eqn:Ev; [done|].
  destruct (marshal_state s2) as [err|data] eqn:Ej; [done|].
  intros E. inv_run E. destruct r as [err|q1]; [done|]. apply sync_mirrors in E0. inv_run E.
  destruct r as [err|q2]; [done|]. apply tx_exec_run in E1. inv_run E. destruct r as [err|]; [done|].
  inv_run E. apply (commit_run s db ro) in E3 as [_ Hr]; [|done]. destruct r as [err|]; [done|].
  injection E as <-. exists q2. split; [by destruct Hr as [[Hx ?]|]; [destruct Hx|]|]. exists data. split_and!.
  - by eapply upsert_select.
  - exact (marshal_state_law (St := St) s2 data Ev Ej).
  - exact Ev.
  - unfold upsert_document, updated, in_table in E1. destruct (bind_uint64 _); [done|].
    destruct (authority_state q1); [|done]. injection E1 as <-. by destruct E0.
Qed.

Lemma update_authentic {A} s l b (f : authorityState → op (outcome A)) w a w' :
  store_path s l b → update (St := St) s f w = (inr a, w') →
  (∃ st w0 w1, f st w0 = (MNoMutation a, w1)) ∨
  ∃ st w0 st1 w1 d, f st w0 = (MDone a st1, w1) ∧
    database_at (tree_of w') (file_key s) = Some d ∧ authentic d (bump_revision (Revision st) st1).
Proof.
  intros Hs. unfold update. destruct (readOnly s); [done|]. intros E. inv_run E.
  unfold store_db in E0. inv_run E0. injection E0 as <- <-. destruct r0; [|done].
  destruct (open_dsn_store s l b Hs) as [ro Ho]. inv_run E. destruct r as [e|q]; [done|]. inv_run E.
  assert (∀ b0 st w0, mutate_document (St := St) s (dsn s) q b0 st f w0 = (inr a, w') →
    (∃ st w0 w1, f st w0 = (MNoMutation a, w1)) ∨
    ∃ st w0 st1 w1 d, f st w0 = (MDone a st1, w1) ∧
      database_at (tree_of w') (file_key s) = Some d ∧ authentic d (bump_revision (Revision st) st1)) as Hmut.
  { intros b0 st w0 E'. unfold mutate_document in E'. inv_run E'. destruct r0 as [|a'|a' st1]; [done| |].
    - injection E' as -> _. left. by eexists _, _, _.
    - right. assert (a' = a) as ->.
      { unfold store_mutation in E'. destruct (validateState _); [done|]. destruct (marshal_state _); [done|].
        inv_run E'. destruct r0; [done|]. inv_run E'. destruct r0; [done|]. inv_run E'. destruct r0; [done|].
        inv_run E'. destruct r0; [done|]. by injection E'. }
      apply (mutation_authentic s l b (dsn s) ro) in E' as (d & Hd & Ha); [|done|done]. by eexists _, _, _, _, d. }
  destruct r as [[]|data]; try done; [by eapply Hmut|]. inv_run E. destruct r as [e|st]; [done|]. inv_run E.
  destruct r as [e|]; [done|]. by eapply Hmut.
Qed.

Lemma authentic_file t k d st : database_at t k = Some d → authentic d st → database_file t k d.
Proof.
  unfold database_at, database_file. destruct (kind_at t k) as [n|] eqn:Ek; [destruct n|]; try done.
  - destruct (db_parse _) eqn:Ep; [done|]. intros [= ->] _. by eexists.
  - intros [= <-] (data & Hd & _). done.
Qed.
End loading.

(** C8: loading is exact.  When no call fails, the store loads a document exactly
    when the database holds its JSON text, the document is valid, and the tables
    mirror it: the record, the topology, and the roots, issuers, versions and keys
    row by row with none missing and none more. *)
Theorem sql_load_exact `{Kernel, JSON, SQLite, SQLText, Unicode, Crypto, URLParser} {St M : Type}
    `{!SQLiteLaws} s l b d issuer (w : world sqlite_disk M) :
  store_path s l b → quiet_from (d_calls (q_files (w_disk w))) →
  database_file (d_tree (q_files (w_disk w))) (file_key s) d → issuer = true ∨ q_open (w_disk w) = true →
  ∃ r w', b_load (Backend := sqlite_backend St s) issuer w = (r, w') ∧ ∀ st, r = inr st ↔ authentic (St := St) d st.
Proof.
  intros Hs Hn Hd Hb. destruct (calm_load (St := St) (M := M) s l b issuer d (q_open (w_disk w)) Hs Hb) as (r & Hr & HQ).
  destruct (Hr (unpack w)) as (w' & E & _); [by split_and!|]. exists r, (pack w'). split; [|done].
  cbn. unfold lift. by rewrite E.
Qed.

(** C7: what an update stores is loaded again.  After an update that changed the
    authority has succeeded, a load with no failing call answers the mutated document with its new revision,
    and not an error of the parity check. *)
Theorem sql_update_load `{Kernel, JSON, SQLite, SQLText, Unicode, Crypto, URLParser} {St M A : Type}
    `{!SQLiteLaws, !SQLTextLaws St} s l b issuer (f : authorityState → stm (world sqlite_disk M) (outcome A)) w a w' :
  store_path s l b → b_update (Backend := sqlite_backend St s) f w = (inr a, w') →
  (∀ st v, (f st v).1 ≠ MNoMutation a) →
  quiet_from (d_calls (q_files (w_disk w'))) → issuer = true ∨ q_open (w_disk w') = true →
  ∃ st w0 st1 w1 w2, f st w0 = (MDone a st1, w1) ∧
    b_load (Backend := sqlite_backend St s) issuer w' = (inr (bump_revision (Revision st) st1), w2).
Proof.
  intros Hs E Hf Hn Hb. apply lift_run in E.
  eapply (update_authentic s l b) in E as [(st & w0 & w1 & E)|(st & w0 & st1 & w1 & d & E & Hd & Ha)]; [| |done].
  { apply lower_run in E. by destruct (Hf st (pack w0)); rewrite E. }
  apply lower_run in E. exists st, (pack w0), st1, (pack w1).
  destruct (calm_load (St := St) (M := M) s l b issuer d (q_open (w_disk w')) Hs Hb) as (r & Hr & HQ).
  destruct (Hr (unpack w')) as (w2 & E2 & _); [split_and!; [done| |done]; by eapply authentic_file|].
  exists (pack w2). split; [done|]. cbn. unfold lift. rewrite E2. f_equal. by apply HQ.
Qed.
