(* ===== verification/CertsBundle.v ===== *)
(** * Certificate bundles

    [bundle.go]: loading of certificates and keys, the ordering of a chain by
    [normalizeBundle], the additions, the checks and the saved files.  A bundle
    pointer that may be nil is an option; certificates of one list that passed
    the duplicate check have different bytes, so that comparing pointers there
    is comparing values. *)
From S2P Require Import Prelude.
From S2P Require Import GoStrings.
From S2P Require Import GoPath.
From S2P Require Import Utf8.
From S2P Require Import Errors.
From S2P Require Import GoNet.
From S2P Require Import CertsTypes.
From S2P Require Import CertsCrypto.
From S2P Require Import CertsOptions.
From S2P Require Import CertsState.
From S2P Require Import CertsFiles.
#[local] Open Scope stdpp_scope.
#[local] Open Scope Z_scope.

Section bundle.
Context `{Unicode, Crypto}.

Record CertificateBundle := {
  b_certs : list Certificate;
  b_leaf : option Certificate;
  b_intermediates : list Certificate;
  b_root : option Certificate;
  b_key : option Signer;
  b_keyPassphrase : string;
}.

(** ** normalizeBundle *)

Fixpoint check_duplicates (certs : list (option Certificate)) (byRaw : list string)
    : error + list Certificate :=
  match certs with
  | [] => inr []
  | None :: _ => inl (corrupt "nil certificate" None)
  | Some c :: rest =>
      if existsb (String.eqb (Raw c)) byRaw then inl (ConflictError "duplicate certificate" None)
      else match check_duplicates rest (Raw c :: byRaw) with
           | inl e => inl e
           | inr out => inr (c :: out)
           end
  end.

Definition self_signed (c : Certificate) : bool :=
  String.eqb (RawSubject c) (RawIssuer c) && IsCA c && signature_ok c c.

Definition issued_by (child candidate : Certificate) : bool :=
  negb (String.eqb (Raw candidate) (Raw child)) && String.eqb (RawIssuer child) (RawSubject candidate)
  && signature_ok child candidate.

Definition ca_flags (c : Certificate) : bool :=
  IsCA c && BasicConstraintsValid c && negb (no_bit (KeyUsage c) KeyUsageCertSign).

(** The body of the loop that links a certificate to its issuer. *)
Definition find_parent (certs : list Certificate) (child : Certificate) : error + option Certificate :=
  if self_signed child then inr None else
  match filter (λ candidate, issued_by child candidate = true) certs with
  | [] => inr None
  | [parent] =>
      if ca_flags parent then inr (Some parent)
      else inl (corrupt "issuer certificate is not CA-capable" None)
  | _ => inl (ConflictError "ambiguous or cross-signed certificate chain" None)
  end.

(** The map [parents], as the list of its entries in insertion order. *)
Fixpoint link (certs todo : list Certificate) : error + list (Certificate * Certificate) :=
  match todo with
  | [] => inr []
  | child :: rest =>
      match find_parent certs child with
      | inl e => inl e
      | inr p =>
          match link certs rest with
          | inl e => inl e
          | inr l => inr (match p with Some p => (child, p) :: l | None => l end)
          end
      end
  end.

Definition parent_in (parents : list (Certificate * Certificate)) (c : Certificate) : option Certificate :=
  match list_find (λ q, Raw q.1 = Raw c) parents with Some (_, q) => Some q.2 | None => None end.
Definition children_in (parents : list (Certificate * Certificate)) (p : Certificate) : list Certificate :=
  (filter (λ q, Raw q.2 = Raw p) parents).*1.

(** From the bottom to the top.  A certificate met twice is a cycle, so one
    more step than there are certificates is enough. *)
Fixpoint climb (fuel : nat) (parents : list (Certificate * Certificate)) (c : option Certificate)
    (seen : list string) : error + list Certificate :=
  match c, fuel with
  | None, _ => inr []
  | Some _, O => inr []
  | Some c, S fuel' =>
      if existsb (String.eqb (Raw c)) seen then inl (corrupt "certificate cycle" None)
      else match climb fuel' parents (parent_in parents c) (Raw c :: seen) with
           | inl e => inl e
           | inr out => inr (c :: out)
           end
  end.

Definition order_chain (certs : list Certificate) : error + list Certificate :=
  match link certs certs with
  | inl e => inl e
  | inr parents =>
      if existsb (λ p, Nat.ltb 1 (length (children_in parents p))) certs
      then inl (ConflictError "branching certificate chain" None) else
      match filter (λ c, children_in parents c = []) certs with
      | [bottom] =>
          match climb (S (length certs)) parents (Some bottom) [] with
          | inl e => inl e
          | inr ordered =>
              if negb (Nat.eqb (length ordered) (length certs))
              then inl (ConflictError "disconnected certificate material" None) else inr ordered
          end
      | _ => inl (ConflictError "disconnected or ambiguous certificate material" None)
      end
  end.

(** The roles of the members of an ordered chain. *)
Definition assign_roles (ordered : list Certificate) (key : option Signer) : CertificateBundle :=
  let root := match last ordered with
    | Some top => if self_signed top then Some top else None
    | None => None
    end in
  let below := match root with Some _ => take (length ordered - 1) ordered | None => ordered end in
  match ordered with
  | bottom :: _ =>
      if IsCA bottom
      then {| b_certs := ordered; b_leaf := None; b_intermediates := below; b_root := root;
              b_key := key; b_keyPassphrase := "" |}
      else {| b_certs := ordered; b_leaf := Some bottom; b_intermediates := drop 1 below; b_root := root;
              b_key := key; b_keyPassphrase := "" |}
  | [] => {| b_certs := []; b_leaf := None; b_intermediates := []; b_root := None;
             b_key := key; b_keyPassphrase := "" |}
  end.

Definition normalizeBundle (certs : list (option Certificate)) (key : option Signer)
    : error + CertificateBundle :=
  match certs with
  | [] => inr {| b_certs := []; b_leaf := None; b_intermediates := []; b_root := None;
                 b_key := key; b_keyPassphrase := "" |}
  | _ =>
      match check_duplicates certs [] with
      | inl e => inl e
      | inr certs =>
          match order_chain certs with
          | inl e => inl e
          | inr ordered =>
              let r := assign_roles ordered key in
              match key, b_leaf r with
              | Some k, Some leaf =>
                  if publicKeysEqual (Public k) (cert_PublicKey leaf) then inr r
                  else inl (invalid "private key does not match terminal certificate" None)
              | _, _ => inr r
              end
          end
      end
  end.

(** ** Accessors and checks *)

Definition Complete (b : option CertificateBundle) : bool :=
  match b with Some b => bool_decide (is_Some (b_leaf b)) && bool_decide (is_Some (b_root b)) | None => false end.
Definition HasKey (b : option CertificateBundle) : bool :=
  match b with Some b => bool_decide (is_Some (b_key b)) | None => false end.
Definition KeyMatchesLeaf (b : option CertificateBundle) : bool :=
  match b with
  | Some b => match b_key b, b_leaf b with
              | Some k, Some leaf => publicKeysEqual (Public k) (cert_PublicKey leaf)
              | _, _ => false
              end
  | None => false
  end.

Definition Validate (b : option CertificateBundle) : option error :=
  match b with
  | None => Some (invalid "nil certificate bundle" None)
  | Some b => match normalizeBundle (map Some (b_certs b)) (b_key b) with inl e => Some e | inr _ => None end
  end.

(** The chain, the key and the leaf of a [tls.Certificate]. *)
Definition TLSCertificate (b : option CertificateBundle) : error + (list string * Signer * Certificate) :=
  match b with
  | None => inl (NotFoundError "terminal certificate" None)
  | Some r =>
      match b_leaf r, b_key r with
      | None, _ => inl (NotFoundError "terminal certificate" None)
      | Some _, None => inl (NotFoundError "private key" None)
      | Some leaf, Some key =>
          match Validate b with
          | Some e => inl e
          | None => inr (map Raw (leaf :: b_intermediates r), key, leaf)
          end
      end
  end.

Definition UsableAt (b : option CertificateBundle) (t : Time) : option error :=
  match Validate b with
  | Some e => Some e
  | None =>
      if existsb (λ c, (t <? NotBefore c) || (NotAfter c <? t)) (from_option b_certs [] b)
      then Some (invalid "certificate is outside its validity window" None) else None
  end.

(** ** Additions *)

Definition with_passphrase (p : string) (b : CertificateBundle) : CertificateBundle :=
  {| b_certs := b_certs b; b_leaf := b_leaf b; b_intermediates := b_intermediates b; b_root := b_root b;
     b_key := b_key b; b_keyPassphrase := p |}.

(** On an error the old bundle is returned with it. *)
Definition addCertificates (b : CertificateBundle) (add : list (option Certificate))
    : option error * CertificateBundle :=
  match normalizeBundle (map Some (b_certs b) ++ add) (b_key b) with
  | inl e => (Some e, b)
  | inr next => (None, with_passphrase (b_keyPassphrase b) next)
  end.

Definition AddCert (b : option CertificateBundle) (cert : option Certificate)
    : option error * option CertificateBundle :=
  match b with
  | None => (Some (invalid "nil certificate bundle" None), None)
  | Some b => let '(e, b') := addCertificates b [cert] in (e, Some b')
  end.

Definition certsPEM (certs : list Certificate) : string :=
  foldr (λ c out, pem_Encode "CERTIFICATE" (Raw c) +:+ out) "" certs.

Definition AddKeyPEM (b : option CertificateBundle) (data passphrase : string)
    : option error * option CertificateBundle :=
  if HasKey b then (Some (ConflictError "bundle already has a private key" None), b) else
  match parseKeyPEM data passphrase with
  | inl e => (Some e, b)
  | inr key =>
      match normalizeBundle (map Some (from_option b_certs [] b)) (Some key) with
      | inl e => (Some e, b)
      | inr next =>
          (None, Some (match pem_Decode data with
            | Some (type, _, _) =>
                if String.eqb type "ENCRYPTED PRIVATE KEY" then with_passphrase passphrase next else next
            | None => next
            end))
      end
  end.
End bundle.
