(* ===== verification/CertsBundleFacts.v ===== *)
(** * The order of a bundle

    [normalizeBundle] finds the one chain that its certificates form, whatever
    the order they come in. *)
From S2P Require Import Prelude.
From S2P Require Import GoStrings.
From S2P Require Import Utf8.
From S2P Require Import Errors.
From S2P Require Import GoNet.
From S2P Require Import CertsTypes.
From S2P Require Import CertsNames.
From S2P Require Import CertsCrypto.
From S2P Require Import CertsOptions.
From S2P Require Import CertsState.
From S2P Require Import CertsBundle.
#[local] Open Scope stdpp_scope.
#[local] Open Scope Z_scope.

Section facts.
Context `{Unicode, Crypto}.

Lemma check_duplicates_spec l seen out :
  check_duplicates l seen = inr out ↔
  l = map Some out ∧ NoDup (Raw <$> out) ∧ ∀ c, c ∈ out → Raw c ∉ seen.
Proof.
  revert seen out. induction l as [|[c|] l IH]; intros seen out; cbn [check_duplicates].
  - split.
    + intros [= <-]. split_and!; [done|constructor|]. intros c Hc. by apply elem_of_nil in Hc.
    + intros (E & _ & _). by destruct out.
  - destruct (existsb _ seen) eqn:Es.
    + split; [done|]. intros (E & _ & Hn). destruct out as [|c' out]; [done|]. injection E as <- _.
      exfalso. apply (Hn c); [left|]. apply existsb_elem_of in Es as (x & Hx & E%String.eqb_eq). by rewrite E.
    + apply existsb_eqb_false in Es. destruct (check_duplicates l _) as [e|rest] eqn:El.
      * split; [done|]. intros (E & Hnd & Hn). destruct out as [|c' out]; [done|]. injection E as <- E.
        cbn in Hnd. apply NoDup_cons in Hnd as [Hc Hnd]. enough (inl e = inr out) by done.
        rewrite <- El. apply IH. split_and!; [done|done|]. intros d Hd. rewrite not_elem_of_cons. split.
        -- intros Heq. apply Hc. rewrite <- Heq. by apply list_elem_of_fmap_2.
        -- apply Hn. by right.
      * apply IH in El as (-> & Hnd & Hn). split.
        -- intros [= <-]. split_and!; [done| |].
           ++ cbn. constructor; [|done]. intros (d & E & Hd)%list_elem_of_fmap. apply (Hn d Hd). rewrite <- E. left.
           ++ intros d [->|Hd]%elem_of_cons; [done|]. specialize (Hn d Hd). rewrite not_elem_of_cons in Hn. tauto.
        -- intros (E & _ & _). destruct out as [|c' out]; [done|]. injection E as <- E.
           by apply (inj (fmap Some)) in E as ->.
  - split; [done|]. intros (E & _). by destruct out.
Qed.

(** ** Parents *)

Definition par (certs : list Certificate) (c : Certificate) : option Certificate :=
  match find_parent certs c with inr p => p | inl _ => None end.

Lemma find_parent_some certs c p :
  find_parent certs c = inr (Some p) → p ∈ certs ∧ issued_by c p = true ∧ ca_flags p = true.
Proof.
  unfold find_parent. destruct (self_signed c); [done|].
  destruct (filter _ certs) as [|q [|]] eqn:E; [done| |done]. destruct (ca_flags q) eqn:Eq; [|done].
  intros [= <-]. assert (q ∈ filter (λ candidate, issued_by c candidate = true) certs) as Hq by (rewrite E; left).
  apply list_elem_of_filter in Hq as [? ?]. done.
Qed.

Lemma find_parent_perm certs certs' c p :
  certs ≡ₚ certs' → find_parent certs c = inr p → find_parent certs' c = inr p.
Proof.
  intros Hp. unfold find_parent. destruct (self_signed c); [done|].
  assert (filter (λ x, issued_by c x = true) certs ≡ₚ filter (λ x, issued_by c x = true) certs') as Hf by (by rewrite Hp).
  destruct (filter (λ x, issued_by c x = true) certs) as [|q [|]]; [| |done].
  - by apply Permutation_nil_l in Hf as <-.
  - by apply Permutation_singleton_l in Hf as <-.
Qed.

Lemma link_spec certs todo l :
  link certs todo = inr l →
  (∀ c, c ∈ todo → ∃ p, find_parent certs c = inr p) ∧
  l = omap (λ c, (c,.) <$> par certs c) todo.
Proof.
  revert l. induction todo as [|c todo IH]; intros l; cbn [link].
  - intros [= <-]. split; [|done]. intros c Hc. by apply elem_of_nil in Hc.
  - destruct (find_parent certs c) as [|p] eqn:Ec; [done|]. destruct (link certs todo) as [|l'] eqn:El; [done|].
    intros [= <-]. destruct (IH _ eq_refl) as [Hall ->]. split.
    + intros d [->|Hd]%elem_of_cons; [by exists p|by apply Hall].
    + cbn. assert (par certs c = p) as -> by (unfold par; by rewrite Ec). by destruct p.
Qed.

Lemma link_complete certs todo :
  (∀ c, c ∈ todo → ∃ p, find_parent certs c = inr p) →
  link certs todo = inr (omap (λ c, (c,.) <$> par certs c) todo).
Proof.
  induction todo as [|c todo IH]; intros Hall; cbn [link]; [done|].
  destruct (Hall c) as [p Ep]; [left|]. rewrite Ep, IH by (intros d Hd; apply Hall; by right).
  cbn. assert (par certs c = p) as -> by (unfold par; by rewrite Ep). by destruct p.
Qed.

Lemma links_keys certs todo : Raw <$> (omap (λ c, (c,.) <$> par certs c) todo).*1 `sublist_of` Raw <$> todo.
Proof.
  induction todo as [|c todo IH]; [done|]. cbn. destruct (par certs c); cbn.
  - by apply sublist_skip.
  - by apply sublist_cons.
Qed.

Lemma parent_in_perm L1 L2 c :
  NoDup (Raw <$> L1.*1) → L1 ≡ₚ L2 → parent_in L1 c = parent_in L2 c.
Proof.
  intros Hnd Hp. assert (∀ L, NoDup (Raw <$> L.*1) → ∀ p, parent_in L c = Some p ↔ ∃ q, q ∈ L ∧ Raw q.1 = Raw c ∧ q.2 = p) as Hin.
  { clear. intros L Hnd p. unfold parent_in. destruct (list_find _ L) as [[i q]|] eqn:E.
    - apply list_find_Some in E as (Hi & Hq & _). apply list_elem_of_lookup_2 in Hi as Hq'. split.
      + intros [= <-]. by exists q.
      + intros (q' & Hq'' & Eq & <-). f_equal. apply list_elem_of_lookup in Hq'' as [j Hj].
        assert (i = j) as ->; [|congruence].
        eapply NoDup_lookup; [exact Hnd| |]; rewrite !list_lookup_fmap.
        * by rewrite Hi.
        * rewrite Hj. cbn. by rewrite Eq, Hq.
    - split; [done|]. intros (q & Hq & Eq & _). apply list_find_None in E. rewrite Forall_forall in E.
      by destruct (E q). }
  apply option_eq. intros p. rewrite !Hin; [by setoid_rewrite Hp| |done]. by rewrite <- Hp.
Qed.

Lemma children_in_perm L1 L2 p : L1 ≡ₚ L2 → children_in L1 p ≡ₚ children_in L2 p.
Proof. intros Hp. unfold children_in. by rewrite Hp. Qed.

Lemma climb_ext fuel L1 L2 c seen :
  (∀ c, parent_in L1 c = parent_in L2 c) → climb fuel L1 c seen = climb fuel L2 c seen.
Proof.
  intros Hp. revert c seen. induction fuel as [|fuel IH]; intros [c|] seen; cbn [climb]; try done.
  destruct (existsb _ _); [done|]. by rewrite Hp, IH.
Qed.
(** ** The chain *)

Abbreviation links certs := (omap (λ c, (c,.) <$> par certs c) certs).

Lemma parent_in_links certs c p :
  NoDup (Raw <$> certs) → c ∈ certs → parent_in (links certs) c = Some p → par certs c = Some p.
Proof.
  intros Hnd Hc. unfold parent_in. destruct (list_find _ _) as [[i q]|] eqn:E; [|done]. intros [= <-].
  apply list_find_Some in E as (Hi & Eq & _). apply list_elem_of_lookup_2 in Hi.
  apply list_elem_of_omap in Hi as (d & Hd & Ed). destruct (par certs d) as [p|] eqn:Ep; [|done].
  injection Ed as <-. cbn in Eq |- *.
  assert (d = c) as ->; [|done]. apply list_elem_of_lookup in Hd as [j Hj], Hc as [k Hk].
  assert (j = k) as ->; [|congruence].
  eapply NoDup_lookup; [exact Hnd| |]; rewrite list_lookup_fmap; [by rewrite Hj|rewrite Hk; cbn; by rewrite Eq].
Qed.

(** Each member of a chain is issued by the next one, a CA. *)
Definition chain_ok (l : list Certificate) : Prop :=
  ∀ i a b, l !! i = Some a → l !! S i = Some b → issued_by a b = true ∧ ca_flags b = true.

Lemma climb_spec certs fuel c seen out :
  NoDup (Raw <$> certs) → (∀ c', c = Some c' → c' ∈ certs) →
  climb fuel (links certs) c seen = inr out →
  out ⊆ certs ∧ NoDup (Raw <$> out) ∧ (∀ d, d ∈ out → Raw d ∉ seen) ∧ chain_ok out ∧ (∀ d, head out = Some d → c = Some d).
Proof.
  intros Hnd. revert c seen out. induction fuel as [|fuel IH]; intros [c|] seen out Hc; cbn [climb];
    try (intros [= <-]; split_and!; [apply list_subseteq_nil|constructor|intros d Hd; by apply elem_of_nil in Hd|by intros i a b|done]).
  destruct (existsb _ seen) eqn:Es; [done|]. apply existsb_eqb_false in Es.
  destruct (climb fuel _ _ _) as [|rest] eqn:E; [done|]. intros [= <-].
  pose proof (Hc c eq_refl) as Hin.
  assert (∀ p, parent_in (links certs) c = Some p → p ∈ certs ∧ issued_by c p = true ∧ ca_flags p = true) as Hpar.
  { intros p Ep. apply parent_in_links in Ep; [|done|done]. unfold par in Ep.
    destruct (find_parent certs c) as [|q] eqn:Eq; [done|]. subst q. by apply find_parent_some. }
  destruct (IH _ _ _ (λ p Ep, proj1 (Hpar p Ep)) E) as (Hsub & Hnd' & Hseen & Hchain & Hhead).
  split_and!.
  - intros d [->|Hd]%elem_of_cons; [done|by apply Hsub].
  - cbn. constructor; [|done]. intros (d & Ed & Hd)%list_elem_of_fmap. apply (Hseen d Hd). rewrite Ed. left.
  - intros d [->|Hd]%elem_of_cons; [done|]. specialize (Hseen d Hd). rewrite not_elem_of_cons in Hseen. tauto.
  - intros [|i] a b Ha Hb; cbn in Ha, Hb; [|by eapply Hchain]. injection Ha as <-.
    destruct rest as [|d rest]; [done|]. injection Hb as <-. destruct (Hpar d (Hhead d eq_refl)) as (_ & ? & ?). done.
  - intros d [= <-]. done.
Qed.

Lemma NoDup_Raw l : NoDup (Raw <$> l) → NoDup l.
Proof. apply NoDup_fmap_1. Qed.

Lemma order_chain_spec certs out :
  NoDup (Raw <$> certs) → order_chain certs = inr out → out ≡ₚ certs ∧ chain_ok out.
Proof.
  intros Hnd. unfold order_chain. destruct (link certs certs) as [|l] eqn:El; [done|].
  apply link_spec in El as [_ ->]. destruct (existsb _ certs); [done|].
  destruct (filter _ certs) as [|bottom [|]] eqn:Ef; [done| |done].
  destruct (climb _ _ _ _) as [|ordered] eqn:Ec; [done|].
  destruct (Nat.eqb_spec (length ordered) (length certs)) as [Hlen|]; [|done]. intros [= <-].
  apply climb_spec in Ec as (Hsub & Hno & _ & Hch & _); [|done|].
  - split; [|done]. apply submseteq_length_Permutation; [|lia].
    apply NoDup_submseteq; [by apply NoDup_Raw|done].
  - intros c [= <-]. assert (bottom ∈ filter (λ c, children_in (links certs) c = []) certs) as Hb by (rewrite Ef; left).
    by apply list_elem_of_filter in Hb as [_ ?].
Qed.

Lemma order_chain_perm l1 l2 out :
  NoDup (Raw <$> l1) → l1 ≡ₚ l2 → order_chain l1 = inr out → order_chain l2 = inr out.
Proof.
  intros Hnd Hp. unfold order_chain. destruct (link l1 l1) as [|L1] eqn:El; [done|].
  apply link_spec in El as [Hall ->].
  assert (∀ c, c ∈ l2 → ∃ p, find_parent l2 c = inr p) as Hall2.
  { intros c Hc. destruct (Hall c) as [p Ep]; [by rewrite Hp|]. exists p. by eapply find_parent_perm. }
  rewrite (link_complete _ _ Hall2).
  assert (links l1 ≡ₚ links l2) as HL.
  { transitivity (omap (λ c, (c,.) <$> par l2 c) l1); [|by rewrite Hp].
    assert (∀ c, c ∈ l1 → par l1 c = par l2 c) as Hpar.
    { intros c Hc. destruct (Hall c Hc) as [p Ep]. unfold par. by rewrite Ep, (find_parent_perm _ _ _ _ Hp Ep). }
    clear -Hpar. revert Hpar. generalize (par l1) (par l2). intros f g Hfg. induction l1 as [|c l IH]; [done|].
    cbn. rewrite (Hfg c) by left. assert (omap (λ c, (c,.) <$> f c) l ≡ₚ omap (λ c, (c,.) <$> g c) l) as E
      by (apply IH; intros d Hd; apply Hfg; by right). destruct (g c); cbn; by rewrite E. }
  assert (NoDup (Raw <$> (links l1).*1)) as Hk.
  { eapply sublist_NoDup; [exact Hnd|apply links_keys]. }
  assert (∀ p, length (children_in (links l1) p) = length (children_in (links l2) p)) as Hlen
    by (intros p; by rewrite (children_in_perm _ _ p HL)).
  destruct (existsb _ l1) eqn:E1; [done|].
  assert (existsb (λ p, Nat.ltb 1 (length (children_in (links l2) p))) l2 = false) as ->.
  { apply not_true_iff_false. rewrite existsb_elem_of. intros (p & Hpin & Hlt).
    apply not_true_iff_false in E1. apply E1, existsb_elem_of. exists p. rewrite Hlen. split; [by rewrite Hp|done]. }
  assert (filter (λ c, children_in (links l1) c = []) l1 ≡ₚ filter (λ c, children_in (links l2) c = []) l2) as Hf.
  { transitivity (filter (λ c, children_in (links l1) c = []) l2); [by apply filter_Permutation|].
    apply reflexive_eq, list_filter_iff. intros c. pose proof (Hlen c) as E.
    destruct (children_in (links l1) c), (children_in (links l2) c); done. }
  destruct (filter _ l1) as [|bottom [|]]; [done| |done].
  apply Permutation_singleton_l in Hf as <-.
  rewrite (climb_ext _ (links l1) (links l2)), (Permutation_length Hp) by
    (intros c; by apply parent_in_perm). done.
Qed.
(** ** Bundles *)

Lemma normalizeBundle_inv certs key b :
  normalizeBundle certs key = inr b → certs ≠ [] →
  ∃ l ordered, certs = map Some l ∧ NoDup (Raw <$> l) ∧ order_chain l = inr ordered ∧
    b = assign_roles ordered key ∧
    (∀ k leaf, key = Some k → b_leaf b = Some leaf → publicKeysEqual (Public k) (cert_PublicKey leaf) = true).
Proof.
  intros E Hne. unfold normalizeBundle in E. destruct certs as [|c0 certs]; [done|].
  destruct (check_duplicates _ _) as [|l] eqn:Ed; [done|]. apply check_duplicates_spec in Ed as (El & Hnd & _).
  destruct (order_chain l) as [|ordered] eqn:Eo; [done|]. exists l, ordered.
  destruct key as [k|]; [destruct (b_leaf (assign_roles ordered (Some k))) as [leaf|] eqn:Eleaf|].
  - destruct (publicKeysEqual _ _) eqn:Ek; [|done]. injection E as <-. split_and!; try done.
    intros k' leaf' [= <-] E'. rewrite Eleaf in E'. by injection E' as <-.
  - injection E as <-. split_and!; try done. intros k' leaf' [= <-] E'. congruence.
  - injection E as <-. by split_and!.
Qed.

Lemma roles_certs ordered key : b_certs (assign_roles ordered key) = ordered ∧ b_key (assign_roles ordered key) = key.
Proof. destruct ordered as [|bottom rest]; [done|]. cbn. by destruct (IsCA bottom). Qed.

Lemma take_last {A} (l : list A) x : last l = Some x → take (length l - 1) l ++ [x] = l.
Proof.
  intros Hl. apply last_Some in Hl as [l' ->]. rewrite length_app, Nat.add_sub. by rewrite take_app_length.
Qed.

(** The leaf, the intermediates and the root are the chain. *)
Lemma roles_partition ordered key (b := assign_roles ordered key) :
  ordered = option_list (b_leaf b) ++ b_intermediates b ++ option_list (b_root b) ∧
  (b_leaf b = match ordered with c :: _ => if IsCA c then None else Some c | [] => None end) ∧
  (∀ r, b_root b = Some r → self_signed r = true) ∧
  (∀ top, last ordered = Some top → self_signed top = true → b_root b = Some top).
Proof.
  subst b. destruct ordered as [|bottom rest]; [done|]. unfold assign_roles.
  destruct (last (bottom :: rest)) as [top|] eqn:El; [|by rewrite last_cons in El; destruct (last rest)].
  pose proof (take_last _ _ El) as Ht. destruct (self_signed top) eqn:Es.
  - destruct (IsCA bottom) eqn:Eb; cbn [b_leaf b_intermediates b_root option_list].
    + split_and!; [by symmetry|done|by intros r [= <-]|by intros ? [= <-]].
    + split_and!; [|done|by intros r [= <-]|by intros ? [= <-]].
      destruct rest as [|c rest].
      * injection El as ->. unfold self_signed in Es. rewrite Eb, andb_false_r in Es. done.
      * rewrite <- Ht at 1. cbn. by rewrite drop_0.
  - destruct (IsCA bottom) eqn:Eb; cbn [b_leaf b_intermediates b_root option_list].
    + rewrite app_nil_r. split_and!; [done|done|done|]. intros ? [= <-]. congruence.
    + rewrite app_nil_r. split_and!; [done|done|done|]. intros ? [= <-]. congruence.
Qed.

(** C14: a bundle that [normalizeBundle] accepts is one chain: it holds exactly
    the given certificates, each once, ordered so that every certificate is
    issued by the next one, which is CA-capable and whose signature check
    passed; the leaf is the first one unless that is a CA, the root is the last
    one when it is self-signed, the intermediates are the rest in between, and
    a private key goes with the leaf. *)
Theorem normalizeBundle_spec certs key b :
  normalizeBundle certs key = inr b →
  certs ≡ₚ map Some (b_certs b) ∧ NoDup (Raw <$> b_certs b) ∧ chain_ok (b_certs b) ∧ b_key b = key ∧
  b_certs b = option_list (b_leaf b) ++ b_intermediates b ++ option_list (b_root b) ∧
  (b_leaf b = match b_certs b with c :: _ => if IsCA c then None else Some c | [] => None end) ∧
  (∀ r, b_root b = Some r → self_signed r = true) ∧
  (∀ top, last (b_certs b) = Some top → self_signed top = true → b_root b = Some top) ∧
  (∀ k leaf, key = Some k → b_leaf b = Some leaf → publicKeysEqual (Public k) (cert_PublicKey leaf) = true).
Proof.
  intros E. destruct (decide (certs = [])) as [->|Hne].
  { injection E as <-. cbn. split_and!; try done. constructor. }
  destruct (normalizeBundle_inv _ _ _ E Hne) as (l & ordered & -> & Hnd & Eo & -> & Hkey).
  destruct (order_chain_spec _ _ Hnd Eo) as [Hperm Hch].
  destruct (roles_certs ordered key) as [Ec Ek]. rewrite Ec, Ek.
  destruct (roles_partition ordered key) as (Hp1 & Hp2 & Hp3 & Hp4).
  split_and!; try done.
  - by apply fmap_Permutation.
  - by rewrite Hperm.
Qed.

Lemma normalizeBundle_certs certs key b : normalizeBundle certs key = inr b → certs ≡ₚ map Some (b_certs b).
Proof.
  intros E. destruct (decide (certs = [])) as [->|Hne]; [by injection E as <-|].
  destruct (normalizeBundle_inv _ _ _ E Hne) as (l & ordered & -> & Hnd & Eo & -> & _).
  destruct (roles_certs ordered key) as [-> _]. apply fmap_Permutation. symmetry. by apply (order_chain_spec _ _ Hnd Eo).
Qed.

Lemma normalizeBundle_perm_go certs certs' key b :
  certs ≡ₚ certs' → normalizeBundle certs key = inr b → normalizeBundle certs' key = inr b.
Proof.
  intros Hp E. destruct (decide (certs = [])) as [->|Hne].
  { by apply Permutation_nil_l in Hp as <-. }
  destruct (normalizeBundle_inv _ _ _ E Hne) as (l & ordered & -> & Hnd & Eo & -> & Hkey).
  assert (∃ l', certs' = map Some l' ∧ l ≡ₚ l') as (l' & -> & Hl).
  { symmetry in Hp. apply (Permutation_map_inv Some l) in Hp as (l' & -> & Hl). by exists l'. }
  assert (map Some l' ≠ []) as Hne' by (intros Hn; rewrite Hn in Hp; symmetry in Hp; by apply Permutation_nil_l in Hp).
  unfold normalizeBundle. destruct (map Some l') as [|x xs] eqn:Ex; [done|]. rewrite <- Ex.
  rewrite (proj2 (check_duplicates_spec (map Some l') [] l')).
  2:{ split_and!; [done|by rewrite <- Hl|]. intros c _. apply not_elem_of_nil. }
  rewrite (order_chain_perm _ _ _ Hnd Hl Eo).
  destruct key as [k|]; [|done]. destruct (b_leaf (assign_roles ordered (Some k))) as [leaf|] eqn:Eleaf; [|done].
  by rewrite (Hkey k leaf).
Qed.

(** The order in which certificates are given does not matter, and a bundle
    validates: [normalizeBundle] returns the same bundle for every permutation
    of the input, so normalising the members of a bundle again gives it back
    and [Validate] accepts it. *)
Theorem normalizeBundle_perm certs certs' key b :
  certs ≡ₚ certs' → normalizeBundle certs key = inr b →
  normalizeBundle certs' key = inr b ∧ normalizeBundle (map Some (b_certs b)) (b_key b) = inr b ∧
  Validate (Some b) = None.
Proof.
  intros Hp E. assert (normalizeBundle (map Some (b_certs b)) (b_key b) = inr b) as Hb.
  { destruct (decide (certs = [])) as [->|Hne]; [by injection E as <-|].
    destruct (normalizeBundle_inv _ _ _ E Hne) as (l & ordered & -> & Hnd & Eo & -> & _).
    destruct (roles_certs ordered key) as [-> ->]. apply (normalizeBundle_perm_go (map Some l)); [|done].
    apply fmap_Permutation. symmetry. by apply (order_chain_spec _ _ Hnd Eo). }
  split_and!; [by eapply normalizeBundle_perm_go|done|]. unfold Validate. by rewrite Hb.
Qed.
End facts.
