(* ===== verification/CertsLoad.v ===== *)
(** * Loading and saving bundles

    The parts of [bundle.go] and [csr.go] that read PEM input and files, and
    that write files: the loaders, the additions from PEM and from paths, the
    certificate signing request and the save operations. *)
From S2P Require Import Prelude.
From S2P Require Import GoStrings.
From S2P Require Import GoPath.
From S2P Require Import Utf8.
From S2P Require Import Errors.
From S2P Require Import GoNet.
From S2P Require Import CertsTypes.
From S2P Require Import CertsCrypto.
From S2P Require Import CertsOptions.
From S2P Require Import CertsState.
From S2P Require Import CertsBackend.
From S2P Require Import CertsAuthority.
From S2P Require Import CertsFiles.
From S2P Require Import CertsBundle.
From S2P Require Import CertsNames.
From S2P Require Import CertsBundleFacts.
#[local] Open Scope stdpp_scope.
#[local] Open Scope Z_scope.

(** ** PEM input *)
Section pem.
Context `{Crypto}.

(** One turn of the loop takes a block off the input; each block consumes
    input, so the bound is not reached. *)
Fixpoint parse_blocks (fuel : nat) (rest : string) : error + list Certificate :=
  if String.eqb (TrimSpace rest) "" then inr [] else
  match fuel with
  | O => inl (Errorf "out of fuel" None)
  | S fuel' =>
      match pem_Decode rest with
      | None => inl (corrupt "malformed certificate PEM" None)
      | Some (type, bytes, next) =>
          if negb (String.eqb type "CERTIFICATE")
          then inl (corrupt "non-certificate PEM block in certificate input" None) else
          match x509_ParseCertificates bytes with
          | inl e => inl (corrupt "invalid certificate DER" (Some (Sys e)))
          | inr [c] =>
              match parse_blocks fuel' next with
              | inl e => inl e
              | inr out => inr (c :: out)
              end
          | inr _ => inl (corrupt "certificate PEM block must contain one certificate" None)
          end
      end
  end.

Definition parseCertificatesPEM (data : string) : error + list Certificate :=
  match parse_blocks (slen data) data with
  | inl e => inl e
  | inr [] => inl (corrupt "certificate input is empty" None)
  | inr out => inr out
  end.
End pem.

Section load.
Context `{Host, Unicode, Crypto, !Env} {St : Type}.

Abbreviation io A := (proc fs_call A).

(** Encryption is numbered by the calls made so far. *)
#[export] Instance history_draws : Draws history := λ A f h, (f (length h), h).

(** ** Loading *)

Definition load_pem (data : string) (acc : list Certificate) : error + list Certificate :=
  match parseCertificatesPEM data with inl e => inl e | inr l => inr (acc ++ l) end.

Definition load_path (path : string) (acc : list Certificate) : io (error + list Certificate) :=
  let! data := readRegular path else e => mret (inl e) in
  mret (match parseCertificatesPEM data with
        | inl e => inl (Errorf ("certs: load " +:+ path) (Some e))
        | inr l => inr (acc ++ l)
        end).

Definition loadCertificateInputs (o : optionValues St) : io (error + list Certificate) :=
  let! acc := for_each (λ data acc, mret (load_pem data acc)) (certPEM o) (certificates o)
    else e => mret (inl e) in
  for_each load_path (certPaths o) acc.

Definition loadCertificateBundle (o : optionValues St) : io (error + CertificateBundle) :=
  if keyPassphraseSet o && negb (keyPathSet o)
  then mret (inl (invalid "WithKeyPassphrase requires WithKeyPath" None)) else
  let! certs := loadCertificateInputs o else e => mret (inl e) in
  let key := if keySet o then key o else None in
  let! b := mret (normalizeBundle (map Some certs) key) else e => mret (inl e) in
  let! b := (if keyPathSet o then
      let! data := readRegular (keyPath o) else e => mret (inl e) in
      mret (match AddKeyPEM (Some b) data (keyPassphrase o) with
            | (Some e, _) => inl e
            | (None, b') => inr (default b b')
            end)
    else mret (inr b)) else e => mret (inl e) in
  mret (if Nat.eqb (length certs) 0 && negb (keyPathSet o) && negb (keySet o)
        then inl (invalid "at least one certificate or key is required" None) else inr b).

Definition LoadBundle (opts : list (option (option_ St))) : io (error + CertificateBundle) :=
  match parseOptions scopeLoad opts with
  | inl e => mret (inl e)
  | inr o => loadCertificateBundle o
  end.

Definition NewCertificateBundle (opts : list (option (option_ St))) : io (error + CertificateBundle) :=
  match parseOptions scopeLoad opts with
  | inl e => mret (inl e)
  | inr o => loadCertificateBundle o
  end.

(** ** Additions *)

Definition AddCertPEM (b : option CertificateBundle) (data : string) : option error * option CertificateBundle :=
  match b with
  | None => (Some (invalid "nil certificate bundle" None), None)
  | Some r =>
      match parseCertificatesPEM data with
      | inl e => (Some e, b)
      | inr add => let '(e, b') := addCertificates r (map Some add) in (e, Some b')
      end
  end.

Definition AddCertPath (b : option CertificateBundle) (path : string)
    : io (option error * option CertificateBundle) :=
  match b with
  | None => mret (Some (invalid "nil certificate bundle" None), None)
  | Some _ => let! data := readRegular path else e => mret (Some e, b) in mret (AddCertPEM b data)
  end.

Definition AddKey (b : option CertificateBundle) (path passphrase : string)
    : io (option error * option CertificateBundle) :=
  let! data := readRegular path else e => mret (Some e, b) in
  mret (AddKeyPEM b data passphrase).

(** ** Saving *)

Abbreviation save_opts := (list (option (option_ St))).

Definition mode_public : Z := 420. (* 0644 *)
Definition mode_private : Z := 384. (* 0600 *)

Definition SaveCertificate (b : option CertificateBundle) (path : string) (opts : save_opts) : io (option error) :=
  match b ≫= b_leaf with
  | None => mret (Some (NotFoundError "terminal certificate" None))
  | Some leaf => atomicSave path (certsPEM [leaf]) mode_public opts
  end.

Definition SaveTLSChain (b : option CertificateBundle) (path : string) (opts : save_opts) : io (option error) :=
  match b with
  | Some r =>
      match b_leaf r with
      | Some leaf => atomicSave path (certsPEM (leaf :: b_intermediates r)) mode_public opts
      | None => mret (Some (NotFoundError "terminal certificate" None))
      end
  | None => mret (Some (NotFoundError "terminal certificate" None))
  end.

Definition SaveFullChain (b : option CertificateBundle) (path : string) (opts : save_opts) : io (option error) :=
  match b with
  | Some r => if Complete b then atomicSave path (certsPEM (b_certs r)) mode_public opts
              else mret (Some (NotFoundError "complete certificate chain" None))
  | None => mret (Some (NotFoundError "complete certificate chain" None))
  end.

Definition SaveCertificates (b : option CertificateBundle) (path : string) (opts : save_opts) : io (option error) :=
  match b with
  | Some r => match b_certs r with
              | [] => mret (Some (NotFoundError "certificates" None))
              | certs => atomicSave path (certsPEM certs) mode_public opts
              end
  | None => mret (Some (NotFoundError "certificates" None))
  end.

Definition SaveKey (b : option CertificateBundle) (path : string) (opts : save_opts) : io (option error) :=
  match b with
  | Some r =>
      match b_key r with
      | None => mret (Some (NotFoundError "private key" None))
      | Some k => let! v := marshalKeyPEM k (b_keyPassphrase r) else e => mret (Some e) in
                  atomicSave path v mode_private opts
      end
  | None => mret (Some (NotFoundError "private key" None))
  end.

(** One file of [Save], under its name in the result. *)
Definition save_step (name path : string) (wanted : bool) (save : io (option error))
    (out : list (string * string)) : io (error + list (string * string)) :=
  if wanted then check! save else e => mret (inl e) in mret (inr (out ++ [(name, path)])) else mret (inr out).

Definition Save (b : CertificateBundle) (directory : string) (opts : save_opts)
    : io (error + list (string * string)) :=
  check! validateDirectory directory else e => mret (inl e) in
  let file name := PJoin [directory; name] in
  let bp := Some b in
  let! out := save_step "certificates" (file "certificates.pem") (negb (Nat.eqb (length (b_certs b)) 0))
    (SaveCertificates bp (file "certificates.pem") opts) [] else e => mret (inl e) in
  let! out := save_step "chain" (file "chain.pem") (bool_decide (is_Some (b_leaf b)))
    (SaveTLSChain bp (file "chain.pem") opts) out else e => mret (inl e) in
  let! out := save_step "fullchain" (file "fullchain.pem")
    (bool_decide (is_Some (b_root b)) && bool_decide (is_Some (b_leaf b)))
    (SaveFullChain bp (file "fullchain.pem") opts) out else e => mret (inl e) in
  let! out := save_step "key" (file "key.pem") (bool_decide (is_Some (b_key b)))
    (SaveKey bp (file "key.pem") opts) out else e => mret (inl e) in
  mret (match out with [] => inl (NotFoundError "bundle material" None) | _ => inr out end).
End load.

(** ** What loading gives *)
Section pem_facts.
Context `{CryptoLaws}.

(** A certificate that came out of the parser. *)
Definition parsed (c : Certificate) : Prop := x509_ParseCertificate (Raw c) = inr c.

Lemma parse_blocks_fuel f rest : (slen rest ≤ f)%nat → parse_blocks f rest = parse_blocks (slen rest) rest.
Proof.
  remember (slen rest) as n eqn:En. assert (slen rest ≤ n)%nat as Hn by lia. clear En.
  revert f rest Hn. induction n as [|n IH]; intros f rest Hn Hf.
  - destruct rest; [|cbn in Hn; lia]. by destruct f.
  - destruct f as [|f]; [lia|]. cbn [parse_blocks]. destruct (String.eqb _ _); [done|].
    destruct (pem_Decode rest) as [[[type bytes] next]|] eqn:Ed; [|done]. apply pem_shorter in Ed.
    destruct (negb _); [done|]. destruct (x509_ParseCertificates bytes) as [|[|c [|]]]; try done.
    by rewrite (IH f next) by lia.
Qed.

(** The loop without the bound. *)
Lemma parse_blocks_step rest :
  parse_blocks (slen rest) rest =
  if String.eqb (TrimSpace rest) "" then inr [] else
  match pem_Decode rest with
  | None => inl (corrupt "malformed certificate PEM" None)
  | Some (type, bytes, next) =>
      if negb (String.eqb type "CERTIFICATE")
      then inl (corrupt "non-certificate PEM block in certificate input" None) else
      match x509_ParseCertificates bytes with
      | inl e => inl (corrupt "invalid certificate DER" (Some (Sys e)))
      | inr [c] =>
          match parse_blocks (slen next) next with
          | inl e => inl e
          | inr out => inr (c :: out)
          end
      | inr _ => inl (corrupt "certificate PEM block must contain one certificate" None)
      end
  end.
Proof.
  rewrite <- (parse_blocks_fuel (S (slen rest)) rest) by lia. cbn [parse_blocks].
  destruct (String.eqb _ _); [done|]. destruct (pem_Decode rest) as [[[type bytes] next]|] eqn:Ed; [|done].
  apply pem_shorter in Ed. destruct (negb _); [done|]. destruct (x509_ParseCertificates bytes) as [|[|c [|]]]; try done.
  by rewrite (parse_blocks_fuel (slen rest) next) by lia.
Qed.

Lemma parse_blocks_certs certs rest out :
  Forall parsed certs → parse_blocks (slen rest) rest = inr out →
  parse_blocks (slen (certsPEM certs +:+ rest)) (certsPEM certs +:+ rest) = inr (certs ++ out).
Proof.
  intros Hc Hrest. induction Hc as [|c certs Hc _ IH]; [done|].
  change (certsPEM (c :: certs)) with (pem_Encode "CERTIFICATE" (Raw c) +:+ certsPEM certs).
  rewrite sapp_assoc, parse_blocks_step.
  assert ("CERTIFICATE" ∈ pem_types) as Ht by (do 2 right; left).
  destruct (pem_head _ (Raw c) Ht) as (ch & s & Eh & Hvis).
  destruct (String.eqb_spec (TrimSpace (pem_Encode "CERTIFICATE" (Raw c) +:+ (certsPEM certs +:+ rest))) "") as [E|_].
  { exfalso. revert E. rewrite Eh. cbn [String.append]. by apply TrimSpace_visible. }
  rewrite (pem_round _ _ _ Ht), String.eqb_refl. cbn [negb].
  rewrite (parse_sequence _ _ Hc), IH. done.
Qed.

Lemma parseCertificatesPEM_ok certs :
  certs ≠ [] → Forall parsed certs → parseCertificatesPEM (certsPEM certs) = inr certs.
Proof.
  intros Hne Hc. unfold parseCertificatesPEM.
  rewrite <- (sapp_nil_r (certsPEM certs)), (parse_blocks_certs _ "" []) by done.
  rewrite app_nil_r. by destruct certs.
Qed.

End pem_facts.

(** * What loading gives back

    The certificates of a bundle, written as PEM and loaded again. *)
From coqutil Require Import Datatypes.RecordSetters.
Import DoubleBraceUpdate.
#[local] Open Scope stdpp_scope.
#[local] Open Scope Z_scope.

Section load_facts.
Context `{Host, CryptoLaws, Unicode} {St : Type}.

(** The options with some PEM inputs and perhaps a key. *)
Definition pem_options (pems : list string) (key : option Signer) : list (option (option_ St)) :=
  map WithCertPEM pems ++ match key with Some k => [WithKey (Some k)] | None => [] end.

Lemma certsPEM_ne certs : certs ≠ [] → certsPEM certs ≠ "".
Proof.
  destruct certs as [|c certs]; [done|]. intros _. cbn.
  destruct (pem_head "CERTIFICATE" (Raw c)) as (ch & s & -> & _); [by do 2 right; left|]. done.
Qed.

Definition pem_values (pems : list string) (k : option Signer) : optionValues St :=
  match k with
  | Some k' => zero_options {{ certPEM := pems; key := Some k'; keySet := true }}
  | None => zero_options {{ certPEM := pems }}
  end.

Lemma parse_pem_options scope pems k :
  scope = scopeLoad ∨ scope = scopeTrustBundle ∧ k = None →
  Forall (λ p, p ≠ "") pems → parseOptions scope (pem_options pems k) = inr (pem_values pems k).
Proof.
  intros Hscope Hp. unfold parseOptions, pem_options.
  assert (∀ acc seen, Forall (λ n, n = "WithCertPEM") seen →
    parse_loop scope (map WithCertPEM pems ++ match k with Some k => [WithKey (Some k)] | None => [] end)
      seen (zero_options {{ certPEM := acc }}) = inr (pem_values (acc ++ pems) k)) as Hgo.
  { induction Hp as [|p pems Hp _ IH]; intros acc seen Hs.
    - rewrite app_nil_r. destruct k as [k|]; [|done]. destruct Hscope as [->|[_ ?]]; [|done]. cbn [map app parse_loop].
      assert (existsb (String.eqb "WithKey") seen = false) as Hk.
      { apply existsb_eqb_false. intros Hx. rewrite Forall_forall in Hs. by apply Hs in Hx. }
      cbn [WithKey makeOption opt_name]. rewrite Hk. done.
    - cbn [map app parse_loop]. assert (validFor (St := St) {| opt_name := "WithCertPEM";
          opt_scopes := Z.lor scopeLoad scopeTrustBundle; opt_fn := λ o, inr o |} scope = true) as Hv
        by (by destruct Hscope as [->|[-> _]]).
      cbn [WithCertPEM makeOption opt_name opt_fn]. unfold validFor in Hv |- *. cbn [opt_scopes] in Hv |- *.
      rewrite Hv. cbn [negb repeatable String.eqb]. cbn -[parse_loop zero_options].
      rewrite andb_false_r. destruct (String.eqb_spec p ""); [done|].
      specialize (IH (acc ++ [p]) ("WithCertPEM" :: seen)). rewrite <- app_assoc in IH. apply IH.
      by constructor. }
  apply (Hgo [] []). constructor.
Qed.

Lemma load_pem_ok l acc : l ≠ [] → Forall parsed l → load_pem (certsPEM l) acc = inr (acc ++ l).
Proof. intros Hne Hl. unfold load_pem. by rewrite parseCertificatesPEM_ok. Qed.

Lemma load_parts parts acc (h : history) :
  Forall (λ l, l ≠ [] ∧ Forall parsed l) parts →
  for_each (W := history) (R := error) (λ data acc, mret (load_pem data acc)) (map certsPEM parts) acc h
  = (inr (acc ++ concat parts), h).
Proof.
  intros Hp. revert acc. induction Hp as [|l parts [Hne Hl] _ IH]; intros acc; cbn [map for_each].
  - by rewrite app_nil_r.
  - change (mret (load_pem (certsPEM l) acc)) with (λ h : history, (load_pem (certsPEM l) acc, h)).
    rewrite load_pem_ok by done. unfold mbind, stm_bind. rewrite IH. cbn. by rewrite app_assoc.
Qed.

Lemma parts_parsed parts :
  Forall (λ l, l ≠ []) parts → Forall parsed (concat parts) → Forall (λ l, l ≠ [] ∧ Forall parsed l) parts.
Proof.
  intros Hparts Hp. induction Hparts as [|l parts Hl _ IH]; [constructor|].
  cbn in Hp. apply Forall_app in Hp as [? ?]. constructor; auto.
Qed.

(** C24: a bundle survives its PEM form.  However the certificates of a
    consistent bundle are distributed over PEM inputs, and in whatever order,
    loading those inputs with the same key gives the bundle back, without
    touching a file. *)
Theorem bundle_reload certs k b parts (h : history) :
  normalizeBundle certs k = inr b → certs ≠ [] → Forall parsed (b_certs b) →
  Forall (λ l, l ≠ []) parts → concat parts ≡ₚ b_certs b →
  NewCertificateBundle (pem_options (map certsPEM parts) k) h = (inr b, h).
Proof.
  intros E Hne Hparsed Hparts Hperm. unfold NewCertificateBundle.
  rewrite parse_pem_options; [|by left|apply Forall_map; eapply Forall_impl; [exact Hparts|apply certsPEM_ne]].
  assert (Forall (λ l, l ≠ [] ∧ Forall parsed l) parts) as Hall.
  { by apply parts_parsed; [|rewrite Hperm]. }
  assert (normalizeBundle (map Some (concat parts)) k = inr b) as Hb.
  { eapply normalizeBundle_perm_go; [|exact E]. apply normalizeBundle_certs in E.
    by rewrite Hperm. }
  assert (length (concat parts) ≠ 0%nat) as Hlen.
  { rewrite Hperm. apply normalizeBundle_certs in E. destruct (b_certs b); [|done].
    by apply Permutation_nil_r in E. }
  unfold loadCertificateBundle, loadCertificateInputs.
  destruct k as [k|]; cbn -[for_each normalizeBundle];
    unfold mbind, stm_bind; rewrite load_parts by done; cbn -[normalizeBundle]; rewrite Hb; cbn.
  - by rewrite andb_false_r.
  - by destruct (Nat.eqb_spec (length (concat parts)) 0).
Qed.
End load_facts.
