(* ===== verification/CertsTrust.v ===== *)
(** * Trust bundles and status

    [trust_bundle.go] and [trust.go]: the canonical set of trusted roots, how
    it is built from an authority state, and the status of a manager. *)
From S2P Require Import Prelude.
From S2P Require Import GoStrings.
From S2P Require Import Utf8.
From S2P Require Import Errors.
From S2P Require Import GoNet.
From S2P Require Import CertsTypes.
From S2P Require Import CertsNames.
From S2P Require Import CertsCrypto.
From S2P Require Import CertsOptions.
From S2P Require Import CertsState.
From S2P Require Import CertsBackend.
From S2P Require Import CertsAuthority.
From S2P Require Import CertsFiles.
From S2P Require Import CertsBundle.
From S2P Require Import CertsLoad.
#[local] Open Scope stdpp_scope.
#[local] Open Scope Z_scope.

(** The order of [bytes.Compare] on the encodings. *)
Definition raw_le (a b : Certificate) : Prop := String.le (Raw a) (Raw b).
#[export] Instance raw_le_dec : RelDecision raw_le := λ a b, decide (String.le (Raw a) (Raw b)).
#[export] Instance raw_le_total : Total raw_le.
Proof. intros a b. apply (total String.le). Qed.
#[export] Instance raw_le_trans : Transitive raw_le.
Proof. intros a b c. unfold raw_le. apply transitivity. Qed.

Section bundle.
Context `{Crypto}.

Record TrustBundle := { t_certs : list Certificate }.

(** ** trust_bundle.go *)

(** The loop over the certificates; the map [byRaw] is the list of its keys. *)
Fixpoint check_trust (certs : list (option Certificate)) (byRaw : list string)
    : error + list Certificate :=
  match certs with
  | [] => inr []
  | None :: _ => inl (corrupt "nil trust certificate" None)
  | Some c :: rest =>
      if negb (IsCA c) || negb (BasicConstraintsValid c) || no_bit (KeyUsage c) KeyUsageCertSign
      then inl (invalid "trust certificate must be a CA with certificate-signing usage" None)
      else if negb (String.eqb (RawSubject c) (RawIssuer c)) || negb (signature_ok c c)
      then inl (invalid "trust certificate must be self-signed" None)
      else if existsb (String.eqb (Raw c)) byRaw
      then inl (ConflictError "duplicate trust certificate" None)
      else match check_trust rest (Raw c :: byRaw) with
           | inl e => inl e
           | inr cloned => inr (c :: cloned)
           end
  end.

Definition normalizeTrustCertificates (certs : list (option Certificate)) : error + list Certificate :=
  match certs with
  | [] => inl (invalid "at least one trust certificate is required" None)
  | _ => match check_trust certs [] with
         | inl e => inl e
         | inr cloned => inr (merge_sort raw_le cloned)
         end
  end.

Definition newTrustBundle (certs : list (option Certificate)) : error + TrustBundle :=
  match normalizeTrustCertificates certs with
  | inl e => inl e
  | inr normalized => inr {| t_certs := normalized |}
  end.

Definition nil_bundle : error := invalid "nil trust bundle" None.

Definition TrustBundle_AddCert (b : option TrustBundle) (cert : option Certificate) : error + TrustBundle :=
  match b with
  | None => inl nil_bundle
  | Some r => newTrustBundle (map Some (t_certs r) ++ [cert])
  end.

(** The error and the bundle that comes with it: the old one when the input
    could not be read, none when the result is not a trust bundle. *)
Definition TrustBundle_AddCertPEM (b : option TrustBundle) (data : string)
    : option error * option TrustBundle :=
  match b with
  | None => (Some nil_bundle, None)
  | Some r =>
      match parseCertificatesPEM data with
      | inl e => (Some e, b)
      | inr add =>
          match newTrustBundle (map Some (t_certs r ++ add)) with
          | inl e => (Some e, None)
          | inr next => (None, Some next)
          end
      end
  end.

Definition TrustBundle_Certificates (b : option TrustBundle) : list Certificate := from_option t_certs [] b.
Definition TrustBundle_PEM (b : option TrustBundle) : string := from_option (certsPEM ∘ t_certs) "" b.

(** ** trust.go *)

Definition trustBundleSHA256 (bundlePEM : string) : string := HexEncode (sha256 bundlePEM).

Definition TrustBundle_SHA256 (b : option TrustBundle) : string :=
  match b with None => "" | Some _ => trustBundleSHA256 (TrustBundle_PEM b) end.

Definition TrustBundle_Validate (b : option TrustBundle) : option error :=
  match b with
  | None => Some nil_bundle
  | Some r => match normalizeTrustCertificates (map Some (t_certs r)) with inl e => Some e | inr _ => None end
  end.

(** Whether a root is part of the bundle at a time. *)
Definition trusted (s : authorityState) (t : Time) (g : Z) (r : rootRecord) : bool :=
  (g =? ActiveRoot s)
  || match Pending s with None => false | Some p => g =? p_RootGeneration p end
  || (t <? RetiredTrustUntil r).

Fixpoint trusted_roots (s : authorityState) (t : Time) (roots : list (Z * rootRecord))
    : error + list Certificate :=
  match roots with
  | [] => inr []
  | (generation, root) :: rest =>
      if negb (trusted s t generation root) then trusted_roots s t rest else
      match parseCertDER (root_CertificateDER root) with
      | inl e => inl e
      | inr cert =>
          match trusted_roots s t rest with
          | inl e => inl e
          | inr certs => inr (cert :: certs)
          end
      end
  end.

Definition buildTrustBundle (s : authorityState) (t : Time) : error + TrustBundle :=
  match trusted_roots s t (map_to_list (Roots s)) with
  | inl e => inl e
  | inr certs => newTrustBundle (map Some certs)
  end.

Record ManagerStatus := {
  st_Revision : Z;
  st_Pending : bool;
  st_PendingKind : PendingKind;
  st_TrustBundleSHA256 : string;
}.

Definition managerStatus (s : authorityState) (t : Time) (issuerSlug : string) : error + ManagerStatus :=
  match buildTrustBundle s t with
  | inl e => inl e
  | inr bundle =>
      let status pending kind := inr {|
        st_Revision := Revision s; st_Pending := pending; st_PendingKind := kind;
        st_TrustBundleSHA256 := TrustBundle_SHA256 (Some bundle) |} in
      match Pending s with
      | None => status false PendingNone
      | Some p =>
          if negb (String.eqb issuerSlug "") && (default 0 (p_Issuers p !! issuerSlug) =? 0)
          then status false PendingNone
          else status true (pendingKind (Kind_ p))
      end
  end.
End bundle.

Section manager.
Context `{Crypto, !Env} {D St : Type} `{!Backend D}.

(** [AuthorityManager.TrustBundle] and [AuthorityManager.Status]. *)
Definition AuthorityManager_TrustBundle : stm (world D (AuthorityManager St)) (error + TrustBundle) :=
  m ← get_mem;
  if closed m then mret (inl closed_error) else
  let! s := b_load false else e => mret (inl e) in
  t ← now;
  mret (buildTrustBundle s t).

Definition AuthorityManager_Status : stm (world D (AuthorityManager St)) (error + ManagerStatus) :=
  m ← get_mem;
  if closed m then mret (inl closed_error) else
  let! s := b_load false else e => mret (inl e) in
  t ← now;
  mret (managerStatus s t "").
End manager.

Section files.
Context `{Host, Unicode, Crypto, !Env} {St : Type}.

Abbreviation io A := (proc fs_call A).
Abbreviation save_opts := (list (option (option_ St))).

Definition NewTrustBundle (opts : save_opts) : io (error + TrustBundle) :=
  let! o := mret (parseOptions scopeTrustBundle opts) else e => mret (inl e) in
  let! certs := loadCertificateInputs o else e => mret (inl e) in
  mret (newTrustBundle (map Some certs)).

Definition TrustBundle_AddCertPath (b : option TrustBundle) (path : string)
    : io (option error * option TrustBundle) :=
  match b with
  | None => mret (Some nil_bundle, None)
  | Some _ =>
      let! data := readRegular path else e => mret (Some e, b) in
      mret (TrustBundle_AddCertPEM b data)
  end.

Definition TrustBundle_Save (b : option TrustBundle) (path : string) (opts : save_opts) : io (option error) :=
  match TrustBundle_Certificates b with
  | [] => mret (Some (NotFoundError "trust certificates" None))
  | _ => atomicSave path (TrustBundle_PEM b) mode_public opts
  end.
End files.
