(* ===== verification/CertsIssuer.v ===== *)
(** * The issuer manager

    [issuer.go]: parsing of certificate requests, the naming policy, signing
    with its ledger, lookups, and the issuer part of [trust.go].  The manager
    is the memory of the world; log calls are left out. *)
From S2P Require Import Prelude.
From S2P Require Import GoStrings.
From S2P Require Import Utf8.
From S2P Require Import Text.
From S2P Require Import Errors.
From S2P Require Import GoNet.
From S2P Require Import CertsTypes.
From S2P Require Import CertsNames.
From S2P Require Import CertsCrypto.
From S2P Require Import CertsOptions.
From S2P Require Import CertsState.
From S2P Require Import CertsBackend.
From S2P Require Import CertsAuthority.
From S2P Require Import CertsFiles.
From S2P Require Import CertsBundle.
From S2P Require Import CertsTrust.
#[local] Open Scope stdpp_scope.
#[local] Open Scope Z_scope.

(** ** Requests *)
Section request.
Context `{Unicode, Crypto}.

Definition oidSubjectAltName : list Z := [2; 5; 29; 17].

Definition parseCSRPEM (data : string) : error + CertificateRequest :=
  match pem_Decode data with
  | None => inl (invalid "CSR PEM must contain exactly one CERTIFICATE REQUEST block" None)
  | Some (type, bytes, rest) =>
      if negb (String.eqb type "CERTIFICATE REQUEST") || negb (blank rest)
      then inl (invalid "CSR PEM must contain exactly one CERTIFICATE REQUEST block" None) else
      match x509_ParseCertificateRequest bytes with
      | inl e => inl (invalid "invalid CSR" (Some (Sys e)))
      | inr csr =>
          match csr_CheckSignature csr with
          | Some e => inl (invalid "CSR signature verification failed" (Some (Sys e)))
          | None =>
              match supportedPublicKey (csr_PublicKey csr) with
              | Some e => inl e
              | None =>
                  if existsb (λ id, negb (bool_decide (id = oidSubjectAltName))) (csr_Extensions csr)
                  then inl (invalid "CSR requests an unsupported extension" None) else inr csr
              end
          end
      end
  end.

Definition boolInt (v : bool) : Z := if v then 1 else 0.
Definition zlen {A} (l : list A) : Z := Z.of_nat (length l).

Definition strictCSRIdentity (csr : CertificateRequest) : error + Identity :=
  let n := csr_Subject csr in
  if (1 <? zlen (n_Organization n)) || (1 <? zlen (n_OrganizationalUnit n)) || (1 <? zlen (n_Country n))
     || (1 <? zlen (n_Province n)) || (1 <? zlen (n_Locality n)) || (0 <? zlen (n_StreetAddress n))
     || (0 <? zlen (n_PostalCode n)) || negb (String.eqb (n_SerialNumber n) "")
     || (zlen (n_Organization n) + zlen (n_OrganizationalUnit n) + zlen (n_Country n) + zlen (n_Province n)
         + zlen (n_Locality n) + boolInt (negb (String.eqb (n_CommonName n) "")) <? n_Names n)
  then inl (invalid "CSR subject contains unsupported or repeated attributes" None)
  else normalizeIdentity (identityFromName n).

(** ** The policy *)

Definition containsProfile (v : list Profile) (p : Profile) : bool := existsb (λ x, String.eqb x p) v.

Fixpoint matchesDNSSuffix (name : string) (suffixes : list string) : bool :=
  match suffixes with
  | [] => false
  | suffix :: rest =>
      let n := ToLower (TrimSuffix name ".") in
      let s := ToLower (TrimPrefix (TrimSuffix (TrimSpace suffix) ".") ".") in
      String.eqb n s || HasSuffix n ("." +:+ s) || matchesDNSSuffix name rest
  end.

Definition email_domain (email : string) : string :=
  sdrop (match LastIndexByte email "@" with Some i => S i | None => O end) email.

(** [permitted policy ok x]: an empty policy permits everything. *)
Definition permitted {P A} (policy : list P) (ok : P → A → bool) (x : A) : bool :=
  match policy with [] => true | _ => existsb (λ p, ok p x) policy end.

Definition validateRequest (d : IssuerDefinition) (subject : Identity) (sans : SANs) : option error :=
  let policy := def_SANPolicy d in
  let required := def_RequiredSubject d in
  if negb (String.eqb (def_SubjectOwner d) "") && negb (String.eqb (Organization subject) (def_SubjectOwner d))
  then Some (ForbiddenError "subject organization is not permitted" None)
  else if existsb (λ p, negb (String.eqb p.1 "") && negb (String.eqb p.1 p.2))
    [(Organization required, Organization subject); (OrganizationalUnit required, OrganizationalUnit subject);
     (Country required, Country subject); (Province required, Province subject);
     (Locality required, Locality subject); (CommonName required, CommonName subject)]
  then Some (ForbiddenError "subject does not satisfy required fields" None)
  else if existsb (λ name, negb (Nat.eqb (length (DNSSuffixes policy)) 0)
                           && negb (matchesDNSSuffix name (DNSSuffixes policy))) (DNSNames sans)
  then Some (ForbiddenError "DNS SAN is not permitted" None)
  else if existsb (λ ip, negb (permitted (IPRanges policy) (λ network ip,
                      match network with Some n => IPNet_Contains n ip | None => false end) ip)) (IPAddresses sans)
  then Some (ForbiddenError "IP SAN is not permitted" None)
  else if existsb (λ u, negb (permitted (URIPrefixes policy) (λ prefix u, HasPrefix (uri_key u) prefix) u)) (URIs sans)
  then Some (ForbiddenError "URI SAN is not permitted" None)
  else if existsb (λ email, negb (permitted (EmailDomains policy)
                      (λ allowed email, EqualFold (email_domain email) allowed) email)) (EmailAddresses sans)
  then Some (ForbiddenError "email SAN is not permitted" None)
  else None.
End request.

Section issuer.
Context `{Unicode, Crypto, !Env, URLParser} {D St : Type} `{!Backend D}.

Record IssuerManager := {
  im_name : string;
  im_slug : string;
  im_revision : Z;
  im_definition : IssuerDefinition;
  im_version : issuerVersion;
  im_issuerCert : Certificate;
  im_rootCert : Certificate;
  im_signer : option Signer;
  im_mode : IssuanceMode;
  im_closed : bool;
}.

Abbreviation proc_ A := (stm (world D IssuerManager) A).

Definition no_issuer (name : string) : error := NotFoundError ("issuer " +:+ name) None.
Definition issuer_closed : error := ConflictError "issuer manager is closed" None.

(** ** NewIssuerManager, reload *)

(** What [reload] makes of a loaded state. *)
Definition opened_issuer (s : authorityState) (name slug : string) (closed : bool) : error + IssuerManager :=
  match Issuers s !! slug with
  | None => inl (no_issuer name)
  | Some issuer =>
      if negb (String.eqb (def_Name (Definition_ issuer)) name) then inl (no_issuer name) else
      match Versions issuer !! ActiveVersion issuer with
      | None => inl panic_nil
      | Some v =>
          match parseKeyDER (KeyDER v) "" with
          | inl e => inl e
          | inr key =>
          match parseCertDER (CertificateDER v) with
          | inl e => inl e
          | inr cert =>
          match Roots s !! RootGeneration v with
          | None => inl panic_nil
          | Some r =>
          match parseCertDER (root_CertificateDER r) with
          | inl e => inl e
          | inr root =>
              if negb (publicKeysEqual (Public key) (cert_PublicKey cert))
              then inl (corrupt "issuer private key mismatch" None)
              else inr {| im_name := name; im_slug := slug; im_revision := Revision s;
                          im_definition := Definition_ issuer; im_version := v; im_issuerCert := cert;
                          im_rootCert := root; im_signer := Some key;
                          im_mode := spec_IssuanceMode (Spec s); im_closed := closed |}
          end end end end
      end
  end.

Definition NewIssuerManager {M} (opts : list (option (option_ St))) : stm (world D M) (error + IssuerManager) :=
  let! o := mret (parseOptions scopeIssuerManager opts) else e => mret (inl e) in
  match store o with
  | None => mret (inl (invalid "WithStore is required" None))
  | Some _ =>
      check! b_authorizeIssuer else e => mret (inl e) in
      if negb (issuerNameSet o) then mret (inl (invalid "WithIssuerName is required" None)) else
      let! name := mret (normalizeDisplayName (issuerName o)) else e => mret (inl e) in
      let! s := b_load true else e => mret (inl e) in
      mret (opened_issuer s name (slug name) false)
  end.

Definition reload : proc_ (option error) :=
  m ← get_mem;
  let! s := b_load true else e => mret (Some e) in
  match opened_issuer s (im_name m) (im_slug m) (im_closed m) with
  | inl e => mret (Some e)
  | inr m' => _ ← put_mem m'; mret None
  end.

Definition Reload : proc_ (option error) :=
  m ← get_mem;
  if im_closed m then mret (Some issuer_closed) else reload.

(** ** SignCSR *)

(** The pages of the ledger; [None] is a loop that has not ended within [fuel]
    pages. *)
Fixpoint ledger_pages (fuel : nat) (cursor : string) (all : list LedgerRecord)
    : proc_ (option (error + list LedgerRecord)) :=
  match fuel with
  | O => mret None
  | S fuel' =>
      r ← b_listLedger cursor 500;
      match r with
      | inl e => mret (Some (inl e))
      | inr (records, next) =>
          if String.eqb next "" then mret (Some (inr (all ++ records)))
          else ledger_pages fuel' next (all ++ records)
      end
  end.

Definition validateLedger (fuel : nat) (s : authorityState) : proc_ (option (option error)) :=
  r ← ledger_pages fuel "" [];
  mret (match r with
        | None => None
        | Some (inl e) => Some (Some e)
        | Some (inr all) => Some (validateLedgerRecords s all)
        end).

(** The checks of the ledger mode before a request is considered. *)
Definition sign_ledger_check (fuel : nat) : proc_ (option (option error)) :=
  m ← get_mem;
  if negb (String.eqb (im_mode m) IssuanceLedger) then mret (Some None) else
  let! s := b_load true else e => mret (Some (Some e)) in
  check! (if Revision s =? im_revision m then mret None else reload) else e => mret (Some (Some e)) in
  validateLedger fuel s.

(** The subject and the names of the certificate, after the overrides. *)
Definition sign_names (o : optionValues St) (subject0 : Identity) (sans0 : SANs) : error + (Identity * SANs) :=
  match (if subjectSet o then normalizeIdentity (subject o) else inr subject0) with
  | inl e => inl e
  | inr v =>
      match (if sansSet o then normalizeSANs (sans o) else inr sans0) with
      | inl e => inl e
      | inr names =>
          match (if additionalSANsSet o then mergeSANs names (additionalSANs o) else inr names) with
          | inl e => inl e
          | inr names => inr (v, names)
          end
      end
  end.

(** What a signature is about; fixed before the attempts. *)
Record leaf_request := {
  lr_subject : Identity;
  lr_sans : SANs;
  lr_profile : Profile;
  lr_key : PublicKey;
  lr_ski : string;
  lr_now : Time;
  lr_notAfter : Time;
}.

Definition leaf_template (q : leaf_request) (serial : Z) (m : IssuerManager) : Certificate := {|
  Raw := ""; RawSubject := ""; RawIssuer := "";
  Subject := identityName (lr_subject q); SerialNumber := serial;
  NotBefore := lr_now q - clockSkew; NotAfter := lr_notAfter q;
  IsCA := false; BasicConstraintsValid := true; MaxPathLen := 0; MaxPathLenZero := false;
  KeyUsage := (Profile_usages (lr_profile q)).1; ExtKeyUsage := (Profile_usages (lr_profile q)).2;
  cert_PublicKey := lr_key q; SubjectKeyId := lr_ski q; AuthorityKeyId := SubjectKeyId (im_issuerCert m);
  cert_SANs := lr_sans q |}.

Definition ledger_record (q : leaf_request) (m : IssuerManager) (serial : Z) (der : string) (cert : Certificate)
    : LedgerRecord := {|
  AuthorityRevision := im_revision m; l_Fingerprint := fingerprint cert; Issuer := im_slug m;
  IssuerVersion := Version (im_version m); Serial := hex_text serial; l_CertificateDER := der;
  l_Subject := lr_subject q; l_SANs := lr_sans q; l_Profile := lr_profile q;
  IssuedAt := lr_now q; ExpiresAt := lr_notAfter q |}.

(** Whether the validity of the leaf fits the issuer. *)
Definition exceeds_issuer (q : leaf_request) (m : IssuerManager) : bool :=
  NotAfter (im_issuerCert m) - clockSkew <? lr_notAfter q.

(** After a conflict: the state is read again, and a new revision is taken
    over when the leaf still fits. *)
Definition after_conflict (q : leaf_request) : proc_ (option error) :=
  m ← get_mem;
  let! state := b_load true else e => mret (Some e) in
  if Revision state =? im_revision m then mret None else
  check! reload else e => mret (Some e) in
  m ← get_mem;
  mret (if exceeds_issuer q m
        then Some (invalid "leaf validity exceeds reloaded issuer remaining lifetime" None) else None).

(** One attempt: [inl None] goes on with the next, [inl (Some e)] ends with an
    error, [inr cert] is an issued certificate. *)
Definition sign_attempt (q : leaf_request) : proc_ (option error + Certificate) :=
  let! serial := randomSerial else e => mret (inl (Some e)) in
  m ← get_mem;
  taken ← (if String.eqb (im_mode m) IssuanceLedger
           then r ← b_lookupLedger (im_slug m) (Version (im_version m)) (hex_text serial);
                mret (match r with
                      | inr _ => Some None
                      | inl e => if AsNotFound e then None else Some (Some e)
                      end)
           else mret None);
  match taken with
  | Some r => mret (inl r)
  | None =>
      match im_signer m with
      | None => mret (inl (Some panic_nil))
      | Some signer =>
          let! der := draw (λ n, env_CreateCertificate n (leaf_template q serial m) (im_issuerCert m) (lr_key q) signer)
            else e => mret (inl (Some (Errorf "certs: sign CSR" (Some (Sys e))))) in
          match x509_ParseCertificate der with
          | inl e => mret (inl (Some (corrupt "generated leaf certificate" (Some (Sys e)))))
          | inr cert =>
              if negb (String.eqb (im_mode m) IssuanceLedger) then mret (inr cert) else
              appended ← b_appendLedger (ledger_record q m serial der cert);
              match appended with
              | None => mret (inr cert)
              | Some e => if AsConflict e then r ← after_conflict q; mret (inl r) else mret (inl (Some e))
              end
          end
      end
  end.

Fixpoint sign_attempts (attempts : nat) (q : leaf_request) : proc_ (error + Certificate) :=
  match attempts with
  | O => mret (inl (ConflictError "could not allocate a unique certificate serial" None))
  | S n =>
      r ← sign_attempt q;
      match r with
      | inl None => sign_attempts n q
      | inl (Some e) => mret (inl e)
      | inr cert => mret (inr cert)
      end
  end.

(** Validity and profile of the request. *)
Definition default_lifetime : Duration := 90 * 24 * Hour.
Definition sign_lifetime (o : optionValues St) : Duration :=
  if lifetimeSet o then lifetime o else default_lifetime.

(** [None] as in [validateLedger]. *)
Definition SignCSR (fuel : nat) (csrPEM : string) (opts : list (option (option_ St)))
    : proc_ (option (error + CertificateBundle)) :=
  let fail e := mret (Some (inl e)) in
  let! o := mret (parseOptions scopeSign opts) else e => fail e in
  if negb (profileSet o) || negb (Profile_valid (profile o))
  then fail (invalid "an explicit supported profile is required" None) else
  let! csr := mret (parseCSRPEM csrPEM) else e => fail e in
  let! subject0 := mret (strictCSRIdentity csr) else e => fail e in
  let! sans0 := mret (normalizeSANsAllowDuplicates (csr_names csr)) else e => fail e in
  m ← get_mem;
  if im_closed m then fail issuer_closed else
  checked ← sign_ledger_check fuel;
  match checked with
  | None => mret None
  | Some (Some e) => fail e
  | Some None =>
      m ← get_mem;
      check! mret (validateRequest (im_definition m) subject0 sans0) else e => fail e in
      let! names := mret (sign_names o subject0 sans0) else e => fail e in
      check! mret (validateRequest (im_definition m) names.1 names.2) else e => fail e in
      if negb (containsProfile (def_AllowedProfiles (im_definition m)) (profile o))
      then fail (ForbiddenError "issuer does not permit requested profile" None)
      else if (sign_lifetime o <=? 0) || (maximumLeafValidity <? sign_lifetime o)
      then fail (invalid "leaf validity must be positive and no more than one year" None)
      else
      t ← now;
      let now_ := truncate_second t in
      let! ski := mret (if NotAfter (im_issuerCert m) - clockSkew <? now_ + sign_lifetime o
                        then inl (invalid "leaf validity exceeds issuer remaining lifetime" None)
                        else subjectKeyID (csr_PublicKey csr)) else e => fail e in
      let! cert := sign_attempts 8 {|
          lr_subject := names.1; lr_sans := names.2; lr_profile := profile o; lr_key := csr_PublicKey csr;
          lr_ski := ski; lr_now := now_; lr_notAfter := now_ + sign_lifetime o |} else e => fail e in
      m ← get_mem;
      mret (Some (normalizeBundle [Some cert; Some (im_issuerCert m); Some (im_rootCert m)] None))
  end.

(** ** Lookups, status, closing *)

Definition ledger_disabled : error := UnavailableError "issuance ledger is disabled" None.

Definition LookupCertificate (version : Z) (serial : string) : proc_ (error + LedgerRecord) :=
  m ← get_mem;
  if negb (String.eqb (im_mode m) IssuanceLedger) then mret (inl ledger_disabled)
  else b_lookupLedger (im_slug m) version (ToLower serial).

Definition ListCertificates (cursor : string) (limit : Z) : proc_ (error + (list LedgerRecord * string)) :=
  m ← get_mem;
  if negb (String.eqb (im_mode m) IssuanceLedger) then mret (inl ledger_disabled)
  else b_listLedger cursor limit.

Definition IssuerManager_Close : proc_ (option error) :=
  m ← get_mem;
  _ ← put_mem {| im_name := im_name m; im_slug := im_slug m; im_revision := im_revision m;
        im_definition := im_definition m; im_version := im_version m; im_issuerCert := im_issuerCert m;
        im_rootCert := im_rootCert m; im_signer := None; im_mode := im_mode m; im_closed := true |};
  mret None.

(** The state an open manager with a current issuer answers from. *)
Definition issuer_state : proc_ (error + authorityState) :=
  m ← get_mem;
  if im_closed m then mret (inl issuer_closed) else
  let! s := b_load true else e => mret (inl e) in
  mret (match Issuers s !! im_slug m with
        | None => inl (no_issuer (im_name m))
        | Some issuer => if negb (String.eqb (def_Name (Definition_ issuer)) (im_name m))
                         then inl (no_issuer (im_name m)) else inr s
        end).

Definition IssuerManager_Status : proc_ (error + ManagerStatus) :=
  let! s := issuer_state else e => mret (inl e) in
  t ← now;
  m ← get_mem;
  mret (managerStatus s t (im_slug m)).

Definition IssuerManager_TrustBundle : proc_ (error + TrustBundle) :=
  let! s := issuer_state else e => mret (inl e) in
  t ← now;
  mret (buildTrustBundle s t).
End issuer.
