(* ===== verification/CertsIssuerFacts.v ===== *)
(** * The naming policy of an issuer

    [validateRequest] as a proposition, with what a DNS suffix means for
    normalised names. *)
From S2P Require Import Prelude.
From S2P Require Import GoStrings.
From S2P Require Import Utf8.
From S2P Require Import Text.
From S2P Require Import Errors.
From S2P Require Import GoNet.
From S2P Require Import CertsTypes.
From S2P Require Import CertsNames.
From S2P Require Import CertsCrypto.
From S2P Require Import CertsOptions.
From S2P Require Import CertsOptionsFacts.
From S2P Require Import CertsState.
From S2P Require Import CertsBackend.
From S2P Require Import CertsAuthority.
From S2P Require Import CertsBundle.
From S2P Require Import CertsTrust.
From S2P Require Import CertsIssuer.
#[local] Open Scope stdpp_scope.
#[local] Open Scope Z_scope.

Section policy.
Context `{UnicodeLaws}.

(** A name under a suffix: the suffix itself or a name below it. *)
Definition under (suffix name : string) : Prop := name = suffix ∨ ∃ p, name = p +:+ "." +:+ suffix.

Definition in_range_of (network : option IPNet) (ip : IP) : Prop :=
  ∃ n, network = Some n ∧ IPNet_Contains n ip = true.
Definition begins_with (prefix : string) (u : option URL) : Prop := ∃ t, uri_key u = prefix +:+ t.
Definition in_domain (allowed email : string) : Prop := EqualFold (email_domain email) allowed = true.

Definition meets (required given : string) : Prop := required = "" ∨ given = required.

(** [complies policy ok l]: with a policy, every element is permitted by one
    of its entries. *)
Definition complies {P A} (policy : list P) (ok : P → A → Prop) (l : list A) : Prop :=
  policy = [] ∨ ∀ x, x ∈ l → ∃ p, p ∈ policy ∧ ok p x.

Definition subject_fields : list (Identity → string) :=
  [Organization; OrganizationalUnit; Country; Province; Locality; CommonName].

Record request_allowed (d : IssuerDefinition) (subject : Identity) (sans : SANs) : Prop := {
  ra_owner : meets (def_SubjectOwner d) (Organization subject);
  ra_required : ∀ f, f ∈ subject_fields →
    meets (f (def_RequiredSubject d)) (f subject);
  ra_dns : complies (DNSSuffixes (def_SANPolicy d)) under (DNSNames sans);
  ra_ips : complies (IPRanges (def_SANPolicy d)) in_range_of (IPAddresses sans);
  ra_uris : complies (URIPrefixes (def_SANPolicy d)) begins_with (URIs sans);
  ra_emails : complies (EmailDomains (def_SANPolicy d)) in_domain (EmailAddresses sans);
}.

Definition valid_suffix (s : string) : Prop := validDNSName s false = true ∧ ToLower s = s.

Lemma normal_dns_keep d : normal_dns d → TrimSuffix d "." = d ∧ ToLower d = d.
Proof.
  intros [Hv Hd]. rewrite (validDNSName_trimmed _ _ Hv), (validDNSName_no_dot _ _ Hv) in Hd.
  by rewrite (validDNSName_no_dot _ _ Hv).
Qed.

Lemma valid_suffix_keep s :
  valid_suffix s → ToLower (TrimPrefix (TrimSuffix (TrimSpace s) ".") ".") = s.
Proof.
  intros [Hv Hs]. rewrite (validDNSName_trimmed _ _ Hv), (validDNSName_no_dot _ _ Hv).
  destruct (valid_head _ Hv) as (c & s' & E & Hc). rewrite E in Hs |- *. unfold TrimPrefix.
  cbn [HasPrefix]. by destruct (Ascii.eqb_spec "." c) as [<-|].
Qed.

Lemma matchesDNSSuffix_iff name l :
  normal_dns name → Forall valid_suffix l →
  matchesDNSSuffix name l = true ↔ ∃ s, s ∈ l ∧ under s name.
Proof.
  intros Hn Hl. destruct (normal_dns_keep _ Hn) as [E1 E2].
  induction Hl as [|s l Hs _ IH]; cbn [matchesDNSSuffix].
  - split; [done|]. intros (s & Hs & _). by apply elem_of_nil in Hs.
  - rewrite E1, E2, (valid_suffix_keep _ Hs), !orb_true_iff, IH, String.eqb_eq, HasSuffix_spec. split.
    + intros [[->|[t ->]]|(s' & ? & ?)]; [exists s|exists s|exists s'].
      * split; [left|by left].
      * split; [left|]. right. by exists t.
      * split; [by right|done].
    + intros (s' & [->|Hs']%elem_of_cons & Hu).
      * left. destruct Hu as [->|[t ->]]; [by left|right; by exists t].
      * right. by exists s'.
Qed.

Lemma complies_existsb {P A} (policy : list P) (bad : A → bool) (ok : P → A → Prop) (l : list A) :
  (∀ x, x ∈ l → bad x = false ↔ policy = [] ∨ ∃ p, p ∈ policy ∧ ok p x) →
  existsb bad l = false ↔ complies policy ok l.
Proof.
  intros Hbad. rewrite <- not_true_iff_false, existsb_elem_of. split.
  - intros Hn. destruct policy as [|p0 policy]; [by left|]. right. intros x Hx.
    assert (bad x = false) as Hb by (apply not_true_is_false; intros Hb; apply Hn; by exists x).
    apply Hbad in Hb as [?|?]; done.
  - intros Hc (x & Hx & Hb). assert (bad x = false); [|congruence]. apply Hbad; [done|].
    destruct Hc as [->|Hc]; [by left|right; by apply Hc].
Qed.

Lemma permitted_iff {P A} (policy : list P) (ok : P → A → bool) (okP : P → A → Prop) x :
  (∀ p, ok p x = true ↔ okP p x) →
  negb (permitted policy ok x) = false ↔ policy = [] ∨ ∃ p, p ∈ policy ∧ okP p x.
Proof.
  intros Hok. rewrite negb_false_iff. destruct policy as [|p0 policy]; [split; [by left|done]|].
  unfold permitted. rewrite existsb_elem_of. setoid_rewrite Hok. split; [by right|]. by intros [?|?].
Qed.

Lemma meets_iff required given : (negb (String.eqb required "") && negb (String.eqb given required)) = false ↔
  meets required given.
Proof.
  unfold meets. destruct (String.eqb_spec required ""), (String.eqb_spec given required); cbn; naive_solver.
Qed.

Lemma existsb_false {A} (f : A → bool) l : existsb f l = false ↔ ∀ x, x ∈ l → f x = false.
Proof.
  rewrite <- not_true_iff_false, existsb_elem_of. setoid_rewrite <- not_true_iff_false. naive_solver.
Qed.

Lemma required_iff required subject :
  existsb (λ p, negb (String.eqb p.1 "") && negb (String.eqb p.1 p.2))
    (map (λ f : Identity → string, (f required, f subject)) subject_fields) = false ↔
  ∀ f, f ∈ subject_fields → meets (f required) (f subject).
Proof.
  rewrite existsb_false. split.
  - intros Hf f Hin. apply meets_iff. rewrite (String.eqb_sym (f subject)).
    apply (Hf (f required, f subject)), list_elem_of_fmap. by exists f.
  - intros Hf p (f & -> & Hin)%list_elem_of_fmap. cbn. rewrite (String.eqb_sym (f required) (f subject)).
    by apply meets_iff, Hf.
Qed.

(** C15: an issuer's policy decides a request as documented.  For normalised
    names and suffixes [validateRequest] accepts exactly the requests whose
    organisation is the owner's and whose subject has every required field,
    when these are given, and in which every DNS name is one of the permitted
    suffixes or a name below one, every address lies in a permitted range,
    every URI begins with a permitted prefix and every email address has a
    permitted domain, for each kind of name that has a policy. *)
Theorem validateRequest_spec d subject sans :
  Forall normal_dns (DNSNames sans) → Forall valid_suffix (DNSSuffixes (def_SANPolicy d)) →
  validateRequest d subject sans = None ↔ request_allowed d subject sans.
Proof.
  intros Hn Hs. unfold validateRequest.
  set (c1 := negb _ && _). set (c2 := existsb _ _). set (c3 := existsb _ (DNSNames sans)).
  set (c4 := existsb _ (IPAddresses sans)). set (c5 := existsb _ (URIs sans)).
  set (c6 := existsb _ (EmailAddresses sans)).
  transitivity (c1 = false ∧ c2 = false ∧ c3 = false ∧ c4 = false ∧ c5 = false ∧ c6 = false).
  { destruct c1, c2, c3, c4, c5, c6; split; intros; destruct_and?; done. }
  assert (c1 = false ↔ meets (def_SubjectOwner d) (Organization subject)) as -> by apply meets_iff.
  assert (c2 = false ↔ _) as -> by exact (required_iff (def_RequiredSubject d) subject).
  assert (c3 = false ↔ complies (DNSSuffixes (def_SANPolicy d)) under (DNSNames sans)) as ->.
  { apply complies_existsb. intros name Hname. rewrite Forall_forall in Hn. specialize (Hn _ Hname).
    rewrite <- (matchesDNSSuffix_iff name) by done.
    destruct (DNSSuffixes (def_SANPolicy d)) as [|s0 l]; [split; [by left|done]|]. cbn [length Nat.eqb negb andb].
    rewrite negb_false_iff. split; [by right|by intros [|]]. }
  assert (c4 = false ↔ complies (IPRanges (def_SANPolicy d)) in_range_of (IPAddresses sans)) as ->.
  { apply complies_existsb. intros ip _. apply permitted_iff. intros [n|]; split.
    - intros E. by exists n.
    - by intros (n' & [= <-] & ?).
    - done.
    - by intros (n' & ? & _). }
  assert (c5 = false ↔ complies (URIPrefixes (def_SANPolicy d)) begins_with (URIs sans)) as ->.
  { apply complies_existsb. intros u _. apply permitted_iff. intros prefix. apply HasPrefix_spec. }
  assert (c6 = false ↔ complies (EmailDomains (def_SANPolicy d)) in_domain (EmailAddresses sans)) as ->.
  { apply complies_existsb. intros e _. by apply permitted_iff. }
  split; [intros (? & ? & ? & ? & ? & ?); by constructor|by intros []].
Qed.
End policy.
