(* ===== verification/CertsFileLedger.v ===== *)
(** * The ledger of the file store

    The ledger file as the list of records that its lines stand for: what an
    append adds to it, what of it is left when a write fails, and what lookups
    and pages answer. *)
From S2P Require Import Prelude.
From S2P Require Import GoStrings.
From S2P Require Import GoPath.
From S2P Require Import Utf8.
From S2P Require Import Text.
From S2P Require Import Errors.
From S2P Require Import GoNet.
From S2P Require Import CertsTypes.
From S2P Require Import CertsNames.
From S2P Require Import CertsCrypto.
From S2P Require Import CertsOptions.
From S2P Require Import CertsState.
From S2P Require Import CertsBackend.
From S2P Require Import CertsFiles.
From S2P Require Import CertsDisk.
From S2P Require Import CertsFileStore.
From S2P Require Import CertsFileStoreFacts.
From S2P Require Import CertsFileStoreLaws.
From S2P Require Import CertsIssuer.
#[local] Open Scope stdpp_scope.
#[local] Open Scope Z_scope.
Import FileStore.

(** ** Lines *)

Lemma last_cons {A} (x : A) l d : l ≠ [] → List.last (x :: l) d = List.last l d.
Proof. by destruct l. Qed.
Lemma removelast_cons {A} (x : A) l : l ≠ [] → removelast (x :: l) = x :: removelast l.
Proof. by destruct l. Qed.

(** What follows a text that ends a line. *)
Lemma Split_end a b c :
  List.last (Split a c) "" = "" → Split (a +:+ b) c = removelast (Split a c) ++ Split b c.
Proof.
  induction a as [|x a IH]; intros Hl; [done|]. cbn [Split String.append] in *.
  pose proof (Split_not_nil a c) as Hne. destruct (Ascii.eqb x c).
  - rewrite last_cons in Hl by done. by rewrite removelast_cons, IH.
  - destruct (Split a c) as [|w ws] eqn:Ea; [done|]. destruct ws as [|w' ws]; [done|].
    rewrite !last_cons in * by done. rewrite IH by done. by rewrite !removelast_cons by done.
Qed.

Lemma stake_all n x : (slen x ≤ n)%nat → stake n x = x.
Proof.
  unfold slen. revert x. induction n as [|n IH]; intros [|c x]; cbn; try done; [lia|].
  intros. by rewrite IH by lia.
Qed.

Lemma stake_app_l n a b : (n ≤ slen a)%nat → stake n (a +:+ b) = stake n a.
Proof.
  unfold slen. revert a. induction n as [|n IH]; intros [|c a]; cbn; try done; try lia.
  intros. by rewrite IH by lia.
Qed.

Lemma stake_elem n x c : c ∈ chars (stake n x) → c ∈ chars x.
Proof.
  revert x. induction n as [|n IH]; intros [|d x]; cbn; try done; [by intros ?%elem_of_nil|].
  rewrite !elem_of_cons. naive_solver.
Qed.

(** ** The records of a text *)
Section records.
Context `{JSON, Unicode, Crypto, URLParser} {St : Type} `{!JSONLaws St}.

Definition decode_line (line : string) : option LedgerRecord :=
  match unjson_record (line +:+ nl) with
  | inl _ => None
  | inr r => match validateLedgerRecord r with Some _ => None | None => Some r end
  end.

(** Every line is a valid record, and the last one is ended. *)
Definition ledger_of (text : string) : option (list LedgerRecord) :=
  let parts := Split text newline in
  if String.eqb (List.last parts "") "" then mapM decode_line (removelast parts) else None.

Lemma ledger_of_append text l r d :
  ledger_of text = Some l → validateLedgerRecord r = None → json_record r = inr d →
  ledger_of (text +:+ d +:+ nl) = Some (l ++ [r]).
Proof.
  unfold ledger_of. intros E Hv Hj. destruct (json_record_law (St := St) r d Hv Hj) as [Hn Hu].
  destruct (String.eqb_spec (List.last (Split text newline) "") "") as [Hl|]; [|done].
  rewrite Split_end by done. change (d +:+ nl) with (d +:+ String newline ""). rewrite (Split_app d "" newline Hn).
  change (d :: Split "" newline) with ([d] ++ [""]). rewrite app_assoc, last_last, removelast_last.
  apply mapM_Some in E. apply mapM_Some, Forall2_app; [done|]. constructor; [|constructor].
  unfold decode_line. by rewrite Hu, Hv.
Qed.

(** Part of a line makes the ledger unreadable. *)
Lemma ledger_of_part text l r d n :
  ledger_of text = Some l → validateLedgerRecord r = None → json_record r = inr d →
  (0 < n ≤ slen d)%nat → ledger_of (text +:+ stake n (d +:+ nl)) = None.
Proof.
  unfold ledger_of. intros E Hv Hj Hlen. destruct (json_record_law (St := St) r d Hv Hj) as [Hn _].
  destruct (String.eqb_spec (List.last (Split text newline) "") "") as [Hl|]; [|done].
  rewrite Split_end, stake_app_l by (done || lia).
  rewrite (Split_no_sep (stake n d)) by (intros Hin; by apply Hn, (stake_elem n)).
  rewrite last_last. destruct n as [|n]; [lia|]. destruct d as [|c d]; [cbn in Hlen; lia|]. done.
Qed.

Definition stored_ledger (s : FileStore) `{Kernel} (t : tree) : option (list LedgerRecord) :=
  match kind_at t (key (ledgerData s)) with
  | None => Some []
  | Some k => data_of k ≫= ledger_of
  end.

(** ** Serial numbers and fingerprints *)

Definition entry_key (r : LedgerRecord) : string * Z * string := (Issuer r, IssuerVersion r, Serial r).

Definition fresh_record (l : list LedgerRecord) (r : LedgerRecord) : Prop :=
  entry_key r ∉ map entry_key l ∧ l_Fingerprint r ∉ map l_Fingerprint l.

Lemma conflict_fresh l r : conflict l r = None ↔ fresh_record l r.
Proof.
  unfold conflict, fresh_record. rewrite first_error_None, Forall_map. induction l as [|x l IH].
  - split; [intros _; split; apply not_elem_of_nil|intros _; constructor].
  - rewrite Forall_cons, IH. cbn [map]. rewrite !not_elem_of_cons. clear IH. cbv beta.
    assert ((if String.eqb (Issuer x) (Issuer r) && (IssuerVersion x =? IssuerVersion r)
              && String.eqb (Serial x) (Serial r)
             then Some (ConflictError "issuer serial already recorded" None)
             else if String.eqb (l_Fingerprint x) (l_Fingerprint r)
             then Some (ConflictError "certificate already recorded" None) else None) = None ↔
            entry_key r ≠ entry_key x ∧ l_Fingerprint r ≠ l_Fingerprint x) as ->.
    { unfold entry_key. destruct (String.eqb_spec (Issuer x) (Issuer r)), (Z.eqb_spec (IssuerVersion x) (IssuerVersion r)),
        (String.eqb_spec (Serial x) (Serial r)), (String.eqb_spec (l_Fingerprint x) (l_Fingerprint r)); cbn; split;
        intros; try done; try (split; congruence). all: naive_solver congruence. }
    tauto.
Qed.

Definition unique_records (l : list LedgerRecord) : Prop :=
  NoDup (map entry_key l) ∧ NoDup (map l_Fingerprint l).

Lemma unique_append l r : unique_records l → fresh_record l r → unique_records (l ++ [r]).
Proof.
  intros [H1' H2'] [F1 F2]. unfold unique_records. rewrite !map_app. cbn [map].
  split; apply NoDup_app; (split; [done|]; split; [|apply NoDup_singleton]);
    intros x Hx Hy; apply list_elem_of_singleton in Hy as ->; done.
Qed.
End records.

(** ** Reading *)
Section reading.
Context `{Kernel, JSON, Unicode, Crypto, URLParser} {St M : Type} (s : FileStore).
Implicit Types w : world disk M.

Lemma open_old_run p flags m w r w' :
  flags ≠ O_CREATE_RDWR → openNoFollow p flags m w = (r, w') →
  w_mem w' = w_mem w ∧ tree_of w' = tree_of w ∧
  match r with
  | inl e => e = ErrNotExist → tree_of w !! key p = None
  | inr f => f = p ∧ ∃ n, tree_of w !! key p = Some n
  end.
Proof.
  intros Hf. unfold openNoFollow, os_OpenFile, change, call, tree_of, fault.
  destruct (k_fault _) as [[x k]|]; [by intros [= <- <-]|].
  unfold open_file. destruct (d_tree (w_disk w) !! key p) as [n|] eqn:En.
  - destruct (nd_kind n), flags; intros [= <- <-]; try done; (split; [done|]; split; [done|]; split; [done|]; by exists n).
  - destruct flags; try done; by intros [= <- <-].
Qed.

Lemma Read_run f w text w' :
  f_Read f w = ((text, None), w') →
  w_mem w' = w_mem w ∧ tree_of w' = tree_of w ∧ content_at (tree_of w) f = inr text.
Proof.
  unfold f_Read, call, tree_of. destruct (content_at _ f) as [e|d]; [done|].
  destruct (fault _) as [[e k]|]; [done|]. by intros [= <- <-].
Qed.

Lemma read_lines_run lines tail err out w l w' :
  read_lines lines tail err out w = (inr l, w') →
  err = None ∧ tail = "" ∧ ∃ l', mapM decode_line lines = Some l' ∧ l = out ++ l'.
Proof.
  revert out w. induction lines as [|line lines IH]; intros out w E.
  - cbn [read_lines] in E. injection E as E _. destruct (String.eqb_spec tail ""); [|done].
    destruct err; [done|]. injection E as <-. split_and!; [done|done|]. exists []. by rewrite app_nil_r.
  - cbn [read_lines] in E. destruct (unjson_record (line +:+ nl)) as [e|r] eqn:Eu; [done|].
    destruct (validateLedgerRecord r) as [e|] eqn:Ev; [done|]. inv_run E. destruct r0 as [e|]; [done|].
    apply IH in E as (-> & -> & l' & El & ->). split_and!; [done|done|]. exists (r :: l').
    split; [|by rewrite <- app_assoc]. apply mapM_Some. constructor; [|by apply mapM_Some].
    unfold decode_line. by rewrite Eu, Ev.
Qed.

Lemma readLedger_run w l w' :
  readLedger s w = (inr l, w') → stored_ledger s (tree_of w) = Some l.
Proof.
  unfold readLedger. intros E. inv_run E. apply open_old_run in E0 as (_ & Ht & Hr); [|done].
  unfold stored_ledger, kind_at. destruct r as [e|f].
  - injection E as E _. case_bool_decide as He; [|done]. injection E as <-. by rewrite (Hr He).
  - destruct Hr as (-> & n & En). inv_run E. destruct r as [text err].
    inv_run E. destruct r as [e|l1]; [by inv_run E|].
    apply read_lines_run in E1 as (-> & Htail & l' & Hl & ->). inv_run E. injection E as <- _.
    apply Read_run in E0 as (_ & _ & Hc). rewrite Ht in Hc. unfold content_at, node_at in Hc.
    rewrite En in Hc |- *. cbn. unfold content in Hc. unfold data_of.
    destruct (nd_kind n); try done. injection Hc as ->.
    cbn [mbind option_bind]. unfold ledger_of. by rewrite Htail.
Qed.
End reading.

(** ** Appending *)
Section appending.
Context `{Kernel, JSON, Unicode, Crypto, URLParser} {St M : Type} `{!JSONLaws St} (s : FileStore).
Implicit Types w : world disk M.

Lemma not_ledger_same w w' : changes nowhere w w' → stored_ledger s (tree_of w') = stored_ledger s (tree_of w).
Proof. intros [_ Ht]. unfold stored_ledger. by rewrite Ht by (by intros []). Qed.

Lemma nowhere_document w w' : changes nowhere w w' → stored_document s (w_disk w') = stored_document s (w_disk w).
Proof. intros Hc. by apply (elsewhere_document s), nowhere_anywhere. Qed.

(** What a failed append may leave of its line. *)
Definition append_failed (r : LedgerRecord) (before after : option (list LedgerRecord)) : Prop :=
  after = before ∨
  ∃ l, before = Some l ∧ fresh_record l r ∧ (after = Some (l ++ [r]) ∨ after = None).

Lemma append_line_run r w res w' l :
  append_line s r w = (res, w') → validateLedgerRecord r = None → fresh_record l r →
  stored_ledger s (tree_of w) = Some l →
  match res with
  | None => stored_ledger s (tree_of w') = Some (l ++ [r])
  | Some _ => append_failed r (stored_ledger s (tree_of w)) (stored_ledger s (tree_of w'))
  end.
Proof.
  intros E Hv Hf Hl. unfold append_line in E. destruct (json_record r) as [e|d] eqn:Ej.
  { injection E as <- <-. by left. }
  inv_run E. apply open_old_run in E0 as (_ & Ht & Hr); [|done]. destruct r0 as [e|out].
  { injection E as <- <-. left. by rewrite Ht. }
  destruct Hr as (-> & n & Hn). rewrite <- Ht in Hl, Hn |- *. clear Ht w. rename h into w.
  assert (∃ text, nd_kind n = KFile text ∧ ledger_of text = Some l) as (text & Hk & Htext).
  { unfold stored_ledger, kind_at in Hl. rewrite Hn in Hl. cbn in Hl. destruct (nd_kind n); try done. by eexists. }
  assert (∀ k w1, tree_of w1 = <[key (ledgerData s) := append_data (stake k (d +:+ nl)) n]> (tree_of w) →
    stored_ledger s (tree_of w1) = ledger_of (text +:+ stake k (d +:+ nl))) as Hput.
  { intros k w1 ->. unfold stored_ledger. rewrite kind_insert, decide_True by done. cbn. by rewrite Hk. }
  assert (slen (d +:+ nl) = S (slen d)) as Hlen by (rewrite slen_app; cbn; lia).
  assert (∀ k, (slen d < k)%nat → ledger_of (text +:+ stake k (d +:+ nl)) = Some (l ++ [r])) as Hfull.
  { intros k Hlt. rewrite stake_all by lia. by apply (ledger_of_append (St := St)). }
  inv_run E.
  assert (tree_of w' = tree_of h ∧ (r0 ≠ None → res ≠ None)) as [Ht Hres].
  { inv_run E. assert (tree_of h0 = tree_of h ∧ (r0 ≠ None → r1 ≠ None)) as [Ht1 H1r].
    { destruct r0 as [e|]; [by injection E1 as <- <-|]. apply idle_run in E1 as [_ ?]. split; [done|by intros []]. }
    inv_run E. apply idle_run in E2 as [_ Ht2]. injection E as <- <-. split; [congruence|].
    intros Hne. by destruct r1; [|specialize (H1r Hne)]. }
  rewrite Ht. unfold f_Write, call in E0. destruct (fault _) as [[e k]|].
  - unfold alter, node_at in E0. fold (tree_of w) in E0. rewrite Hn in E0. injection E0 as <- Eh.
    destruct res as [e'|]; [|by destruct Hres]. rewrite (Hput k h) by (by rewrite <- Eh).
    destruct (decide (slen d < k)%nat); [right; exists l; rewrite Hfull by done; auto|].
    destruct (decide (k = 0)%nat) as [->|].
    + left. cbn [stake]. by rewrite sapp_nil_r, Hl.
    + right. exists l. rewrite (ledger_of_part (St := St) text l r d k) by (done || lia). auto.
  - unfold alter, node_at in E0. fold (tree_of w) in E0. rewrite Hn in E0. injection E0 as <- Eh.
    assert (stored_ledger s (tree_of h) = Some (l ++ [r])) as Hs.
    { rewrite <- (Hfull (S (slen d))) by lia. apply Hput. rewrite (stake_all (S (slen d))) by lia. by rewrite <- Eh. }
    rewrite Hs.
    destruct res; [|done]. right. exists l. auto.
Qed.

Lemma appendLedgerRecord_run r w res w' :
  appendLedgerRecord s r w = (res, w') → validateLedgerRecord r = None →
  match res with
  | None => ∃ l, stored_ledger s (tree_of w) = Some l ∧ fresh_record l r ∧
      stored_ledger s (tree_of w') = Some (l ++ [r])
  | Some _ => append_failed r (stored_ledger s (tree_of w)) (stored_ledger s (tree_of w'))
  end.
Proof.
  unfold appendLedgerRecord. intros E Hv. inv_run E.
  apply (frame_run nowhere) in E0; [|by apply frame_open_old]. apply not_ledger_same in E0. rewrite <- E0.
  destruct r0 as [e|f]; [injection E as <- <-; by left|].
  inv_run E. injection E as <- <-. apply (holding_run nowhere) in E1; [|intros; apply frame_acquire].
  destruct E1 as [(e & -> & Hc)|(w1 & w2 & Hc1 & E1 & Hc2)].
  { cbn. left. by apply not_ledger_same. }
  rewrite <- (not_ledger_same _ _ Hc1), (not_ledger_same _ _ Hc2).
  apply bind_run in E1 as (r2 & w3 & E2 & E1). pose proof (frame_run _ _ _ _ _ (frame_readLedger s nowhere) E2) as Hc3.
  rewrite <- (not_ledger_same _ _ Hc3). destruct r2 as [e|l]; [injection E1 as <- <-; by left|].
  apply readLedger_run in E2. rewrite <- (not_ledger_same _ _ Hc3) in E2.
  destruct (conflict l r) as [e|] eqn:Ec; [injection E1 as <- <-; by left|].
  apply conflict_fresh in Ec. apply bind_run in E1 as (r3 & w4 & E3 & E1). injection E1 as <- <-.
  pose proof (append_line_run r w3 r3 w4 l E3 Hv Ec E2) as Ha. destruct r3 as [e|]; [done|]. cbn. by exists l.
Qed.

(** C17: appending to the ledger of a file store.  An append that reports
    success was checked against the stored document, met no record with the
    same issuer, version and serial number and none with the same fingerprint,
    and added exactly its record at the end, so records stay unique.  An append
    that reports an error added nothing, or its whole record, or a part of its
    line, and then every later reading of the ledger reports an error. *)
Theorem appendLedger_spec r w res w' :
  directory s ≠ "" → appendLedger (St := St) s r w = (res, w') →
  w_mem w' = w_mem w ∧ stored_document s (w_disk w') = stored_document s (w_disk w) ∧
  match res with
  | None => ∃ st l, stored_document s (w_disk w) = Some st ∧ valid (St := St) st ∧
      validateLedgerAuthority st r = None ∧ stored_ledger s (tree_of w) = Some l ∧ fresh_record l r ∧
      stored_ledger s (tree_of w') = Some (l ++ [r]) ∧
      (unique_records l → unique_records (l ++ [r]))
  | Some _ => append_failed r (stored_ledger s (tree_of w)) (stored_ledger s (tree_of w'))
  end.
Proof.
  intros Hdir E. destruct (frame_keeps s _ _ _ _ (frame_appendLedger s (elsewhere s) r (ledgerData_not_state s Hdir)) E)
    as [Hd Hm]. split; [done|]. split; [done|]. clear Hd Hm.
  unfold appendLedger in E. inv_run E. apply (frame_run nowhere) in E0; [|apply frame_storage].
  rewrite <- (not_ledger_same _ _ E0), <- (nowhere_document _ _ E0).
  destruct r0 as [e|]; [injection E as <- <-; by left|].
  inv_run E. injection E as <- <-. unfold withAuthorityReadLock in E1.
  apply bind_run in E1 as (r1' & w0 & E2 & E1).
  apply (frame_run nowhere) in E2; [|by apply frame_open_old].
  rewrite <- (not_ledger_same _ _ E2), <- (nowhere_document _ _ E2).
  destruct r1' as [e|f]; [injection E1 as <- <-; by left|].
  apply (holding_run nowhere) in E1; [|intros; apply frame_acquire_read].
  destruct E1 as [(e & -> & Hc)|(w1 & w2 & Hc1 & E1 & Hc2)]; [cbn; left; by apply not_ledger_same|].
  rewrite <- (not_ledger_same _ _ Hc1), <- (nowhere_document _ _ Hc1), (not_ledger_same _ _ Hc2).
  apply bind_run in E1 as (r2 & w3 & E3 & E1). apply load_run in E3 as [Hc3 Hl].
  rewrite <- (not_ledger_same _ _ Hc3). destruct r2 as [e|st]; [injection E1 as <- <-; by left|].
  destruct Hl as [Hst Hv]. destruct (validateLedgerAuthority st r) as [e|] eqn:Ea; [injection E1 as <- <-; by left|].
  apply bind_run in E1 as (r3 & w4 & E4 & E1). injection E1 as <- <-. apply appendLedgerRecord_run in E4.
  - destruct r3 as [e|]; cbn; [done|]. destruct E4 as (l & H1' & H2' & H3').
    exists st, l. split_and!; try done. intros Hu. by apply unique_append.
  - unfold validateLedgerAuthority in Ea. repeat case_match; done.
Qed.
End appending.

(** ** Looking up and listing *)
Section listing.
Context `{Kernel, JSON, Unicode, Crypto, URLParser} {St M : Type} (s : FileStore).
Implicit Types w : world disk M.

Lemma quiet_readLedger : returns (readLedger s : stm (world disk M) _) quiet_result.
Proof.
  assert (∀ lines tail err out, returns (read_lines lines tail err out : stm (world disk M) _) quiet_result) as Hlines.
  { intros lines tail err. induction lines as [|line lines IH]; intros out; cbn [read_lines].
    - apply returns_ret. intros e. repeat case_match; intros; by simplify_eq.
    - destruct (unjson_record _) as [e|r]; [apply returns_ret; by intros e' [= <-]|].
      destruct (validateLedgerRecord r) as [e|] eqn:Ev.
      { apply returns_ret. intros e' [= <-]. by eapply quiet_record. }
      apply returns_bind_any. intros [e|]; [apply returns_ret; by intros e' [= <-]|apply IH]. }
  unfold readLedger. apply returns_bind_any. intros [e|f].
  - apply returns_ret. intros e'. case_bool_decide; [done|]. by intros [= <-].
  - apply returns_bind_any. intros [text err]. eapply returns_bind; [apply Hlines|].
    intros r Hr. apply returns_bind_any. intros _. by apply returns_ret.
Qed.

(** Looking up a certificate.  A record that is found is in the ledger
    and is the one asked for; the answer that there is none is only given when
    the ledger could be read and has no such record. *)
Theorem lookupLedger_spec issuer version serial w res w' :
  lookupLedger s issuer version serial w = (res, w') →
  match res with
  | inr r => ∃ l, stored_ledger s (tree_of w) = Some l ∧ r ∈ l ∧ entry_key r = (issuer, version, serial)
  | inl e => AsNotFound e = true →
      ∃ l, stored_ledger s (tree_of w) = Some l ∧ (issuer, version, serial) ∉ map entry_key l
  end.
Proof.
  unfold lookupLedger. intros E. inv_run E. destruct r as [e|l].
  { injection E as <- <-. intros Ha. apply (returns_run _ _ _ _ _ quiet_readLedger) in E0.
    specialize (E0 e eq_refl). unfold quiet in E0. congruence. }
  apply readLedger_run in E0. destruct (List.find _ l) as [r|] eqn:Ef; injection E as <- <-.
  - exists l. split; [done|]. apply List.find_some in Ef as [Hin Hr]. split; [by apply list_elem_of_In|].
    unfold entry_of in Hr. bool_simpl. unfold entry_key.
    repeat match goal with X : String.eqb _ _ = true |- _ => apply String.eqb_eq in X end.
    match goal with X : (_ =? _) = true |- _ => apply Z.eqb_eq in X end. congruence.
  - intros _. exists l. split; [done|]. intros [r [Hk Hin]]%list_elem_of_fmap.
    apply list_elem_of_In in Hin. apply (List.find_none _ _ Ef) in Hin. unfold entry_of in Hin.
    injection Hk as -> -> ->. by rewrite !String.eqb_refl, Z.eqb_refl in Hin.
Qed.

Lemma int64_fit z : min_int64 ≤ z ≤ max_int64 → int64 z = z.
Proof. unfold int64, min_int64, max_int64. intros. rewrite Z.mod_small by lia. lia. Qed.
Lemma int64_over z : max_int64 < z < 2 ^ 64 + min_int64 + 2 ^ 64 → int64 z = z - 2 ^ 64.
Proof.
  unfold int64, min_int64, max_int64. intros.
  rewrite <- (Z_mod_plus_full _ (-1)), Z.mod_small by lia. lia.
Qed.

(** the bounds of a page.  For every cursor and limit of 64 bits, a start
    outside the ledger is refused; otherwise the page holds the records from
    [start] on, at most [limit] of them (100 if no positive limit is given),
    and the next cursor is that of the record after it, or empty at the end.
    When [start + limit] does not fit an [int] the sum is negative and slicing
    panics. *)
Theorem page_bounds l start limit :
  min_int64 ≤ start ≤ max_int64 → min_int64 ≤ limit ≤ max_int64 → Z.of_nat (length l) ≤ max_int64 →
  let n := if limit <=? 0 then 100 else limit in
  page l start limit =
    if (start <? 0) || (Z.of_nat (length l) <? start) then inl (invalid "invalid ledger cursor" None)
    else if max_int64 <? start + n then inl panic_slice
    else inr (take (Z.to_nat n) (drop (Z.to_nat start) l),
              if start + n <? Z.of_nat (length l) then Itoa (start + n) else "").
Proof.
  intros Hs Hl Hlen n. unfold page. cbv zeta. fold n. destruct (_ || _) eqn:Eb; [done|]. bool_simpl.
  repeat match goal with X : (_ <? _) = false |- _ => apply Z.ltb_ge in X end.
  assert (0 < n ≤ max_int64) as Hn by (unfold n, max_int64 in *; destruct (Z.leb_spec limit 0); lia).
  set (len := Z.of_nat (length l)) in *. unfold min_int64, max_int64 in *.
  destruct (Z.ltb_spec (2 ^ 63 - 1) (start + n)) as [Hover|Hfit].
  - rewrite int64_over by (unfold min_int64, max_int64; lia). destruct (Z.ltb_spec len (start + n - 2 ^ 64)); [lia|].
    destruct (Z.ltb_spec (start + n - 2 ^ 64) start); [done|lia].
  - rewrite int64_fit by (unfold min_int64, max_int64; lia). destruct (Z.ltb_spec len (start + n)) as [Hend|Hend].
    + rewrite Z.ltb_irrefl. destruct (Z.ltb_spec len start); [lia|]. destruct (Z.ltb_spec (start + n) len); [lia|].
      do 2 f_equal. rewrite !take_ge; [done| |]; rewrite length_drop; lia.
    + destruct (Z.ltb_spec (start + n) start); [lia|]. by replace (start + n - start) with n by lia.
Qed.
End listing.

(** ** The pages of a whole ledger *)
Section pages.
Context `{Kernel, JSON, Unicode, Crypto, !Env, URLParser} {St : Type} (s : FileStore).
Implicit Types w : world disk IssuerManager.
#[local] Existing Instance file_backend.

Lemma listLedger_run c limit w r w' :
  listLedger s c limit w = (r, w') →
  changes nowhere w w' ∧ ∀ x, r = inr x → ∃ l, stored_ledger s (tree_of w) = Some l ∧
    page l (if String.eqb c "" then 0 else Atoi_value c) limit = inr x.
Proof.
  intros E. split; [eapply frame_run; [|exact E]; apply frame_listLedger|]. intros x ->.
  unfold listLedger, withLedgerReadLock in E. inv_run E. destruct r as [e|l]; [done|]. injection E as E _.
  exists l. split; [|done]. clear E. inv_run E0. apply (frame_run nowhere) in E; [|apply frame_storage].
  rewrite <- (not_ledger_same s _ _ E). destruct r as [e|]; [done|]. clear E.
  inv_run E0. apply (frame_run nowhere) in E; [|by apply frame_open_old].
  rewrite <- (not_ledger_same s _ _ E). destruct r as [e|f]; [done|]. clear E.
  apply (holding_run nowhere) in E0; [|intros; apply frame_acquire_read].
  destruct E0 as [(e & E & _)|(w1 & w2 & Hc & E & _)]; [done|].
  apply readLedger_run in E. by rewrite <- (not_ledger_same s _ _ Hc).
Qed.

Abbreviation file_pages := (ledger_pages (D := disk) (Backend0 := file_backend St s)).

Lemma pages_from l fuel (k : nat) c w :
  stored_ledger s (tree_of w) = Some l → Z.of_nat (length l) + 500 ≤ max_int64 →
  (k ≤ length l)%nat → (if String.eqb c "" then 0 else Atoi_value c) = Z.of_nat k →
  (length l - k < 500 * fuel)%nat →
  ∃ r w', file_pages fuel c (take k l) w = (Some r, w') ∧ ∀ all, r = inr all → all = l.
Proof.
  revert k c w. induction fuel as [|fuel IH]; intros k c w Hl Hmax Hk Hc Hf; [lia|].
  cbn [ledger_pages]. change (b_listLedger c 500) with (listLedger (M := IssuerManager) s c 500).
  destruct (listLedger s c 500 w) as [r w1] eqn:E. rewrite (run_bind _ _ _ _ _ E).
  apply listLedger_run in E as [Hw1 Hr]. destruct r as [e|[records next]].
  { eexists _, _. split; [done|]. done. }
  destruct (Hr _ eq_refl) as (l' & Hl' & Hp). rewrite Hl in Hl'. injection Hl' as <-. rewrite Hc in Hp.
  rewrite page_bounds in Hp by (unfold min_int64, max_int64 in *; lia). cbv zeta in Hp. cbn [Z.leb] in Hp.
  change (500 <=? 0) with false in Hp. cbn iota in Hp.
  rewrite (proj2 (Z.ltb_ge (Z.of_nat k) 0)), (proj2 (Z.ltb_ge (Z.of_nat (length l)) (Z.of_nat k))),
    (proj2 (Z.ltb_ge max_int64 (Z.of_nat k + 500))) in Hp by (unfold max_int64 in *; lia).
  cbn [orb] in Hp. injection Hp as <- Hnext. rewrite Nat2Z.id. change (Z.to_nat 500) with 500%nat.
  assert (take k l ++ take 500 (drop k l) = take (k + 500) l) as Htake by apply take_take_drop.
  rewrite Htake. destruct (Z.ltb_spec (Z.of_nat k + 500) (Z.of_nat (length l))) as [Hlt|Hge]; subst next.
  - assert (Atoi_value (Itoa (Z.of_nat k + 500)) = Z.of_nat k + 500) as Ha
      by (unfold Atoi_value; rewrite Atoi_Itoa by (unfold min_int64, max_int64 in *; lia); done).
    destruct (String.eqb_spec (Itoa (Z.of_nat k + 500)) "") as [E|Hne]; [rewrite E in Ha; cbn in Ha; lia|].
    apply IH; [by rewrite (not_ledger_same s _ _ Hw1)|done|lia| |lia].
    destruct (String.eqb_spec (Itoa (Z.of_nat k + 500)) ""); [done|]. rewrite Ha. lia.
  - eexists _, _. split; [done|]. intros all [= <-]. apply take_ge. lia.
Qed.
End pages.

(** reading a whole ledger.  The loop over the pages of a file store ends
    within one page per 500 records, whatever calls fail, and if no error is
    reported it has collected exactly the records of the file, in their
    order. *)
Theorem file_pages_spec `{Kernel, JSON, Unicode, Crypto, !Env, URLParser} {St : Type} (s : FileStore)
    (w : world disk IssuerManager) l fuel :
  stored_ledger s (tree_of w) = Some l → Z.of_nat (length l) + 500 ≤ max_int64 →
  (length l < 500 * fuel)%nat →
  ∃ r w', ledger_pages (D := disk) (Backend0 := file_backend St s) fuel "" [] w = (Some r, w') ∧
    ∀ all, r = inr all → all = l.
Proof.
  intros Hl Hmax Hf. apply (pages_from s l fuel 0 "" w Hl Hmax); [lia|done|lia].
Qed.
