(* ===== verification/CertsSqliteLedger.v ===== *)
(** * The ledger of the SQLite store

    The rows of the ledger database: what an append does to them, whatever fails
    around it, and that a lookup finds what was appended. *)
From S2P Require Import Prelude.
From S2P Require Import GoStrings.
From S2P Require Import GoPath.
From S2P Require Import Utf8.
From S2P Require Import Errors.
From S2P Require Import GoNet.
From S2P Require Import CertsTypes.
From S2P Require Import CertsNames.
From S2P Require Import CertsCrypto.
From S2P Require Import CertsOptions.
From S2P Require Import CertsState.
From S2P Require Import CertsBackend.
From S2P Require Import CertsFiles.
From S2P Require Import CertsDisk.
From S2P Require Import CertsFileStore.
From S2P Require Import CertsFileStoreFacts.
From S2P Require Import CertsFileStoreLaws.
From S2P Require Import CertsSql.
From S2P Require Import CertsSqliteStore.
From S2P Require Import CertsSqliteFacts.
From S2P Require Import CertsSqliteLaws.
#[local] Open Scope stdpp_scope.
#[local] Open Scope Z_scope.
Import SQLiteStore.

(** ** Rows *)

Definition row_key (r : ledger_row) : string * Z * string := (lr_issuer r, lr_issuer_version r, lr_serial r).
Definition fresh_row (rows : list ledger_row) (r : ledger_row) : Prop :=
  row_key r ∉ map row_key rows ∧ lr_fingerprint r ∉ map lr_fingerprint rows.
Definition unique_rows (rows : list ledger_row) : Prop :=
  NoDup (map row_key rows) ∧ NoDup (map lr_fingerprint rows).

Lemma unique_rows_append rows r : unique_rows rows → fresh_row rows r → unique_rows (rows ++ [r]).
Proof.
  intros [H1' H2'] [F1 F2]. unfold unique_rows. rewrite !map_app. cbn [map].
  split; apply NoDup_app; (split; [done|]; split; [|apply NoDup_singleton]);
    intros x Hx Hy; apply list_elem_of_singleton in Hy as ->; done.
Qed.

Lemma existsb_elem {A} (f : A → bool) l : existsb f l = false ↔ ∀ x, x ∈ l → f x = false.
Proof.
  rewrite <- not_true_iff_false, existsb_exists. split.
  - intros Hn x Hx%list_elem_of_In. destruct (f x) eqn:E; [|done]. by destruct Hn; exists x.
  - intros Hf (x & Hx%list_elem_of_In & E). by rewrite Hf in E.
Qed.

Lemma same_entry_key r x : same_entry r x = true ↔ row_key x = row_key r.
Proof.
  unfold same_entry, row_key. rewrite !andb_true_iff, !String.eqb_eq, Z.eqb_eq. split; [by intros [[-> ->] ->]|by intros [= -> -> ->]].
Qed.

Lemma insert_ledger_run r d d' :
  insert_ledger r d = inr d' →
  ∃ rows, ledger d = Some rows ∧ fresh_row rows r ∧ ledger d' = Some (rows ++ [r]).
Proof.
  unfold insert_ledger, updated, in_table. destruct (ledger d) as [rows|]; [|done].
  destruct (existsb _ rows) eqn:E1; [done|]. destruct (existsb (same_entry r) rows) eqn:E2; [done|].
  intros [= <-]. exists rows. split; [done|]. split; [|done]. rewrite existsb_elem in E1, E2. split.
  - intros (x & Ex & Hx)%list_elem_of_fmap. specialize (E2 x Hx). by rewrite (proj2 (same_entry_key r x)) in E2.
  - intros (x & Ex & Hx)%list_elem_of_fmap. specialize (E1 x Hx). by rewrite Ex, String.eqb_refl in E1.
Qed.

Lemma select_entry_run i v n d text :
  select_entry i v n d = inr text → ∃ rows x, ledger d = Some rows ∧ x ∈ rows ∧ row_key x = (i, v, n) ∧ lr_document x = text.
Proof.
  unfold select_entry, in_table. destruct (ledger d) as [rows|]; [|done].
  destruct (List.find _ rows) as [x|] eqn:E; [|done]. intros [= <-].
  apply find_some in E as [Hx%list_elem_of_In E]. rewrite !andb_true_iff, !String.eqb_eq, Z.eqb_eq in E.
  destruct E as [[<- <-] <-]. by exists rows, x.
Qed.
Lemma select_entry_none i v n d rows :
  select_entry i v n d = inl ErrNoRows → ledger d = Some rows → (i, v, n) ∉ map row_key rows.
Proof.
  unfold select_entry, in_table. intros E Hd. rewrite Hd in E.
  destruct (List.find _ rows) as [x|] eqn:Ef; [done|]. intros (x & Ex & Hx)%list_elem_of_fmap.
  apply list_elem_of_In in Hx. apply (find_none _ _ Ef) in Hx. unfold row_key in Ex. injection Ex as -> -> ->.
  by rewrite !String.eqb_refl, Z.eqb_refl in Hx.
Qed.

Lemma unique_row rows x y : unique_rows rows → x ∈ rows → y ∈ rows → row_key x = row_key y → x = y.
Proof.
  intros [Hn _] Hx Hy E. apply list_elem_of_lookup in Hx as [i Hi]. apply list_elem_of_lookup in Hy as [j Hj].
  assert (i = j) as ->; [|congruence]. eapply (NoDup_lookup (map row_key rows)); [done|..].
  - apply list_lookup_fmap_Some. by exists x.
  - apply list_lookup_fmap_Some. by exists y.
Qed.

(** ** Appending and looking up *)
Section ledger.
Context `{Kernel, JSON, SQLite, SQLText, Unicode, Crypto, URLParser} {St M : Type} `{!SQLiteLaws, !SQLTextLaws St}.
Context (s : SQLiteStore) (l : list string) (b : string) (Hs : store_path s l b).
Implicit Types w : world disk (bool * M).
Abbreviation op A := (stm (world disk (bool * M)) A).

(** The rows of the ledger. *)
Definition ledger_rows (t : tree) : option (list ledger_row) :=
  d ← database_at t (key (ledgerPath s)); ledger d.

Lemma rows_same w w' : same_databases w w' → ledger_rows (tree_of w') = ledger_rows (tree_of w).
Proof. intros [_ Hd]. unfold ledger_rows. by rewrite Hd. Qed.
Lemma frame_same {A} (m : op A) w a w' : frame nowhere m → m w = (a, w') → same_databases w w'.
Proof.
  intros Hf E. destruct (frame_run _ _ _ _ _ Hf E) as [Hm Ht]. split; [done|]. intros k.
  eapply database_only; [exact Ht|]. unfold nowhere. tauto.
Qed.
Lemma frame_rows {A} (m : op A) w a w' :
  frame nowhere m → m w = (a, w') → ledger_rows (tree_of w') = ledger_rows (tree_of w).
Proof. intros Hf E. eapply rows_same, frame_same; done. Qed.

(** What an append adds: one row that was not there, for the record. *)
Definition appended (r : LedgerRecord) (before after : option (list ledger_row)) : Prop :=
  ∃ rows data, before = Some rows ∧ marshal_record r = inr data ∧ fresh_row rows (row_of_record r data) ∧
    after = Some (rows ++ [row_of_record r data]).

Lemma insert_row_run r w res w' :
  insert_record_row s r w = (res, w') →
  match res with
  | inr _ => appended r (ledger_rows (tree_of w)) (ledger_rows (tree_of w'))
  | inl _ => ledger_rows (tree_of w') = ledger_rows (tree_of w) ∨
      appended r (ledger_rows (tree_of w)) (ledger_rows (tree_of w'))
  end.
Proof.
  unfold insert_record_row, with_open_ledger. intros E. inv_run E.
  pose proof (step_run _ _ _ _ _ _ (opens_ledger s w) E0) as [_ Hdb].
  apply frame_rows in E0; [|unfold openLedgerWriteExisting, validate_ledger; go_frame]. rewrite <- E0.
  destruct r0 as [e|db]; [injection E as <- <-; by left|]. subst db.
  inv_run E. inv_run E. injection E as <- <-. apply frame_rows in E2; [|apply frame_sql_Close]. rewrite E2.
  destruct (marshal_record r) as [e|data] eqn:Em; [injection E1 as <- <-; by left|].
  inv_run E1. apply sql_Exec_run in E as [_ Hr].
  assert ((is_Some r2 ∧ ledger_rows (tree_of h2) = ledger_rows (tree_of h)) ∨
    appended r (ledger_rows (tree_of h)) (ledger_rows (tree_of h2))) as Hrows.
  { destruct Hr as [[? Ht]|(p & ro & Ho & _ & _ & Hr)]; [left; by rewrite Ht|].
    rewrite (open_ledger_dsn s l b Hs) in Ho. injection Ho as <- <-. unfold ledger_rows.
    destruct Hr as [[? Hd]|(d & d' & Hd & Hi & Hd')]; [left; by rewrite Hd|]. right. rewrite Hd, Hd'. cbn.
    apply insert_ledger_run in Hi as (rows & -> & Hf & ->). by exists rows, data. }
  destruct r2 as [e|].
  - injection E1 as <- <-. by destruct Hrows as [[_ ?]|]; [left|right].
  - destruct Hrows as [[[] ?]|Hrows]; [done|]. inv_run E1.
    apply frame_rows in E; [|apply frame_idle]. injection E1 as <- <-. rewrite E. cbn. match goal with |- match result (as_error ?o) with _ => _ end => destruct o end; [by right|done].
Qed.

(** A query on a database that answers that there is no row. *)
Lemma db_query_none {A} dsn p ro (f : sql_query A) d w w' :
  open_dsn dsn = inr (p, ro) → database_at (tree_of w) (key p) = Some d →
  db_query dsn f w = (inl ErrNoRows, w') → f d = inl ErrNoRows.
Proof.
  intros Ho Hd. unfold db_query, statement, call, run_statement. rewrite Ho.
  assert (∀ n text t, open_database p ro (tree_of w) = inr (n, text, t) → db_parse text = inr d) as Hp.
  { unfold open_database, database_at, kind_at in *. destruct (tree_of w !! key p) as [m|]; cbn in Hd.
    - destruct (nd_kind m); try done. intros ? ? ? [= <- <- <-]. by destruct (db_parse _); simplify_eq.
    - injection Hd as <-. destruct ro; [done|]. destruct (make _ _ _ _); [done|]. intros ? ? ? [= <- <- <-].
      apply db_parse_empty. }
  fold (tree_of w). destruct (open_database p ro (tree_of w)) as [e|[[n text] t]] eqn:Eo.
  - assert (e = cannot_open) as ->.
    { unfold open_database in Eo. repeat case_match; by simplify_eq. }
    unfold fault. repeat case_match; intros; simplify_eq.
  - rewrite (Hp n text t eq_refl). unfold fault. destruct (f d) as [e|a]; repeat case_match; intros; by simplify_eq.
Qed.

Lemma quiet_ledger_directory info m : quiet_check (validateSQLiteLedgerDirectory s info m).
Proof. intros e. unfold validateSQLiteLedgerDirectory, forbidden. repeat case_match; by intros [= <-]. Qed.
Lemma quiet_file info m : quiet_check (validateSQLiteLedgerFile s info m).
Proof. intros e. unfold validateSQLiteLedgerFile, forbidden. repeat case_match; by intros [= <-]. Qed.
Lemma quiet_validate : returns (validate_ledger s : op _) quiet_check.
Proof.
  unfold validate_ledger. apply returns_bind_any. intros [e|info]; [apply returns_ret; by intros e' [= <-]|].
  eapply returns_bind; [apply returns_ret, quiet_ledger_directory|]. intros [e|] Hq.
  { apply returns_ret. intros e' [= <-]. by apply Hq. }
  apply returns_bind_any. intros [e|info']; apply returns_ret; [by intros e' [= <-]|apply quiet_file].
Qed.

Lemma opens_read_only :
  returns (openLedgerReadOnly s : op _)
    (λ r, match r with inl e => quiet e | inr x => x = sqliteReadOnlyDSN (ledgerPath s) end).
Proof.
  unfold openLedgerReadOnly. eapply returns_bind; [apply quiet_validate|].
  intros [e|] Hq; [apply returns_ret; by apply Hq|].
  eapply (returns_bind _ _ (λ r : sys_error + string,
    match r with inl _ => True | inr x => x = sqliteReadOnlyDSN (ledgerPath s) end)).
  - intros w. unfold sql_Open, look, call. cbn. by destruct (fault _) as [[e n]|].
  - intros [e|x] Hx; by apply returns_ret.
Qed.

(** Looking up a certificate finds a row of it, and that there is none is only
    answered when there is none. *)
Lemma lookup_run i v n w res w' rows :
  lookupLedger s i v n w = (res, w') → ledger_rows (tree_of w) = Some rows →
  match res with
  | inr x => ∃ row, row ∈ rows ∧ row_key row = (i, v, n) ∧ decode_record (lr_document row) = inr x
  | inl e => AsNotFound e = true → (i, v, n) ∉ map row_key rows
  end.
Proof.
  unfold lookupLedger, with_open_ledger. intros E Hrows. inv_run E.
  pose proof (returns_run _ _ _ _ _ opens_read_only E0) as Hdb.
  apply frame_same in E0 as Hc; [|unfold openLedgerReadOnly, validate_ledger; go_frame]. pose proof (rows_same _ _ Hc) as Hc'.
  rewrite <- Hc' in Hrows. clear Hc'.
  destruct r as [e|db]; [injection E as <- <-; unfold quiet in Hdb; congruence|]. subst db.
  inv_run E. inv_run E. injection E as <- <-. inv_run E1. injection E1 as <- <-.
  assert (open_dsn (sqliteReadOnlyDSN (ledgerPath s)) = inr (ledgerPath s, true)) as Ho by (by eapply open_ledger_ro_dsn).
  unfold ledger_rows in Hrows. destruct (database_at (tree_of h) (key (ledgerPath s))) as [d|] eqn:Ed; [|done]. cbn in Hrows.
  match goal with H : db_query _ _ _ = (?r, _) |- _ => rename H into Eq; destruct r as [e|text] end.
  - assert (e = ErrNoRows ∨ e ≠ ErrNoRows) as [->|Hne] by (destruct (decide (e = ErrNoRows)); auto).
    + intros _. eapply db_query_none in Eq; [|exact Ho|exact Ed]. by eapply select_entry_none.
    + by destruct e.
  - apply db_query_run in Eq as [_ Hq]. destruct (Hq text eq_refl) as (p & ro & d' & Ho' & Hd & Hs').
    rewrite Ho in Ho'. injection Ho' as <- <-. rewrite Ed in Hd. injection Hd as <-.
    apply select_entry_run in Hs' as (rows' & x & Hr & Hx & Hk & <-). rewrite Hrows in Hr. injection Hr as <-.
    destruct (decode_record (lr_document x)) as [e|rec] eqn:Er; [|by exists x].
    intros Ha. unfold decode_record in Er. destruct (unjson_record _) as [e'|rec]; [by injection Er as <-|].
    destruct (validateLedgerRecord rec) as [e'|] eqn:Ev; [|done]. injection Er as <-.
    apply quiet_record in Ev. unfold quiet in Ev. congruence.
Qed.

(** C18: appending to the ledger of a SQLite store.  An append that reports
    success was checked against the document of the authority, met no row with
    the same issuer, version and serial number and none with the same fingerprint,
    and added exactly one row at the end, so rows stay unique; one that reports an
    error added nothing or that whole row.  The document stays.  A later lookup of
    that certificate answers the record or an error of the system, never that
    there is none. *)
Theorem sql_append_spec r w res w' :
  appendLedger s r w = (res, w') →
  same_database s w w' ∧
  match res with
  | None => ∃ st, sql_document s (tree_of w) = Some st ∧ validateLedgerAuthority st r = None ∧
      appended r (ledger_rows (tree_of w)) (ledger_rows (tree_of w')) ∧
      ∀ rows, ledger_rows (tree_of w) = Some rows → unique_rows rows →
        (∃ rows', ledger_rows (tree_of w') = Some rows' ∧ unique_rows rows') ∧
        ∀ found w'', lookupLedger s (Issuer r) (IssuerVersion r) (Serial r) w' = (found, w'') →
          found = inr r ∨ ∃ e, found = inl e ∧ e ≠ NotFoundError "ledger certificate" None
  | Some _ => ledger_rows (tree_of w') = ledger_rows (tree_of w) ∨
      appended r (ledger_rows (tree_of w)) (ledger_rows (tree_of w'))
  end.
Proof.
  intros E. split; [by eapply settled_run; [eapply settled_appendLedger|]|]. unfold appendLedger in E. inv_run E.
  unfold store_db in E0. inv_run E0. injection E0 as <- <-. injection E1 as <- <-.
  destruct (w_mem w).1; [|injection E as <- <-; by left]. destruct (open_dsn_store s l b Hs) as [ro Ho].
  inv_run E. apply db_query_run in E0 as [Hc Hq]. pose proof (rows_same _ _ Hc) as Hrows. rewrite <- Hrows.
  destruct r0 as [e|q]; [injection E as <- <-; by left|]. destruct (Hq q eq_refl) as (p & ro' & d & Ho' & Hd & [= <-]).
  rewrite Ho in Ho'. injection Ho' as <- <-. inv_run E. apply look_run in E0 as (Hm1 & Ht1 & Hr1). rewrite <- Ht1.
  destruct r0 as [e|data]; [injection E as <- <-; by left|]. destruct Hr1 as [Hsel|[x ?]]; [|done].
  destruct (unjson_state data) as [e|st] eqn:Eu; [injection E as <- <-; by left|].
  destruct (validateLedgerAuthority st r) as [e|] eqn:Ea; [injection E as <- <-; by left|].
  inv_run E. injection E as <- <-. apply insert_row_run in E0. destruct r0 as [e|[]]; cbn; [done|].
  exists st. split_and!; [|done|done|].
  { unfold sql_document, file_key. rewrite Hd. cbn. unfold document_of. by rewrite Hsel, Eu. }
  destruct E0 as (rows & text & Hb & Hj & Hf & Haf). intros rows' Hb' Hu. rewrite Hb in Hb'. injection Hb' as <-.
  pose proof (unique_rows_append _ _ Hu Hf) as Hu'. split; [by eexists|]. intros found w'' El.
  apply (lookup_run _ _ _ _ _ _ _ El) in Haf. destruct found as [e|x].
  - right. exists e. split; [done|]. intros ->. apply (Haf eq_refl). rewrite map_app, elem_of_app. right. by left.
  - left. destruct Haf as (row & Hin & Hk & Hdec).
    assert (row = row_of_record r text) as ->.
    { eapply unique_row; [exact Hu'|done|apply elem_of_app; right; by left|exact Hk]. }
    unfold decode_record in Hdec. cbn in Hdec. rewrite (marshal_record_law (St := St) r text) in Hdec; [|..|done].
    + by destruct (validateLedgerRecord r); simplify_eq.
    + unfold validateLedgerAuthority in Ea. repeat case_match; done.
Qed.
End ledger.

(** ** What does not work *)
Section failing.
Context `{Kernel, JSON, SQLite, SQLText, Unicode, Crypto, URLParser} {St M : Type} `{!SQLiteLaws}.
Implicit Types (w : world disk (bool * M)) (s : SQLiteStore).

(** A statement on a name that is not opened fails. *)
Lemma query_refused {A} dsn (f : sql_query A) e w :
  open_dsn dsn = inl e → ∃ e' w', db_query dsn f w = (inl e', w').
Proof.
  intros Ho. unfold db_query, statement, call, run_statement. rewrite Ho.
  destruct (fault _) as [[e' [|n]]|]; by eexists _, _.
Qed.

(** With a relative path the first component is taken for the host of the URI
    of the read-only name, so no issuer ever loads the authority. *)
Lemma relative_path_unreadable s host p w :
  path s = host +:+ "/" +:+ p → host ≠ "" → host ≠ "localhost" → in_set host "/" = false →
  ∃ e w', load (St := St) s true w = (inl e, w').
Proof.
  intros Hp H1' H2' H3'. destruct (open_authority host p H1' H2' H3') as [e Ho]. rewrite <- Hp in Ho.
  unfold load. destruct (sql_Open (sqliteReadOnlyDSN (path s)) w) as [r w1] eqn:E1.
  unfold mbind at 1, stm_bind at 1. rewrite E1. destruct r as [e1|db]; [by eexists _, _|].
  assert (db = sqliteReadOnlyDSN (path s)) as ->.
  { unfold sql_Open, look, call in E1. injection E1 as E1 _. by destruct (fault _) as [[? ?]|]; simplify_eq. }
  destruct (pragma_query_only (sqliteReadOnlyDSN (path s)) w1) as [[] w2] eqn:E2.
  unfold mbind at 1, stm_bind at 1. rewrite E2.
  assert (∃ e2 w3, load_rows (St := St) (sqliteReadOnlyDSN (path s)) w2 = (inl e2, w3)) as (e2 & w3 & E3).
  { unfold load_rows, mbind, stm_bind. destruct (query_refused _ select_document e w2 Ho) as (e' & w' & ->).
    destruct e'; by eexists _, _. }
  unfold mbind at 1, stm_bind at 1. rewrite E3. unfold mbind at 1, stm_bind at 1.
  destruct (sql_Close w3) as [? w4]. by eexists _, _.
Qed.

(** After a purge the handle is nil: the next update dereferences it. *)
Lemma purged_then_panics {A} s (f : authorityState → stm (world disk (bool * M)) (outcome A)) w w' :
  purge s w = (None, w') → (update (St := St) s f w').1 = inl panic_nil.
Proof.
  unfold purge, update. destruct (readOnly s); [done|]. intros E. inv_run E. destruct r as [e|]; [done|].
  inv_run E. assert ((w_mem h0).1 = false) as Hc.
  { unfold close_db in E1. inv_run E1. unfold is_open in E2. inv_run E2. injection E3 as <- <-. injection E2 as <- <-.
    destruct (w_mem h).1 eqn:Eo; [|by injection E1 as _ <-]. inv_run E1. inv_run E1. injection E1 as _ <-.
    unfold set_open in E3. inv_run E3. injection E3 as _ <-. done. }
  assert (w_mem w' = w_mem h0) as Hm.
  { assert (∀ p, frame (λ _, True) (remove_if_there p : stm (world disk (bool * M)) _)) as Hr.
    { intros p. unfold remove_if_there. apply frame_bind; [|intros; apply frame_ret]. unfold os_Remove.
      apply frame_change_. intros t t' _ k []. done. }
    inv_run E. apply (frame_run (λ _, True)) in E2 as [<- _].
    - destruct r0 as [e|]; [done|]. apply (frame_run (λ _, True)) in E as [<- _]; [done|apply Hr].
    - apply frame_for_each. intros p u _. apply frame_bind; [apply Hr|intros; apply frame_ret]. }
  unfold store_db, is_open, mbind, stm_bind, get_mem. cbn. by rewrite Hm, Hc.
Qed.
End failing.
