(* ===== verification/CertsExamples.v ===== *)
(** * A small instance of the interfaces

    Concrete certificates, keys, clock, random source and store with which the
    hypotheses of the certificate theorems are met.  A certificate is encoded
    as the list of its fields, a key is its own public key, encryption keeps
    the passphrase next to the key, and the store keeps the document in
    memory. *)
From S2P Require Import Prelude.
From S2P Require Import GoStrings.
From S2P Require Import Utf8.
From S2P Require Import Text.
From S2P Require Import Errors.
From S2P Require Import GoNet.
From S2P Require Import CertsTypes.
From S2P Require Import CertsNames.
From S2P Require Import CertsCrypto.
From S2P Require Import CertsOptions.
From S2P Require Import CertsState.
From S2P Require Import CertsBackend.
From S2P Require Import CertsStateFacts.
#[local] Open Scope stdpp_scope.
#[local] Open Scope Z_scope.

(** ** An encoding of lists of strings *)

(** A field is its characters, each after a 1, and a final 0. *)
Fixpoint put (s : string) : string :=
  match s with
  | EmptyString => "0"
  | String c s' => String "1" (String c (put s'))
  end.
Fixpoint get (s : string) : option (string * string) :=
  match s with
  | String t s' =>
      if Ascii.eqb t "0" then Some ("", s')
      else match s' with
           | String c s'' => match get s'' with Some (x, r) => Some (String c x, r) | None => None end
           | EmptyString => None
           end
  | EmptyString => None
  end.

Lemma get_put s r : get (put s +:+ r) = Some (s, r).
Proof. induction s as [|c s IH]; [done|]. cbn. by rewrite IH. Qed.

Lemma slen_cons c s : slen (String c s) = S (slen s).
Proof. done. Qed.

Lemma get_shorter_go n s x r : (slen s ≤ n)%nat → get s = Some (x, r) → (slen r < slen s)%nat.
Proof.
  revert s x r. induction n as [|n IH]; intros [|c s] x r Hn E; try done; rewrite slen_cons in Hn |- *; [lia|].
  cbn [get] in E. destruct (Ascii.eqb c "0"); [by injection E as <- <-; lia|]. destruct s as [|d s]; [done|].
  rewrite slen_cons in Hn |- *. destruct (get s) as [[y r']|] eqn:Eg; [|done]. injection E as <- <-.
  apply IH in Eg; lia.
Qed.
Lemma get_shorter s x r : get s = Some (x, r) → (slen r < slen s)%nat.
Proof. by apply (get_shorter_go (slen s)). Qed.

Fixpoint pack (l : list string) : string :=
  match l with [] => "" | s :: l' => put s +:+ pack l' end.
Fixpoint unpack (fuel : nat) (s : string) : list string :=
  match fuel with
  | O => []
  | S f => match get s with Some (x, r) => x :: unpack f r | None => [] end
  end.

Lemma put_length s : (1 ≤ slen (put s))%nat.
Proof. destruct s; cbn; lia. Qed.

Lemma pack_length l : (length l ≤ slen (pack l))%nat.
Proof.
  induction l as [|s l IH]; cbn [pack length]; [lia|]. rewrite slen_app. pose proof (put_length s). lia.
Qed.

Lemma unpack_pack l f : (length l < f)%nat → unpack f (pack l) = l.
Proof.
  revert f. induction l as [|s l IH]; intros [|f] Hf; cbn in *; [lia|done|lia|].
  rewrite get_put. f_equal. apply IH. lia.
Qed.

Definition fields (s : string) : list string := unpack (S (slen s)) s.
Lemma fields_pack l : fields (pack l) = l.
Proof. apply unpack_pack. pose proof (pack_length l). lia. Qed.

#[global] Arguments fields : simpl never.

(** Numbers as binary digits. *)
Fixpoint pos_text (p : positive) : string :=
  match p with xH => "" | xO p => String "0" (pos_text p) | xI p => String "1" (pos_text p) end.
Fixpoint text_pos (s : string) : positive :=
  match s with
  | EmptyString => xH
  | String c s => if Ascii.eqb c "0" then xO (text_pos s) else xI (text_pos s)
  end.
Definition z_text (z : Z) : string :=
  match z with Z0 => "" | Zpos p => String "+" (pos_text p) | Zneg p => String "-" (pos_text p) end.
Definition text_z (s : string) : Z :=
  match s with
  | EmptyString => 0
  | String c s => if Ascii.eqb c "+" then Zpos (text_pos s) else Zneg (text_pos s)
  end.
Lemma text_pos_text p : text_pos (pos_text p) = p.
Proof. induction p as [p IH|p IH|]; cbn; by rewrite ?IH. Qed.
Lemma text_z_text z : text_z (z_text z) = z.
Proof. destruct z; cbn; by rewrite ?text_pos_text. Qed.

Definition bool_text (b : bool) : string := if b then "t" else "".
Definition text_bool (s : string) : bool := negb (String.eqb s "").
Lemma text_bool_text b : text_bool (bool_text b) = b.
Proof. by destruct b. Qed.

(** ** Keys and certificates *)

Definition key_text (k : PublicKey) : string :=
  match k with
  | EcdsaKey P256 d => String "1" d
  | EcdsaKey P384 d => String "2" d
  | EcdsaKey OtherCurve d => String "3" d
  | Ed25519Key d => String "4" d
  | RsaKey b d => String "5" (put (z_text b) +:+ d)
  | OtherKey d => String "6" d
  end.
Definition text_key (s : string) : option PublicKey :=
  match s with
  | String "1" d => Some (EcdsaKey P256 d)
  | String "2" d => Some (EcdsaKey P384 d)
  | String "3" d => Some (EcdsaKey OtherCurve d)
  | String "4" d => Some (Ed25519Key d)
  | String "5" d => match get d with Some (b, r) => Some (RsaKey (text_z b) r) | None => None end
  | String "6" d => Some (OtherKey d)
  | _ => None
  end.
Lemma text_key_text k : text_key (key_text k) = Some k.
Proof. destruct k as [[]| | |]; cbn; try done. by rewrite get_put, text_z_text. Qed.
Lemma key_text_ne k : key_text k ≠ "".
Proof. by destruct k as [[]| | |]. Qed.

Definition name_text (n : Name) : string :=
  pack [pack (n_Organization n); pack (n_OrganizationalUnit n); pack (n_Country n); pack (n_Province n);
        pack (n_Locality n); n_CommonName n].
Definition text_name (s : string) : Name :=
  match fields s with
  | [o; ou; c; p; l; cn] =>
      {| n_Organization := fields o; n_OrganizationalUnit := fields ou; n_Country := fields c;
         n_Province := fields p; n_Locality := fields l; n_StreetAddress := []; n_PostalCode := [];
         n_SerialNumber := ""; n_CommonName := cn; n_Names := 0 |}
  | _ => Build_Name [] [] [] [] [] [] [] "" "" 0
  end.
Lemma text_name_text n : same_name (text_name (name_text n)) n.
Proof. unfold text_name, name_text. rewrite fields_pack, !fields_pack. by destruct n. Qed.

(** Names are encoded with addresses in short form and URIs as text, of which the
    scheme is what stands before the first colon. *)
Definition toy_url (s : string) : URL :=
  {| Scheme := match Index s ":" with Some n => stake n s | None => "" end; URL_String := s |}.
Definition sans_plain (s : SANs) : bool := forallb (λ u, bool_decide (is_Some u)) (URIs s).
Definition sans_text (s : SANs) : string :=
  pack [pack (DNSNames s); pack (map canonical (IPAddresses s)); pack (map (from_option URL_String "") (URIs s));
        pack (EmailAddresses s)].
Definition text_sans (s : string) : SANs :=
  match fields s with
  | [dns; ips; uris; em] => Build_SANs (fields dns) (fields ips) (map (λ t, Some (toy_url t)) (fields uris)) (fields em)
  | _ => zero_SANs
  end.

Definition issuer_text (parent : Certificate) : string :=
  if String.eqb (RawSubject parent) "" then name_text (Subject parent) else RawSubject parent.

Definition cert_fields (t : Certificate) (issuer : string) (pub signer : PublicKey) : list string :=
  [name_text (Subject t); issuer; z_text (SerialNumber t);
   z_text (truncate_second (NotBefore t)); z_text (truncate_second (NotAfter t));
   bool_text (IsCA t); bool_text (BasicConstraintsValid t); z_text (MaxPathLen t);
   bool_text (MaxPathLenZero t); z_text (KeyUsage t); pack (map z_text (ExtKeyUsage t));
   key_text pub; SubjectKeyId t; AuthorityKeyId t; sans_text (cert_SANs t); key_text signer].

Definition parse_cert (der : string) : sys_error + (Certificate * string) :=
  match fields der with
  | [s; i; ser; nb; na; ca; bc; mp; mz; ku; eku; pk; ski; aki; names; signer] =>
      match text_key pk with
      | None => inl (SysError "public key")
      | Some k => inr ({|
          Raw := der; RawSubject := s; RawIssuer := i; Subject := text_name s;
          SerialNumber := text_z ser; NotBefore := text_z nb; NotAfter := text_z na;
          IsCA := text_bool ca; BasicConstraintsValid := text_bool bc; MaxPathLen := text_z mp;
          MaxPathLenZero := text_bool mz; KeyUsage := text_z ku;
          ExtKeyUsage := map text_z (fields eku); cert_PublicKey := k; SubjectKeyId := ski;
          AuthorityKeyId := aki; cert_SANs := text_sans names |}, signer)
      end
  | _ => inl (SysError "certificate")
  end.

#[global] Arguments parse_cert : simpl never.
#[global] Arguments cert_fields : simpl never.
#[global] Arguments pack : simpl never.

Definition can_sign (p : Certificate) : bool :=
  IsCA p && BasicConstraintsValid p && negb (Z.land (KeyUsage p) KeyUsageCertSign =? 0).

Definition csr_fields (n : Name) (k : PublicKey) (s : SANs) : list string :=
  [name_text n; key_text k; sans_text s].

#[export] Instance toy_crypto : Crypto := {|
  Signer := PublicKey;
  Public k := k;
  x509_ParseCertificate der := match parse_cert der with inl e => inl e | inr (c, _) => inr c end;
  x509_ParseCertificates der := match parse_cert der with inl e => inl e | inr (c, _) => inr [c] end;
  x509_ParseCertificateRequest der :=
    match fields der with
    | [n; k; names] =>
        match text_key k with
        | None => inl (SysError "public key")
        | Some k => inr {| csr_Subject := text_name n; csr_PublicKey := k; csr_Extensions := [];
                           csr_names := text_sans names |}
        end
    | _ => inl (SysError "certificate request")
    end;
  CheckSignatureFrom c p :=
    match parse_cert (Raw c) with
    | inr (_, signer) => if String.eqb signer (key_text (cert_PublicKey p)) && can_sign p then None
                         else Some (SysError "signature")
    | inl e => Some e
    end;
  csr_CheckSignature _ := None;
  MarshalPKIXPublicKey k := inr (key_text k);
  MarshalPKCS8PrivateKey k := inr (key_text k);
  x509_ParsePKCS8PrivateKey der :=
    match text_key der with Some k => inr (Some k) | None => inl (SysError "private key") end;
  pkcs8_ParsePKCS8PrivateKey der secret :=
    match get der with
    | Some (s, k) => if String.eqb s secret
                     then match text_key k with Some k => inr (Some k) | None => inl (SysError "private key") end
                     else inl (SysError "decryption")
    | None => inl (SysError "private key")
    end;
  sha1 s := s;
  sha256 s := s;
  pem_Decode s :=
    match get s with
    | Some (type, r) => match get r with Some (bytes, rest) => Some (type, bytes, rest) | None => None end
    | None => None
    end;
  pem_Encode type bytes := put type +:+ put bytes;
  x509_parseURI s := Some (toy_url s);
  Name_String n := n_CommonName n |}.

Definition signer_of (k : PublicKey) : Signer := k.

(** Clock, randomness and keys depend on the number of the call. *)
#[export] Instance toy_env : Env := {|
  env_now t := Z.of_nat t * Second + 1000000 * Hour;
  env_rand t n := if n <? 0 then inl (SysError "size") else inr (unchars (replicate (Z.to_nat n) (chr (Z.of_nat t mod 256))));
  env_GenerateKey t spec :=
    if String.eqb spec ECDSAP256 then inr (signer_of (EcdsaKey P256 (z_text (Z.of_nat t))))
    else if String.eqb spec ECDSAP384 then inr (signer_of (EcdsaKey P384 (z_text (Z.of_nat t))))
    else inl (SysError "no such key");
  env_CreateCertificate _ template parent pub signer :=
    if sans_plain (cert_SANs template)
    then inr (pack (cert_fields template (issuer_text parent) pub (Public signer))) else inl (SysError "names");
  env_CreateCertificateRequest _ subject names key :=
    if sans_plain names then inr (pack (csr_fields subject (Public key) names)) else inl (SysError "names");
  env_pkcs8_MarshalPrivateKey _ k secret := inr (put secret +:+ key_text (Public k)) |}.

#[export] Existing Instance ascii_tables.
#[export] Existing Instance ascii_tables_laws.

Lemma map_text_z l : map text_z (map z_text l) = l.
Proof. induction l as [|z l IH]; cbn; [done|]. by rewrite text_z_text, IH. Qed.

Lemma sans_read s : sans_plain s = true → names_read s (text_sans (sans_text s)).
Proof.
  unfold sans_plain, text_sans, sans_text. rewrite fields_pack, !fields_pack. intros Hp. constructor; cbn; try done.
  apply forallb_Forall in Hp. induction Hp as [|u l Hu _ IH]; cbn; constructor; [|done].
  apply bool_decide_eq_true in Hu as [a ->]. by exists a, (toy_url (URL_String a)).
Qed.

Lemma parse_created t issuer pub signer :
  sans_plain (cert_SANs t) = true →
  ∃ c, parse_cert (pack (cert_fields t issuer pub signer)) = inr (c, key_text signer) ∧
    created_from t pub (pack (cert_fields t issuer pub signer)) c ∧ RawIssuer c = issuer.
Proof.
  intros Hp. unfold parse_cert. rewrite fields_pack. unfold cert_fields at 1. rewrite text_key_text.
  eexists. split; [done|]. split; [|done]. constructor; cbn; rewrite ?text_z_text, ?text_bool_text, ?fields_pack, ?map_text_z; try done.
  - apply text_name_text.
  - by apply sans_read.
Qed.

Lemma slen_unchars l : slen (unchars l) = length l.
Proof. induction l as [|c l IH]; cbn; [done|by f_equal]. Qed.

#[export] Instance toy_laws : CryptoLaws.
Proof.
  constructor.
  - intros t template parent pub signer der c'. cbn. destruct (sans_plain _) eqn:Hp; [|done]. intros [= <-].
    destruct (parse_created template (issuer_text parent) pub signer Hp) as (c & Ec & Hc & _).
    rewrite Ec. intros [= <-]. split; [done|]. intros p (Hca & Hbc & Hku) Hk.
    rewrite (created_raw _ _ _ _ Hc), Ec. cbn in Hk. unfold can_sign.
    rewrite Hk, String.eqb_refl, Hca, Hbc, (proj2 (Z.eqb_neq _ _)) by done. done.
  - intros t template parent pub signer der c. cbn. destruct (sans_plain _) eqn:Hp; [|done]. intros [= <-].
    destruct (parse_created template (issuer_text parent) pub signer Hp) as (c' & Ec & _ & Hi).
    rewrite Ec. intros [= <-] Hne. rewrite Hi. unfold issuer_text. by destruct (String.eqb_spec (RawSubject parent) "").
  - intros c p. cbn. destruct (parse_cert (Raw c)) as [|[c' signer]]; [done|].
    destruct (String.eqb _ _ && can_sign p) eqn:E; [|done]. intros _ _.
    apply andb_true_iff in E as [_ E]. unfold can_sign in E. by destruct (IsCA p).
  - intros t subject names key der r. cbn. destruct (sans_plain names) eqn:Hp; [|done]. intros [= <-].
    rewrite fields_pack. unfold csr_fields at 1. rewrite text_key_text. intros [= <-]. split; [done|].
    constructor; cbn; rewrite ?fields_pack; try done.
    + apply text_name_text.
    + unfold plain_name, text_name, name_text. rewrite fields_pack. cbn. split_and!; try done. case_match; lia.
    + by apply sans_read.
  - by intros r.
  - intros t spec key. cbn. destruct (String.eqb_spec spec ECDSAP256) as [->|].
    + by intros [= <-].
    + destruct (String.eqb_spec spec ECDSAP384) as [->|]; [by intros [= <-]|done].
  - intros key der [= <-]. split; [apply key_text_ne|]. exists key. cbn. by rewrite text_key_text.
  - intros t key secret der _ [= <-]. split; [by destruct secret|]. exists key. cbn.
    by rewrite get_put, String.eqb_refl, text_key_text.
  - intros pub _. by eexists.
  - intros a b der [= <-] [= E]. apply (f_equal text_key) in E. rewrite !text_key_text in E. congruence.
  - intros t n b. cbn. destruct (Z.ltb_spec n 0); [done|]. intros [= <-].
    rewrite slen_unchars, length_replicate. lia.
  - intros der c. cbn. unfold parse_cert. repeat case_match; intros; simplify_eq; done.
  - intros der c. cbn. repeat case_match; intros; by simplify_eq.
  - intros s type bytes rest. cbn. destruct (get s) as [[t r]|] eqn:E1; [|done].
    destruct (get r) as [[b r']|] eqn:E2; [|done]. intros [= <- <- <-]. apply get_shorter in E1, E2. lia.
  - intros type bytes _. cbn. destruct type as [|c type]; cbn; do 2 eexists; (split; [done|]); by vm_compute.
  - intros type bytes rest _. cbn. by rewrite sapp_assoc, !get_put.
Qed.

(** Everything is parsed; the scheme is what stands before the first colon. *)
#[export] Instance toy_parser : URLParser :=
  {| url_Parse s := inr (toy_url s) |}.

(** ** A store in memory *)

Record memory_store := {
  ms_document : option authorityState;
  ms_unlocks : option (gmap Z string);
  ms_ledger : list LedgerRecord;
}.
Definition empty_store : memory_store := Build_memory_store None None [].

Definition ms_set (s : authorityState) (d : memory_store) : memory_store :=
  Build_memory_store (Some s) (ms_unlocks d) (ms_ledger d).

Definition ms_open {M} : stm (world memory_store M) (error + authorityState) := λ w,
  (match ms_document (w_disk w) with
   | None => inr zero_state
   | Some s => match validateState (St := ()) s with Some e => inl e | None => inr s end
   end, w).

Definition ms_update {M A} (f : authorityState → stm (world memory_store M) (outcome A))
    : stm (world memory_store M) (error + A) :=
  let! s := ms_open else e => mret (inl e) in
  o ← f s;
  match o with
  | MError e => mret (inl e)
  | MNoMutation a => mret (inr a)
  | MDone a s1 => λ w,
      let s2 := bump_revision (Revision s) s1 in
      match validateState (St := ()) s2 with
      | Some e => (inl e, w)
      | None => (inr a, set_disk (ms_set s2 (w_disk w)) w)
      end
  end.

#[export] Instance memory_backend : Backend memory_store := {|
  b_load M _ := λ w,
    (match ms_document (w_disk w) with
     | None => inl (NotFoundError "authority" None)
     | Some s => match validateState (St := ()) s with Some e => inl e | None => inr s end
     end, w);
  b_update M A f := ms_update f;
  b_purge M := λ w, (None, set_disk empty_store w);
  b_loadUnlocks M := λ w,
    (match ms_unlocks (w_disk w) with None => inl (NotFoundError "unlock file" None) | Some u => inr u end, w);
  b_storeUnlocks M u _ := λ w,
    (None, set_disk (Build_memory_store (ms_document (w_disk w)) (Some u) (ms_ledger (w_disk w))) w);
  b_appendLedger M r := λ w,
    (None, set_disk (Build_memory_store (ms_document (w_disk w)) (ms_unlocks (w_disk w))
                       (ms_ledger (w_disk w) ++ [r])) w);
  b_lookupLedger M i v n := λ w,
    (match list_find (λ r, Issuer r = i ∧ IssuerVersion r = v ∧ Serial r = n) (ms_ledger (w_disk w)) with
     | Some (_, r) => inr r
     | None => inl (NotFoundError "ledger record" None)
     end, w);
  b_listLedger M _ _ := λ w, (inr (ms_ledger (w_disk w), ""), w);
  b_kind := "memory";
  b_principal := ("owner", "group");
  b_authorizeOwner M := λ w, (None, w);
  b_authorizeIssuer M := λ w, (None, w) |}.

#[export] Instance memory_laws : BackendLaws memory_store () ms_document.
Proof.
  constructor; cbn -[validateState].
  - intros M i w w' r [= <- <-]. split; [done|]. intros s Es.
    destruct (ms_document (w_disk w)) as [s'|]; [|done]. unfold valid.
    destruct (validateState (St := ()) s') eqn:E; [done|]. by injection Es as <-.
  - intros M A f w w' r E. unfold ms_update in E. inv_run E. unfold ms_open in E0. injection E0 as Er <-.
    destruct r0 as [e|s]; [injection E as <- <-; left; by exists e|]. right. inv_run E.
    exists s, w, r0, h. split; [done|]. split; [|split; [done|]].
    + unfold opened, valid. destruct (ms_document (w_disk w)) as [s'|]; [|injection Er as <-; by right].
      left. destruct (validateState (St := ()) s') eqn:Ev; [done|]. by injection Er as <-.
    + destruct r0 as [e|a|a s1]; [by injection E as <- <-..|].
      destruct (validateState (St := ()) (bump_revision (Revision s) s1)) eqn:Ev; injection E as <- <-.
      * split; [done|]. right. eexists. split; [done|]. by left.
      * split; [done|]. by left.
  - intros M w w' r [= <- <-]. split; [done|by right].
  - intros M w w' r [= <- <-]. done.
  - intros M v b w w' r [= <- <-]. done.
  - intros M v w w' r [= <- <-]. done.
  - intros M i v n w w' r [= <- <-]. done.
  - intros M c l w w' r [= <- <-]. done.
  - intros M w w' r [= <- <-]. done.
  - intros M w w' r [= <- <-]. done.
Qed.
