(* ===== verification/CertsStaged.v ===== *)
(** * Staged rotations

    The invariant of an authority between operations, and the pure part of the
    proofs that staging, promoting and discarding a rotation keep it. *)
From S2P Require Import Prelude.
From S2P Require Import GoStrings.
From S2P Require Import Utf8.
From S2P Require Import Text.
From S2P Require Import Errors.
From S2P Require Import GoNet.
From S2P Require Import CertsTypes.
From S2P Require Import CertsNames.
From S2P Require Import CertsCrypto.
From S2P Require Import CertsOptions.
From S2P Require Import CertsOptionsFacts.
From S2P Require Import CertsState.
From S2P Require Import CertsBackend.
From S2P Require Import CertsAuthority.
From S2P Require Import CertsStateFacts.
#[local] Open Scope stdpp_scope.
#[local] Open Scope Z_scope.

Section staged.
Context `{Unicode, Crypto, !Env, URLParser} {D St : Type} `{!Backend D}.

(** The generation that a pending operation puts its versions under. *)
Definition staged_root (p : pendingManifest) (s : authorityState) : Z :=
  if String.eqb (Kind_ p) "root" then p_RootGeneration p else ActiveRoot s.

Record manifest_ok (s : authorityState) (p : pendingManifest) : Prop := {
  mf_root : Kind_ p = "root" → 0 < p_RootGeneration p ∧ p_RootGeneration p ≠ ActiveRoot s;
  mf_all : Kind_ p = "root" → ∀ slug, is_Some (Issuers s !! slug) → is_Some (p_Issuers p !! slug);
  mf_issuer : Kind_ p ≠ "root" → p_RootGeneration p = 0;
  mf_version : ∀ slug n i v, p_Issuers p !! slug = Some n → Issuers s !! slug = Some i →
    Versions i !! n = Some v → ActiveVersion i < n ∧ RootGeneration v = staged_root p s;
  mf_only : Kind_ p = "root" → ∀ slug i n v, Issuers s !! slug = Some i → Versions i !! n = Some v →
    RootGeneration v = p_RootGeneration p → p_Issuers p !! slug = Some n;
}.

(** Versions are numbered from 1, none is above the active one unless it is
    pending, and a pending manifest describes a complete staged operation. *)
Record staged_ok (s : authorityState) : Prop := {
  sg_versions : ∀ slug i n v, Issuers s !! slug = Some i → Versions i !! n = Some v →
    1 ≤ n ∧ (n ≤ ActiveVersion i ∨ pending_version s slug n = true);
  sg_pending : ∀ p, Pending s = Some p → manifest_ok s p;
}.

(** What holds of every stored authority. *)
Definition authority_inv (s : authorityState) : Prop := state_ok (St := St) s ∧ staged_ok s.

Lemma pending_version_true s p slug n :
  Pending s = Some p → 1 ≤ n → (pending_version s slug n = true ↔ p_Issuers p !! slug = Some n).
Proof.
  intros E Hn. unfold pending_version. rewrite E, Z.eqb_eq.
  destruct (p_Issuers p !! slug); cbn; [split; congruence|]. split; [lia|done].
Qed.

Lemma pending_root_true s p g :
  Pending s = Some p → (pending_root s g = true ↔ Kind_ p = "root" ∧ g = p_RootGeneration p).
Proof. intros E. unfold pending_root. by rewrite E, andb_true_iff, String.eqb_eq, Z.eqb_eq. Qed.

Lemma root_ok_iff sp (P Q : Prop) g r : (P ↔ Q) → root_ok sp P g r → root_ok sp Q g r.
Proof. intros E (? & ? & Hk). split_and!; [done|done|]. by rewrite Hk. Qed.

Lemma version_ok_iff sp rd rd' name (P Q : Prop) n v :
  (∀ g der, rd g = Some der → g = RootGeneration v → rd' g = Some der) → (P ↔ Q) →
  version_ok sp rd name P n v → version_ok sp rd' name Q n v.
Proof.
  intros Hrd E (? & (c & der & rc & ? & Hd & ? & ? & ?) & Hk). split; [done|]. split; [|by rewrite Hk].
  exists c, der, rc. split_and!; try done. by apply Hrd.
Qed.

(** A retired version needs no key. *)
Lemma erased_version_ok sp rd name (P Q : Prop) n v :
  ¬ Q → version_ok sp rd name P n v → version_ok sp rd name Q n (erase_issuer_key v).
Proof.
  intros HQ (? & (c & der & rc & ? & ? & ? & [] & ?) & _). split; [done|]. split; [|done].
  exists c, der, rc. split_and!; done.
Qed.

(** *** Promotion *)

Lemma lookup_activate_all staged issuers slug :
  activate_all staged issuers !! slug =
  (λ i, match staged !! slug with Some v => activate v i | None => i end) <$> issuers !! slug.
Proof. unfold activate_all. rewrite map_lookup_imap. by destruct (issuers !! slug). Qed.

Lemma promoted_root_der p d s g : root_der (Roots (promoted p d s)) g = root_der (Roots s) g.
Proof.
  unfold root_der, promoted. cbn. destruct (String.eqb _ _); [|done].
  destruct (decide (g = ActiveRoot s)) as [->|Hne].
  - rewrite !lookup_alter_eq. by destruct (Roots s !! ActiveRoot s).
  - by rewrite !lookup_alter_ne.
Qed.

Lemma promoted_active p d s :
  ActiveRoot (promoted p d s) = staged_root p s.
Proof. done. Qed.

Lemma promoted_roots_ok p d s :
  authority_inv s → Pending s = Some p →
  map_Forall (λ g r, root_ok (Spec s) (g = ActiveRoot (promoted p d s)) g r) (Roots (promoted p d s)) ∧
  is_Some (Roots (promoted p d s) !! ActiveRoot (promoted p d s)).
Proof.
  intros [[_ [_ Ha] Hr _ Hp] [_ Hm]] E. specialize (Hm p E). unfold pending_ok in Hp. rewrite E in Hp.
  unfold promoted. cbn. destruct (String.eqb_spec (Kind_ p) "root") as [Ek|Ek].
  - destruct (mf_root _ _ Hm Ek) as [_ Hne]. destruct Hp as (_ & _ & Hpr & _). destruct (Hpr Ek) as [Hsome _].
    split.
    + intros g r Hg. destruct (decide (g = ActiveRoot s)) as [->|Hga].
      * rewrite !lookup_alter_eq in Hg.
        destruct (Roots s !! ActiveRoot s) as [r0|] eqn:E0; [|done]. injection Hg as <-.
        destruct (Hr _ _ E0) as (? & ? & _). split_and!; [done|done|]. cbn.
        split; [done|intros Heq; by destruct Hne].
      * rewrite !lookup_alter_ne in Hg by done. eapply root_ok_iff; [|by apply Hr].
        rewrite (pending_root_true s p) by done. intuition congruence.
    + destruct Hsome as [r Hr0]. exists r. by rewrite !lookup_alter_ne.
  - split; [|done]. intros g r Hg. eapply root_ok_iff; [|by apply Hr].
    rewrite (pending_root_true s p) by done. intuition.
Qed.

Lemma promoted_issuer_ok p s slug i :
  authority_inv s → Pending s = Some p → Issuers s !! slug = Some i →
  (∀ n v, p_Issuers p !! slug = Some n → Versions i !! n = Some v → key_matches v) →
  issuer_ok (St := St) (Spec s) (root_der (Roots s)) (staged_root p s) (λ _, False) slug
    match p_Issuers p !! slug with Some v => activate v i | None => i end.
Proof.
  intros [[_ _ _ Hi Hp] [Hv Hm]] E Ei Hkey. specialize (Hm p E).
  unfold pending_ok in Hp. rewrite E in Hp. destruct Hp as (_ & Hk & _ & Hmem).
  destruct (Hi _ _ Ei) as (Hs & Hge & Hd & (va & Eva & Hra & Hka) & Hvs).
  destruct (p_Issuers p !! slug) as [n|] eqn:En.
  - destruct (Hmem slug n En) as (i' & v & Ei' & Ev). rewrite Ei in Ei'. injection Ei' as <-.
    destruct (mf_version _ _ Hm _ _ _ _ En Ei Ev) as [Hgt Hroot].
    split_and!; cbn; [done|lia|done| |].
    + exists v. rewrite lookup_alter_ne by lia. split_and!; [done|done|by eapply Hkey].
    + intros n' v' Hn'. destruct (decide (n' = ActiveVersion i)) as [->|Hne].
      * rewrite lookup_alter_eq in Hn'.
        rewrite Eva in Hn'. injection Hn' as <-.
        eapply erased_version_ok; [|by apply Hvs]. lia.
      * rewrite lookup_alter_ne in Hn' by done. eapply version_ok_iff; [by intros| |by apply Hvs].
        destruct (Hv _ _ _ _ Ei Hn') as [Hn1 _]. rewrite (pending_version_true s p) by done.
        rewrite En. intuition congruence.
  - assert (Kind_ p ≠ "root") as Hk'.
    { intros Ek. destruct (mf_all _ _ Hm Ek slug) as [? ?]; [by eexists|congruence]. }
    split_and!; [done|done|done| |].
    + exists va. split_and!; try done. unfold staged_root. by destruct (String.eqb_spec (Kind_ p) "root").
    + intros n' v' Hn'. eapply version_ok_iff; [by intros| |by apply Hvs].
      destruct (Hv _ _ _ _ Ei Hn') as [Hn1 _]. rewrite (pending_version_true s p) by done.
      rewrite En. intuition congruence.
Qed.

Lemma promoted_inv p d s :
  authority_inv s → Pending s = Some p →
  (∀ slug n i v, p_Issuers p !! slug = Some n → Issuers s !! slug = Some i →
     Versions i !! n = Some v → key_matches v) →
  authority_inv (promoted p d s).
Proof.
  intros Hinv E Hkey. pose proof (promoted_roots_ok p d s Hinv E) as [Hroots Hact].
  pose proof Hinv as [[Hspec [Ha1 _] _ _ Hp] [Hv Hm]]. specialize (Hm p E). split.
  - constructor; [done| | | |done].
    + split; [|done]. rewrite promoted_active. unfold staged_root.
      destruct (String.eqb_spec (Kind_ p) "root") as [Ek|]; [|done]. destruct (mf_root _ _ Hm Ek). lia.
    + intros g r Hg. eapply root_ok_iff; [|by apply Hroots]. unfold pending_root. cbn. intuition congruence.
    + intros slug i Hi. change (Issuers (promoted p d s)) with (activate_all (p_Issuers p) (Issuers s)) in Hi.
      rewrite lookup_activate_all in Hi.
      destruct (Issuers s !! slug) as [i0|] eqn:Ei; [|done]. injection Hi as <-.
      destruct (promoted_issuer_ok p s slug i0 Hinv E Ei) as (? & ? & ? & ? & Hvs).
      { intros n v ??. by eapply Hkey. }
      split_and!; try done. intros n v Hn. eapply version_ok_iff; [| |by apply Hvs].
      * intros g der Hg _. by rewrite promoted_root_der.
      * unfold pending_version. cbn. intuition congruence.
  - constructor; [|done]. intros slug i n v Hi Hn.
    change (Issuers (promoted p d s)) with (activate_all (p_Issuers p) (Issuers s)) in Hi.
    rewrite lookup_activate_all in Hi.
    destruct (Issuers s !! slug) as [i0|] eqn:Ei; [|done]. injection Hi as <-.
    destruct (p_Issuers p !! slug) as [m|] eqn:Em; cbn in *.
    + assert (∃ v0, Versions i0 !! n = Some v0) as [v0 Hn0].
      { destruct (decide (n = ActiveVersion i0)) as [->|Hne].
        - rewrite lookup_alter_eq in Hn.
          destruct (Versions i0 !! ActiveVersion i0); [by eexists|done].
        - rewrite lookup_alter_ne in Hn by done. by eexists. }
      destruct (Hv _ _ _ _ Ei Hn0) as [H1n Hle]. split; [done|]. left.
      unfold pending_ok in Hp. rewrite E in Hp. destruct Hp as (_ & _ & _ & Hmem).
      destruct (Hmem _ _ Em) as (i' & v' & Ei' & Ev'). rewrite Ei in Ei'. injection Ei' as <-.
      destruct (mf_version _ _ Hm _ _ _ _ Em Ei Ev') as [Hgt _].
      destruct Hle as [|Hp']; [lia|]. apply (pending_version_true s p) in Hp'; [|done|done].
      rewrite Em in Hp'. injection Hp' as ->. lia.
    + destruct (Hv _ _ _ _ Ei Hn) as [H1n Hle]. split; [done|]. left.
      destruct Hle as [|Hp']; [done|]. apply (pending_version_true s p) in Hp'; [|done|done]. congruence.
Qed.

(** *** Discarding *)

Lemma lookup_discard_issuers staged issuers slug :
  discard_issuers staged issuers !! slug =
  (λ i, match staged !! slug with Some v => set_versions (delete v (Versions i)) i | None => i end)
    <$> issuers !! slug.
Proof. unfold discard_issuers. rewrite map_lookup_imap. by destruct (issuers !! slug). Qed.

(** The versions that survive a discarded operation. *)
Lemma discarded_version p s slug i0 n v :
  staged_ok s → Pending s = Some p → Issuers s !! slug = Some i0 →
  Versions (match p_Issuers p !! slug with Some m => set_versions (delete m (Versions i0)) i0 | None => i0 end)
    !! n = Some v →
  Versions i0 !! n = Some v ∧ 1 ≤ n ≤ ActiveVersion i0 ∧ p_Issuers p !! slug ≠ Some n.
Proof.
  intros [Hv Hm] E Ei Hn. destruct (p_Issuers p !! slug) as [m|] eqn:Em; cbn in Hn.
  - apply lookup_delete_Some in Hn as [Hne Hn]. destruct (Hv _ _ _ _ Ei Hn) as [H1n Hle].
    split_and!; [done|done| |congruence]. destruct Hle as [|Hp']; [done|].
    apply (pending_version_true s p) in Hp'; [|done|done]. congruence.
  - destruct (Hv _ _ _ _ Ei Hn) as [H1n Hle]. split_and!; [done|done| |congruence].
    destruct Hle as [|Hp']; [done|]. apply (pending_version_true s p) in Hp'; [|done|done]. congruence.
Qed.

Lemma discarded_root_lookup p s g :
  manifest_ok s p → g ≠ p_RootGeneration p ∨ Kind_ p ≠ "root" → Roots (discarded p s) !! g = Roots s !! g.
Proof.
  intros Hm Hg. unfold discarded. cbn. destruct (Z.ltb_spec 0 (p_RootGeneration p)); [|done].
  rewrite lookup_delete_ne; [done|]. destruct Hg as [|Hk]; [done|]. apply (mf_issuer _ _ Hm) in Hk. lia.
Qed.

Lemma discarded_inv p s :
  authority_inv s → Pending s = Some p → authority_inv (discarded p s).
Proof.
  intros [[Hspec [Ha1 Ha2] Hr Hi Hp] Hst] E. pose proof (sg_pending _ Hst p E) as Hm.
  assert (∀ slug i, Issuers (discarded p s) !! slug = Some i → ∃ i0, Issuers s !! slug = Some i0 ∧
    i = match p_Issuers p !! slug with Some m => set_versions (delete m (Versions i0)) i0 | None => i0 end) as Hinv.
  { intros slug i Hs. change (Issuers (discarded p s)) with (discard_issuers (p_Issuers p) (Issuers s)) in Hs.
    rewrite lookup_discard_issuers in Hs. destruct (Issuers s !! slug) as [i0|] eqn:Ei; [|done].
    injection Hs as <-. by exists i0. }
  split.
  - constructor; [done| | | |done].
    + split; [done|]. change (ActiveRoot (discarded p s)) with (ActiveRoot s).
      rewrite discarded_root_lookup; [done|done|].
      destruct (decide (Kind_ p = "root")) as [Ek|]; [|by right]. left. destruct (mf_root _ _ Hm Ek). congruence.
    + intros g r Hg. assert (Roots s !! g = Some r ∧ (g ≠ p_RootGeneration p ∨ Kind_ p ≠ "root")) as [Hg' Hne].
      { unfold discarded in Hg. cbn in Hg. destruct (Z.ltb_spec 0 (p_RootGeneration p)).
        - apply lookup_delete_Some in Hg as [? ?]. split; [done|by left].
        - split; [done|]. right. intros Ek. destruct (mf_root _ _ Hm Ek). lia. }
      eapply root_ok_iff; [|by apply Hr]. rewrite (pending_root_true s p) by done.
      unfold pending_root. cbn. intuition congruence.
    + intros slug i (i0 & Ei & ->)%Hinv.
      destruct (Hi _ _ Ei) as (Hs & Hge & Hd & (va & Eva & Hra & Hka) & Hvs).
      assert (∀ m, p_Issuers p !! slug = Some m → m ≠ ActiveVersion i0) as Hnot.
      { intros m Em ->. destruct (mf_version _ _ Hm _ _ _ _ Em Ei Eva). lia. }
      assert (Definition_ (match p_Issuers p !! slug with Some m => set_versions (delete m (Versions i0)) i0 | None => i0 end) = Definition_ i0 ∧
        ActiveVersion (match p_Issuers p !! slug with Some m => set_versions (delete m (Versions i0)) i0 | None => i0 end) = ActiveVersion i0) as [Ed Ea]
        by (by destruct (p_Issuers p !! slug)).
      unfold issuer_ok. rewrite Ed, Ea. split_and!; try done.
      * exists va. split; [|done]. destruct (p_Issuers p !! slug) as [m|] eqn:Em; [|done]. cbn.
        rewrite lookup_delete_ne; [done|by apply Hnot].
      * intros n v Hn. apply (discarded_version p s slug i0) in Hn as (Hn & Hle & Hnp); [|done..].
        eapply version_ok_iff; [| |by apply Hvs].
        -- intros g der Hg ->. unfold root_der in *. rewrite discarded_root_lookup; [done|done|].
           destruct (decide (Kind_ p = "root")) as [Ek|]; [|by right]. left. intros Eg.
           by apply Hnp, (mf_only _ _ Hm Ek _ _ _ _ Ei Hn).
        -- rewrite (pending_version_true s p) by (done || lia). unfold pending_version. cbn. intuition congruence.
  - constructor; [|done]. intros slug i n v (i0 & Ei & ->)%Hinv Hn.
    apply (discarded_version p s slug i0) in Hn as (Hn & Hle & Hnp); [|done..].
    split; [lia|]. left. destruct (p_Issuers p !! slug); cbn; lia.
Qed.
End staged.
