(* ===== verification/CertsTrustFacts.v ===== *)
(** * What trust bundles hold

    A trust bundle is canonical; the bundle of an authority holds exactly the
    certificates of its active, pending and still trusted roots, and the
    operations that end a rotation do not change it before they should. *)
From stdpp Require Import pretty.
From S2P Require Import Prelude.
From S2P Require Import GoStrings.
From S2P Require Import Utf8.
From S2P Require Import Text.
From S2P Require Import Errors.
From S2P Require Import GoNet.
From S2P Require Import CertsTypes.
From S2P Require Import CertsNames.
From S2P Require Import CertsCrypto.
From S2P Require Import CertsOptions.
From S2P Require Import CertsState.
From S2P Require Import CertsBackend.
From S2P Require Import CertsAuthority.
From S2P Require Import CertsStateFacts.
From S2P Require Import CertsFiles.
From S2P Require Import CertsBundle.
From S2P Require Import CertsBundleFacts.
From S2P Require Import CertsLoad.
From S2P Require Import CertsTrust.
From S2P Require Import CertsStaged.
#[local] Open Scope stdpp_scope.
#[local] Open Scope Z_scope.

(** ** Generic lemmas *)

Lemma map_to_list_filter_perm {K V} `{Countable K} (P : K * V → Prop) `{!∀ x, Decision (P x)} (m : gmap K V) :
  map_to_list (filter P m) ≡ₚ filter P (map_to_list m).
Proof.
  apply NoDup_Permutation; [apply NoDup_map_to_list|apply NoDup_filter, NoDup_map_to_list|].
  intros [k v]. rewrite elem_of_map_to_list, list_elem_of_filter, elem_of_map_to_list, map_lookup_filter_Some. tauto.
Qed.

Lemma sapp_inv_tail (s a b : string) : a +:+ s = b +:+ s → a = b.
Proof.
  revert b. induction a as [|c a IH]; intros [|d b]; cbn; intros E; [done| | |].
  - apply (f_equal slen) in E. cbn in E. rewrite slen_app in E. lia.
  - apply (f_equal slen) in E. cbn in E. rewrite slen_app in E. lia.
  - injection E as -> E. f_equal. by apply IH.
Qed.

Lemma rootCommonName_inj name g g' : rootCommonName name g = rootCommonName name g' → g = g'.
Proof.
  unfold rootCommonName. rewrite <- !sapp_assoc. intros E. apply sapp_inv_tail in E.
  apply (inj (String.append _)) in E. by apply (inj pretty) in E.
Qed.

Lemma Forall2_perm {A B} (P : A → B → Prop) l l' k :
  l ≡ₚ l' → Forall2 P l k → ∃ k', k ≡ₚ k' ∧ Forall2 P l' k'.
Proof.
  intros Hp. revert k. induction Hp as [|x l l' _ IH|x y l|l1 l2 l3 _ IH1 _ IH2]; intros k Hf.
  - by exists k.
  - inversion Hf as [|? a ? k0 Ha Hk]; subst. destruct (IH _ Hk) as (k' & ? & ?).
    exists (a :: k'). split; [by constructor|by constructor].
  - inversion Hf as [|? a ? k0 Ha Hk]; subst. inversion Hk as [|? b ? k1 Hb Hk1]; subst.
    exists (b :: a :: k1). split; [apply Permutation_swap|by repeat constructor].
  - destruct (IH1 _ Hf) as (k1 & Hk1 & Hf1). destruct (IH2 _ Hf1) as (k2 & Hk2 & Hf2).
    exists k2. split; [by etrans|done].
Qed.

Section canonical.
Context `{Crypto}.

Record trust_root (c : Certificate) : Prop := {
  tr_ca : IsCA c = true;
  tr_constraints : BasicConstraintsValid c = true;
  tr_sign : no_bit (KeyUsage c) KeyUsageCertSign = false;
  tr_names : RawSubject c = RawIssuer c;
  tr_self : CheckSignatureFrom c c = None;
}.

Lemma check_trust_spec l seen out :
  check_trust l seen = inr out ↔
  l = map Some out ∧ Forall trust_root out ∧ NoDup (Raw <$> out) ∧ ∀ c, c ∈ out → Raw c ∉ seen.
Proof.
  revert seen out. induction l as [|[c|] l IH]; intros seen out; cbn [check_trust].
  - split; [intros [= <-]; split_and!; [done|constructor|constructor|intros c Hc; by apply elem_of_nil in Hc]|].
    intros (E & _). by destruct out.
  - destruct (negb (IsCA c) || negb (BasicConstraintsValid c) || no_bit (KeyUsage c) KeyUsageCertSign) eqn:E1.
    { split; [done|]. intros (E & Ht & _). destruct out; [done|]. injection E as -> _.
      inversion Ht as [|? ? [H1 H2 H3 _ _]]. rewrite H1, H2, H3 in E1. done. }
    apply orb_false_iff in E1 as [[H1 H2]%orb_false_iff H3]. apply negb_false_iff in H1, H2.
    destruct (negb (String.eqb (RawSubject c) (RawIssuer c)) || negb (signature_ok c c)) eqn:E2.
    { split; [done|]. intros (E & Ht & _). destruct out; [done|]. injection E as -> _.
      inversion Ht as [|? ? [_ _ _ H4 H5]]. rewrite H4, String.eqb_refl in E2.
      rewrite (proj2 (signature_ok_true _ _) H5) in E2. done. }
    apply orb_false_iff in E2 as [H4%negb_eqb H5%negb_false_iff]. apply signature_ok_true in H5.
    destruct (existsb (String.eqb (Raw c)) seen) eqn:Es.
    { split; [done|]. intros (E & _ & _ & Hs). destruct out as [|d out]; [done|]. injection E as -> _.
      specialize (Hs d). rewrite <- existsb_eqb_false, Es in Hs. by discriminate Hs; left. }
    apply existsb_eqb_false in Es. split.
    + destruct (check_trust l _) as [|out'] eqn:El; [done|]. intros [= <-].
      apply IH in El as (-> & Ht & Hnd & Hs). split_and!; [done|by constructor| |].
      * cbn. constructor; [|done]. intros (d & Ed & Hd)%list_elem_of_fmap.
        apply (Hs d Hd). rewrite <- Ed. left.
      * intros d [->|Hd]%elem_of_cons; [done|]. intros Hin. apply (Hs d Hd). by right.
    + intros (E & Ht & Hnd & Hs). destruct out as [|d out]; [done|]. injection E as -> ->.
      cbn in Hnd. apply NoDup_cons in Hnd as [Hd Hnd]. inversion Ht; subst.
      rewrite (proj2 (IH (Raw d :: seen) out)); [done|]. split_and!; [done|done|done|].
      intros x Hx [E|Hin]%elem_of_cons; [|by apply (Hs x); [right|]].
      apply Hd. rewrite <- E. by apply list_elem_of_fmap_2.
  - split; [done|]. intros (E & _). by destruct out.
Qed.

Lemma raw_le_unique l1 l2 :
  NoDup (Raw <$> l1) → StronglySorted raw_le l1 → StronglySorted raw_le l2 → l1 ≡ₚ l2 → l1 = l2.
Proof.
  intros Hnd H1 H2 Hp. apply (StronglySorted_unique_strong raw_le); [|done..].
  intros x y Hx Hy Hxy Hyx. rewrite <- Hp in Hy. assert (Raw x = Raw y) as E by by apply (anti_symm String.le).
  apply list_elem_of_lookup in Hx as [i Hi], Hy as [j Hj].
  assert (i = j) as ->; [|congruence].
  eapply NoDup_lookup; [exact Hnd|rewrite list_lookup_fmap, Hi; done|rewrite list_lookup_fmap, Hj; cbn; by f_equal].
Qed.

Lemma newTrustBundle_iff certs b :
  newTrustBundle certs = inr b ↔
  ∃ l, certs = map Some l ∧ l ≠ [] ∧ Forall trust_root l ∧ NoDup (Raw <$> l) ∧
    t_certs b ≡ₚ l ∧ StronglySorted raw_le (t_certs b).
Proof.
  unfold newTrustBundle, normalizeTrustCertificates. destruct certs as [|x certs].
  { split; [done|]. intros (l & E & Hne & _). by destruct l. }
  split.
  - destruct (check_trust _ _) as [|l] eqn:E; [done|]. intros [= <-].
    apply check_trust_spec in E as (El & Ht & Hnd & _). exists l.
    split_and!; [done|by destruct l|done|done|apply merge_sort_Permutation|apply StronglySorted_merge_sort; apply _].
  - intros (l & -> & Hne & Ht & Hnd & Hp & Hs).
    rewrite (proj2 (check_trust_spec (map Some l) [] l)).
    2:{ split_and!; [done|done|done|]. intros c _. apply not_elem_of_nil. }
    destruct b as [cs]. cbn in *. do 2 f_equal. symmetry. apply raw_le_unique; [by rewrite Hp|done| |].
    + apply StronglySorted_merge_sort; apply _.
    + by rewrite Hp, merge_sort_Permutation.
Qed.

(** Trust bundles are canonical.  [newTrustBundle] succeeds exactly on a
    non-empty list of different self-signed CA certificates that may sign
    certificates, and the result is their arrangement in the order of their
    encodings, of which there is only one; the bundle then passes its own
    validation. *)
Theorem newTrustBundle_spec certs b :
  (newTrustBundle certs = inr b ↔
   ∃ l, certs = map Some l ∧ l ≠ [] ∧ Forall trust_root l ∧ NoDup (Raw <$> l) ∧
     t_certs b ≡ₚ l ∧ StronglySorted raw_le (t_certs b)) ∧
  (newTrustBundle certs = inr b → TrustBundle_Validate (Some b) = None).
Proof.
  split; [apply newTrustBundle_iff|]. intros (l & -> & Hne & Ht & Hnd & Hp & Hs)%newTrustBundle_iff.
  assert (newTrustBundle (map Some (t_certs b)) = inr b) as E.
  { apply newTrustBundle_iff. exists (t_certs b). split_and!; [done| |by rewrite Hp..|done|done].
    intros E. rewrite E in Hp. by apply Permutation_nil_l in Hp. }
  revert E. unfold newTrustBundle, TrustBundle_Validate. by destruct (normalizeTrustCertificates _).
Qed.

Lemma newTrustBundle_perm certs certs' b :
  certs ≡ₚ certs' → newTrustBundle certs = inr b → newTrustBundle certs' = inr b.
Proof.
  intros Hp (l & -> & Hne & Ht & Hnd & Hb & Hs)%newTrustBundle_iff. symmetry in Hp.
  apply (Permutation_map_inv Some l) in Hp as (l' & -> & Hl). apply newTrustBundle_iff. exists l'.
  split_and!; [done| |by rewrite <- Hl..|done].
  intros ->. symmetry in Hl. by apply Permutation_nil_l in Hl.
Qed.

Lemma newTrustBundle_members certs b : newTrustBundle certs = inr b → certs ≡ₚ map Some (t_certs b).
Proof. intros (l & -> & _ & _ & _ & Hb & _)%newTrustBundle_iff. apply fmap_Permutation. by symmetry. Qed.
End canonical.

Section authority.
Context `{Unicode, Crypto, URLParser} {St : Type}.

(** The encodings of the trusted roots. *)
Definition trusted_ders (s : authorityState) (t : Time) (l : list (Z * rootRecord)) : list string :=
  map (λ p, root_CertificateDER p.2) (filter (λ p, trusted s t p.1 p.2 = true) l).

(** The same by generation. *)
Definition trusted_map (s : authorityState) (t : Time) : gmap Z string :=
  root_CertificateDER <$> filter (λ p, trusted s t p.1 p.2 = true) (Roots s).

Lemma trusted_map_Some s t g der :
  trusted_map s t !! g = Some der ↔
  ∃ r, Roots s !! g = Some r ∧ trusted s t g r = true ∧ root_CertificateDER r = der.
Proof.
  unfold trusted_map. rewrite lookup_fmap_Some. split.
  - intros (r & <- & Hr). apply map_lookup_filter_Some in Hr as [? ?]. by exists r.
  - intros (r & ? & ? & <-). exists r. split; [done|]. by apply map_lookup_filter_Some.
Qed.

Lemma trusted_ders_map s t : trusted_ders s t (map_to_list (Roots s)) ≡ₚ (map_to_list (trusted_map s t)).*2.
Proof.
  unfold trusted_ders, trusted_map. rewrite map_to_list_fmap, map_to_list_filter_perm, <- list_fmap_compose.
  done.
Qed.

Lemma trusted_roots_spec s t l cs :
  trusted_roots s t l = inr cs ↔ Forall2 (λ der c, parseCertDER der = inr c) (trusted_ders s t l) cs.
Proof.
  revert cs. induction l as [|[g r] l IH]; intros cs; cbn [trusted_roots].
  - split; [intros [= <-]; constructor|]. intros Hf. by inversion Hf.
  - unfold trusted_ders. rewrite filter_cons. cbn [fst snd]. destruct (trusted s t g r) eqn:E; cbn [negb].
    + rewrite decide_True by done. cbn [map snd]. split.
      * destruct (parseCertDER _) as [|c] eqn:Ec; [done|]. destruct (trusted_roots s t l) as [|cs'] eqn:El; [done|].
        intros [= <-]. constructor; [done|]. by apply IH.
      * intros Hf. inversion Hf as [|? c ? cs' Hc Hcs]; subst. rewrite Hc. by rewrite (proj2 (IH cs')).
    + rewrite decide_False by done. apply IH.
Qed.

Lemma buildTrustBundle_inv s t b :
  buildTrustBundle s t = inr b ↔
  ∃ cs, Forall2 (λ der c, parseCertDER der = inr c) (map_to_list (trusted_map s t)).*2 cs ∧
    newTrustBundle (map Some cs) = inr b.
Proof.
  unfold buildTrustBundle. split.
  - destruct (trusted_roots _ _ _) as [|cs] eqn:E; [done|]. intros Hb. apply trusted_roots_spec in E.
    destruct (Forall2_perm _ _ _ _ (trusted_ders_map s t) E) as (cs' & Hp & Hcs).
    exists cs'. split; [done|]. eapply newTrustBundle_perm; [|exact Hb]. by apply fmap_Permutation.
  - intros (cs & Hcs & Hb).
    destruct (Forall2_perm _ _ _ _ (symmetry (trusted_ders_map s t)) Hcs) as (cs' & Hp & Hcs').
    rewrite (proj2 (trusted_roots_spec s t _ cs')) by done.
    eapply newTrustBundle_perm; [|exact Hb]. by apply fmap_Permutation.
Qed.

(** The bundle depends on the trusted encodings only. *)
Lemma buildTrustBundle_ext s t s' t' b :
  trusted_map s t = trusted_map s' t' → buildTrustBundle s t = inr b → buildTrustBundle s' t' = inr b.
Proof. intros E. rewrite !buildTrustBundle_inv. by rewrite E. Qed.
End authority.

(** ** The trust window of a replaced root *)

(** Whether a ledger record was issued under the root of generation [g]. *)
Definition issued_under (s : authorityState) (g : Z) (r : LedgerRecord) : Prop :=
  ∃ i v, Issuers s !! Issuer r = Some i ∧ Versions i !! IssuerVersion r = Some v ∧ RootGeneration v = g.

Lemma deadline_of_app s g a b d : deadline_of s g (a ++ b) d = deadline_of s g b (deadline_of s g a d).
Proof. apply foldl_app. Qed.

(** The deadline is the largest bound of the records under the root. *)
Lemma deadline_of_spec s g l d :
  d ≤ deadline_of s g l d ∧
  (∀ r, r ∈ l → issued_under s g r → ExpiresAt r + clockSkew ≤ deadline_of s g l d) ∧
  (deadline_of s g l d = d ∨ ∃ r, r ∈ l ∧ issued_under s g r ∧ deadline_of s g l d = ExpiresAt r + clockSkew).
Proof.
  revert d. induction l as [|r l IH]; intros d; cbn [deadline_of foldl].
  { split_and!; [lia| |by left]. intros r Hr. by apply elem_of_nil in Hr. }
  set (d1 := match Issuers s !! Issuer r with None => d | Some i => _ end).
  assert (d ≤ d1 ∧ (issued_under s g r → ExpiresAt r + clockSkew ≤ d1) ∧
    (d1 = d ∨ issued_under s g r ∧ d1 = ExpiresAt r + clockSkew)) as (Hle & Hcov & Hatt).
  { subst d1. unfold issued_under. destruct (Issuers s !! Issuer r) as [i|] eqn:Ei.
    2:{ split_and!; [lia| |by left]. intros (? & ? & ? & _). done. }
    destruct (Versions i !! IssuerVersion r) as [v|] eqn:Ev.
    2:{ split_and!; [lia| |by left]. intros (? & ? & [= <-] & ? & _). congruence. }
    destruct (Z.eqb_spec (RootGeneration v) g) as [Hg|Hg]; cbn [andb].
    - destruct (Z.ltb_spec d (ExpiresAt r + clockSkew)).
      + split_and!; [lia|lia|]. right. split; [by exists i, v|done].
      + split_and!; [lia|lia|by left].
    - split_and!; [lia| |by left]. intros (? & ? & [= <-] & E & ?). congruence. }
  destruct (IH d1) as (IH1 & IH2 & IH3). fold (deadline_of s g l d1). split_and!.
  - lia.
  - intros r' [->|Hr']%elem_of_cons Hu; [specialize (Hcov Hu); lia|by apply IH2].
  - destruct IH3 as [->|(r' & ? & ? & ?)]; [|right; exists r'; split; [by right|done]].
    destruct Hatt as [->|[? ->]]; [by left|]. right. exists r. split; [left|done].
Qed.

Section window.
Context `{Unicode, Crypto, !Env, URLParser} {D St : Type} `{!Backend D}.

Abbreviation World := (world D (AuthorityManager St)).

(** The records of the pages that are read from a cursor to the end. *)
Inductive pages : string → World → list LedgerRecord → World → Prop :=
  | pages_last cursor w records w' :
      b_listLedger cursor 500 w = (inr (records, ""), w') → pages cursor w records w'
  | pages_more cursor w records next w1 rest w2 :
      b_listLedger cursor 500 w = (inr (records, next), w1) → next ≠ "" →
      pages next w1 rest w2 → pages cursor w (records ++ rest) w2.

Lemma ledgerTrustDeadline_pages fuel s g cursor d w d' w' :
  ledgerTrustDeadline fuel s g cursor d w = (Some (inr d'), w') →
  ∃ records, pages cursor w records w' ∧ d' = deadline_of s g records d.
Proof.
  revert cursor d w. induction fuel as [|fuel IH]; intros cursor d w E; cbn [ledgerTrustDeadline] in E; [done|].
  inv_run E. destruct r as [|[records next]]; [done|].
  destruct (String.eqb_spec next "") as [->|Hne].
  - injection E as <- <-. exists records. split; [by constructor|done].
  - apply IH in E as (rest & Hp & ->). exists (records ++ rest). split; [by econstructor|].
    by rewrite deadline_of_app.
Qed.

Lemma ledgerTrustDeadline_fuel s g cursor d w records w' :
  pages cursor w records w' → ∃ n, ∀ fuel, (n ≤ fuel)%nat →
    ledgerTrustDeadline fuel s g cursor d w = (Some (inr (deadline_of s g records d)), w').
Proof.
  intros Hp. revert d. induction Hp as [cursor w records w' E|cursor w records next w1 rest w2 E Hne _ IH]; intros d.
  - exists 1%nat. intros [|f] Hf; [lia|]. cbn [ledgerTrustDeadline]. unfold mbind, stm_bind. rewrite E.
    by rewrite String.eqb_refl.
  - destruct (IH (deadline_of s g records d)) as [n Hn]. exists (S n). intros [|f] Hf; [lia|].
    cbn [ledgerTrustDeadline]. unfold mbind, stm_bind. rewrite E.
    destruct (String.eqb_spec next ""); [done|]. rewrite deadline_of_app. apply Hn. lia.
Qed.

(** The latest end, with the clock skew, of what was issued under the active root;
    the clock reading when there is nothing after the zero time. *)
Definition latest (s : authorityState) (records : list LedgerRecord) (t d : Time) : Prop :=
  (∃ r, r ∈ records ∧ issued_under s (ActiveRoot s) r ∧ d = ExpiresAt r + clockSkew ∧
     ∀ r', r' ∈ records → issued_under s (ActiveRoot s) r' → ExpiresAt r' + clockSkew ≤ d) ∨
  (d = t ∧ ∀ r', r' ∈ records → issued_under s (ActiveRoot s) r' → ExpiresAt r' + clockSkew ≤ 0).

(** How long the replaced root is trusted: the clock is read in [w1], and then, with
    a ledger, its pages are read from the first to the last, to [w2]. *)
Definition trust_window (s : authorityState) (w1 w2 : World) (d : Time) : Prop :=
  if String.eqb (spec_IssuanceMode (Spec s)) IssuanceLedger
  then ∃ records, pages "" (bump_tick w1) records w2 ∧ latest s records (env_now (w_tick w1)) d
  else w2 = bump_tick w1 ∧ d = env_now (w_tick w1) + (maximumLeafValidity + clockSkew).

Lemma deadline_latest s records t :
  latest s records t (let d := deadline_of s (ActiveRoot s) records 0 in if d =? 0 then t else d).
Proof.
  cbn zeta. destruct (deadline_of_spec s (ActiveRoot s) records 0) as (_ & Hcov & Hatt).
  destruct (Z.eqb_spec (deadline_of s (ActiveRoot s) records 0) 0) as [E|Hne].
  - right. split; [done|]. by rewrite <- E.
  - left. destruct Hatt as [E|(r & Hr & Hu & Ed)]; [done|]. by exists r.
Qed.

(** What a promotion makes of a state, and when it read the clock. *)
Lemma promote_mutation_run fuel (o : optionValues St) s (w w' : World) x s' :
  promote_mutation fuel o s w = (MDone x s', w') →
  ∃ p d, Pending s = Some p ∧ s' = promoted p d s ∧ (Kind_ p = "root" → ∃ w1, trust_window s w1 w' d).
Proof.
  intros E. unfold promote_mutation in E. inv_run E. injection E0 as <- <-. destruct (assertSpec _ _); [done|].
  destruct (Pending s) as [p|] eqn:Hp; [|done]. inv_run E. destruct r as [e|secret]; [done|].
  destruct (first_error _); [done|]. inv_run E. injection E1 as <- <-. inv_run E.
  destruct r as [[e|d]|]; [done| |done]. injection E as <- <- <-. exists p, d. split; [done|]. split; [done|].
  intros Hk. rewrite Hk, String.eqb_refl in E1. exists h. unfold trust_window. unfold promotion_deadline in E1.
  destruct (String.eqb _ IssuanceLedger).
  - inv_run E1. destruct r as [[e|d0]|]; [done| |done]. injection E1 as <- <-.
    apply ledgerTrustDeadline_pages in E as (records & Hpages & ->). exists records. split; [done|]. apply deadline_latest.
  - by injection E1 as <- <-.
Qed.

End window.

Section rotation.
Context `{CryptoLaws, Unicode, URLParser} {D St : Type} `{!Backend D}.

Lemma state_root s g r : state_ok (St := St) s → Roots s !! g = Some r →
  ∃ c, parseCertDER (root_CertificateDER r) = inr c ∧ root_cert_ok (Spec s) g c ∧
    Raw c = root_CertificateDER r.
Proof.
  intros Hok Er. destruct (st_roots _ Hok _ _ Er) as (_ & (c & Ec & Hc & _) & _). exists c.
  split_and!; [done|done|]. by apply parse_raw, parseCertDER_inr.
Qed.

(** The certificates of the trusted roots are different. *)
Lemma trusted_distinct s t cs :
  state_ok (St := St) s →
  Forall2 (λ der c, parseCertDER der = inr c) (map_to_list (trusted_map s t)).*2 cs → NoDup (Raw <$> cs).
Proof.
  intros Hok Hf.
  assert (Raw <$> cs = (map_to_list (trusted_map s t)).*2) as ->.
  { clear Hok. induction Hf as [|der c l cs Hc _ IH]; [done|]. cbn. f_equal; [|done].
    by apply parse_raw, parseCertDER_inr. }
  apply NoDup_fmap_2_strong; [|apply NoDup_map_to_list].
  intros [g1 d1] [g2 d2] G1%elem_of_map_to_list G2%elem_of_map_to_list E. cbn in E. subst d2. f_equal.
  apply trusted_map_Some in G1 as (r1 & E1 & _ & D1), G2 as (r2 & E2 & _ & D2).
  destruct (state_root _ _ _ Hok E1) as (c1 & P1 & R1 & _), (state_root _ _ _ Hok E2) as (c2 & P2 & R2 & _).
  rewrite D1 in P1. rewrite D2 in P2. assert (c1 = c2) as -> by congruence.
  apply (rootCommonName_inj (spec_Name (Spec s))). by rewrite <- (rc_name _ _ _ R1), <- (rc_name _ _ _ R2).
Qed.

Lemma trusted_certs s t : state_ok (St := St) s →
  ∃ cs, Forall2 (λ der c, parseCertDER der = inr c) (map_to_list (trusted_map s t)).*2 cs.
Proof.
  intros Hok.
  assert (∀ der, der ∈ (map_to_list (trusted_map s t)).*2 → ∃ c, parseCertDER der = inr c) as Hall.
  { intros der ([g d] & -> & Hg%elem_of_map_to_list)%list_elem_of_fmap.
    apply trusted_map_Some in Hg as (r & Er & _ & <-). destruct (state_root _ _ _ Hok Er) as (c & ? & _). by exists c. }
  induction (map_to_list (trusted_map s t)).*2 as [|der l IH]; [by exists []|].
  destruct (Hall der) as [c Hc]; [by left|]. destruct IH as [cs Hcs]; [intros d Hd; apply Hall; by right|].
  exists (c :: cs). by constructor.
Qed.

Lemma trusted_members s t cs c :
  Forall2 (λ der c, parseCertDER der = inr c) (map_to_list (trusted_map s t)).*2 cs →
  c ∈ cs ↔ ∃ g r, Roots s !! g = Some r ∧ trusted s t g r = true ∧ parseCertDER (root_CertificateDER r) = inr c.
Proof.
  intros Hcs. transitivity (∃ g der, trusted_map s t !! g = Some der ∧ parseCertDER der = inr c).
  2:{ setoid_rewrite trusted_map_Some. naive_solver. }
  split.
  - intros [i Hi]%list_elem_of_lookup. destruct (Forall2_lookup_r _ _ _ _ _ Hcs Hi) as (der & El & Hd).
    apply list_elem_of_lookup_2 in El. apply list_elem_of_fmap in El as ([g d] & -> & Hg%elem_of_map_to_list).
    by exists g, d.
  - intros (g & der & Hg%elem_of_map_to_list & Hd). apply (list_elem_of_fmap_2 snd) in Hg.
    apply list_elem_of_lookup in Hg as [i Hi]. destruct (Forall2_lookup_l _ _ _ _ _ Hcs Hi) as (c' & Hc & Hd').
    cbn in Hd'. assert (c' = c) as -> by congruence. by eapply list_elem_of_lookup_2.
Qed.

Lemma trusted_true s t g r :
  trusted s t g r = true ↔
  g = ActiveRoot s ∨ (∃ p, Pending s = Some p ∧ g = p_RootGeneration p) ∨ t < RetiredTrustUntil r.
Proof.
  unfold trusted. rewrite !orb_true_iff, Z.eqb_eq, Z.ltb_lt.
  destruct (Pending s) as [p|]; [rewrite Z.eqb_eq|]; naive_solver.
Qed.

(** A certificate that clients should trust at a time: that of the active root, of
    the root of a pending operation, or of a root whose trust window has not ended. *)
Definition to_trust (s : authorityState) (t : Time) (c : Certificate) : Prop :=
  ∃ g r, Roots s !! g = Some r ∧ parseCertDER (root_CertificateDER r) = inr c ∧
    (g = ActiveRoot s ∨ (∃ p, Pending s = Some p ∧ g = p_RootGeneration p) ∨ t < RetiredTrustUntil r).

Lemma trusted_to_trust s t cs c :
  Forall2 (λ der c, parseCertDER der = inr c) (map_to_list (trusted_map s t)).*2 cs → c ∈ cs ↔ to_trust s t c.
Proof. intros Hcs. rewrite (trusted_members s t cs c Hcs). unfold to_trust. setoid_rewrite trusted_true. naive_solver. Qed.

Lemma buildTrustBundle_built s t :
  state_ok (St := St) s → (∀ c, to_trust s t c → RawSubject c = RawIssuer c) → ∃ b, buildTrustBundle s t = inr b.
Proof.
  intros Hok Hnames. destruct (trusted_certs s t Hok) as [cs Hcs].
  pose proof (λ c, trusted_to_trust s t cs c Hcs) as Hmem.
  assert (Forall trust_root cs) as Htr.
  { apply Forall_forall. intros c Hc%Hmem. pose proof (Hnames c Hc) as Hn. destruct Hc as (g & r & Er & Ec & _).
    destruct (state_root _ _ _ Hok Er) as (c' & Hc' & Hrc & _). assert (c' = c) as -> by congruence.
    destruct Hrc. by constructor. }
  assert (cs ≠ []) as Hne.
  { destruct (st_active _ Hok) as [_ [r Er]]. destruct (state_root _ _ _ Hok Er) as (c & Hc & _). intros ->.
    assert (c ∈ []) as Hin; [|by apply elem_of_nil in Hin]. apply Hmem. exists (ActiveRoot s), r. eauto. }
  assert (merge_sort raw_le cs ≡ₚ cs) as Hp by apply merge_sort_Permutation.
  assert (StronglySorted raw_le (merge_sort raw_le cs)) as Hs by (apply StronglySorted_merge_sort; apply _).
  pose proof (trusted_distinct _ _ _ Hok Hcs) as Hnd. exists {| t_certs := merge_sort raw_le cs |}.
  apply buildTrustBundle_inv. exists cs. split; [done|]. apply newTrustBundle_iff. by exists cs.
Qed.

(** C12: the trust bundle of a valid authority holds, once each and in canonical
    order, exactly the certificates of the active root, of the root of a pending
    operation, and of the replaced roots whose trust window has not ended.  It
    can be built exactly when each of them names itself as its issuer, which
    validation of the authority does not check. *)
Theorem buildTrustBundle_spec s t :
  state_ok (St := St) s →
  match buildTrustBundle s t with
  | inr b => StronglySorted raw_le (t_certs b) ∧ NoDup (Raw <$> t_certs b) ∧
      (∀ c, c ∈ t_certs b ↔ to_trust s t c) ∧ ∀ c, to_trust s t c → RawSubject c = RawIssuer c
  | inl _ => ¬ ∀ c, to_trust s t c → RawSubject c = RawIssuer c
  end.
Proof.
  intros Hok. destruct (buildTrustBundle s t) as [e|b] eqn:E.
  { intros Hn. destruct (buildTrustBundle_built s t Hok Hn) as [b Eb]. congruence. }
  apply buildTrustBundle_inv in E as (cs & Hcs & (l & El & _ & Ht & Hnd & Hp & Hs)%newTrustBundle_iff).
  apply (inj (fmap Some)) in El as <-. pose proof (λ c, trusted_to_trust s t cs c Hcs) as Hmem.
  split; [done|]. split; [by rewrite Hp|]. split; [intros c; by rewrite Hp, Hmem|].
  intros c Hc%Hmem. rewrite Forall_forall in Ht. apply (Ht c Hc).
Qed.

(** *** The end of a rotation *)

(** A root rotation sets the window of the replaced root. *)
Lemma promoted_window p d s r : Kind_ p = "root" → Roots s !! ActiveRoot s = Some r →
  ∃ r', Roots (promoted p d s) !! ActiveRoot s = Some r' ∧ RetiredTrustUntil r' = d.
Proof.
  intros Hk Er. exists (retire_root d (erase_root_key r)). split; [|done].
  change (Roots (promoted p d s)) with (if String.eqb (Kind_ p) "root"
    then alter (retire_root d) (ActiveRoot s) (alter erase_root_key (ActiveRoot s) (Roots s)) else Roots s).
  by rewrite Hk, String.eqb_refl, !lookup_alter_eq, Er.
Qed.

Lemma trusted_map_promoted p d s t :
  manifest_ok s p → Pending s = Some p → (Kind_ p ≠ "root" → Roots s !! 0 = None) →
  (Kind_ p = "root" → t < d ∧ is_Some (Roots s !! ActiveRoot s)) →
  trusted_map (promoted p d s) t = trusted_map s t.
Proof.
  intros Hm Hp H0' Ht. apply map_eq. intros g. apply option_eq. intros der. rewrite !trusted_map_Some.
  setoid_rewrite trusted_true. unfold promoted. cbn [Roots ActiveRoot Pending]. rewrite Hp.
  destruct (String.eqb_spec (Kind_ p) "root") as [Ek|Ek].
  - destruct (Ht Ek) as [Hd _]. destruct (mf_root _ _ Hm Ek) as [_ Hne].
    destruct (decide (g = ActiveRoot s)) as [->|Hg].
    + rewrite !lookup_alter_eq. destruct (Roots s !! ActiveRoot s) as [r|]; cbn; [|naive_solver].
      split.
      * intros (r' & [= <-] & _ & <-). exists r. split_and!; [done|by left|done].
      * intros (r' & [= <-] & _ & <-). eexists. split_and!; [done| |done]. right. right. done.
    + rewrite !lookup_alter_ne by done. naive_solver.
  - pose proof (mf_issuer _ _ Hm Ek) as Hz. specialize (H0' Ek). split.
    + intros (r & Er & Hr & <-). exists r. naive_solver.
    + intros (r & Er & Hr & <-). exists r. split_and!; [done| |done].
      destruct Hr as [?|[(p' & [= <-] & ->)|?]]; [by left| |by right; right]. congruence.
Qed.

Lemma trusted_map_pruned g r s t :
  Roots s !! g = Some r → g ≠ ActiveRoot s → (∀ p, Pending s = Some p → g ≠ p_RootGeneration p) →
  RetiredTrustUntil r ≤ t → 0 ≤ t →
  trusted_map (add_root g (retire_root 0 r) s) t = trusted_map s t.
Proof.
  intros Er Ha Hp Ht H0t. apply map_eq. intros g'. apply option_eq. intros der. rewrite !trusted_map_Some.
  setoid_rewrite trusted_true. unfold add_root. cbn [Roots ActiveRoot Pending].
  destruct (decide (g' = g)) as [->|Hg]; [|by rewrite lookup_insert_ne].
  rewrite lookup_insert_eq, Er. split; intros (r' & [= <-] & [?|[(p & ? & ?)|Hlt]] & _);
    first [done|by destruct (Hp p)|cbn in Hlt; lia].
Qed.

(** C13: ending a rotation does not change whom clients should trust.  Take a
    well-formed authority without a root of generation 0, and a clock after the
    zero time.  The trust bundle before a promotion and after it is the same at
    every time before the end of the trust window that the promotion sets for the
    old root: without a ledger the moment at which the promotion reads the clock
    plus the longest leaf validity and the clock skew, with a ledger the latest
    end, plus the clock skew, of the certificates on its pages that were issued
    under that root, or that moment when there are none.  For a promotion of
    issuers it is the same at all times.  Pruning a root that is past its window
    changes nothing from the time of the pruning on. *)
Theorem trust_continuity fuel (o : optionValues St) s (w : world D (AuthorityManager St)) :
  authority_inv (St := St) s → Roots s !! 0 = None → (∀ n, 0 ≤ env_now n) →
  (∀ x s' w', promote_mutation fuel o s w = (MDone x s', w') →
    ∃ p d, Pending s = Some p ∧
      (Kind_ p = "root" → (∃ w1, trust_window s w1 w' d) ∧
         ∃ r, Roots s' !! ActiveRoot s = Some r ∧ RetiredTrustUntil r = d) ∧
      ∀ t b, (Kind_ p = "root" → t < d) → buildTrustBundle s t = inr b ↔ buildTrustBundle s' t = inr b) ∧
  (∀ g fp s' w', prune_mutation g fp s w = (MDone () s', w') →
    ∀ t b, env_now (w_tick w) ≤ t → buildTrustBundle s t = inr b ↔ buildTrustBundle s' t = inr b).
Proof.
  intros [Hok Hst] Hzero Hnow. split.
  - intros x s' w' E. apply promote_mutation_run in E as (p & d & Hp & -> & Hd).
    exists p, d. split; [done|]. split.
    { intros Hk. split; [by apply Hd|]. destruct (st_active _ Hok) as [_ [r Er]]. by apply (promoted_window p d s r). }
    intros t b Ht.
    assert (trusted_map (promoted p d s) t = trusted_map s t) as Et.
    { apply trusted_map_promoted; [by apply Hst|done|done|]. intros Ek. split; [by apply Ht|]. apply (st_active _ Hok). }
    split; by apply buildTrustBundle_ext.
  - intros g fp s' w' E t b Ht. unfold prune_mutation in E.
    destruct ((g =? ActiveRoot s) || _) eqn:Eg; [done|]. apply orb_false_iff in Eg as [Ha%Z.eqb_neq Hp].
    destruct (Roots s !! g) as [r|] eqn:Er; [|done]. destruct (negb _); [done|]. inv_run E.
    injection E0 as <- <-. destruct (Z.ltb_spec (env_now (w_tick w)) (RetiredTrustUntil r)); [done|].
    injection E as <- <-. specialize (Hnow (w_tick w)).
    assert (trusted_map (add_root g (retire_root 0 r) s) t = trusted_map s t) as Et.
    { apply trusted_map_pruned; [done|done| |lia|lia]. intros p Ep. rewrite Ep in Hp. by apply Z.eqb_neq. }
    split; by apply buildTrustBundle_ext.
Qed.
End rotation.

Section reload.
Context `{Host, CryptoLaws, Unicode} {St : Type}.

(** a trust bundle survives its PEM form: however its certificates are
    distributed over PEM inputs, and in whatever order, [NewTrustBundle] gives
    the bundle back without touching a file, and so does adding some of them
    to a bundle of the others. *)
Theorem trust_reload certs b parts (h : history) :
  newTrustBundle certs = inr b → Forall parsed (t_certs b) →
  Forall (λ l, l ≠ []) parts → concat parts ≡ₚ t_certs b →
  NewTrustBundle (pem_options (St := St) (map certsPEM parts) None) h = (inr b, h) ∧
  ∀ b1 l, t_certs b1 ++ l ≡ₚ t_certs b → l ≠ [] →
    TrustBundle_AddCertPEM (Some b1) (certsPEM l) = (None, Some b).
Proof.
  intros E Hparsed Hparts Hperm. apply newTrustBundle_members in E as Hm. split.
  - assert (newTrustBundle (map Some (concat parts)) = inr b) as Hb.
    { eapply newTrustBundle_perm; [|exact E]. by rewrite Hperm. }
    assert (Forall (λ l, l ≠ [] ∧ Forall parsed l) parts) as Hall.
    { by apply parts_parsed; [|rewrite Hperm]. }
    unfold NewTrustBundle. rewrite parse_pem_options; [|by right|apply Forall_map; eapply Forall_impl; [exact Hparts|apply certsPEM_ne]].
    rewrite run_ret. rewrite (run_bind _ _ _ (inr (concat parts)) h); [cbn -[newTrustBundle]; by rewrite Hb|].
    unfold loadCertificateInputs. by erewrite run_bind; [|by apply load_parts].
  - intros b1 l Hl Hne. unfold TrustBundle_AddCertPEM. rewrite parseCertificatesPEM_ok; [|done|].
    + assert (newTrustBundle (map Some (t_certs b1 ++ l)) = inr b) as ->; [|done].
      eapply newTrustBundle_perm; [|exact E]. by rewrite Hl.
    + rewrite <- Hl in Hparsed. by apply Forall_app in Hparsed as [_ ?].
Qed.
End reload.
