(* ===== verification/CertsAuthorityFacts.v ===== *)
(** * What the authority manager preserves

    The certificates that the manager makes pass [validateState], and every
    mutation that it hands to a store keeps the authority well-formed. *)
From S2P Require Import Prelude.
From S2P Require Import GoStrings.
From S2P Require Import Utf8.
From S2P Require Import Text.
From S2P Require Import Errors.
From S2P Require Import GoNet.
From S2P Require Import CertsTypes.
From S2P Require Import CertsNames.
From S2P Require Import CertsCrypto.
From S2P Require Import CertsOptions.
From S2P Require Import CertsOptionsFacts.
From S2P Require Import CertsState.
From S2P Require Import CertsBackend.
From S2P Require Import CertsAuthority.
From S2P Require Import CertsStateFacts.
#[local] Open Scope stdpp_scope.
#[local] Open Scope Z_scope.

(** A branch that only returns. *)
Ltac post_ret := intros; apply step_ret; [try apply _|cbn; auto].

(** ** Runs that leave the document and the configuration alone *)
Section facts.
Context `{Uni : Unicode, !UnicodeLaws, Cry : Crypto, En : !Env, !CryptoLaws, URLParser} {D St : Type}
  `{!Backend D} (stored : D → option authorityState) `{!BackendLaws D St stored}.

Abbreviation World := (world D (AuthorityManager St)).

(** Secrets may be remembered on the way, nothing else changes. *)
Definition quiet (w w' : World) : Prop :=
  stored (w_disk w') = stored (w_disk w) ∧ config (w_mem w') = config (w_mem w) ∧
  closed (w_mem w') = closed (w_mem w).

#[local] Instance quiet_preorder : PreOrder quiet.
Proof.
  split; [by intros w|]. intros w1 w2 w3 (? & ? & ?) (? & ? & ?). unfold quiet. split_and!; congruence.
Qed.

Lemma keeps_quiet w w' : keeps stored w w' → quiet w w'.
Proof. intros [? E]. unfold quiet. by rewrite E. Qed.

Abbreviation post := (step_post quiet).

Lemma post_draw {A} (Q : A → Prop) f w : (∀ n, Q (f n)) → post Q (draw f) w.
Proof. intros HQ. split; [done|apply HQ]. Qed.

Lemma post_get (Q : AuthorityManager St → Prop) w : Q (w_mem w) → post Q get_mem w.
Proof. by split. Qed.

Lemma post_remember g secret w : post (λ _, True) (remember g secret) w.
Proof. by split. Qed.

Lemma post_loadUnlocks w : post (λ _, True) b_loadUnlocks w.
Proof.
  split; [|done]. destruct (b_loadUnlocks w) as [r w'] eqn:E. cbn.
  by apply loadUnlocks_law, keeps_quiet in E.
Qed.

Lemma post_listLedger c l w : post (λ _, True) (b_listLedger c l) w.
Proof.
  split; [|done]. destruct (b_listLedger c l w) as [r w'] eqn:E. cbn.
  by apply listLedger_law, keeps_quiet in E.
Qed.

(** Results that carry an error satisfy every claim about successes. *)
Definition on_success {A} (Q : A → Prop) (r : error + A) : Prop :=
  match r with inl _ => True | inr a => Q a end.

(** [let! x := m else e => mret (inl e) in k]. *)
Lemma post_let {A C E} (P : A → Prop) (Q : C → Prop) (m : stm World (E + A))
    (h : E → stm World C) k w :
  post (λ r, match r with inl _ => True | inr a => P a end) m w →
  (∀ e w', post Q (h e) w') →
  (∀ a w', quiet w w' → P a → post Q (k a) w') →
  post Q (let! x := m else e => h e in k x) w.
Proof.
  intros Hm Hh Hk. eapply step_bind; [apply _|exact Hm|]. intros [e|a] w' Hr Hp; auto.
Qed.

Lemma post_sub {A} (P Q : A → Prop) (m : stm World A) w : post P m w → (∀ a, P a → Q a) → post Q m w.
Proof. apply step_mono. Qed.

(** ** Keys and certificates *)

Lemma generateSigner_post spec w :
  KeySpec_valid spec = true →
  post (on_success (λ key, keySpecForPublic (Public key) = inr spec)) (generateSigner spec) w.
Proof.
  intros Hv. unfold generateSigner.
  assert (String.eqb spec "" = false) as -> by (destruct (String.eqb_spec spec "") as [->|]; done).
  rewrite Hv. eapply step_bind; [apply _|apply (post_draw (λ r, ∀ k, r = inr k → keySpecForPublic (Public k) = inr spec))|].
  - intros n k Hk. by eapply generate_spec.
  - intros [e|k] w' _ Hk; post_ret.
Qed.

Lemma randomSerial_post w : post (λ _, True) randomSerial w.
Proof.
  eapply step_bind; [apply _|by apply (post_draw (λ _, True))|]. post_ret.
Qed.

Lemma truncate_second_le t : truncate_second t ≤ t.
Proof. unfold truncate_second, Second. pose proof (Z.mul_div_le t 1000000000). lia. Qed.

Lemma ca_usage : Z.lor KeyUsageCertSign KeyUsageCRLSign = 96.
Proof. done. Qed.

(** A certificate made from a CA template. *)
Lemma created_ca_cert serial name nb na mp mz ski aki pub der c :
  created_from (ca_template serial name nb na mp mz ski aki) pub der c →
  IsCA c = true ∧ BasicConstraintsValid c = true ∧ no_bit (KeyUsage c) KeyUsageCertSign = false ∧
  no_bit (KeyUsage c) KeyUsageCRLSign = false ∧ ca_capable c.
Proof.
  intros Hc. unfold no_bit, ca_capable.
  rewrite (created_key_usage _ _ _ _ Hc), (created_ca _ _ _ _ Hc), (created_constraints _ _ _ _ Hc).
  by vm_compute.
Qed.

Definition key_of (root : rootRecord) (key : Signer) : Prop :=
  ∃ c, parseCertDER (root_CertificateDER root) = inr c ∧ cert_PublicKey c = Public key ∧ ca_capable c.

Lemma makeRoot_post sp g t w :
  KeySpec_valid (spec_KeySpec sp) = true →
  post (on_success (λ made, let '(root, key, secret) := made in
    (CommonName (spec_Identity sp) = "" → root_ok sp True g root) ∧ key_of root key ∧ RetiredTrustUntil root = 0)) (makeRoot sp g t) w.
Proof.
  intros Hv. unfold makeRoot.
  eapply post_let; [by apply generateSigner_post|post_ret|].
  intros key w1 _ Hkey. cbn beta in Hkey.
  eapply (post_let (λ _, True)); [apply step_ret; [apply _|by destruct (subjectKeyID _)]|post_ret|].
  intros ski w2 _ _.
  eapply (post_let (λ _, True)); [eapply post_sub; [apply randomSerial_post|by intros []]|post_ret|].
  intros serial w3 _ _.
  set (tmpl := ca_template serial _ _ _ _ _ _ _).
  eapply (post_let (λ der, ∀ c, x509_ParseCertificate der = inr c → created_from tmpl (Public key) der c ∧
    ∀ p, ca_capable p → cert_PublicKey p = Public key → CheckSignatureFrom c p = None));
    [apply post_draw|post_ret|].
  { intros n. destruct (env_CreateCertificate _ _ _ _ _) as [|der] eqn:E; [done|]. intros c Ec. by eapply create_parse. }
  intros der w4 _ Hcr.
  eapply (post_let (λ c, x509_ParseCertificate der = inr c)); [apply step_ret; [apply _|by destruct (x509_ParseCertificate der)]|post_ret|].
  intros c w5 _ Ec. destruct (Hcr c Ec) as [Hc Hsig].
  eapply (post_let (λ secret, secret ≠ "")); [apply post_draw|post_ret|].
  { intros n. destruct (env_rand n 32) as [|b] eqn:E; [done|]. apply rand_length in E. by intros ->. }
  intros secret w6 _ Hsecret.
  eapply (post_let (λ pem, ∃ der, pem = pem_Encode "ENCRYPTED PRIVATE KEY" der ∧ der ≠ ""));
    [|post_ret|].
  { unfold marshalKeyPEM. destruct (String.eqb_spec secret ""); [done|].
    eapply step_bind; [apply _|apply (post_draw (λ r, ∀ der, r = inr der → der ≠ ""))|].
    - intros k der' E. by apply encrypt_parse in E as [? _].
    - intros [e|der'] w' _ Hd; (apply step_ret; [apply _|]); cbn; eauto. }
  intros pem w7 _ (kder & -> & Hk).
  rewrite pem_round_nil by (right; left).
  apply step_ret; [apply _|]. cbn.
  destruct (created_ca_cert _ _ _ _ _ _ _ _ _ _ _ Hc) as (Hca & Hbc & Hsu & Hcu & Hcap).
  split; [|split; [|done]].
  - intros Hcn. split; [done|]. split; [|done]. exists c. split; [by apply parseCertDER_inr|]. split; [|done].
    pose proof (created_subject _ _ _ _ Hc) as Hname.
    constructor; try done.
    + apply (created_path_len _ _ _ _ Hc). by left.
    + apply Hsig; [done|]. by rewrite (created_public_key _ _ _ _ Hc).
    + by rewrite (created_public_key _ _ _ _ Hc).
    + by destruct Hname as (_ & _ & _ & _ & _ & ->).
    + rewrite (same_name_ca _ (caName (spec_Identity sp) (rootCommonName (spec_Name sp) g))) by done.
      rewrite caName_identity. by destruct (spec_Identity sp); cbn in *; subst.
  - exists c. split; [by apply parseCertDER_inr|]. by destruct Hc.
Qed.

(** What a freshly made issuer version satisfies. *)
Definition fresh_version (sp : authoritySpec) (name : string) (g n : Z) (root : rootRecord)
    (v : issuerVersion) : Prop :=
  Version v = n ∧ RootGeneration v = g ∧ KeyDER v ≠ "" ∧ key_matches v ∧
  ∃ c rc, parseCertDER (CertificateDER v) = inr c ∧
    parseCertDER (root_CertificateDER root) = inr rc ∧ version_cert_ok sp name v rc c ∧
    fingerprint c = Fingerprint v.

Lemma supported_equal pub : supportedPublicKey pub = None → publicKeysEqual pub pub = true.
Proof.
  intros Hs. apply marshal_public in Hs as [der E]. unfold publicKeysEqual. rewrite E. apply String.eqb_refl.
Qed.

Lemma publicKeysEqual_eq a b : publicKeysEqual a b = true → a = b.
Proof.
  unfold publicKeysEqual. destruct (MarshalPKIXPublicKey a) as [|da] eqn:Ea; [done|].
  destruct (MarshalPKIXPublicKey b) as [|db] eqn:Eb; [done|]. intros ->%String.eqb_eq.
  by eapply marshal_inj.
Qed.

Lemma makeIssuer_post sp g n d root key t w :
  KeySpec_valid (spec_KeySpec sp) = true → key_of root key →
  post (on_success (fresh_version sp (def_Name d) g n root)) (makeIssuer sp g n d root key t) w.
Proof.
  intros Hv (rc & Erc & Hpub & Hcap). unfold makeIssuer.
  eapply (post_let (λ x, x = rc)); [apply step_ret; [apply _|by rewrite Erc]|post_ret|].
  intros rc' w0 _ ->.
  destruct (Z.ltb_spec (NotAfter rc - clockSkew) (t + def_Validity d)) as [|Hfit]; [post_ret|].
  eapply post_let; [by apply generateSigner_post|post_ret|]. intros ikey w1 _ Hkey. cbn beta in Hkey.
  eapply (post_let (λ _, True)); [apply step_ret; [apply _|by destruct (subjectKeyID _)]|post_ret|].
  intros ski w2 _ _.
  eapply (post_let (λ _, True)); [eapply post_sub; [apply randomSerial_post|by intros []]|post_ret|].
  intros serial w3 _ _. set (tmpl := ca_template serial _ _ _ _ _ _ _).
  eapply (post_let (λ der, ∀ c, x509_ParseCertificate der = inr c → created_from tmpl (Public ikey) der c ∧
    ∀ p, ca_capable p → cert_PublicKey p = Public key → CheckSignatureFrom c p = None));
    [apply post_draw|post_ret|].
  { intros k. destruct (env_CreateCertificate _ _ _ _ _) as [|der] eqn:E; [done|]. intros c Ec. by eapply create_parse. }
  intros der w4 _ Hcr. destruct (x509_ParseCertificate der) as [|c] eqn:Ec; [post_ret|]. destruct (Hcr c eq_refl) as [Hc Hsig].
  eapply (post_let (λ kder, kder ≠ "" ∧ ∃ k', x509_ParsePKCS8PrivateKey kder = inr (Some k') ∧ Public k' = Public ikey));
    [apply step_ret; [apply _|]|post_ret|].
  { unfold marshalKeyDER, as_sys. destruct (MarshalPKCS8PrivateKey ikey) eqn:E; [done|]. by apply marshal_parse. }
  intros kder w5 _ (Hne & k' & Ek & Hk'). apply step_ret; [apply _|]. cbn.
  destruct (created_ca_cert _ _ _ _ _ _ _ _ _ _ _ Hc) as (Hca & Hbc & Hsu & _ & _).
  pose proof (created_public_key _ _ _ _ Hc) as Hpk.
  split_and!; try done.
  - exists k', c. unfold parseKeyDER. cbn. rewrite Ek, Hk', Hpk.
    assert (supportedPublicKey (Public ikey) = None) as Hsup by (by eapply spec_supported).
    rewrite Hsup. split_and!; [done|by apply parseCertDER_inr|by apply supported_equal].
  - exists c, rc. split_and!; [by apply parseCertDER_inr|done| |done].
    constructor; cbn; try done.
    + by apply Hsig.
    + destruct (created_path_len _ _ _ _ Hc) as [E1 E2]; [by right|]. by rewrite E1, E2.
    + by destruct (created_subject _ _ _ _ Hc) as (_ & _ & _ & _ & _ & ->).
    + by rewrite Hpk.
    + rewrite (created_not_after _ _ _ _ Hc). cbn. pose proof (truncate_second_le (t + def_Validity d)). lia.
Qed.
End facts.
