(* ===== verification/CertsSigning.v ===== *)
(** * What signing issues

    The certificates that [SignCSR] returns, the ledger records that go with
    them, and when it succeeds. *)
From S2P Require Import Prelude.
From S2P Require Import GoStrings.
From S2P Require Import Utf8.
From S2P Require Import Text.
From S2P Require Import Errors.
From S2P Require Import GoNet.
From S2P Require Import CertsTypes.
From S2P Require Import CertsNames.
From S2P Require Import CertsCrypto.
From S2P Require Import CertsOptions.
From S2P Require Import CertsOptionsFacts.
From S2P Require Import CertsState.
From S2P Require Import CertsBackend.
From S2P Require Import CertsAuthority.
From S2P Require Import CertsStateFacts.
From S2P Require Import CertsBundle.
From S2P Require Import CertsBundleFacts.
From S2P Require Import CertsTrust.
From S2P Require Import CertsIssuer.
From S2P Require Import CertsIssuerFacts.
From S2P Require Import CertsAuthorityFacts.
#[local] Open Scope stdpp_scope.
#[local] Open Scope Z_scope.

(** ** Names that went through normalisation *)
Section names.
Context `{UnicodeLaws}.

Record clean_SANs (s : SANs) : Prop := {
  cs_dns : Forall normal_dns (DNSNames s);
  cs_ips : Forall normal_ip (IPAddresses s);
  cs_uris : Forall normal_uri (URIs s);
  cs_emails : Forall normal_email (EmailAddresses s);
}.

Lemma one_dns_normal d d' : one_dns d = inr d' → normal_dns d'.
Proof.
  unfold one_dns. destruct (normalizeSANs _) as [|s] eqn:E; [done|]. intros [= <-].
  unfold normalizeSANs in E. destruct (normalize_dns _ _) as [|l] eqn:El; [done|]. injection E as <-. cbn.
  pose proof (dns_fresh _ _ _ El) as Hl. revert El. cbn [DNSNames normalize_dns].
  destruct (negb _); [done|]. intros [= <-]. by inversion Hl.
Qed.
Lemma one_dns_fix d : normal_dns d → one_dns d = inr d.
Proof.
  intros Hd. unfold one_dns. rewrite normalizeSANs_fix; [done|].
  split_and!; [|constructor..]. constructor; [done|apply not_elem_of_nil|constructor].
Qed.

Lemma one_ip_normal i i' : one_ip i = inr i' → normal_ip i'.
Proof.
  unfold one_ip, normalizeSANs. cbn [normalize_dns DNSNames IPAddresses normalize_ips]. unfold normal_ip.
  destruct (_ || _) eqn:E; [done|]. by intros [= <-].
Qed.
Lemma one_ip_fix i : normal_ip i → one_ip i = inr i.
Proof.
  intros Hi. unfold one_ip. rewrite normalizeSANs_fix; [done|].
  split_and!; [constructor| |constructor..]. constructor; [done|apply not_elem_of_nil|constructor].
Qed.

Lemma one_uri_normal u u' : one_uri u = inr u' → normal_uri u'.
Proof.
  unfold one_uri, normalizeSANs. destruct u as [u|]; [|done]. cbn -[has_control].
  destruct (_ || _) eqn:E; [done|]. intros [= <-]. by cbn.
Qed.
Lemma one_uri_fix u : normal_uri u → one_uri u = inr u.
Proof.
  intros Hu. unfold one_uri. rewrite normalizeSANs_fix; [done|].
  split_and!; [constructor..| |constructor]. constructor; [done|apply not_elem_of_nil|constructor].
Qed.

Lemma one_email_normal e e' : one_email e = inr e' → normal_email e'.
Proof.
  unfold one_email. destruct (normalizeSANs _) as [|s] eqn:E; [done|]. intros [= <-].
  unfold normalizeSANs in E. cbn [DNSNames IPAddresses URIs EmailAddresses normalize_dns normalize_ips normalize_uris] in E.
  destruct (normalize_emails _ _) as [|l] eqn:El; [done|]. injection E as <-. cbn.
  pose proof (emails_fresh _ _ _ El) as Hl. revert El. cbn [EmailAddresses normalize_emails].
  destruct (bad_email _); [done|]. intros [= <-]. by inversion Hl.
Qed.
Lemma one_email_fix e : normal_email e → one_email e = inr e.
Proof.
  intros He. unfold one_email. rewrite normalizeSANs_fix; [done|].
  split_and!; [constructor..|]. constructor; [done|apply not_elem_of_nil|constructor].
Qed.

Lemma dedupe_normal {A} (one : A → error + A) key (P : A → Prop) l seen out :
  (∀ x y, one x = inr y → P y) → dedupe one key l seen = inr out → Forall P out.
Proof.
  intros Hone. revert seen out. induction l as [|x l IH]; intros seen out; cbn [dedupe]; [by intros [= <-]|].
  destruct (one x) as [|y] eqn:Ex; [done|]. destruct (existsb _ seen); [apply IH|].
  destruct (dedupe _ _ l _) as [|out'] eqn:El; [done|]. intros [= <-]. constructor; [by eapply Hone|by eapply IH].
Qed.

Lemma dedupe_total {A} (one : A → error + A) key (P : A → Prop) l seen :
  (∀ x, P x → one x = inr x) → Forall P l → ∃ out, dedupe one key l seen = inr out.
Proof.
  intros Hone Hl. revert seen. induction Hl as [|x l Hx _ IH]; intros seen; cbn [dedupe]; [by eexists|].
  rewrite Hone by done. destruct (existsb _ seen); [apply IH|]. destruct (IH (key x :: seen)) as [out ->]. by eexists.
Qed.

Lemma allow_duplicates_clean s s' : normalizeSANsAllowDuplicates s = inr s' → clean_SANs s'.
Proof.
  unfold normalizeSANsAllowDuplicates.
  destruct (dedupe one_dns _ _ _) eqn:E1; [done|]. destruct (dedupe one_ip _ _ _) eqn:E2; [done|].
  destruct (dedupe one_uri _ _ _) eqn:E3; [done|]. destruct (dedupe one_email _ _ _) eqn:E4; [done|]. intros [= <-].
  constructor; cbn; eapply dedupe_normal; try done;
    [exact one_dns_normal|exact one_ip_normal|exact one_uri_normal|exact one_email_normal].
Qed.

Lemma allow_duplicates_total s : clean_SANs s → ∃ s', normalizeSANsAllowDuplicates s = inr s'.
Proof.
  intros [H1 H2 H3 H4]. unfold normalizeSANsAllowDuplicates.
  destruct (dedupe_total one_dns id _ _ [] one_dns_fix H1) as [? ->].
  destruct (dedupe_total one_ip IP_String _ _ [] one_ip_fix H2) as [? ->].
  destruct (dedupe_total one_uri uri_key _ _ [] one_uri_fix H3) as [? ->].
  destruct (dedupe_total one_email ToLower _ _ [] one_email_fix H4) as [? ->]. by eexists.
Qed.

(** Short addresses are normalised like long ones. *)
Lemma dedupe_map {A} (one : A → error + A) key (f : A → A) l : (∀ x, key (f x) = key x) →
  (∀ x y, one x = inr y → one (f x) = inr (f y)) → ∀ seen out,
  dedupe one key l seen = inr out → dedupe one key (map f l) seen = inr (map f out).
Proof.
  intros Hk Hone. induction l as [|x l IH]; intros seen out; cbn [dedupe map]; [by intros [= <-]|].
  destruct (one x) as [|y] eqn:Ex; [done|]. rewrite (Hone _ _ Ex), Hk. destruct (existsb _ seen); [apply IH|].
  destruct (dedupe _ _ l _) as [|out'] eqn:El; [done|]. intros [= <-]. by rewrite (IH _ _ El).
Qed.
Lemma one_ip_canonical x y : one_ip x = inr y → one_ip (canonical x) = inr (canonical y).
Proof.
  unfold one_ip, normalizeSANs. cbn [normalize_dns DNSNames IPAddresses normalize_ips].
  rewrite canonical_empty, To16_canonical. destruct (_ || _); [done|]. by intros [= <-].
Qed.
Lemma allow_duplicates_short s s' :
  normalizeSANsAllowDuplicates s = inr s' → normalizeSANsAllowDuplicates (short_names s) = inr (short_names s').
Proof.
  unfold normalizeSANsAllowDuplicates, short_names. cbn [DNSNames IPAddresses URIs EmailAddresses].
  destruct (dedupe one_dns _ _ _); [done|]. destruct (dedupe one_ip _ _ _) eqn:E; [done|].
  rewrite (dedupe_map _ _ canonical _ IP_String_canonical one_ip_canonical _ _ E).
  destruct (dedupe one_uri _ _ _); [done|]. destruct (dedupe one_email _ _ _); [done|]. by intros [= <-].
Qed.
Lemma json_short s : json_SANs (short_names s) = json_SANs s.
Proof.
  unfold json_SANs, short_names. cbn. do 3 f_equal. rewrite map_map. apply map_ext, IP_String_canonical.
Qed.

Lemma normal_clean s : normal_SANs s → clean_SANs s.
Proof.
  intros (G1 & G2 & G3 & G4). by constructor; [apply (fresh_keys_spec _ _ _ _ G1)|apply (fresh_keys_spec _ _ _ _ G2)
    |apply (fresh_keys_spec _ _ _ _ G3)|apply (fresh_keys_spec _ _ _ _ G4)].
Qed.
End names.

Section names_of_request.
Context `{UnicodeLaws, Crypto, URLParser} {St : Type}.

Lemma sign_names_clean (o : optionValues St) subject0 sans0 v names :
  clean_SANs sans0 → sign_names o subject0 sans0 = inr (v, names) → clean_SANs names.
Proof.
  intros Hc. unfold sign_names.
  destruct (if subjectSet o then _ else _) as [|v']; [done|].
  assert (∀ n, (if sansSet o then normalizeSANs (sans o) else inr sans0) = inr n → clean_SANs n) as Hn.
  { intros n. destruct (sansSet o); [|by intros [= <-]]. intros Hs%normalizeSANs_normal. by apply normal_clean. }
  destruct (if sansSet o then _ else _) as [|n]; [done|]. specialize (Hn n eq_refl).
  assert (∀ k, (if additionalSANsSet o then mergeSANs n (additionalSANs o) else inr n) = inr k → clean_SANs k) as Hk.
  { intros k. destruct (additionalSANsSet o); [|by intros [= <-]]. apply allow_duplicates_clean. }
  destruct (if additionalSANsSet o then _ else _) as [|k]; [done|]. intros [= _ <-]. by apply Hk.
Qed.
End names_of_request.

(** ** Ledger records *)
Section records.
Context `{CryptoLaws, UnicodeLaws}.

Definition whole_second (t : Time) : Prop := truncate_second t = t.

Lemma whole_second_sub t n : whole_second t → whole_second (t - n * Second).
Proof.
  unfold whole_second, truncate_second. intros Ht.
  replace (t - n * Second) with (t + (- n) * Second) by lia.
  rewrite Z.div_add by (unfold Second; lia). lia.
Qed.

Lemma truncate_whole t : whole_second (truncate_second t).
Proof. unfold whole_second, truncate_second. by rewrite Z.div_mul by (unfold Second; lia). Qed.

(** C22: a ledger record that a signature produces is accepted by the ledger's
    own validation only when the requested lifetime is a whole number of seconds,
    and then always if the URIs of its names are read back as they are.
    Certificates keep seconds only, while the record keeps the time as requested,
    so that with any other lifetime the certificate is created and its record then
    refused as corrupt. *)
Theorem ledger_record_valid n q serial (m : IssuerManager) p signer der cert :
  env_CreateCertificate n (leaf_template q serial m) p (lr_key q) signer = inr der →
  x509_ParseCertificate der = inr cert →
  clean_SANs (lr_sans q) → Profile_valid (lr_profile q) = true → whole_second (lr_now q) →
  lr_now q ≠ 0 → lr_notAfter q ≠ 0 → 0 ≤ serial →
  im_revision m ≠ 0 → im_slug m ≠ "" → 1 ≤ Version (im_version m) → der ≠ "" → sha256 der ≠ "" →
  (validateLedgerRecord (ledger_record q m serial der cert) = None → whole_second (lr_notAfter q)) ∧
  (Forall uri_kept (URIs (lr_sans q)) → whole_second (lr_notAfter q) →
   validateLedgerRecord (ledger_record q m serial der cert) = None).
Proof.
  intros Ecreate Eparse Hclean Hprofile Hnow Hn0 Ha0 Hserial Hrev Hslug Hver Hder Hsha.
  destruct (create_parse _ _ _ _ _ _ _ Ecreate Eparse) as [Hc _]. destruct Hc as [Hraw Hsub Hser Hnb Hna Hca Hbc _ Hku Heku _ Hsans].
  destruct (allow_duplicates_total _ Hclean) as [s' Es'].
  unfold validateLedgerRecord. cbn [AuthorityRevision l_Fingerprint Issuer IssuerVersion Serial l_CertificateDER
    l_Subject l_SANs l_Profile IssuedAt ExpiresAt ledger_record].
  assert (fingerprint cert ≠ "") as Hfp.
  { unfold fingerprint. rewrite Hraw. by destruct (sha256 der). }
  rewrite (proj2 (Z.eqb_neq _ _) Hrev), (proj2 (String.eqb_neq _ _) Hfp), (proj2 (String.eqb_neq _ _) Hslug),
    (proj2 (Z.ltb_ge _ _) Hver), (proj2 (String.eqb_neq _ _) (hex_text_ne serial)), (proj2 (String.eqb_neq _ _) Hder).
  cbn [orb]. unfold parseCertDER. rewrite Eparse, String.eqb_refl, Hser. cbn [negb leaf_template SerialNumber].
  rewrite ToLower_hex, String.eqb_refl by done. cbn [negb].
  assert (HexDecode_error (fingerprint cert) = None) as -> by apply HexDecode_HexEncode. rewrite Hprofile.
  rewrite (proj2 (Z.eqb_neq _ _) Hn0), (proj2 (Z.eqb_neq _ _) Ha0). cbn [negb orb].
  assert (NotBefore cert + clockSkew = lr_now q) as ->.
  { rewrite Hnb. cbn. unfold clockSkew. replace (5 * Minute) with (300 * Second) by done.
    rewrite (whole_second_sub _ 300) by done. lia. }
  rewrite Z.eqb_refl, orb_false_r, Hna. cbn [leaf_template NotAfter]. unfold whole_second.
  destruct (Z.eqb_spec (truncate_second (lr_notAfter q)) (lr_notAfter q)) as [Hw|Hw]; [|by split].
  cbn [negb]. split; [done|]. intros Hkept _.
  rewrite (same_name_identity _ _ Hsub). cbn [leaf_template Subject]. rewrite identity_name_round.
  rewrite (bool_decide_eq_true_2 (lr_subject q = lr_subject q)) by done. cbn [negb]. cbn [leaf_template cert_SANs] in Hsans.
  rewrite (names_kept _ _ Hkept Hsans), Es', (allow_duplicates_short _ _ Es'), json_short.
  rewrite bool_decide_eq_true_2 by done. cbn [negb]. rewrite Hku, Heku. cbn [leaf_template KeyUsage ExtKeyUsage].
  destruct (Profile_usages (lr_profile q)) as [u e]. cbn. by rewrite Z.eqb_refl, bool_decide_eq_true_2.
Qed.
End records.

(** ** Signing *)
Section signing.
Context `{Uni : Unicode, !UnicodeLaws, Cry : Crypto, Ent : !Env, !CryptoLaws, URLParser} {D St : Type}
  `{!Backend D} (stored : D → option authorityState) `{!BackendLaws D St stored}.

Abbreviation World := (world D IssuerManager).

(** An issued certificate, in the world where it was returned. *)
Definition issued (q : leaf_request) (cert : Certificate) (w' : World) : Prop :=
  let m := w_mem w' in
  ∃ serial der n signer, im_signer m = Some signer ∧
    env_CreateCertificate n (leaf_template q serial m) (im_issuerCert m) (lr_key q) signer = inr der ∧
    x509_ParseCertificate der = inr cert ∧
    (im_mode m = IssuanceLedger →
     (∃ (w0 w1 : World) e, b_lookupLedger (im_slug m) (Version (im_version m)) (hex_text serial) w0 = (inl e, w1) ∧
        AsNotFound e = true) ∧
     ∃ w2, b_appendLedger (ledger_record q m serial der cert) w2 = (None, w')).

Definition fits (q : leaf_request) (w : World) : Prop := exceeds_issuer q (w_mem w) = false.

Lemma randomSerial_mem {M} (w w' : world D M) r : randomSerial w = (r, w') → w_mem w' = w_mem w.
Proof. intros E. unfold randomSerial in E. inv_run E. injection E0 as <- <-. by injection E as <- <-. Qed.

Lemma after_conflict_fits q w r w' : fits q w → after_conflict q w = (r, w') → r = None → fits q w'.
Proof.
  intros Hf E ->. unfold after_conflict in E. inv_run E. injection E0 as <- <-.
  inv_run E. apply load_law in E0 as [[_ Em] _]. destruct r as [e|s]; [done|].
  destruct (Revision s =? _); [injection E as <-; unfold fits in *; by rewrite Em|].
  inv_run E. destruct r as [e|]; [done|]. inv_run E. injection E1 as <- <-.
  injection E as Er <-. unfold fits. by destruct (exceeds_issuer q (w_mem h0)).
Qed.

Lemma sign_attempt_run q w r w' :
  fits q w → sign_attempt q w = (r, w') →
  match r with
  | inl None => fits q w'
  | inl (Some _) => True
  | inr cert => fits q w' ∧ issued q cert w'
  end.
Proof.
  intros Hf E. unfold sign_attempt in E. inv_run E. apply randomSerial_mem in E0 as Em.
  destruct r0 as [e|serial]; [by injection E as <- <-|]. inv_run E. injection E1 as <- <-.
  inv_run E.
  assert (w_mem h0 = w_mem h ∧ (r0 = None → im_mode (w_mem h) = IssuanceLedger →
    ∃ e, b_lookupLedger (im_slug (w_mem h)) (Version (im_version (w_mem h))) (hex_text serial) h = (inl e, h0) ∧
      AsNotFound e = true)) as [Em1 Hfree].
  { destruct (String.eqb_spec (im_mode (w_mem h)) IssuanceLedger) as [El|El].
    - inv_run E1. pose proof E2 as Elk. apply lookupLedger_law in E2 as [_ Em2]. injection E1 as <- <-. split; [done|].
      intros Hn _. destruct r1 as [e|]; [|done]. destruct (AsNotFound e) eqn:Ea; [|done]. by exists e.
    - injection E1 as <- <-. done. }
  destruct r0 as [x|].
  { injection E as <- <-. destruct x; [done|]. unfold fits in *. by rewrite Em1, Em. }
  destruct (im_signer (w_mem h)) as [signer|] eqn:Es; [|by injection E as <- <-].
  inv_run E. injection E2 as <- <-. destruct (env_CreateCertificate _ _ _ _ _) as [e|der] eqn:Ecreate;
    [by injection E as <- <-|].
  destruct (x509_ParseCertificate der) as [e|cert] eqn:Ep; [by injection E as <- <-|].
  destruct (String.eqb_spec (im_mode (w_mem h)) IssuanceLedger) as [El|El]; cbn [negb] in E.
  - inv_run E. pose proof E2 as Eap. apply appendLedger_law in E2 as [_ Em3]. cbn in Em3.
    destruct r0 as [e|].
    + destruct (AsConflict e); [|by injection E as <- <-]. inv_run E. injection E as <- <-.
      destruct r0 as [e'|]; [done|]. eapply after_conflict_fits; [|exact E2|done].
      unfold fits in *. by rewrite Em3, Em1, Em.
    + injection E as <- <-. split; [unfold fits in *; by rewrite Em3, Em1, Em|].
      assert (w_mem h1 = w_mem h) as Emem by (by rewrite Em3, Em1). unfold issued. rewrite Emem.
      destruct (Hfree eq_refl El) as (e & Elk & He).
      exists serial, der, (w_tick h0), signer. split_and!; [done|done|done|]. intros _. split; [by exists h, h0, e|].
      by eexists.
  - injection E as <- <-. split; [unfold fits in *; cbn; by rewrite Em1, Em|]. unfold issued. cbn [w_mem bump_tick].
    rewrite Em1. exists serial, der, (w_tick h0), signer. split_and!; done.
Qed.

Lemma sign_attempts_run n q w r w' :
  fits q w → sign_attempts n q w = (r, w') →
  match r with inl _ => True | inr cert => fits q w' ∧ issued q cert w' end.
Proof.
  revert w. induction n as [|n IH]; intros w Hf E; cbn [sign_attempts] in E; [by injection E as <- <-|].
  inv_run E. apply sign_attempt_run in E0; [|done]. destruct r0 as [[e|]|cert].
  - by injection E as <- <-.
  - by apply (IH h).
  - by injection E as <- <-.
Qed.

(** A bundle of a leaf with two CA certificates. *)
Lemma leaf_bundle cert i r b :
  IsCA cert = false → normalizeBundle [Some cert; Some i; Some r] None = inr b →
  b_leaf b = Some cert ∧ b_certs b ≡ₚ [cert; i; r] ∧ chain_ok (b_certs b).
Proof.
  intros Hca E. destruct (normalizeBundle_inv _ _ _ E) as (l & ordered & El & Hnd & Eo & -> & _); [done|].
  assert (l = [cert; i; r]) as -> by (destruct l as [|? [|? [|? [|? ?]]]]; cbn in El; congruence).
  destruct (order_chain_spec _ _ Hnd Eo) as [Hp Hc]. destruct (roles_certs ordered None) as [-> _].
  split_and!; [|done|done]. assert (cert ∈ ordered) as Hin by (rewrite Hp; left).
  apply list_elem_of_lookup in Hin as [[|k] Hk].
  - destruct (roles_partition ordered None) as (_ & -> & _). destruct ordered as [|c l]; [done|].
    injection Hk as ->. by rewrite Hca.
  - destruct (ordered !! k) as [a|] eqn:Ea.
    + destruct (Hc _ _ _ Ea Hk) as [_ Hf]. unfold ca_flags in Hf. by rewrite Hca in Hf.
    + apply lookup_ge_None in Ea. apply lookup_lt_Some in Hk. lia.
Qed.

Lemma containsProfile_elem v p : containsProfile v p = true → p ∈ v.
Proof. intros (x & Hx & ->%String.eqb_eq)%existsb_elem_of. done. Qed.

(** What is checked before the attempts, in world [w], for the world [w1] in
    which they start. *)
Definition sign_checked (fuel : nat) (csrPEM : string) (opts : list (option (option_ St)))
    (w : World) (q : leaf_request) (w1 : World) : Prop :=
  ∃ o csr subject0 sans0 wc, let d := im_definition (w_mem wc) in
    im_closed (w_mem w) = false ∧ sign_ledger_check fuel w = (Some None, wc) ∧
    parseOptions scopeSign opts = inr o ∧ parseCSRPEM csrPEM = inr csr ∧
    strictCSRIdentity csr = inr subject0 ∧ normalizeSANsAllowDuplicates (csr_names csr) = inr sans0 ∧
    sign_names o subject0 sans0 = inr (lr_subject q, lr_sans q) ∧
    validateRequest d subject0 sans0 = None ∧ validateRequest d (lr_subject q) (lr_sans q) = None ∧
    profileSet o = true ∧ Profile_valid (profile o) = true ∧ lr_profile q = profile o ∧
    profile o ∈ def_AllowedProfiles d ∧ lr_key q = csr_PublicKey csr ∧
    subjectKeyID (csr_PublicKey csr) = inr (lr_ski q) ∧
    lr_now q = truncate_second (env_now (w_tick wc)) ∧ lr_notAfter q = lr_now q + sign_lifetime o ∧
    0 < sign_lifetime o ≤ maximumLeafValidity ∧ w1 = bump_tick wc ∧ fits q w1.

Lemma SignCSR_run fuel csrPEM opts w b w' :
  SignCSR fuel csrPEM opts w = (Some (inr b), w') →
  ∃ q w1 cert, sign_checked fuel csrPEM opts w q w1 ∧ sign_attempts 8 q w1 = (inr cert, w') ∧
    normalizeBundle [Some cert; Some (im_issuerCert (w_mem w')); Some (im_rootCert (w_mem w'))] None = inr b.
Proof.
  intros E. unfold SignCSR in E. rewrite run_ret in E. destruct (parseOptions scopeSign opts) as [|o] eqn:Eo; [done|].
  destruct (negb (profileSet o) || negb (Profile_valid (profile o))) eqn:Eprof; [done|].
  apply orb_false_iff in Eprof as [Hps%negb_false_iff Hpv%negb_false_iff].
  rewrite run_ret in E. destruct (parseCSRPEM csrPEM) as [|csr] eqn:Ecsr; [done|].
  rewrite run_ret in E. destruct (strictCSRIdentity csr) as [|subject0] eqn:Esub; [done|].
  rewrite run_ret in E. destruct (normalizeSANsAllowDuplicates _) as [|sans0] eqn:Esans; [done|].
  inv_run E. injection E0 as <- <-. destruct (im_closed (w_mem w)) eqn:Eclosed; [done|].
  inv_run E. destruct r as [[|]|]; [done| |done]. inv_run E. injection E1 as <- <-.
  rewrite run_ret in E. destruct (validateRequest _ subject0 sans0) eqn:Ev0; [done|].
  rewrite run_ret in E. destruct (sign_names o subject0 sans0) as [|[v names]] eqn:Enames; [done|].
  rewrite run_ret in E. cbn [fst snd] in E. destruct (validateRequest _ v names) eqn:Ev; [done|].
  destruct (containsProfile _ _) eqn:Econt; [|done]. cbn [negb] in E. apply containsProfile_elem in Econt.
  destruct ((sign_lifetime o <=? 0) || _) eqn:Elife; [done|]. apply orb_false_iff in Elife as [?%Z.leb_gt ?%Z.ltb_ge].
  inv_run E. injection E1 as <- <-. rewrite run_ret in E.
  destruct (Z.ltb_spec (NotAfter (im_issuerCert (w_mem h)) - clockSkew)
    (truncate_second (env_now (w_tick h)) + sign_lifetime o)) as [|Hle]; [done|].
  destruct (subjectKeyID _) as [|ski] eqn:Eski; [done|]. inv_run E. destruct r as [|cert]; [done|].
  inv_run E. injection E2 as <- <-. injection E as Eb <-. eexists _, _, cert. split_and!; [|exact E1|done].
  exists o, csr, subject0, sans0, h. cbn. split_and!; try done.
  unfold fits, exceeds_issuer. cbn. by apply Z.ltb_ge.
Qed.

(** C3: what an issuer signs is within its policy.  When [SignCSR] returns a
    bundle, the request was well formed, its own subject and names and those
    after the overrides both satisfy the issuer's policy, and the profile is
    one of the permitted ones.  The bundle is the chain of the issuer and root
    certificates under a leaf that carries the key of the request, the checked
    subject, the checked names as the library reads them back (an IPv4 address in
    its short form, a URI parsed from its text), the usages of the profile and no
    CA right; it is valid
    for at most a year and ends at least the clock skew before the issuer.  In
    ledger mode its serial number was looked up and free, and its record was
    appended to the ledger as the last step. *)
Theorem SignCSR_spec fuel csrPEM (opts : list (option (option_ St))) w b w' :
  SignCSR fuel csrPEM opts w = (Some (inr b), w') →
  ∃ q w1 cert serial der, let m := w_mem w' in
    sign_checked fuel csrPEM opts w q w1 ∧
    b_leaf b = Some cert ∧ b_certs b ≡ₚ [cert; im_issuerCert m; im_rootCert m] ∧ chain_ok (b_certs b) ∧
    created_from (leaf_template q serial m) (lr_key q) der cert ∧
    NotAfter cert ≤ lr_notAfter q ≤ NotAfter (im_issuerCert m) - clockSkew ∧
    NotAfter cert - NotBefore cert ≤ maximumLeafValidity + clockSkew ∧ issued q cert w'.
Proof.
  intros (q & w1 & cert & Hc & Ha & Hb)%SignCSR_run.
  pose proof Hc as (o & csr & s0 & n0 & wc & _ & _ & _ & _ & _ & _ & _ & _ & _ & _ & _ & _ & _ & _ & _ & Hnow & Hafter & Hlife & _ & Hf).
  destruct (sign_attempts_run _ _ _ _ _ Hf Ha) as [Hf' Hi].
  pose proof Hi as (serial & der & n & signer & _ & Ecreate & Eparse & _).
  destruct (create_parse _ _ _ _ _ _ _ Ecreate Eparse) as [Hcreated _].
  pose proof (created_ca _ _ _ _ Hcreated) as Hca. cbn in Hca.
  destruct (leaf_bundle _ _ _ _ Hca Hb) as (Hleaf & Hperm & Hchain).
  exists q, w1, cert, serial, der. split_and!; try done.
  - rewrite (created_not_after _ _ _ _ Hcreated). cbn. apply truncate_second_le.
  - unfold fits, exceeds_issuer in Hf'. by apply Z.ltb_ge.
  - rewrite (created_not_after _ _ _ _ Hcreated), (created_not_before _ _ _ _ Hcreated). cbn.
    unfold clockSkew. replace (5 * Minute) with (300 * Second) by done.
    rewrite (whole_second_sub _ 300) by (rewrite Hnow; apply truncate_whole).
    pose proof (truncate_second_le (lr_notAfter q)). lia.
Qed.
End signing.
