(* ===== verification/CertsCsr.v ===== *)
(** * Certificate signing requests

    [csr.go]: creating a request with its key, its PEM forms and files, and
    that the package's own requests pass the checks of [issuer.go]. *)
From S2P Require Import Prelude.
From S2P Require Import GoStrings.
From S2P Require Import GoPath.
From S2P Require Import Utf8.
From S2P Require Import Errors.
From S2P Require Import GoNet.
From S2P Require Import CertsTypes.
From S2P Require Import CertsNames.
From S2P Require Import CertsCrypto.
From S2P Require Import CertsOptions.
From S2P Require Import CertsState.
From S2P Require Import CertsBackend.
From S2P Require Import CertsAuthority.
From S2P Require Import CertsFiles.
From S2P Require Import CertsBundle.
From S2P Require Import CertsLoad.
From S2P Require Import CertsIssuer.
From S2P Require Import CertsAuthorityFacts.
From S2P Require Import CertsSigning.
#[local] Open Scope stdpp_scope.
#[local] Open Scope Z_scope.

Section csr.
Context `{Unicode, Crypto, !Env} {St : Type}.

(** A pointer that may be nil is an option. *)
Record CSRBundle := {
  cb_csr : CertificateRequest;
  cb_csrDER : string;
  cb_key : option Signer;
  cb_passphrase : string;
}.

Abbreviation opts_ := (list (option (option_ St))).

Definition NewCSR {W} `{!Draws W} (opts : opts_) : stm W (error + CSRBundle) :=
  let! o := mret (parseOptions scopeCSR opts) else e => mret (inl e) in
  if negb (subjectSet o) then mret (inl (invalid "WithSubject is required" None)) else
  let! v := mret (normalizeIdentity (subject o)) else e => mret (inl e) in
  let! names := mret (normalizeSANs (sans o)) else e => mret (inl e) in
  let spec := if keySpecSet o then keySpec o else ECDSAP256 in
  if negb (KeySpec_valid spec) then mret (inl (invalid "unsupported key specification" None)) else
  let! key := generateSigner spec else e => mret (inl e) in
  let! der := draw (λ n, env_CreateCertificateRequest n (identityName v) names key)
    else e => mret (inl (Errorf "certs: create CSR" (Some (Sys e)))) in
  mret (match x509_ParseCertificateRequest der with
        | inl e => inl (corrupt "generated CSR" (Some (Sys e)))
        | inr csr => inr {| cb_csr := csr; cb_csrDER := der; cb_key := Some key; cb_passphrase := keyPassphrase o |}
        end).

Definition CSRPEM (b : option CSRBundle) : string :=
  match b with
  | None => ""
  | Some r => if String.eqb (cb_csrDER r) "" then "" else pem_Encode "CERTIFICATE REQUEST" (cb_csrDER r)
  end.

Definition KeyPEM {W} `{!Draws W} (b : option CSRBundle) : stm W (error + string) :=
  match b ≫= cb_key with
  | None => mret (inl (NotFoundError "private key" None))
  | Some key => marshalKeyPEM key (from_option cb_passphrase "" b)
  end.

Definition CSRBundle_CSR (b : option CSRBundle) : option CertificateRequest := cb_csr <$> b.
Definition CSRBundle_Key (b : option CSRBundle) : option Signer := b ≫= cb_key.

Context `{!Host}.
Abbreviation io A := (proc fs_call A).

Definition SaveCSR (b : option CSRBundle) (path : string) (opts : opts_) : io (option error) :=
  atomicSave path (CSRPEM b) mode_public opts.

Definition CSRBundle_SaveKey (b : option CSRBundle) (path : string) (opts : opts_) : io (option error) :=
  let! v := KeyPEM b else e => mret (Some e) in
  atomicSave path v mode_private opts.

Definition CSRBundle_Save (b : option CSRBundle) (directory : string) (opts : opts_)
    : io (error + list (string * string)) :=
  check! validateDirectory directory else e => mret (inl e) in
  let csr := PJoin [directory; "request.pem"] in
  let key := PJoin [directory; "key.pem"] in
  check! SaveCSR b csr opts else e => mret (inl e) in
  check! CSRBundle_SaveKey b key opts else e => mret (inl e) in
  mret (inr [("csr", csr); ("key", key)]).
End csr.

(** ** What a request carries *)
Section facts.
Context `{Uni : Unicode, !UnicodeLaws, Cry : Crypto, Ent : !Env, !CryptoLaws} {St : Type}.

Lemma dedupe_fresh {A} (one : A → error + A) key (P : A → Prop) l seen :
  (∀ x, P x → one x = inr x) → fresh_keys key P l seen → dedupe one key l seen = inr l.
Proof.
  intros Hone. induction 1 as [seen|x l seen Hx Hk _ IH]; [done|]. cbn [dedupe]. rewrite Hone by done.
  by rewrite (proj2 (existsb_eqb_false _ _) Hk), IH.
Qed.

Lemma allow_duplicates_normal s : normal_SANs s → normalizeSANsAllowDuplicates s = inr s.
Proof.
  intros (G1 & G2 & G3 & G4). unfold normalizeSANsAllowDuplicates.
  rewrite (dedupe_fresh one_dns id normal_dns _ [] one_dns_fix G1), (dedupe_fresh one_ip IP_String normal_ip _ [] one_ip_fix G2),
    (dedupe_fresh one_uri uri_key normal_uri _ [] one_uri_fix G3), (dedupe_fresh one_email ToLower normal_email _ [] one_email_fix G4).
  by destruct s.
Qed.

Lemma request_checks v names pub r key :
  request_from (identityName v) names (Public key) r → pub = Public key → normalizeIdentity v = inr v →
  strictCSRIdentity r = inr v.
Proof.
  intros [Hsub (P1 & P2 & P3 & P4) _ _ _] -> Hv. unfold strictCSRIdentity.
  rewrite (same_name_identity _ _ Hsub), identity_name_round, Hv.
  destruct Hsub as (E1 & E2 & E3 & E4 & E5 & E6). rewrite P1, P2, P3. cbn [length].
  assert (∀ s, (1 <? zlen (nonempty s)) = false) as Hone.
  { intros s. unfold nonempty, zlen. by destruct (String.eqb s ""). }
  assert (zlen (n_Organization (csr_Subject r)) + zlen (n_OrganizationalUnit (csr_Subject r)) + zlen (n_Country (csr_Subject r))
    + zlen (n_Province (csr_Subject r)) + zlen (n_Locality (csr_Subject r))
    + boolInt (negb (String.eqb (n_CommonName (csr_Subject r)) "")) <? n_Names (csr_Subject r) = false) as ->.
  { apply Z.ltb_ge. unfold zlen, boolInt. destruct (String.eqb (n_CommonName (csr_Subject r)) ""); cbn in *; lia. }
  rewrite E1, E2, E3, E4, E5. cbn [identityName n_Organization n_OrganizationalUnit n_Country n_Province n_Locality].
  by rewrite !Hone.
Qed.

(** C23: the package accepts its own requests.  A request that [NewCSR] made is
    read back from its PEM form by the checks of the issuer: it carries the
    normalised subject that was asked for, a key of the requested kind, which is
    that of the bundle, and the normalised names, with IPv4 addresses in short
    form and URIs as they are parsed; when the URIs are parsed to what they were,
    the names are what the issuer goes on with. *)
Theorem NewCSR_spec (opts : list (option (option_ St))) (h h' : history) b :
  NewCSR opts h = (inr b, h') →
  ∃ o v names csr key, parseOptions scopeCSR opts = inr o ∧
    normalizeIdentity (subject o) = inr v ∧ normalizeSANs (sans o) = inr names ∧
    parseCSRPEM (CSRPEM (Some b)) = inr csr ∧ strictCSRIdentity csr = inr v ∧ names_read names (csr_names csr) ∧
    (Forall uri_kept (URIs names) → csr_names csr = short_names names ∧
       normalizeSANsAllowDuplicates (csr_names csr) = inr (csr_names csr)) ∧
    cb_key b = Some key ∧ csr_PublicKey csr = Public key ∧
    keySpecForPublic (Public key) = inr (if keySpecSet o then keySpec o else ECDSAP256).
Proof.
  intros E. unfold NewCSR in E. rewrite run_ret in E. destruct (parseOptions scopeCSR opts) as [|o] eqn:Eo; [done|].
  destruct (subjectSet o); [|done]. cbn [negb] in E. rewrite run_ret in E.
  destruct (normalizeIdentity (subject o)) as [|v] eqn:Ev; [done|]. rewrite run_ret in E.
  destruct (normalizeSANs (sans o)) as [|names] eqn:En; [done|]. set (spec := if keySpecSet o then _ else _) in *.
  destruct (KeySpec_valid spec) eqn:Espec; [|done]. cbn [negb] in E. inv_run E.
  destruct r as [|key]; [done|]. inv_run E. injection E1 as <- <-.
  destruct (env_CreateCertificateRequest _ _ _ _) as [|der] eqn:Ecreate; [done|].
  destruct (x509_ParseCertificateRequest der) as [|csr] eqn:Ep; [done|]. injection E as <- <-.
  destruct (request_parse _ _ _ _ _ _ Ecreate Ep) as [Hsig Hcsr].
  assert (der ≠ "") as Hder by (intros ->; by apply request_empty in Ep).
  assert (keySpecForPublic (Public key) = inr spec) as Hkey.
  { unfold generateSigner in E0. destruct (String.eqb_spec spec "") as [Es|Es]; [by rewrite Es in Espec|].
    rewrite Espec in E0. apply bind_run in E0 as (gk & hk & Eg0 & E0). injection Eg0 as <- <-. injection E0 as E1 _.
    destruct (env_GenerateKey _ spec) as [|k] eqn:Eg; [done|]. injection E1 as ->. by eapply generate_spec. }
  exists o, v, names, csr, key.
  split_and!; [done|done|done| | |by destruct Hcsr| |done|by destruct Hcsr|done].
  - unfold CSRPEM. cbn [cb_csrDER]. rewrite (proj2 (String.eqb_neq _ _) Hder). unfold parseCSRPEM.
    rewrite pem_round_nil by (do 3 right; left). rewrite Ep, Hsig, (request_key _ _ _ _ Hcsr), (spec_supported _ _ Hkey).
    cbn. destruct (existsb _ (csr_Extensions csr)) eqn:Ee; [|done].
    apply existsb_elem_of in Ee as (id & Hid & Eid). pose proof (request_extensions _ _ _ _ Hcsr) as Hext.
    rewrite Forall_forall in Hext. rewrite (Hext _ Hid) in Eid. by rewrite bool_decide_eq_true_2 in Eid.
  - eapply request_checks; [done|done|]. by eapply normalizeIdentity_fix, normalizeIdentity_normal.
  - intros Hkept. rewrite (names_kept _ _ Hkept (request_names _ _ _ _ Hcsr)). split; [done|].
    apply allow_duplicates_short, allow_duplicates_normal. by eapply normalizeSANs_normal.
Qed.
End facts.
