(* ===== verification/CertsIssuance.v ===== *)
(** * When signing succeeds

    A manager opened on a valid authority signs every request within its
    policy. *)
From S2P Require Import Prelude.
From S2P Require Import GoStrings.
From S2P Require Import Utf8.
From S2P Require Import Text.
From S2P Require Import Errors.
From S2P Require Import GoNet.
From S2P Require Import CertsTypes.
From S2P Require Import CertsNames.
From S2P Require Import CertsCrypto.
From S2P Require Import CertsOptions.
From S2P Require Import CertsOptionsFacts.
From S2P Require Import CertsState.
From S2P Require Import CertsBackend.
From S2P Require Import CertsAuthority.
From S2P Require Import CertsStateFacts.
From S2P Require Import CertsBundle.
From S2P Require Import CertsBundleFacts.
From S2P Require Import CertsLoad.
From S2P Require Import CertsTrust.
From S2P Require Import CertsIssuer.
From S2P Require Import CertsIssuerFacts.
From S2P Require Import CertsAuthorityFacts.
From S2P Require Import CertsSigning.
#[local] Open Scope stdpp_scope.
#[local] Open Scope Z_scope.

(** ** The chain of an issued leaf *)
Section chain.
Context `{CryptoLaws}.

(** Three certificates, each issued by the next, the last one a root. *)
Record chain3 (c i r : Certificate) : Prop := {
  c3_raw : NoDup [Raw c; Raw i; Raw r];
  c3_leaf : IsCA c = false;
  c3_leaf_constraints : BasicConstraintsValid c = true;
  c3_issuer_ca : ca_flags i = true;
  c3_root_ca : ca_flags r = true;
  c3_leaf_issuer : RawIssuer c = RawSubject i;
  c3_leaf_signed : CheckSignatureFrom c i = None;
  c3_issuer_root : RawIssuer i = RawSubject r;
  c3_issuer_signed : CheckSignatureFrom i r = None;
  c3_root_self : self_signed r = true;
  c3_subjects : RawSubject i ≠ RawSubject r;
}.

Lemma issued_by_raw child candidate : Raw candidate = Raw child → issued_by child candidate = false.
Proof. intros E. unfold issued_by. by rewrite E, String.eqb_refl. Qed.

Lemma issued_by_subject child candidate :
  RawIssuer child ≠ RawSubject candidate → issued_by child candidate = false.
Proof. intros E. unfold issued_by. by rewrite (proj2 (String.eqb_neq _ _) E), andb_false_r. Qed.

Lemma issued_by_leaf child candidate :
  BasicConstraintsValid candidate = true → IsCA candidate = false → issued_by child candidate = false.
Proof.
  intros Hb Hc. unfold issued_by, signature_ok. rewrite bool_decide_eq_false_2; [by rewrite andb_false_r|].
  intros E. apply check_ca in E; [congruence|done].
Qed.

Lemma issued_by_true child candidate :
  Raw candidate ≠ Raw child → RawIssuer child = RawSubject candidate → CheckSignatureFrom child candidate = None →
  issued_by child candidate = true.
Proof.
  intros Hr Hn Hs. unfold issued_by. rewrite (proj2 (String.eqb_neq _ _) Hr), Hn, String.eqb_refl.
  by apply signature_ok_true in Hs as ->.
Qed.

Lemma filter_one {A} (f : A → bool) a b c :
  filter (λ x, f x = true) [a; b; c] =
  (if f a then [a] else []) ++ (if f b then [b] else []) ++ (if f c then [c] else []).
Proof.
  rewrite !filter_cons, filter_nil.
  destruct (f a), (f b), (f c); cbn; reflexivity.
Qed.

Lemma chain3_parents c i r (l := [c; i; r]) : chain3 c i r →
  find_parent l c = inr (Some i) ∧ find_parent l i = inr (Some r) ∧ find_parent l r = inr None.
Proof.
  intros [Hraw Hca Hbc Hi Hr Hci Hcs Hir His Hrr Hne]. subst l.
  rewrite !NoDup_cons, !not_elem_of_cons in Hraw. destruct Hraw as ((? & ? & _) & (? & _) & _).
  unfold find_parent. rewrite !filter_one. split_and!.
  - rewrite (issued_by_raw c c), (issued_by_true c i), (issued_by_subject c r) by (done || congruence).
    cbn [app]. rewrite Hi. unfold self_signed. by rewrite Hca, andb_false_r.
  - rewrite (issued_by_leaf i c), (issued_by_raw i i), (issued_by_true i r) by (done || congruence).
    cbn [app]. rewrite Hr. unfold self_signed. by rewrite (proj2 (String.eqb_neq _ _)) by congruence.
  - by rewrite Hrr.
Qed.

Lemma chain3_order c i r : chain3 c i r → order_chain [c; i; r] = inr [c; i; r].
Proof.
  intros Hc. destruct (chain3_parents _ _ _ Hc) as (P1 & P2 & P3). pose proof (c3_raw _ _ _ Hc) as Hraw.
  rewrite !NoDup_cons, !not_elem_of_cons in Hraw. destruct Hraw as ((N1 & N2 & _) & (N3 & _) & _).
  unfold order_chain. cbn [link]. rewrite P1, P2, P3.
  set (parents := [(c, i); (i, r)]).
  assert (children_in parents c = []) as C1.
  { unfold children_in, parents. rewrite !filter_cons, filter_nil. cbn [snd].
    by rewrite !decide_False by congruence. }
  assert (children_in parents i = [c]) as C2.
  { unfold children_in, parents. rewrite !filter_cons, filter_nil. cbn [snd].
    by rewrite decide_True, decide_False by congruence. }
  assert (children_in parents r = [i]) as C3.
  { unfold children_in, parents. rewrite !filter_cons, filter_nil. cbn [snd].
    by rewrite decide_False, decide_True by congruence. }
  cbn [existsb]. rewrite C1, C2, C3. cbn [length Nat.ltb Nat.leb orb].
  rewrite !filter_cons, filter_nil, C1, C2, C3. rewrite decide_True, !decide_False by done.
  assert (parent_in parents c = Some i) as R1.
  { unfold parent_in, parents. cbn [list_find fst snd]. by rewrite decide_True. }
  assert (parent_in parents i = Some r) as R2.
  { unfold parent_in, parents. cbn [list_find fst snd]. rewrite decide_False, decide_True by congruence. done. }
  assert (parent_in parents r = None) as R3.
  { unfold parent_in, parents. cbn [list_find fst snd]. rewrite !decide_False by congruence. done. }
  cbn [climb existsb]. rewrite R1. cbn [existsb]. rewrite (proj2 (String.eqb_neq _ _)) by congruence. cbn [orb].
  rewrite R2. rewrite !(proj2 (String.eqb_neq _ _)) by congruence. cbn [orb]. by rewrite R3.
Qed.

Lemma chain3_bundle c i r :
  chain3 c i r → ∃ b, normalizeBundle [Some c; Some i; Some r] None = inr b ∧ b_leaf b = Some c.
Proof.
  intros Hc. unfold normalizeBundle.
  rewrite (proj2 (check_duplicates_spec [Some c; Some i; Some r] [] [c; i; r])).
  2:{ split_and!; [done|apply (c3_raw _ _ _ Hc)|]. intros x _. apply not_elem_of_nil. }
  rewrite (chain3_order _ _ _ Hc). eexists. split; [done|].
  unfold assign_roles. by rewrite (c3_leaf _ _ _ Hc).
Qed.
End chain.

(** ** Signing without a ledger *)
Section issuance.
Context `{Uni : Unicode, !UnicodeLaws, Cry : Crypto, Ent : !Env, !CryptoLaws, URLParser} {D St : Type}
  `{!Backend D}.

Abbreviation World := (world D IssuerManager).

(** What a manager opened on a valid state holds. *)
Record issuer_ready (m : IssuerManager) (key : Signer) : Prop := {
  ir_signer : im_signer m = Some key;
  ir_key : cert_PublicKey (im_issuerCert m) = Public key;
  ir_issuer : parsed (im_issuerCert m) ∧ ca_flags (im_issuerCert m) = true;
  ir_root : parsed (im_rootCert m) ∧ ca_flags (im_rootCert m) = true;
  ir_signed : CheckSignatureFrom (im_issuerCert m) (im_rootCert m) = None;
  ir_self : CheckSignatureFrom (im_rootCert m) (im_rootCert m) = None;
}.

Lemma parsed_der der c : parseCertDER der = inr c → parsed c.
Proof. intros E%parseCertDER_inr. unfold parsed. by rewrite (parse_raw _ _ E). Qed.

Lemma opened_issuer_ready s name slug closed m :
  state_ok (St := St) s → opened_issuer s name slug closed = inr m →
  im_closed m = closed ∧ im_mode m = spec_IssuanceMode (Spec s) ∧
  (∃ i, Issuers s !! slug = Some i ∧ im_definition m = Definition_ i ∧ def_Name (Definition_ i) = name) ∧
  ∃ key, issuer_ready m key.
Proof.
  intros Hok. unfold opened_issuer. destruct (Issuers s !! slug) as [i|] eqn:Ei; [|done].
  destruct (String.eqb_spec (def_Name (Definition_ i)) name) as [En|]; [|done]. cbn [negb].
  destruct (Versions i !! ActiveVersion i) as [v|] eqn:Ev; [|done].
  destruct (parseKeyDER (KeyDER v) "") as [|key]; [done|].
  destruct (parseCertDER (CertificateDER v)) as [|cert] eqn:Ec; [done|].
  destruct (Roots s !! RootGeneration v) as [r|] eqn:Er; [|done].
  destruct (parseCertDER (root_CertificateDER r)) as [|root] eqn:Eroot; [done|].
  destruct (publicKeysEqual _ _) eqn:Ek; [|done]. intros [= <-]. cbn.
  split_and!; [done|done|by exists i|]. exists key.
  destruct (st_roots _ Hok _ _ Er) as (_ & (rc & Hrc & Hroot & _) & _). assert (rc = root) as -> by congruence.
  destruct (st_issuers _ Hok _ _ Ei) as (_ & _ & _ & _ & Hv). destruct (Hv _ _ Ev) as (_ & (c & der & rc & Hc & Hder & Hrc' & Hvc & _) & _).
  assert (c = cert) as -> by congruence. unfold root_der in Hder. rewrite Er in Hder. injection Hder as <-.
  assert (rc = root) as -> by congruence. destruct Hvc as [Hs Hca Hbc _ Hku _ _ _]. destruct Hroot as [Rca Rbc _ Rku _ Rself _ _ _].
  constructor; cbn.
  - done.
  - symmetry. by apply publicKeysEqual_eq.
  - split; [by eapply parsed_der|]. unfold ca_flags. by rewrite Hca, Hbc, Hku.
  - split; [by eapply parsed_der|]. unfold ca_flags. by rewrite Rca, Rbc, Rku.
  - done.
  - done.
Qed.

Lemma ca_flags_capable c : ca_flags c = true → ca_capable c.
Proof.
  unfold ca_flags, no_bit. intros E. bool_simpl. split_and!; try done. by apply Z.eqb_neq.
Qed.

(** The names that link the issuer and the root certificate. *)
Record linked_names (i r : Certificate) : Prop := {
  ln_root : RawSubject r = RawIssuer r;
  ln_issuer : RawIssuer i = RawSubject r;
  ln_distinct : RawSubject i ≠ RawSubject r;
  ln_subject : RawSubject i ≠ "";
}.

Lemma parsed_neq a b : parsed a → parsed b → a ≠ b → Raw a ≠ Raw b.
Proof. unfold parsed. intros Ha Hb Hne E. apply Hne. rewrite E in Ha. congruence. Qed.

Lemma issued_chain m key q serial n der :
  issuer_ready m key → linked_names (im_issuerCert m) (im_rootCert m) →
  env_CreateCertificate n (leaf_template q serial m) (im_issuerCert m) (lr_key q) key = inr der →
  ∀ cert, x509_ParseCertificate der = inr cert → chain3 cert (im_issuerCert m) (im_rootCert m).
Proof.
  intros [Hs Hk [Hpi Hfi] [Hpr Hfr] Hsig Hself] [L1 L2 L3 L4] Ecreate cert Ep.
  destruct (create_parse _ _ _ _ _ _ _ Ecreate Ep) as [Hc Hver].
  pose proof (created_ca _ _ _ _ Hc) as Hca. pose proof (created_constraints _ _ _ _ Hc) as Hbc. cbn in Hca, Hbc.
  assert (parsed cert) as Hpc by (unfold parsed; by rewrite (created_raw _ _ _ _ Hc)).
  assert (∀ x, ca_flags x = true → IsCA x = true) as Hflags by (unfold ca_flags; intros x E; by bool_simpl).
  constructor; try done.
  - assert (cert ≠ im_issuerCert m) as N1 by (intros ->; apply Hflags in Hfi; congruence).
    assert (cert ≠ im_rootCert m) as N2 by (intros ->; apply Hflags in Hfr; congruence).
    assert (im_issuerCert m ≠ im_rootCert m) as N3 by (intros E; by rewrite E in L3).
    apply (parsed_neq _ _ Hpc Hpi) in N1. apply (parsed_neq _ _ Hpc Hpr) in N2. apply (parsed_neq _ _ Hpi Hpr) in N3.
    repeat constructor; rewrite ?elem_of_cons, ?elem_of_nil; naive_solver.
  - by rewrite (create_issuer _ _ _ _ _ _ _ Ecreate Ep).
  - apply Hver; [by apply ca_flags_capable|done].
  - unfold self_signed. rewrite L1, String.eqb_refl, (Hflags _ Hfr). by apply signature_ok_true in Hself as ->.
Qed.

Lemma parseCSRPEM_supported data csr : parseCSRPEM data = inr csr → supportedPublicKey (csr_PublicKey csr) = None.
Proof.
  unfold parseCSRPEM. destruct (pem_Decode data) as [[[type bytes] rest]|]; [|done]. destruct (_ || _); [done|].
  destruct (x509_ParseCertificateRequest bytes) as [|c]; [done|]. destruct (csr_CheckSignature c); [done|].
  destruct (supportedPublicKey (csr_PublicKey c)) eqn:E; [done|]. destruct (existsb _ _); [done|]. by intros [= <-].
Qed.

Lemma subjectKeyID_total pub : supportedPublicKey pub = None → ∃ ski, subjectKeyID pub = inr ski.
Proof. intros [der E]%marshal_public. unfold subjectKeyID. rewrite E. by eexists. Qed.

Lemma serial_nonneg b : 0 ≤ serial_of_bytes b.
Proof.
  assert (∀ s acc, 0 ≤ acc → 0 ≤ foldl (λ acc c, acc * 256 + ord c) acc (chars s)) as Hgo.
  { induction s as [|c s IH]; intros acc Hacc; [done|]. cbn. apply IH. pose proof (ord_bounds c). lia. }
  destruct b as [|c b]; [done|]. unfold serial_of_bytes, be_number. by apply Hgo.
Qed.

Lemma containsProfile_true v p : p ∈ v → containsProfile v p = true.
Proof. intros Hp. apply existsb_elem_of. exists p. split; [done|apply String.eqb_refl]. Qed.

(** The library creates, and parses, the certificate that the issuer asks for. *)
Definition leaf_created (m : IssuerManager) (q : leaf_request) : Prop := ∀ t n bytes key,
  im_signer m = Some key → env_rand t 20 = inr bytes →
  ∃ der cert, env_CreateCertificate n (leaf_template q (serial_of_bytes bytes) m) (im_issuerCert m) (lr_key q) key = inr der ∧
    x509_ParseCertificate der = inr cert.

(** Without a ledger the first attempt decides. *)
Lemma sign_attempts_none n q (w : World) key bytes :
  im_mode (w_mem w) = IssuanceNone → issuer_ready (w_mem w) key →
  linked_names (im_issuerCert (w_mem w)) (im_rootCert (w_mem w)) →
  env_rand (w_tick w) 20 = inr bytes →
  leaf_created (w_mem w) q →
  ∃ cert, sign_attempts (S n) q w = (inr cert, bump_tick (bump_tick w)) ∧ cert_PublicKey cert = lr_key q ∧
    names_read (lr_sans q) (cert_SANs cert) ∧ chain3 cert (im_issuerCert (w_mem w)) (im_rootCert (w_mem w)).
Proof.
  intros Hmode Hready Hlink Hrand Hcreated.
  destruct (Hcreated (w_tick w) (S (w_tick w)) bytes key (ir_signer _ _ Hready) Hrand) as (der & cert & Ecreate & Ep).
  pose proof (issued_chain _ _ _ _ _ _ Hready Hlink Ecreate cert Ep) as Hc.
  exists cert. destruct (create_parse _ _ _ _ _ _ _ Ecreate Ep) as [Hcr _].
  split_and!; [|apply (created_public_key _ _ _ _ Hcr)|apply (created_sans _ _ _ _ Hcr)|done].
  cbn [sign_attempts]. unfold sign_attempt, randomSerial.
  rewrite (run_bind _ _ w (inr cert) (bump_tick (bump_tick w))); [done|].
  rewrite (run_bind _ _ w (inr (serial_of_bytes bytes)) (bump_tick w)).
  2:{ rewrite (run_bind _ _ w (inr bytes) (bump_tick w)); [done|]. unfold draw, world_draws. by rewrite Hrand. }
  rewrite (run_bind _ _ (bump_tick w) (w_mem w) (bump_tick w)) by done. rewrite Hmode.
  change (String.eqb IssuanceNone IssuanceLedger) with false. cbv iota.
  rewrite run_ret, (ir_signer _ _ Hready).
  rewrite (run_bind _ _ (bump_tick w) (inr der) (bump_tick (bump_tick w))).
  2:{ unfold draw, world_draws. cbn [w_tick bump_tick]. by rewrite Ecreate. }
  by rewrite Ep.
Qed.

(** C4: an issuer without a ledger signs what its policy permits.  For a
    manager opened on a valid authority, whose issuer and root certificates are
    linked by their names, a well-formed request that satisfies the policy
    before and after the overrides, asks for a permitted profile and a lifetime
    within a year and within the issuer's, is signed with the key and the names
    of the request, as long as the random source does not fail and the library
    creates and parses the very certificate that the issuer asks for.  The names
    have IPv4 addresses in short form and URIs as they are parsed. *)
Theorem SignCSR_issues fuel csrPEM (opts : list (option (option_ St))) s (w : World) o csr subject0 sans0 v names :
  let m := w_mem w in
  state_ok (St := St) s → opened_issuer s (im_name m) (im_slug m) false = inr m →
  spec_IssuanceMode (Spec s) = IssuanceNone → linked_names (im_issuerCert m) (im_rootCert m) →
  parseOptions scopeSign opts = inr o → profileSet o = true → Profile_valid (profile o) = true →
  parseCSRPEM csrPEM = inr csr → strictCSRIdentity csr = inr subject0 →
  normalizeSANsAllowDuplicates (csr_names csr) = inr sans0 → sign_names o subject0 sans0 = inr (v, names) →
  validateRequest (im_definition m) subject0 sans0 = None → validateRequest (im_definition m) v names = None →
  profile o ∈ def_AllowedProfiles (im_definition m) → 0 < sign_lifetime o ≤ maximumLeafValidity →
  truncate_second (env_now (w_tick w)) + sign_lifetime o ≤ NotAfter (im_issuerCert m) - clockSkew →
  (∀ n, ∃ bytes, env_rand n 20 = inr bytes) →
  (∀ ski, subjectKeyID (csr_PublicKey csr) = inr ski →
    leaf_created m {| lr_subject := v; lr_sans := names; lr_profile := profile o; lr_key := csr_PublicKey csr; lr_ski := ski;
      lr_now := truncate_second (env_now (w_tick w)); lr_notAfter := truncate_second (env_now (w_tick w)) + sign_lifetime o |}) →
  ∃ b cert w', SignCSR fuel csrPEM opts w = (Some (inr b), w') ∧ b_leaf b = Some cert ∧
    cert_PublicKey cert = csr_PublicKey csr ∧ names_read names (cert_SANs cert).
Proof.
  intros m Hok Hopen Hmode Hlink Eo Hps Hpv Ecsr Esub Esans Enames Ev0 Ev Hprof Hlife Hfit Hrand Hcreate.
  destruct (opened_issuer_ready _ _ _ _ _ Hok Hopen) as (Hclosed & Hm & _ & key & Hready).
  rewrite Hmode in Hm. destruct (subjectKeyID_total _ (parseCSRPEM_supported _ _ Ecsr)) as [ski Eski].
  set (q := {| lr_subject := v; lr_sans := names; lr_profile := profile o; lr_key := csr_PublicKey csr; lr_ski := ski;
    lr_now := truncate_second (env_now (w_tick w)); lr_notAfter := truncate_second (env_now (w_tick w)) + sign_lifetime o |}).
  destruct (Hrand (w_tick (bump_tick w))) as [bytes Hbytes].
  destruct (sign_attempts_none 7 q (bump_tick w) key bytes) as (cert & Erun & Hkey & Hsans & Hchain); [done..|by apply Hcreate|].
  destruct (chain3_bundle _ _ _ Hchain) as (b & Eb & Hleaf). exists b, cert. eexists. split_and!; [|done|done|done].
  unfold SignCSR. rewrite run_ret, Eo, Hps, Hpv. cbn [negb orb]. rewrite run_ret, Ecsr, run_ret, Esub, run_ret, Esans.
  rewrite (run_bind _ _ w m w) by done. rewrite Hclosed.
  rewrite (run_bind _ _ w (Some None) w).
  2:{ unfold sign_ledger_check. rewrite (run_bind _ _ w m w) by done. by rewrite Hm. }
  rewrite (run_bind _ _ w m w) by done. rewrite run_ret, Ev0, run_ret, Enames, run_ret. cbn [fst snd]. rewrite Ev.
  rewrite (containsProfile_true _ _ Hprof). cbn [negb]. rewrite (proj2 (Z.leb_gt _ _)) by lia.
  rewrite (proj2 (Z.ltb_ge _ _)) by lia. cbn [orb].
  rewrite (run_bind _ _ w (env_now (w_tick w)) (bump_tick w)) by done.
  rewrite (proj2 (Z.ltb_ge _ _)) by done. rewrite Eski, run_ret.
  rewrite (run_bind _ _ (bump_tick w) (inr cert) (bump_tick (bump_tick (bump_tick w)))) by exact Erun.
  rewrite (run_bind _ _ _ m (bump_tick (bump_tick (bump_tick w)))) by done.
  cbn [w_mem bump_tick] in Eb. fold m in Eb. by rewrite Eb.
Qed.
End issuance.
