(* ===== verification/CertsEnsure.v ===== *)
(** * Staging a rotation

    What the loops of [prepareRoot], [prepareIssuers] and [Ensure] leave behind:
    a well-formed state whose pending operation can be discarded without a
    trace. *)
From S2P Require Import Prelude.
From S2P Require Import GoStrings.
From S2P Require Import Utf8.
From S2P Require Import Text.
From S2P Require Import Errors.
From S2P Require Import GoNet.
From S2P Require Import CertsTypes.
From S2P Require Import CertsNames.
From S2P Require Import CertsCrypto.
From S2P Require Import CertsOptions.
From S2P Require Import CertsOptionsFacts.
From S2P Require Import CertsState.
From S2P Require Import CertsBackend.
From S2P Require Import CertsAuthority.
From S2P Require Import CertsStateFacts.
From S2P Require Import CertsStaged.
From S2P Require Import CertsAuthorityFacts.
#[local] Open Scope stdpp_scope.
#[local] Open Scope Z_scope.

(** ** The first free generation *)

Lemma free_generation_ge fuel roots g : g ≤ free_generation fuel roots g.
Proof.
  revert g. induction fuel as [|fuel IH]; intros g; cbn [free_generation]; [lia|].
  case_bool_decide; [lia|]. specialize (IH (g + 1)). lia.
Qed.

Lemma free_generation_ext fuel (roots roots' : gmap Z rootRecord) g :
  (∀ k, g ≤ k → roots !! k = None ↔ roots' !! k = None) →
  free_generation fuel roots g = free_generation fuel roots' g.
Proof.
  revert g. induction fuel as [|fuel IH]; intros g Hk; cbn [free_generation]; [done|].
  assert (roots !! g = None ↔ roots' !! g = None) as Hg by (apply Hk; lia).
  repeat case_bool_decide; try tauto. apply IH. intros k ?. apply Hk. lia.
Qed.

(** One more step than there are generations is enough. *)
Lemma free_generation_free fuel roots g :
  (size roots < fuel)%nat → roots !! free_generation fuel roots g = None.
Proof.
  revert roots g. induction fuel as [|fuel IH]; intros roots g Hs; [lia|].
  cbn [free_generation]. case_bool_decide as E; [done|].
  apply not_eq_None_Some in E as [r E].
  rewrite (free_generation_ext _ roots (delete g roots)).
  - pose proof (IH (delete g roots) (g + 1)) as Hn. rewrite map_size_delete, E in Hn.
    pose proof (free_generation_ge fuel (delete g roots) (g + 1)) as Hge.
    rewrite lookup_delete_ne in Hn by (intros Eg; rewrite <- Eg in Hge; clear -Hge; lia).
    apply Hn. assert (size roots ≠ 0%nat) as Hne by (intros E0%map_size_empty_inv; by subst).
    clear -Hs Hne. lia.
  - intros k Hk. by rewrite lookup_delete_ne by lia.
Qed.

Lemma set_versions_undo i n v :
  Versions i !! n = None → set_versions (delete n (<[n := v]> (Versions i))) i = i.
Proof. intros Hn. rewrite delete_insert_id by done. by destruct i. Qed.

Section staging.
Context `{Uni : Unicode, !UnicodeLaws, Cry : Crypto, Ent : !Env, !CryptoLaws, URLParser} {D St : Type}
  `{!Backend D} (stored : D → option authorityState) `{!BackendLaws D St stored}.

Abbreviation World := (world D (AuthorityManager St)).
Abbreviation post := (step_post (quiet (St := St) stored)).
#[local] Existing Instance quiet_preorder.

(** ** The loop over the issuers *)

(** The accumulator after the issuers of [l] were staged on [s] under the root
    of generation [g], when the roots were [roots]. *)
Record staged_from (g : Z) (root : rootRecord) (roots : gmap Z rootRecord) (s : authorityState) (l : list string)
    (acc : authorityState * gmap string Z) : Prop := {
  sf_spec : Spec acc.1 = Spec s;
  sf_revision : Revision acc.1 = Revision s;
  sf_active : ActiveRoot acc.1 = ActiveRoot s;
  sf_roots : Roots acc.1 = roots;
  sf_in : ∀ slug, slug ∈ l → ∃ i v, Issuers s !! slug = Some i ∧
    Issuers acc.1 !! slug = Some (set_versions (<[ActiveVersion i + 1 := v]> (Versions i)) i) ∧
    acc.2 !! slug = Some (ActiveVersion i + 1) ∧
    fresh_version (Spec s) (def_Name (Definition_ i)) g (ActiveVersion i + 1) root v;
  sf_out : ∀ slug, slug ∉ l → Issuers acc.1 !! slug = Issuers s !! slug ∧ acc.2 !! slug = None;
}.

Lemma staged_from_start g root s : staged_from g root (Roots s) s [] (s, ∅).
Proof.
  constructor; try done.
  - intros slug Hs. by apply elem_of_nil in Hs.
Qed.

Lemma staged_from_step g root roots s l slug i v s1 staged :
  staged_from g root roots s l (s1, staged) → slug ∉ l → Issuers s1 !! slug = Some i →
  fresh_version (Spec s) (def_Name (Definition_ i)) g (ActiveVersion i + 1) root v →
  staged_from g root roots s (l ++ [slug])
    (add_issuer slug (set_versions (<[ActiveVersion i + 1 := v]> (Versions i)) i) s1,
     <[slug := ActiveVersion i + 1]> staged).
Proof.
  intros [Hsp Hrev Hact Hr Hin Hout] Hslug Ei Hv. destruct (Hout _ Hslug) as [Es _]. cbn in *.
  constructor; cbn; try done.
  - intros x [Hx| ->%list_elem_of_singleton]%elem_of_app.
    + assert (x ≠ slug) by congruence. rewrite !lookup_insert_ne by done. by apply Hin.
    + exists i, v. rewrite !lookup_insert_eq. by rewrite <- Es.
  - intros x Hx. rewrite elem_of_app, list_elem_of_singleton in Hx.
    rewrite !lookup_insert_ne by (intros ->; tauto). apply Hout. tauto.
Qed.

Lemma stage_loop_post g root key t s l w :
  KeySpec_valid (spec_KeySpec (Spec s)) = true → key_of root key → NoDup l →
  post (on_success (staged_from g root (Roots s) s l)) (for_each (stage_issuer (Spec s) g root key t) l (s, ∅)) w.
Proof.
  intros Hk Hkey Hnd. eapply (step_for_each (quiet (St := St) stored) (staged_from g root (Roots s) s)).
  - apply staged_from_start.
  - intros p slug q [s1 staged] w' -> _ Hacc. unfold stage_issuer.
    apply NoDup_app in Hnd as (_ & Hd & _).
    assert (slug ∉ p) as Hslug by (intros Hp; apply (Hd _ Hp); left).
    destruct (Issuers s1 !! slug) as [i|] eqn:Ei; [|by apply step_ret; [apply _|]].
    eapply step_bind; [apply _|by apply makeIssuer_post|]. intros [e|v] w1 _ Hv; (apply step_ret; [apply _|]); [done|].
    by apply staged_from_step.
Qed.
(** ** The staged state is well-formed *)

Lemma staged_keyed g root roots s l s1 staged slug n :
  staged_from g root roots s l (s1, staged) → 1 ≤ n →
  (default 0 (staged !! slug) =? n) = true ↔
  slug ∈ l ∧ ∃ i, Issuers s !! slug = Some i ∧ n = ActiveVersion i + 1.
Proof.
  intros Hst Hn. rewrite Z.eqb_eq. destruct (decide (slug ∈ l)) as [Hin|Hout].
  - destruct (sf_in _ _ _ _ _ _ Hst slug Hin) as (i & v & Ei & _ & Es & _). cbn in Es. rewrite Es. cbn.
    split; [intros <-; split; [done|by exists i]|]. intros (_ & i' & Ei' & ->). congruence.
  - destruct (sf_out _ _ _ _ _ _ Hst slug Hout) as [_ Es]. cbn in Es. rewrite Es. cbn.
    split; [lia|]. by intros [? _].
Qed.

Lemma staged_size g root roots s l s1 staged :
  staged_from g root roots s l (s1, staged) → (∀ slug, slug ∈ l ↔ is_Some (Issuers s !! slug)) →
  size staged = size (Issuers s1).
Proof.
  intros Hst Hl. rewrite <- !size_dom. f_equal. apply set_eq. intros slug. rewrite !elem_of_dom.
  destruct (decide (slug ∈ l)) as [Hin|Hout].
  - destruct (sf_in _ _ _ _ _ _ Hst slug Hin) as (i & v & Ei & Ei' & Es & _). cbn in *.
    rewrite Ei', Es. split; eauto.
  - destruct (sf_out _ _ _ _ _ _ Hst slug Hout) as [Ei' Es]. cbn in *. rewrite Ei', Es, <- Hl. by split; [intros []|].
Qed.

(** An issuer of the state [s] on which [g] was staged. *)
Lemma staged_issuer_ok g root roots s l s1 staged rd slug i' :
  state_ok (St := St) s → staged_ok s → Pending s = None → staged_from g root roots s l (s1, staged) →
  (∀ k der, root_der (Roots s) k = Some der → rd k = Some der) →
  rd g = Some (root_CertificateDER root) →
  Issuers s1 !! slug = Some i' →
  issuer_ok (St := St) (Spec s) rd (ActiveRoot s) (λ n, (default 0 (staged !! slug) =? n) = true) slug i' ∧
  ∀ n v, Versions i' !! n = Some v →
    1 ≤ n ∧ (n ≤ ActiveVersion i' ∨ (default 0 (staged !! slug) =? n) = true).
Proof.
  intros Hok Hsg Hp Hst Hrd Hg Ei'.
  assert (∀ n v i, Issuers s !! slug = Some i → Versions i !! n = Some v →
    1 ≤ n ≤ ActiveVersion i ∧
    version_ok (Spec s) rd (def_Name (Definition_ i)) (n = ActiveVersion i) n v) as Hold.
  { intros n v i Ei En. destruct (sg_versions _ Hsg _ _ _ _ Ei En) as [Hn1 Hn2].
    assert (pending_version s slug n = false) as Hpv by (unfold pending_version; by rewrite Hp).
    split; [rewrite Hpv in Hn2; split; [done|by destruct Hn2]|].
    destruct (st_issuers _ Hok _ _ Ei) as (_ & _ & _ & _ & Hvs).
    eapply version_ok_iff; [|  |by apply Hvs]; [by eauto|]. rewrite Hpv. split; [|tauto]. by intros [|]. }
  destruct (decide (slug ∈ l)) as [Hin|Hout].
  - destruct (sf_in _ _ _ _ _ _ Hst slug Hin) as (i & v & Ei & Ei'' & Es & Hv). cbn in Ei'', Es.
    rewrite Ei' in Ei''. injection Ei'' as ->. rewrite Es. cbn [default].
    destruct (st_issuers _ Hok _ _ Ei) as (Hs & Ha & Hd & (va & Eva & Hra & Hka) & _).
    assert (∀ n v', <[ActiveVersion i + 1:=v]> (Versions i) !! n = Some v' →
      n = ActiveVersion i + 1 ∧ v' = v ∨ n ≠ ActiveVersion i + 1 ∧ Versions i !! n = Some v') as Hcase.
    { intros n v'. rewrite lookup_insert_Some. intuition congruence. }
    split; [split_and!; try done|].
    + exists va. cbn. by rewrite lookup_insert_ne by lia.
    + intros n v' [[-> ->]|[Hne En]]%Hcase; cbn.
      * destruct Hv as (Hvv & Hvr & Hvk & _ & c & rc & ? & ? & ? & ?).
        split; [done|]. split; [|rewrite Z.eqb_refl; tauto].
        exists c, (root_CertificateDER root), rc. by rewrite Hvr.
      * destruct (Hold _ _ _ Ei En) as [_ Hvo]. eapply version_ok_iff; [by intros| |exact Hvo].
        rewrite Z.eqb_eq. intuition congruence.
    + intros n v' [[-> ->]|[Hne En]]%Hcase; cbn; [rewrite Z.eqb_refl; lia|].
      destruct (Hold _ _ _ Ei En) as [? _]. lia.
  - destruct (sf_out _ _ _ _ _ _ Hst slug Hout) as [Ei Es]. cbn in Ei, Es.
    rewrite Ei in Ei'. rewrite Es. cbn [default].
    destruct (st_issuers _ Hok _ _ Ei') as (Hs & Ha & Hd & Hact & _).
    split; [split_and!; try done|].
    + intros n v En. destruct (Hold _ _ _ Ei' En) as [Hn Hvo]. eapply version_ok_iff; [by intros| |exact Hvo].
      rewrite Z.eqb_eq. intuition lia.
    + intros n v En. destruct (Hold _ _ _ Ei' En) as [Hn _]. lia.
Qed.
Lemma staged_from_base g root r s l acc :
  staged_from g root (Roots (add_root g r s)) (add_root g r s) l acc →
  staged_from g root (<[g := r]> (Roots s)) s l acc.
Proof. intros []. by constructor. Qed.

Lemma root_der_insert g r roots k der :
  roots !! g = None → root_der roots k = Some der → root_der (<[g := r]> roots) k = Some der.
Proof.
  unfold root_der. intros Hg Hk. rewrite lookup_insert_ne; [done|]. intros ->. by rewrite Hg in Hk.
Qed.

(** Every version of a well-formed state lies under one of its roots. *)
Lemma old_root s slug i n v :
  state_ok (St := St) s → Issuers s !! slug = Some i → Versions i !! n = Some v →
  is_Some (Roots s !! RootGeneration v).
Proof.
  intros Hok Ei En. destruct (st_issuers _ Hok _ _ Ei) as (_ & _ & _ & _ & Hvs).
  destruct (Hvs _ _ En) as (_ & (c & der & rc & _ & Hd & _) & _). unfold root_der in Hd.
  destruct (Roots s !! RootGeneration v); [by eexists|done].
Qed.

(** A prepared root rotation. *)
Lemma staged_root_inv s g r l s1 staged t :
  authority_inv (St := St) s → Pending s = None → Roots s !! g = None → ActiveRoot s < g →
  root_ok (Spec s) True g r → (∀ slug, slug ∈ l ↔ is_Some (Issuers s !! slug)) →
  staged_from g r (<[g := r]> (Roots s)) s l (s1, staged) →
  authority_inv (St := St) (set_pending (Some {| Kind_ := "root"; ExpectedRevision := Revision s;
    p_RootGeneration := g; p_Issuers := staged; CreatedAt := t |}) s1).
Proof.
  intros [Hok Hsg] Hp Hfree Hlt Hr Hl Hst.
  pose proof Hst as [Esp Erev Eact Eroots _ _]. cbn [fst] in *.
  pose proof Hok as [Hspec [Ha1 Ha2] Hroots _ _].
  assert (∀ slug i, Issuers s1 !! slug = Some i → _) as Hi by
    (intros slug i; eapply (staged_issuer_ok g r _ s l s1 staged (root_der (<[g := r]> (Roots s)))); try done;
     [intros k der; by apply root_der_insert|unfold root_der; by rewrite lookup_insert_eq]).
  split.
  - constructor; cbn; rewrite ?Esp, ?Eact, ?Eroots.
    + done.
    + split; [done|]. by rewrite lookup_insert_ne by lia.
    + intros k r' Hk. unfold pending_root. cbn. apply lookup_insert_Some in Hk as [[<- <-]|[Hne Hk]].
      * eapply root_ok_iff; [|exact Hr]. rewrite Z.eqb_refl. tauto.
      * eapply root_ok_iff; [|by apply Hroots]. unfold pending_root. rewrite Hp.
        destruct (Z.eqb_spec k g) as [|_]; [congruence|]. intuition congruence.
    + intros slug i Ei. by apply Hi.
    + unfold pending_ok. cbn. rewrite ?Eroots, ?Erev, ?lookup_insert_eq. split_and!; [lia|by left| |].
      * intros _. split; [done|]. by eapply staged_size.
      * intros slug n Hn. destruct (decide (slug ∈ l)) as [Hin|Hout].
        -- destruct (sf_in _ _ _ _ _ _ Hst slug Hin) as (i & v & _ & Ei' & Es & _). cbn in *.
           rewrite Es in Hn. injection Hn as <-. do 2 eexists. split; [done|]. cbn. by rewrite lookup_insert_eq.
        -- destruct (sf_out _ _ _ _ _ _ Hst slug Hout) as [_ Es]. cbn in *. congruence.
  - constructor.
    + intros slug i n v Ei Env. destruct (Hi slug i Ei) as [_ Hx]. exact (Hx n v Env).
    + intros p [= <-]. constructor; cbn; try done.
      * rewrite Eact. lia.
      * intros _ slug [i Ei]. destruct (decide (slug ∈ l)) as [Hin|Hout].
        -- destruct (sf_in _ _ _ _ _ _ Hst slug Hin) as (? & ? & _ & _ & Es & _). by eexists.
        -- destruct (sf_out _ _ _ _ _ _ Hst slug Hout) as [Ei' _]. cbn in Ei'. rewrite Ei' in Ei.
           by destruct Hout; apply Hl; eexists.
      * intros slug n i v Es Ei Env. destruct (decide (slug ∈ l)) as [Hin|Hout].
        -- destruct (sf_in _ _ _ _ _ _ Hst slug Hin) as (i0 & v0 & _ & Ei' & Es' & Hv). cbn in *.
           rewrite Es' in Es. injection Es as <-. rewrite Ei' in Ei. injection Ei as <-. cbn in *.
           rewrite lookup_insert_eq in Env. injection Env as <-. split; [lia|]. by destruct Hv as (_ & ? & _).
        -- destruct (sf_out _ _ _ _ _ _ Hst slug Hout) as [_ Es']. cbn in *. congruence.
      * intros _ slug i n v Ei Env Hg. destruct (decide (slug ∈ l)) as [Hin|Hout].
        -- destruct (sf_in _ _ _ _ _ _ Hst slug Hin) as (i0 & v0 & Ei0 & Ei' & Es' & Hv). cbn in *.
           rewrite Ei' in Ei. injection Ei as <-. cbn in *.
           apply lookup_insert_Some in Env as [[<- <-]|[Hne Env]]; [done|].
           destruct (old_root s slug i0 n v Hok Ei0 Env). congruence.
        -- destruct (sf_out _ _ _ _ _ _ Hst slug Hout) as [Ei' _]. cbn in *. rewrite Ei' in Ei.
           destruct (old_root s slug i n v Hok Ei Env). congruence.
Qed.
(** A prepared rotation of some issuers under the active root. *)
Lemma staged_issuers_inv s root l s1 staged t :
  authority_inv (St := St) s → Pending s = None → Roots s !! ActiveRoot s = Some root →
  staged_from (ActiveRoot s) root (Roots s) s l (s1, staged) →
  authority_inv (St := St) (set_pending (Some {| Kind_ := "issuer"; ExpectedRevision := Revision s;
    p_RootGeneration := 0; p_Issuers := staged; CreatedAt := t |}) s1).
Proof.
  intros [Hok Hsg] Hp Hroot Hst.
  pose proof Hst as [Esp Erev Eact Eroots _ _]. cbn [fst] in *.
  pose proof Hok as [Hspec Ha Hroots _ _].
  assert (∀ slug i, Issuers s1 !! slug = Some i → _) as Hi by
    (intros slug i; eapply (staged_issuer_ok (ActiveRoot s) root _ s l s1 staged (root_der (Roots s))); try done;
     unfold root_der; by rewrite Hroot).
  split.
  - constructor; cbn; rewrite ?Esp, ?Eact, ?Eroots.
    + done.
    + done.
    + intros k r' Hk. eapply root_ok_iff; [|by apply Hroots]. unfold pending_root. rewrite Hp. cbn.
      intuition congruence.
    + intros slug i Ei. by apply Hi.
    + unfold pending_ok. cbn. rewrite ?Erev. split_and!; [lia|by right|done|].
      intros slug n Hn. destruct (decide (slug ∈ l)) as [Hin|Hout].
      * destruct (sf_in _ _ _ _ _ _ Hst slug Hin) as (i & v & _ & Ei' & Es & _). cbn in *.
        rewrite Es in Hn. injection Hn as <-. do 2 eexists. split; [done|]. cbn. by rewrite lookup_insert_eq.
      * destruct (sf_out _ _ _ _ _ _ Hst slug Hout) as [_ Es]. cbn in *. congruence.
  - constructor.
    + intros slug i n v Ei Env. destruct (Hi slug i Ei) as [_ Hx]. exact (Hx n v Env).
    + intros p [= <-]. constructor; cbn; try done.
      intros slug n i v Es Ei Env. destruct (decide (slug ∈ l)) as [Hin|Hout].
      * destruct (sf_in _ _ _ _ _ _ Hst slug Hin) as (i0 & v0 & _ & Ei' & Es' & Hv). cbn in *.
        rewrite Es' in Es. injection Es as <-. rewrite Ei' in Ei. injection Ei as <-. cbn in *.
        rewrite lookup_insert_eq in Env. injection Env as <-. split; [lia|].
        unfold staged_root. cbn. rewrite Eact. by destruct Hv as (_ & ? & _).
      * destruct (sf_out _ _ _ _ _ _ Hst slug Hout) as [_ Es']. cbn in *. congruence.
Qed.

(** Discarding gives back the state that was staged on. *)
Lemma staged_discard s g root roots l s1 staged p :
  staged_ok s → Pending s = None → staged_from g root roots s l (s1, staged) →
  p_Issuers p = staged → (if 0 <? p_RootGeneration p then delete (p_RootGeneration p) roots else roots) = Roots s →
  discarded p (set_pending (Some p) s1) = s.
Proof.
  intros Hsg Hp Hst Ep Er. pose proof Hst as [Esp Erev Eact Eroots _ _]. cbn [fst] in *.
  assert (discard_issuers staged (Issuers s1) = Issuers s) as Ei.
  { apply map_eq. intros slug. rewrite lookup_discard_issuers.
    destruct (decide (slug ∈ l)) as [Hin|Hout].
    - destruct (sf_in _ _ _ _ _ _ Hst slug Hin) as (i & v & Ei & Ei' & Es & _). cbn in *.
      rewrite Ei', Ei, Es. cbn. f_equal.
      assert (Versions i !! (ActiveVersion i + 1) = None) as Hn.
      { apply eq_None_not_Some. intros [v' Ev]. destruct (sg_versions _ Hsg _ _ _ _ Ei Ev) as [_ [|Hpv]]; [lia|].
        unfold pending_version in Hpv. by rewrite Hp in Hpv. }
      exact (set_versions_undo i (ActiveVersion i + 1) v Hn).
    - destruct (sf_out _ _ _ _ _ _ Hst slug Hout) as [Ei' Es]. cbn in *. rewrite Ei', Es.
      by destruct (Issuers s !! slug). }
  unfold discarded, set_pending. cbn. rewrite Ep, Ei, Eroots, Er, Esp, Erev, Eact, <- Hp. by destruct s.
Qed.
End staging.
