(* ===== verification/CertsOperations.v ===== *)
(** * The mutations of the authority manager

    [Ensure], [PromotePending], [DiscardPending] and [PruneRoot] as updates of
    the stored authority: each keeps it well-formed, and what each of them may
    change. *)
From S2P Require Import Prelude.
From S2P Require Import GoStrings.
From S2P Require Import Utf8.
From S2P Require Import Text.
From S2P Require Import Errors.
From S2P Require Import GoNet.
From S2P Require Import CertsTypes.
From S2P Require Import CertsNames.
From S2P Require Import CertsCrypto.
From S2P Require Import CertsOptions.
From S2P Require Import CertsOptionsFacts.
From S2P Require Import CertsState.
From S2P Require Import CertsBackend.
From S2P Require Import CertsAuthority.
From S2P Require Import CertsStateFacts.
From S2P Require Import CertsStaged.
From S2P Require Import CertsAuthorityFacts.
From S2P Require Import CertsEnsure.
#[local] Open Scope stdpp_scope.
#[local] Open Scope Z_scope.

Section operations.
Context `{Uni : Unicode, !UnicodeLaws, Cry : Crypto, Ent : !Env, !CryptoLaws, URLParser} {D St : Type}
  `{!Backend D} (stored : D → option authorityState) `{!BackendLaws D St stored}.

Abbreviation World := (world D (AuthorityManager St)).
Abbreviation post := (step_post (quiet (St := St) stored)).
#[local] Existing Instance quiet_preorder.

(** ** The declared configuration *)

(** What [NewAuthorityManager] has checked of its options. *)
Record config_ok (o : optionValues St) : Prop := {
  co_issuers : Forall normal_definition (issuers o);
  co_slugs : NoDup (def_Slug <$> issuers o);
  co_key : rootKeySpecSet o = true → KeySpec_valid (rootKeySpec o) = true;
  co_mode : issuanceModeSet o = true → IssuanceMode_valid (issuanceMode o) = true;
  co_name : authorityName o = "" ∨ display_name (authorityName o);
  co_identity : normal_identity (identity o);
}.

Lemma normal_definition_ok d : normal_definition d → definition_ok (St := St) d.
Proof.
  intros Hd. exists d. split; [by apply validateDefinition_fix|]. by apply bool_decide_eq_true.
Qed.

Lemma fix_issuers_ok l seen out :
  fix_issuers (St := St) l seen = inr out →
  Forall normal_definition out ∧ NoDup (def_Slug <$> out) ∧
  ∀ d, d ∈ out → ∀ p, p ∈ seen → p.1 ≠ def_Slug d.
Proof.
  revert seen out. induction l as [|d l IH]; intros seen out; cbn [fix_issuers].
  { intros [= <-]. split_and!; [constructor|constructor|]. intros d Hd. by apply elem_of_nil in Hd. }
  destruct (normalizeDisplayName _) as [|n] eqn:Ename; [done|].
  destruct (validateDefinition d n) as [|fixed] eqn:Efix; [done|].
  destruct (list_find _ seen) as [[? []]|] eqn:Efind; [done|].
  destruct (fix_issuers l _) as [|rest] eqn:Erest; [done|]. intros [= <-].
  destruct (IH _ _ Erest) as (Hn & Hnd & Hseen).
  apply validateDefinition_normal in Efix as [Hd _]; [|by eapply normalizeDisplayName_display].
  split_and!.
  - by constructor.
  - cbn. constructor; [|done]. intros (d' & Es & Hd')%list_elem_of_fmap.
    by apply (Hseen d' Hd' (def_Slug fixed, def_Name fixed)); [left|].
  - intros d' [->|Hd']%elem_of_cons p Hp.
    + apply list_find_None in Efind. rewrite Forall_forall in Efind. by apply Efind.
    + apply (Hseen d' Hd'). by right.
Qed.

(** The options of a new manager pass the checks; an unset name or identity is
    the zero value. *)
Lemma manager_config_ok o o' :
  manager_config o = inr o' → (authorityNameSet o = false → authorityName o = "") →
  (identitySet o = false → identity o = zero_Identity) → config_ok o'.
Proof.
  destruct o. unfold manager_config. cbn. intros Hm Hname Hid. destruct b_principal as [ow gr].
  destruct (ownerSet && _); [done|]. destruct (groupSet && _); [done|].
  destruct (rootKeySpecSet && _) eqn:E1; [done|]. destruct (issuanceModeSet && _) eqn:E2; [done|].
  destruct (if identitySet then _ else _) as [|v] eqn:E3; [done|].
  destruct (if authorityNameSet then _ else _) as [|name] eqn:E4; [done|].
  assert (name = "" ∨ display_name name) as Hn.
  { destruct authorityNameSet; [right; by eapply normalizeDisplayName_display|].
    injection E4 as <-. left. by apply Hname. }
  assert (normal_identity v) as Hv.
  { destruct identitySet; [by eapply normalizeIdentity_normal|].
    injection E3 as <-. rewrite Hid by done. by eapply (normalizeIdentity_normal zero_Identity). }
  assert (rootKeySpecSet = true → KeySpec_valid rootKeySpec = true) as Hk
    by (intros ->; by destruct (KeySpec_valid _)).
  assert (issuanceModeSet = true → IssuanceMode_valid issuanceMode = true) as Hmode
    by (intros ->; by destruct (IssuanceMode_valid _)).
  clear E1 E2 E3 E4.
  destruct (negb authorityNameSet && _ && _).
  - destruct (normalizeDisplayName _) as [|n] eqn:En1; [done|]. cbn in Hm.
    destruct (fix_issuers _ _) as [|l] eqn:El; [done|]. apply fix_issuers_ok in El as (? & ? & _).
    destruct (rootValiditySet && _); [done|]. injection Hm as <-.
    constructor; cbn; try done. right. by eapply normalizeDisplayName_display.
  - cbn in Hm. destruct (fix_issuers _ _) as [|l] eqn:El; [done|]. apply fix_issuers_ok in El as (? & ? & _).
    destruct (rootValiditySet && _); [done|]. injection Hm as <-. by constructor.
Qed.

(** ** The active root's key *)

Lemma root_ok_capable sp P g r : root_ok sp P g r → ∃ c,
  parseCertDER (root_CertificateDER r) = inr c ∧ ca_capable c.
Proof.
  intros (_ & (c & Ec & Hc & _) & _). exists c. split; [done|].
  destruct Hc as [? ? _ Hs _ _ _ _ _]. split_and!; [done|done|]. unfold no_bit in Hs. by apply Z.eqb_neq.
Qed.

Lemma activeRootSigner_post s w :
  state_ok (St := St) s →
  post (on_success (λ key, ∃ r, Roots s !! ActiveRoot s = Some r ∧ key_of r key)) (activeRootSigner s) w.
Proof.
  intros Hok. unfold activeRootSigner.
  eapply step_bind; [apply _|by apply (post_get _ (λ _, True))|]. intros m w1 _ _.
  eapply (post_let _ (λ _, True)).
  - destruct (String.eqb _ ""); [|by post_ret]. unfold stored_secret.
    eapply step_bind; [apply _|apply (post_loadUnlocks stored w1)|]. intros r w2 _ _. post_ret. repeat case_match; done.
  - by post_ret.
  - intros secret w2 _ _. destruct (String.eqb secret ""); [by post_ret|].
    destruct (Roots s !! ActiveRoot s) as [r|] eqn:Er; [|by post_ret].
    destruct (parseKeyDER _ secret) as [|signer]; [by post_ret|].
    destruct (parseCertDER _) as [|cert] eqn:Ec; [by post_ret|].
    destruct (publicKeysEqual _ _) eqn:Ek; [|by post_ret]. apply step_ret; [apply _|]. cbn.
    exists r. split; [done|]. destruct (root_ok_capable _ _ _ _ (st_roots _ Hok _ _ Er)) as (c & Ec' & Hc).
    exists c. split; [done|]. split; [|done]. apply publicKeysEqual_eq in Ek. rewrite Ek. congruence.
Qed.
(** ** Adding an issuer *)

Lemma add_issuer_inv s d v root :
  authority_inv (St := St) s → Pending s = None → normal_definition d →
  Roots s !! ActiveRoot s = Some root →
  fresh_version (Spec s) (def_Name d) (ActiveRoot s) 1 root v →
  authority_inv (St := St) (add_issuer (def_Slug d) (new_issuer d v) s).
Proof.
  intros [[Hspec Ha Hr Hi Hp] [Hv Hm]] Hnone Hd Hroot (Hvv & Hvr & Hvk & Hvm & c & rc & ? & ? & ? & ?).
  split.
  - constructor; try done; [|by unfold pending_ok; cbn; rewrite Hnone].
    intros slug i Ei. cbn in Ei. apply lookup_insert_Some in Ei as [[<- <-]|[_ Ei]]; [|by apply Hi].
    split_and!; cbn; [done|lia|by apply normal_definition_ok| |].
    + exists v. by rewrite lookup_singleton_eq.
    + intros n v' Ev. apply lookup_singleton_Some in Ev as [<- <-]. split; [done|].
      split; [|split; [intros _; by left|done]]. exists c, (root_CertificateDER root), rc.
      rewrite Hvr. split_and!; try done. unfold root_der. cbn. by rewrite Hroot.
  - constructor; [|by intros p Ep; cbn in Ep; rewrite Hnone in Ep].
    intros slug i n v' Ei Ev. cbn in Ei. apply lookup_insert_Some in Ei as [[<- <-]|[_ Ei]]; [|by eapply Hv].
    cbn in Ev. apply lookup_singleton_Some in Ev as [<- <-]. cbn. split; [lia|by left].
Qed.

(** [s'] is [s] with more issuers. *)
Record extends (s s' : authorityState) : Prop := {
  ex_spec : Spec s' = Spec s;
  ex_revision : Revision s' = Revision s;
  ex_active : ActiveRoot s' = ActiveRoot s;
  ex_roots : Roots s' = Roots s;
  ex_pending : Pending s' = Pending s;
  ex_issuers : Issuers s ⊆ Issuers s';
}.

Lemma extends_refl s : extends s s.
Proof. by constructor. Qed.

Lemma extends_add s s' d v :
  extends s s' → Issuers s' !! def_Slug d = None → extends s (add_issuer (def_Slug d) (new_issuer d v) s').
Proof.
  intros [] Hn. constructor; cbn; try done. etransitivity; [done|]. by apply insert_subseteq.
Qed.

(** Every issuer of [s'] that [s] has not is one of the names. *)
Definition only_new (s s' : authorityState) (created : list string) : Prop :=
  ∀ slug i, Issuers s' !! slug = Some i → Issuers s !! slug = Some i ∨ def_Name (Definition_ i) ∈ created.

(** The loop of [Ensure]: the issuers of [ds] are there, those of [created] are
    new. *)
Definition ensured (s : authorityState) (ds : list IssuerDefinition) (acc : authorityState * list string) : Prop :=
  authority_inv (St := St) acc.1 ∧ extends s acc.1 ∧ only_new s acc.1 acc.2 ∧ (acc.2 = [] → acc.1 = s) ∧
  ∀ d, d ∈ ds → ∃ i, Issuers acc.1 !! def_Slug d = Some i ∧ definitionsEqual (Definition_ i) d = true.

Lemma definitionsEqual_refl d : definitionsEqual d d = true.
Proof. by apply bool_decide_eq_true. Qed.

Lemma ensure_issuer_post s ds d acc w :
  Pending s = None → normal_definition d → ensured s ds acc →
  post (on_success (ensured s (ds ++ [d]))) (ensure_issuer d acc) w.
Proof.
  intros Hnone Hd. destruct acc as [s1 created]. intros (Hinv & Hex & Hnew & Hsame & Hds). cbn in *. unfold ensure_issuer.
  destruct (Issuers s1 !! def_Slug d) as [i|] eqn:Ei.
  - destruct (definitionsEqual _ _) eqn:Ed; (apply step_ret; [apply _|]); [|done]. cbn.
    split_and!; try done. intros d' [Hd'| ->%list_elem_of_singleton]%elem_of_app; [by apply Hds|]. by exists i.
  - destruct (existsb _ _); [by post_ret|].
    eapply post_let; [apply activeRootSigner_post; apply Hinv|by post_ret|].
    intros key w1 _ (root & Er & Hkey). rewrite Er.
    eapply step_bind; [apply _|by apply (post_draw stored (λ _, True))|]. intros t w2 _ _.
    assert (Pending s1 = None) as Hnone1 by (by rewrite (ex_pending _ _ Hex)).
    eapply step_bind; [apply _|apply makeIssuer_post; [apply Hinv|done]|].
    intros [e|v] w3 _ Hv; (apply step_ret; [apply _|]); [done|]. cbn. split_and!.
    + by eapply add_issuer_inv.
    + by apply extends_add.
    + intros slug i. cbn. rewrite lookup_insert_Some. intros [[_ <-]|[_ Hi]]; [right; apply elem_of_app; by right; left|].
      destruct (Hnew _ _ Hi) as [?|?]; [by left|right; apply elem_of_app; by left].
    + intros E. by apply app_nil in E as [_ ?].
    + intros d' Hd'. cbn. destruct (decide (def_Slug d' = def_Slug d)) as [Heq|Hne].
      * rewrite Heq, lookup_insert_eq. eexists. split; [done|]. cbn.
        apply elem_of_app in Hd' as [Hd'| ->%list_elem_of_singleton]; [|apply definitionsEqual_refl].
        destruct (Hds d' Hd') as (? & E & _). rewrite Heq in E. congruence.
      * rewrite lookup_insert_ne by done. apply elem_of_app in Hd' as [Hd'| ->%list_elem_of_singleton]; [|done].
        by apply Hds.
Qed.

Lemma ensure_loop_post s ds w :
  authority_inv (St := St) s → Pending s = None → Forall normal_definition ds →
  post (on_success (ensured s ds)) (for_each ensure_issuer ds (s, [])) w.
Proof.
  intros Hinv Hnone Hds. eapply (step_for_each (quiet (St := St) stored) (ensured s)).
  - split_and!; try done; [by intros slug i Hi; left|]. intros d Hd. by apply elem_of_nil in Hd.
  - intros p d q acc w' -> _ Hacc. apply Forall_app in Hds as [_ Hds]. inversion Hds; subst.
    by apply ensure_issuer_post.
Qed.

(** No stored identity has a common name: the subject of a root certificate
    keeps the authority's own. *)
Lemma no_common_name s : state_ok (St := St) s → CommonName (spec_Identity (Spec s)) = "".
Proof.
  intros Hok. destruct (st_active _ Hok) as [_ [r Er]].
  destruct (st_roots _ Hok _ _ Er) as (_ & (c & _ & Hc & _) & _). by rewrite <- (rc_identity _ _ _ Hc).
Qed.

(** ** Preparing a rotation *)

(** [s'] is [s] with a staged operation that can be discarded without a trace. *)
Definition prepared (kind : string) (s s' : authorityState) : Prop :=
  authority_inv (St := St) s' ∧
  ∃ p, Pending s' = Some p ∧ Kind_ p = kind ∧ ExpectedRevision p = Revision s ∧ discarded p s' = s.

Lemma prepareRoot_post s t w :
  authority_inv (St := St) s → Pending s = None →
  post (on_success (prepared "root" s)) (prepareRoot s t) w.
Proof.
  intros Hinv Hnone. pose proof Hinv as [Hok Hsg]. unfold prepareRoot.
  set (g := free_generation _ _ _).
  assert (Roots s !! g = None) as Hfree by (apply free_generation_free; lia).
  assert (ActiveRoot s < g) as Hlt by (pose proof (free_generation_ge (S (size (Roots s))) (Roots s) (ActiveRoot s + 1)); lia).
  clearbody g.
  eapply post_let; [apply makeRoot_post; apply Hok|by post_ret|].
  intros [[r key] secret] w1 _ (Hr & Hkey & _). specialize (Hr (no_common_name _ Hok)).
  eapply step_bind; [apply _|apply post_remember|]. intros _ w2 _ _.
  eapply step_bind; [apply _|apply (stage_loop_post stored g r key t (add_root g r s)); [apply Hok|done|apply NoDup_fst_map_to_list]|].
  intros [e|[s1 staged]] w3 _ Hst; (apply step_ret; [apply _|]); [done|].
  apply staged_from_base in Hst. split.
  - eapply staged_root_inv; try done. intros slug. rewrite list_elem_of_fmap. split.
    + intros ([? i] & -> & Hi%elem_of_map_to_list). by exists i.
    + intros [i Hi]. exists (slug, i). split; [done|]. by apply elem_of_map_to_list.
  - eexists. split_and!; [done..|]. eapply staged_discard; try done. cbn.
    destruct (Z.ltb_spec 0 g); [by apply delete_insert_id|]. pose proof (st_active _ Hok). lia.
Qed.

Lemma prepareIssuers_post s due t w :
  authority_inv (St := St) s → Pending s = None → NoDup due →
  post (on_success (prepared "issuer" s)) (prepareIssuers s due t) w.
Proof.
  intros Hinv Hnone Hdue. pose proof Hinv as [Hok Hsg]. unfold prepareIssuers.
  eapply post_let; [by apply activeRootSigner_post|by post_ret|]. intros key w1 _ (root & Er & Hkey). rewrite Er.
  eapply step_bind; [apply _|by apply (stage_loop_post stored (ActiveRoot s) root key t s); [apply Hok|..]|].
  intros [e|[s1 staged]] w2 _ Hst; (apply step_ret; [apply _|]); [done|]. split.
  - by eapply staged_issuers_inv.
  - eexists. split_and!; [done..|]. by eapply staged_discard.
Qed.
(** ** Provisioning *)

Lemma HexEncode_ne b : b ≠ "" → HexEncode b ≠ "".
Proof. by destruct b. Qed.

Lemma id_of_bytes_ne b : b ≠ "" → id_of_bytes b ≠ "".
Proof.
  intros Hb. apply HexEncode_ne. unfold set_byte. intros E. apply Hb.
  apply (f_equal (λ s, length (chars s))) in E. cbn beta in E.
  rewrite !chars_unchars, !length_alter in E.
  by destruct b.
Qed.

Lemma randomID_post w : post (on_success (λ id, id ≠ "")) randomID w.
Proof.
  eapply step_bind; [apply _|apply (post_draw stored (λ r, ∀ b, r = inr b → b ≠ ""))|].
  - intros n b Hb. apply rand_length in Hb. by intros ->.
  - intros [e|b] w1 _ Hb; (apply step_ret; [apply _|]); [done|]. by apply id_of_bytes_ne, Hb.
Qed.

(** What provisioning makes of the declaration [o]. *)
Definition provisioned (o : optionValues St) (s : authorityState) : Prop :=
  (∃ id, Spec s = provision_spec o id) ∧ ActiveRoot s = 1 ∧ dom (Roots s) = {[ 1 ]} ∧ Pending s = None.

(** The new authority before its issuers are made. *)
Lemma provision_start_inv s sp root :
  Spec s = sp → ActiveRoot s = 1 → Roots s = {[ 1 := root ]} → Issuers s = ∅ → Pending s = None →
  spec_ok sp → root_ok sp True 1 root → authority_inv (St := St) s.
Proof.
  intros Hsp Ha Hr Hi Hp Hok Hroot. split.
  - constructor; rewrite ?Hsp, ?Ha, ?Hr, ?Hi.
    + done.
    + split; [lia|]. rewrite lookup_singleton_eq. by eexists.
    + intros g r Hg. apply lookup_singleton_Some in Hg as [<- <-].
      eapply root_ok_iff; [|exact Hroot]. split; [by left|done].
    + apply map_Forall_empty.
    + unfold pending_ok. by rewrite Hp.
  - constructor; rewrite ?Hi, ?Hp; [|done]. intros slug i n v Ei. by rewrite lookup_empty in Ei.
Qed.

(** The loop of [provision] over the declared issuers. *)
Definition provisioning (o : optionValues St) (sp : authoritySpec) (root : rootRecord)
    (ds : list IssuerDefinition) (s : authorityState) : Prop :=
  Spec s = sp ∧ ActiveRoot s = 1 ∧ Roots s = {[ 1 := root ]} ∧ Pending s = None ∧
  (CommonName (spec_Identity sp) = "" → authority_inv (St := St) s) ∧
  ∀ d, d ∈ ds → ∃ v, Issuers s !! def_Slug d = Some (new_issuer d v).

Lemma provision_loop_post o sp root key s w :
  KeySpec_valid (spec_KeySpec sp) = true → key_of root key → config_ok o →
  provisioning o sp root [] s →
  post (on_success (provisioning o sp root (issuers o)))
    (for_each (λ d s, t ← now; v ← makeIssuer sp 1 1 d root key t;
       mret (match v with
             | inl e => inl e
             | inr v => inr (add_issuer (def_Slug d) (new_issuer d v) s)
             end)) (issuers o) s) w.
Proof.
  intros Hk Hkey Hc Hstart. eapply (step_for_each (quiet (St := St) stored) (provisioning o sp root)); [done|].
  intros p d q s1 w' E _ (Hsp & Ha & Hr & Hp & Hinv & Hds).
  eapply step_bind; [apply _|by apply (post_draw stored (λ _, True))|]. intros t w1 _ _.
  eapply step_bind; [apply _|by apply makeIssuer_post|]. intros [e|v] w2 _ Hv; (apply step_ret; [apply _|]); [done|].
  pose proof (co_issuers _ Hc) as Hn. rewrite E in Hn. apply Forall_app in Hn as [_ Hn]. inversion Hn; subst.
  split_and!; try done.
  - intros Hcn. eapply add_issuer_inv; [by apply Hinv|done|done| |].
    + by rewrite Ha, Hr, lookup_singleton_eq.
    + by rewrite Ha.
  - pose proof (co_slugs _ Hc) as Hnd. rewrite E, fmap_app in Hnd. apply NoDup_app in Hnd as (_ & Hnd & _).
    intros d' [Hd'| ->%list_elem_of_singleton]%elem_of_app; cbn.
    + rewrite lookup_insert_ne; [by apply Hds|]. intros Heq. apply (Hnd (def_Slug d')).
      * by apply list_elem_of_fmap_2.
      * rewrite <- Heq. left.
    + exists v. by rewrite lookup_insert_eq.
Qed.

Lemma provision_post s w :
  config_ok (config (w_mem w)) → Pending s = None →
  post (on_success (λ res, provisioned (config (w_mem w)) res.2 ∧ Created res.1 = true ∧
    r_Pending res.1 = false ∧
    (CommonName (identity (config (w_mem w))) = "" → authority_inv (St := St) res.2 ∧
      ∀ d, d ∈ issuers (config (w_mem w)) → ∃ v,
        Issuers res.2 !! def_Slug d = Some (new_issuer d v)))) (provision s) w.
Proof.
  intros Hc Hnone. unfold provision.
  set (o := config (w_mem w)) in *.
  eapply step_bind; [apply _|by apply (post_get stored (λ m, m = w_mem w))|]. intros m w0 _ ->. fold o.
  destruct (String.eqb_spec (authorityName o) "") as [|Hname]; [by post_ret|].
  assert (display_name (authorityName o)) as Hd by (by destruct (co_name _ Hc)).
  eapply post_let; [apply randomID_post|by post_ret|]. intros id w1 _ Hid.
  set (sp := provision_spec o id).
  assert (KeySpec_valid (spec_KeySpec sp) = true) as Hk
    by (cbn; pose proof (co_key _ Hc) as Hk; destruct (rootKeySpecSet o); auto).
  eapply step_bind; [apply _|by apply (post_draw stored (λ _, True))|]. intros t w2 _ _.
  eapply post_let; [by apply makeRoot_post|by post_ret|]. intros [[root key] secret] w3 _ (Hroot & Hkey & _).
  eapply step_bind; [apply _|apply post_remember|]. intros _ w4 _ _.
  set (s0 := Build_authorityState _ _ _ _ _ _).
  eapply step_bind; [apply _|apply (provision_loop_post o sp root key s0); try done|].
  - split_and!; try done; [|intros d Hd'; by apply elem_of_nil in Hd'].
    intros Hcn. eapply provision_start_inv; try done; [|by apply Hroot].
    pose proof (co_mode _ Hc). constructor; try done; cbn.
    + destruct (issuanceModeSet o); auto.
    + by apply normalizeDisplayName_fix.
    + apply normalizeIdentity_fix, Hc.
  - intros [e|s1] w5 _ Hs1; (apply step_ret; [apply _|]); [done|]. cbn.
    destruct Hs1 as (Hsp & Ha & Hr & Hp & Hinv & Hds). split_and!; try done.
    + split_and!; [by exists id|done| |done]. by rewrite Hr, dom_singleton_L.
    + intros Hcn. split; [by apply Hinv|done].
Qed.
(** ** Ensure *)

(** How [Ensure] may change an existing authority. *)
Definition ensure_result (o : optionValues St) (s : authorityState) (res : EnsureResult) (s' : authorityState) : Prop :=
  Pending s = None ∧ Created res = false ∧
  ∃ s1, authority_inv (St := St) s1 ∧ extends s s1 ∧ only_new s s1 (r_Issuers res) ∧
    (∀ d, d ∈ issuers o → ∃ i, Issuers s1 !! def_Slug d = Some i ∧ definitionsEqual (Definition_ i) d = true) ∧
    (s' = s1 ∧ r_Pending res = false ∧ r_PendingKind res = PendingNone ∨
     prepared "root" s1 s' ∧ r_Pending res = true ∧ r_PendingKind res = PendingRoot ∨
     prepared "issuer" s1 s' ∧ r_Pending res = true ∧ r_PendingKind res = PendingIssuer).

Definition ensure_outcome (o : optionValues St) (s : authorityState) (out : outcome EnsureResult) : Prop :=
  match out with
  | MError _ => True
  | MNoMutation res => ensure_result o s res s ∧ r_Issuers res = []
  | MDone res s' => ensure_result o s res s'
  end.

Lemma due_NoDup o t s :
  NoDup (filter (λ p : string * issuerRecord, issuer_due (St := St) o t p.2 = true) (map_to_list (Issuers s))).*1.
Proof.
  pose proof (NoDup_fst_map_to_list (Issuers s)) as Hnd.
  induction (map_to_list (Issuers s)) as [|x l IH]; [constructor|]. cbn in Hnd. apply NoDup_cons in Hnd as [Hx Hnd].
  rewrite filter_cons. case_decide; [|by apply IH]. cbn. constructor; [|by apply IH].
  intros (y & E & Hy)%list_elem_of_fmap. apply Hx. rewrite E. apply list_elem_of_fmap_2.
  by apply list_elem_of_filter in Hy as [_ ?].
Qed.

Lemma ensure_mutation_post o s w :
  authority_inv (St := St) s → config_ok (config (w_mem w)) →
  post (ensure_outcome (config (w_mem w)) s) (ensure_mutation o s) w.
Proof.
  intros Hinv Hc. unfold ensure_mutation. set (c := config (w_mem w)) in *.
  destruct (String.eqb_spec (ID (Spec s)) "") as [Hid|_].
  { destruct Hinv as [Hok _]. by apply st_spec, so_id in Hok. }
  eapply step_bind; [apply _|by apply (post_get stored (λ m, m = w_mem w))|]. intros m w0 _ ->. fold c.
  destruct (assertSpec c s); [by post_ret|]. destruct (Pending s) as [p|] eqn:Hp; [by post_ret|].
  eapply (post_let _ (λ _, True)); [|by post_ret|].
  { eapply post_sub; [apply activeRootSigner_post, Hinv|]. by intros []. }
  intros _ w1 _ _.
  eapply post_let; [apply ensure_loop_post; [done|done|apply Hc]|by post_ret|].
  intros [s1 created] w2 _ (Hinv1 & Hex & Hnew & Hsame & Hds). cbn in *.
  assert (Pending s1 = None) as Hp1 by (by rewrite (ex_pending _ _ Hex)).
  eapply step_bind; [apply _|by apply (post_draw stored (λ _, True))|]. intros t w3 _ _.
  destruct (root_due o t s1).
  - eapply step_bind; [apply _|by apply prepareRoot_post|].
    intros [e|s'] w4 _ Hs'; (apply step_ret; [apply _|]); [done|]. split; [done|]. split; [done|].
    exists s1. split_and!; try done. right. by left.
  - destruct (filter _ _).*1 as [|x due] eqn:Edue.
    + destruct created as [|n created]; (apply step_ret; [apply _|]).
      * rewrite (Hsame eq_refl) in *. split; [|done]. split; [done|]. split; [done|].
        exists s. split_and!; try done. by left.
      * split; [done|]. split; [done|]. exists s1. split_and!; try done. by left.
    + eapply step_bind; [apply _|apply prepareIssuers_post; [done|done|]|].
      { rewrite <- Edue. apply due_NoDup. }
      intros [e|s'] w4 _ Hs'; (apply step_ret; [apply _|]); [done|]. split; [done|]. split; [done|].
      exists s1. split_and!; try done. right. by right.
Qed.

Lemma ensure_result_inv o s res s' : ensure_result o s res s' → authority_inv (St := St) s'.
Proof. intros (_ & _ & s1 & ? & _ & _ & _ & [[-> _]|[[[? _] _]|[[? _] _]]]); done. Qed.

(** ** Promotion *)

Lemma check_pending_issuer_ok s slug n i v :
  check_pending_issuer s (slug, n) = None → Issuers s !! slug = Some i → Versions i !! n = Some v → key_matches v.
Proof.
  unfold check_pending_issuer. cbn [fst snd]. intros Hc Ei Ev. rewrite Ei in Hc. cbn [mbind option_bind] in Hc.
  rewrite Ev in Hc. destruct (parseKeyDER _ _) as [|key] eqn:Ek; [done|].
  destruct (parseCertDER _) as [|cert] eqn:Ec; [done|].
  destruct (publicKeysEqual _ _) eqn:Ee; [|done]. by exists key, cert.
Qed.

Definition pending_checked (s : authorityState) (p : pendingManifest) : Prop :=
  ∀ slug n i v, p_Issuers p !! slug = Some n → Issuers s !! slug = Some i →
    Versions i !! n = Some v → key_matches v.

Lemma pending_checked_first s p :
  first_error (map (check_pending_issuer s) (map_to_list (p_Issuers p))) = None → pending_checked s p.
Proof.
  rewrite first_error_map. intros Hc slug n i v Hn. apply check_pending_issuer_ok, Hc.
  by apply elem_of_map_to_list.
Qed.

(** The root whose promotion is pending opens with [secret]. *)
Definition pending_opened (s : authorityState) (p : pendingManifest) (secret : string) : Prop :=
  secret ≠ "" ∧ ∃ r key cert, Roots s !! p_RootGeneration p = Some r ∧
    parseKeyDER (EncryptedKeyDER r) secret = inr key ∧
    parseCertDER (root_CertificateDER r) = inr cert ∧ publicKeysEqual (Public key) (cert_PublicKey cert) = true.

Lemma check_pending_root_ok r secret :
  check_pending_root r secret = None → ∃ key cert,
    parseKeyDER (EncryptedKeyDER r) secret = inr key ∧
    parseCertDER (root_CertificateDER r) = inr cert ∧ publicKeysEqual (Public key) (cert_PublicKey cert) = true.
Proof.
  unfold check_pending_root. destruct (parseKeyDER _ _) as [|key]; [done|].
  destruct (parseCertDER _) as [|cert]; [done|]. destruct (publicKeysEqual _ _) eqn:E; [|done]. eauto.
Qed.
Definition promote_outcome (s : authorityState) (out : outcome (option (PromotionResult * string))) : Prop :=
  match out with
  | MError _ => True
  | MNoMutation r => r = None
  | MDone r s' => ∃ p deadline secret res copy,
      r = Some (res, copy) ∧ Pending s = Some p ∧ s' = promoted p deadline s ∧
      pr_RootGeneration res = ActiveRoot s' ∧ pending_checked s p ∧
      (Kind_ p = "root" → pending_opened s p secret ∧ (copy = "" ∨ copy = secret) ∧
        (spec_IssuanceMode (Spec s) ≠ IssuanceLedger →
           ∃ n, deadline = env_now n + (maximumLeafValidity + clockSkew)))
  end.

Lemma promotion_secret_post o g w :
  post (on_success (λ r : string * string, r.2 = "" ∨ r.2 = r.1)) (promotion_secret (St := St) o g) w.
Proof.
  unfold promotion_secret.
  eapply step_bind; [apply _|by apply (post_get stored (λ _, True))|]. intros m w1 _ _.
  destruct (negb _); [apply step_ret; [apply _|by right]|].
  eapply (post_let _ (λ _, True)); [|by post_ret|].
  - unfold stored_secret. eapply step_bind; [apply _|apply (post_loadUnlocks stored w1)|].
    intros r w2 _ _. post_ret. repeat case_match; done.
  - intros found w2 _ _. apply step_ret; [apply _|by left].
Qed.

Lemma ledgerTrustDeadline_post fuel s g cursor d w :
  post (λ _, True) (ledgerTrustDeadline (St := St) fuel s g cursor d) w.
Proof.
  revert cursor d w. induction fuel as [|fuel IH]; intros cursor d w; cbn [ledgerTrustDeadline]; [by post_ret|].
  eapply step_bind; [apply _|apply (post_listLedger stored)|]. intros [e|[records next]] w1 _ _; [by post_ret|].
  destruct (String.eqb next ""); [by post_ret|apply IH].
Qed.

Lemma promotion_deadline_post fuel p s t w :
  post (λ r, spec_IssuanceMode (Spec s) ≠ IssuanceLedger → r = Some (inr (t + (maximumLeafValidity + clockSkew))))
    (promotion_deadline (St := St) fuel p s t) w.
Proof.
  unfold promotion_deadline. destruct (String.eqb_spec (spec_IssuanceMode (Spec s)) IssuanceLedger).
  - eapply step_bind; [apply _|apply ledgerTrustDeadline_post|]. intros r w1 _ _. by post_ret.
  - by post_ret.
Qed.

Lemma promote_mutation_post fuel o s w :
  post (promote_outcome s) (promote_mutation (St := St) fuel o s) w.
Proof.
  unfold promote_mutation.
  eapply step_bind; [apply _|by apply (post_get stored (λ _, True))|]. intros m w0 _ _.
  destruct (assertSpec _ s); [by post_ret|]. destruct (Pending s) as [p|] eqn:Hp; [|by post_ret].
  eapply (post_let _ (λ copy, ∃ secret, Kind_ p = "root" →
    pending_opened s p secret ∧ (copy = "" ∨ copy = secret))); [|by post_ret|].
  { destruct (String.eqb_spec (Kind_ p) "root"); [|by apply step_ret; [apply _|by exists ""]].
    eapply post_let; [apply promotion_secret_post|by post_ret|]. intros [secret copy] w1 _ Hcopy. cbn in Hcopy.
    destruct (String.eqb_spec secret ""); [by post_ret|].
    destruct (Roots s !! p_RootGeneration p) as [r|] eqn:Er; [|by post_ret].
    destruct (check_pending_root r secret) eqn:Ec; (apply step_ret; [apply _|]); [done|].
    exists secret. intros _. split; [|done]. split; [done|].
    apply check_pending_root_ok in Ec as (key & cert & ? & ? & ?). by exists r, key, cert. }
  intros copy w1 _ [secret Hsecret].
  destruct (first_error _) eqn:Echeck; [by post_ret|]. apply pending_checked_first in Echeck.
  eapply step_bind; [apply _|by apply (post_draw stored (λ t, ∃ n, t = env_now n)); eauto|]. intros t w2 _ [n ->].
  eapply (step_bind _ (λ r, Kind_ p = "root" → spec_IssuanceMode (Spec s) ≠ IssuanceLedger →
    r = Some (inr (env_now n + (maximumLeafValidity + clockSkew))))).
  { destruct (String.eqb_spec (Kind_ p) "root"); [|by apply step_ret; [apply _|]].
    eapply post_sub; [apply promotion_deadline_post|]. by intros r Hr _. }
  intros [[e|deadline]|] w3 _ Hd; (apply step_ret; [apply _|]); [done| |done].
  exists p, deadline, secret. do 2 eexists. split_and!; try done. intros Hk. destruct (Hsecret Hk) as [Ho Hcopy].
  split_and!; [done|done|]. intros Hm. specialize (Hd Hk Hm). injection Hd as ->. by exists n.
Qed.

(** ** Discarding and pruning *)

Lemma discard_mutation_post s w :
  post (λ out, match out with
    | MError _ => True
    | MNoMutation _ => False
    | MDone gs s' => ∃ p, Pending s = Some p ∧ s' = discarded p s ∧
        gs = (if 0 <? p_RootGeneration p then [p_RootGeneration p] else [])
    end) (discard_mutation (St := St) s) w.
Proof.
  unfold discard_mutation.
  eapply step_bind; [apply _|by apply (post_get stored (λ _, True))|]. intros m w0 _ _.
  destruct (assertSpec _ s); [by post_ret|]. destruct (Pending s) as [p|] eqn:Hp; [|by post_ret].
  apply step_ret; [apply _|]. by exists p.
Qed.

(** Only a root that is neither active nor pending, with the expected
    fingerprint and outside its trust window, is pruned. *)
Definition prunable (g : Z) (fp : string) (s : authorityState) (r : rootRecord) : Prop :=
  Roots s !! g = Some r ∧ root_Fingerprint r = fp ∧ g ≠ ActiveRoot s ∧
  (∀ p, Pending s = Some p → g ≠ p_RootGeneration p) ∧ ∃ n, RetiredTrustUntil r ≤ env_now n.

Lemma prune_mutation_post g fp s w :
  post (λ out, match out with
    | MError _ => True
    | MNoMutation _ => False
    | MDone _ s' => ∃ r, prunable g fp s r ∧ s' = add_root g (retire_root 0 r) s
    end) (prune_mutation (St := St) g fp s) w.
Proof.
  unfold prune_mutation. destruct (_ || _) eqn:Eg; [by post_ret|].
  destruct (Roots s !! g) as [r|] eqn:Er; [|by post_ret].
  destruct (String.eqb_spec (root_Fingerprint r) fp) as [Efp|]; [|by post_ret]. cbn [negb].
  eapply step_bind; [apply _|by apply (post_draw stored (λ t, ∃ n, t = env_now n)); eauto|]. intros t w2 _ [n ->].
  destruct (Z.ltb_spec (env_now n) (RetiredTrustUntil r)); [by post_ret|].
  apply step_ret; [apply _|]. exists r. split; [|done].
  apply orb_false_iff in Eg as [Ega%Z.eqb_neq Egp]. split_and!; try done; [|by exists n].
  intros p Ep. rewrite Ep in Egp. by apply Z.eqb_neq.
Qed.

Lemma pruned_inv g fp s r :
  authority_inv (St := St) s → prunable g fp s r → authority_inv (St := St) (add_root g (retire_root 0 r) s).
Proof.
  intros [[Hspec [Ha1 Ha2] Hr Hi Hp] [Hv Hm]] (Er & _ & Hga & _ & _). split.
  - constructor; try done.
    + split; [done|]. cbn. by rewrite lookup_insert_ne.
    + intros k r' Hk. cbn in Hk. apply lookup_insert_Some in Hk as [[<- <-]|[_ Hk]]; [|by apply Hr].
      destruct (Hr _ _ Er) as (? & ? & ?). done.
    + intros slug i Ei. destruct (Hi _ _ Ei) as (? & ? & ? & ? & Hvs). split_and!; try done.
      intros n v Ev. eapply version_ok_iff; [|done|by apply Hvs]. intros k der Hk _. rewrite <- Hk.
      unfold root_der. cbn. destruct (decide (k = g)) as [->|]; [|by rewrite lookup_insert_ne].
      by rewrite lookup_insert_eq, Er.
    + unfold pending_ok in *. cbn in *. destruct (Pending s) as [p|]; [|done].
      destruct Hp as (? & ? & Hpr & ?). split_and!; try done. intros Hk. destruct (Hpr Hk) as [[r' Hr'] ?].
      split; [|done]. destruct (decide (g = p_RootGeneration p)) as [->|]; [rewrite lookup_insert_eq|rewrite lookup_insert_ne by done]; by eexists.
  - constructor; [done|]. intros p Ep. destruct (Hm p Ep). by constructor.
Qed.
End operations.
