(* ===== verification/CertsManager.v ===== *)
(** * The authority manager over a store

    Whole operations against the promises of the store interface: a run of any
    calls keeps the stored authority well-formed, and what single calls do to
    the stored document. *)
From S2P Require Import Prelude.
From S2P Require Import GoStrings.
From S2P Require Import Utf8.
From S2P Require Import Text.
From S2P Require Import Errors.
From S2P Require Import GoNet.
From S2P Require Import CertsTypes.
From S2P Require Import CertsNames.
From S2P Require Import CertsCrypto.
From S2P Require Import CertsOptions.
From S2P Require Import CertsOptionsFacts.
From S2P Require Import CertsState.
From S2P Require Import CertsBackend.
From S2P Require Import CertsAuthority.
From S2P Require Import CertsStateFacts.
From S2P Require Import CertsStaged.
From S2P Require Import CertsAuthorityFacts.
From S2P Require Import CertsEnsure.
From S2P Require Import CertsOperations.
From S2P Require Import CertsTrustFacts.
#[local] Open Scope stdpp_scope.
#[local] Open Scope Z_scope.

Section manager.
Context `{Uni : Unicode, !UnicodeLaws, Cry : Crypto, Ent : !Env, !CryptoLaws, URLParser} {D St : Type}
  `{!Backend D} (stored : D → option authorityState) `{!BackendLaws D St stored}.

Abbreviation World := (world D (AuthorityManager St)).
Abbreviation proc_ A := (stm World A).
Abbreviation post := (step_post (quiet (St := St) stored)).
#[local] Existing Instance quiet_preorder.

(** ** Calls *)

Inductive call :=
  | CEnsure (opts : list (option (option_ St)))
  | CPromotePending (ledger_fuel : nat) (opts : list (option (option_ St)))
  | CDiscardPending
  | CExportGeneratedUnlock
  | CStoreLocalUnlock (opts : list (option (option_ St)))
  | CInspect
  | CRepair
  | CPruneRoot (generation : Z) (expectedFingerprint : string)
  | CPurge (expectedAuthorityID expectedRootFingerprint : string)
  | CClose.

(** A call whose result is dropped. *)
Definition run_call (c : call) : proc_ () :=
  match c with
  | CEnsure opts => _ ← Ensure opts; mret ()
  | CPromotePending fuel opts => _ ← PromotePending fuel opts; mret ()
  | CDiscardPending => _ ← DiscardPending; mret ()
  | CExportGeneratedUnlock => _ ← ExportGeneratedUnlock; mret ()
  | CStoreLocalUnlock opts => _ ← StoreLocalUnlock opts; mret ()
  | CInspect => _ ← Inspect; mret ()
  | CRepair => _ ← Repair; mret ()
  | CPruneRoot g fp => _ ← PruneRoot g fp; mret ()
  | CPurge id fp => _ ← Purge id fp; mret ()
  | CClose => _ ← Close; mret ()
  end.

Fixpoint run_calls (l : list call) : proc_ () :=
  match l with
  | [] => mret ()
  | c :: l' => _ ← run_call c; run_calls l'
  end.

(** ** The invariant of a world *)

Definition sound (w : World) : Prop :=
  (∀ s, stored (w_disk w) = Some s → authority_inv (St := St) s) ∧ config_ok (config (w_mem w)) ∧
  CommonName (identity (config (w_mem w))) = "".

Definition safe {A} (m : proc_ A) : Prop := ∀ w, sound w → sound (m w).2.

Lemma safe_ret {A} (a : A) : safe (mret a).
Proof. by intros w. Qed.

Lemma safe_bind {A B} (m : proc_ A) (f : A → proc_ B) : safe m → (∀ a, safe (f a)) → safe (m ≫= f).
Proof.
  intros Hm Hf w Hw. unfold mbind, stm_bind. specialize (Hm w Hw). destruct (m w) as [a w']. by apply Hf.
Qed.

Lemma safe_get {B} (f : AuthorityManager St → proc_ B) :
  (∀ m, config_ok (config m) ∧ CommonName (identity (config m)) = "" → safe (f m)) → safe (get_mem ≫= f).
Proof. intros Hf w Hw. unfold mbind, stm_bind. cbn. by apply Hf; [apply Hw|]. Qed.

Lemma safe_put m : config_ok (config m) ∧ CommonName (identity (config m)) = "" → safe (put_mem m).
Proof. intros Hm w [Hw _]. by split. Qed.

Lemma safe_draw {A} (f : nat → A) : safe (draw f).
Proof. by intros w Hw. Qed.

Lemma sound_keeps (w w' : World) : keeps stored w w' → sound w → sound w'.
Proof. intros [Hd Hm] (Hs & Hc & Hcn). unfold sound. rewrite Hd, Hm. done. Qed.

Lemma safe_keeps {A} (m : proc_ A) : (∀ w r w', m w = (r, w') → keeps stored w w') → safe m.
Proof. intros Hm w Hw. destruct (m w) as [r w'] eqn:E. by eapply sound_keeps; [eapply Hm|]. Qed.

Lemma safe_load i : safe (b_load i).
Proof. apply safe_keeps. intros w r w' E. by apply load_law in E as [? _]. Qed.

Lemma sound_quiet (w w' : World) : quiet stored w w' → sound w → sound w'.
Proof. intros (Hd & Hm & _) (Hs & Hc & Hcn). unfold sound. rewrite Hd, Hm. done. Qed.

Lemma safe_post {A} (Q : A → Prop) (m : proc_ A) : (∀ w, post Q m w) → safe m.
Proof. intros Hm w Hw. destruct (Hm w) as [Hq _]. by eapply sound_quiet. Qed.

Lemma bump_inv b s : staged_ok s → valid (St := St) (bump_revision b s) → authority_inv (St := St) (bump_revision b s).
Proof. intros [Hv Hm] Hok. split; [by apply validateState_None|]. constructor; [done|]. intros p Ep. by destruct (Hm p Ep). Qed.

(** An update is safe when its mutation is quiet and hands over well-formed
    states. *)
Lemma safe_update {A} (f : authorityState → proc_ (outcome A)) :
  (∀ s w, sound w → opened (St := St) stored w s →
    post (λ o, match o with MDone _ s' => staged_ok s' | _ => True end) (f s) w) →
  safe (b_update f).
Proof.
  intros Hf w Hw. destruct (b_update f w) as [r w'] eqn:E. cbn.
  apply (update_law (St := St) (stored := stored)) in E as [(e & _ & Hk)|(s & w0 & o & w1 & Hk & Hop & Ef & Hm & Ho)].
  { by eapply sound_keeps. }
  assert (sound w0) as Hw0 by (by eapply sound_keeps).
  pose proof (Hf s w0 Hw0 Hop) as Hp. eapply step_run in Hp as [Hq Hout]; [|exact Ef].
  assert (sound w1) as Hw1 by (by eapply sound_quiet).
  destruct o as [e|a|a s1].
  - destruct Ho as [_ Hd]. by apply (sound_keeps w1).
  - destruct Ho as [_ Hd]. by apply (sound_keeps w1).
  - assert (valid (St := St) (bump_revision (Revision s) s1) ∧
      stored (w_disk w') = Some (bump_revision (Revision s) s1) → sound w') as Hdone.
    { intros [Hv Hd]. destruct Hw1 as (_ & Hc & Hcn). unfold sound. rewrite Hm, Hd.
      split_and!; try done. intros s2 [= <-]. by apply bump_inv. }
    destruct Ho as [(_ & Hv & Hd)|(e & _ & [Hd|[Hv Hd]])]; [by apply Hdone|by apply (sound_keeps w1)|by apply Hdone].
Qed.
(** A state that a mutation is given under the invariant. *)
Lemma sound_opened w s :
  sound w → opened (St := St) stored w s → authority_inv (St := St) s ∨ s = zero_state.
Proof. intros (Hs & _) [[E _]|[_ ->]]; [left; by apply Hs|by right]. Qed.

Lemma zero_outcome o w :
  sound w → post (λ out, match out with
    | MDone res s => provisioned (config (w_mem w)) s ∧ Created res = true ∧ r_Pending res = false ∧
        authority_inv (St := St) s
    | _ => True
    end) (ensure_mutation o zero_state) w.
Proof.
  intros (_ & Hc & Hcn). unfold ensure_mutation. cbn [ID Spec zero_state zero_spec].
  rewrite String.eqb_refl.
  eapply step_bind; [apply _|by apply (provision_post stored)|]. intros [e|[res s]] w1 _ Hp; (apply step_ret; [apply _|]); [done|].
  destruct Hp as (Hp & Hcr & Hpe & Hinv). destruct (Hinv Hcn) as [? _]. done.
Qed.

Lemma safe_Ensure_update o : safe (b_update (ensure_mutation o)).
Proof.
  apply safe_update. intros s w Hw Hop. destruct (sound_opened _ _ Hw Hop) as [Hinv| ->].
  - eapply post_sub; [apply (ensure_mutation_post stored); [done|apply Hw]|]. intros [| |res s']; [done..|].
    intros Hr. by apply ensure_result_inv in Hr as [_ ?].
  - eapply post_sub; [by apply zero_outcome|]. intros [| |res s']; [done..|]. by intros (_ & _ & _ & _ & ?).
Qed.

Lemma zero_staged : staged_ok zero_state.
Proof. by constructor. Qed.

Lemma zero_pending s : s = zero_state → Pending s = None.
Proof. by intros ->. Qed.

Lemma safe_Promote_update fuel o : safe (b_update (promote_mutation fuel o)).
Proof.
  apply safe_update. intros s w Hw Hop. eapply post_sub; [apply (promote_mutation_post stored)|].
  intros [| |r s']; [done..|]. intros (p & d & secret & res & copy & _ & Hp & -> & _ & Hchk & _).
  destruct (sound_opened _ _ Hw Hop) as [Hinv|Hz]; [|by rewrite (zero_pending _ Hz) in Hp].
  by eapply promoted_inv.
Qed.

Lemma safe_Discard_update : safe (b_update discard_mutation).
Proof.
  apply safe_update. intros s w Hw Hop. eapply post_sub; [apply (discard_mutation_post stored)|].
  intros [| |r s']; [done..|]. intros (p & Hp & -> & _).
  destruct (sound_opened _ _ Hw Hop) as [Hinv|Hz]; [|by rewrite (zero_pending _ Hz) in Hp].
  by eapply discarded_inv.
Qed.

Lemma safe_Prune_update g fp : safe (b_update (prune_mutation g fp)).
Proof.
  apply safe_update. intros s w Hw Hop. eapply post_sub; [apply (prune_mutation_post stored)|].
  intros [| |r s']; [done..|]. intros (r0 & Hr & ->).
  destruct (sound_opened _ _ Hw Hop) as [Hinv| ->]; [|by destruct Hr as [Hr _]].
  by eapply pruned_inv.
Qed.

Lemma safe_purge : safe b_purge.
Proof.
  intros w (Hs & Hc & Hcn). destruct (b_purge w) as [r w'] eqn:E.
  apply (purge_law (St := St) (stored := stored)) in E as [Hm Hd]. cbn. unfold sound. rewrite Hm.
  split_and!; try done. destruct Hd as [Hd|Hd]; [by rewrite Hd|by rewrite Hd].
Qed.

Lemma safe_loadUnlocks : safe b_loadUnlocks.
Proof. apply safe_keeps. intros w r w' E. by apply loadUnlocks_law in E. Qed.
Lemma safe_storeUnlocks v b : safe (b_storeUnlocks v b).
Proof. apply safe_keeps. intros w r w' E. by apply storeUnlocks_law in E. Qed.

(** [go_safe] walks through an operation. *)
Ltac go_safe :=
  repeat first
    [ apply safe_ret | apply safe_load | apply safe_loadUnlocks | apply safe_storeUnlocks
    | apply safe_purge | apply safe_Ensure_update | apply safe_Promote_update
    | apply safe_Discard_update | apply safe_Prune_update
    | apply safe_get; intros | apply safe_put; by cbn | apply safe_bind; [|intros]
    | case_match ].

Lemma closed_config_ok (o : optionValues St) (f : optionValues St) :
  issuers f = issuers o → rootKeySpecSet f = rootKeySpecSet o → rootKeySpec f = rootKeySpec o →
  issuanceModeSet f = issuanceModeSet o → issuanceMode f = issuanceMode o →
  authorityName f = authorityName o → identity f = identity o →
  config_ok o ∧ CommonName (identity o) = "" → config_ok f ∧ CommonName (identity f) = "".
Proof.
  intros E1 E2 E3 E4 E5 E6 E7 [[] ?]. rewrite E7. split; [|done].
  constructor; rewrite ?E1, ?E2, ?E3, ?E4, ?E5, ?E6, ?E7; done.
Qed.

Lemma Ensure_safe opts : safe (Ensure opts).
Proof. unfold Ensure. go_safe. Qed.

Lemma run_call_safe c : safe (run_call c).
Proof.
  destruct c; cbn [run_call].
  - apply safe_bind; [apply Ensure_safe|go_safe].
  - unfold PromotePending, forget_others. go_safe.
  - unfold DiscardPending. go_safe.
  - unfold ExportGeneratedUnlock. go_safe.
  - unfold StoreLocalUnlock. go_safe.
  - unfold Inspect. go_safe.
  - unfold Repair. go_safe.
  - unfold PruneRoot. go_safe.
  - unfold Purge. go_safe.
  - unfold Close. apply safe_bind; [|go_safe]. apply safe_get. intros m Hm. destruct (closed m); [apply safe_ret|].
    apply safe_bind; [apply safe_put; cbn [config]|go_safe].
    by eapply (closed_config_ok (config m)); [destruct (config m)..|].
Qed.

(** C1: over every store that keeps its promises, the stored authority stays
    well-formed.  Take a manager whose configuration is as [NewAuthorityManager]
    makes it and whose identity has no common name of its own ([provision_common_name]
    shows what another does), over a store that holds no authority or a well-formed
    one.  After any sequence of its calls, whatever their results, the same is
    true: the authority, if there is one, is one that [validateState] accepts,
    whose pending operation is complete (every staged version is the one above
    the active version and lies under the root that promotion will activate,
    and a staged root is a new generation), with no version above the active
    one unless it is pending. *)
Theorem calls_keep_authority (l : list call) (w : World) : sound w → sound (run_calls l w).2.
Proof.
  revert w. induction l as [|c l IH]; intros w Hw; cbn [run_calls]; [done|].
  unfold mbind, stm_bind. pose proof (run_call_safe c w Hw) as Hc.
  destruct (run_call c w) as [[] w']. by apply IH.
Qed.

(** ** Single calls *)

(** Two documents that differ in nothing but the revision. *)
Definition same_content (s s' : authorityState) : Prop :=
  Spec s' = Spec s ∧ ActiveRoot s' = ActiveRoot s ∧ Roots s' = Roots s ∧ Issuers s' = Issuers s ∧
  Pending s' = Pending s.

Lemma bump_same b s : same_content s (bump_revision b s).
Proof. done. Qed.

(** A successful update that stores a state. *)
Lemma update_success {A} (f : authorityState → proc_ (outcome A)) w a w' :
  b_update f w = (inr a, w') →
  ∃ s w0 o w1, keeps stored w w0 ∧ opened (St := St) stored w s ∧ f s w0 = (o, w1) ∧ w_mem w' = w_mem w1 ∧
    (o = MNoMutation a ∧ keeps_document stored w1 w' ∨
     ∃ s1, o = MDone a s1 ∧ valid (St := St) (bump_revision (Revision s) s1) ∧
       stored (w_disk w') = Some (bump_revision (Revision s) s1)).
Proof.
  intros E. apply (update_law (St := St) (stored := stored)) in E as [(e & [=] & _)|(s & w0 & o & w1 & Hk & Hop & Ef & Hm & Ho)].
  exists s, w0, o, w1. split; [done|]. split; [destruct Hk as [Hk _]; unfold opened in *; by rewrite <- Hk|].
  split; [done|]. split; [done|]. destruct o as [e|b|b s1].
  - by destruct Ho as [[=] _].
  - destruct Ho as [[= ->] ?]. by left.
  - destruct Ho as [([= ->] & ? & ?)|(e & [=] & _)]. right. by exists s1.
Qed.

(** What [Ensure] leaves in the store when it reports success on an existing
    authority. *)
Lemma Ensure_success opts (w w' : World) res s :
  Ensure opts w = (inr res, w') → authority_inv (St := St) s → config_ok (config (w_mem w)) → stored (w_disk w) = Some s →
  ∃ s1 s', stored (w_disk w') = Some s' ∧ authority_inv (St := St) s' ∧
    ensure_result (config (w_mem w)) s res s1 ∧ same_content s1 s' ∧
    (s1 = s ∧ s' = s ∨ s' = bump_revision (Revision s) s1) ∧ r_Revision res = Revision s' ∧
    closed (w_mem w') = closed (w_mem w) ∧ closed (w_mem w) = false.
Proof.
  intros E Hinv Hc Es. unfold Ensure in E.
  inv_run E. cbn in E0. injection E0 as <- <-. destruct (parseOptions scopeEnsure opts) as [|o]; [done|].
  destruct (rootRotateBeforeSet o && _); [done|]. destruct (first_error _); [done|].
  inv_run E. injection E0 as <- <-. destruct (closed (w_mem w)) eqn:Ecl; [done|].
  inv_run E. destruct r as [|r]; [done|]. inv_run E. destruct r0 as [|s2]; [done|]. injection E as <- <-.
  apply update_success in E0 as (s0 & w0 & out & w1 & Hk & Hop & Ef & Hmem & Ho).
  assert (s0 = s) as -> by (destruct Hop as [[E0 _]|[E0 _]]; congruence).
  apply (load_law (St := St) (stored := stored)) in E1 as [[Hk2 Hmem2] Hld].
  destruct (Hld s2 eq_refl) as [Hs2 _]. rewrite Hk2.
  destruct Hk as [Hkd Hkm].
  assert (config_ok (config (w_mem w0))) as Hc0 by (rewrite Hkm; apply Hc).
  pose proof (ensure_mutation_post stored o s w0 Hinv Hc0) as Hpost.
  eapply step_run in Hpost as [Hq Hout]; [|exact Ef]. rewrite Hkm in Hout.
  destruct Hq as (Hqd & _ & Hqc). rewrite Hmem2, Hmem, Hqc, Hkm.
  destruct Ho as [[-> Hd]|(s1 & -> & Hv & Hd)].
  - destruct Hout as [Hres _]. exists s, s.
    assert (stored (w_disk h) = Some s) as Eh by (unfold keeps_document in Hd; congruence).
    split_and!; try done; [by left|]. cbn. congruence.
  - exists s1, (bump_revision (Revision s) s1). split_and!; try done.
    + apply bump_inv; [|done]. by eapply ensure_result_inv.
    + by right.
    + cbn. rewrite Hs2 in Hd. by injection Hd as ->.
Qed.

(** A discard that reports success has stored the discarded state. *)
Lemma DiscardPending_success w w' :
  DiscardPending (St := St) w = (None, w') → ∀ s, stored (w_disk w) = Some s →
  ∃ p s', Pending s = Some p ∧ stored (w_disk w') = Some s' ∧ same_content (discarded p s) s'.
Proof.
  intros E s Es. unfold DiscardPending in E. inv_run E. injection E0 as <- <-.
  destruct (closed (w_mem w)); [done|]. inv_run E. destruct r as [e|gs]; [done|].
  apply update_success in E0 as (s0 & w0 & out & w1 & Hk & Hop & Ef & Hmem & Ho).
  assert (s0 = s) as -> by (destruct Hop as [[E1 _]|[E1 _]]; congruence).
  pose proof (discard_mutation_post stored s w0) as Hpost. eapply step_run in Hpost as [_ Hout]; [|exact Ef].
  destruct Ho as [[-> _]|(s1 & -> & _ & Hd)]; [done|]. destruct Hout as (p & Hp & -> & _).
  exists p, (bump_revision (Revision s) (discarded p s)). split; [done|]. split; [|done]. rewrite <- Hd.
  inv_run E. injection E0 as <- <-. inv_run E. injection E0 as <- <-. inv_run E.
  apply (loadUnlocks_law (St := St) (stored := stored)) in E0 as [Hl _]. cbn in Hl.
  destruct r as [e|unlocks]; [by injection E as <-|]. inv_run E.
  apply (storeUnlocks_law (St := St) (stored := stored)) in E0 as [Hst _].
  destruct r; [done|]. injection E as <-. congruence.
Qed.

(** C25: a staged rotation leaves nothing behind when it is discarded.  If, on a
    well-formed authority and with a configuration as [NewAuthorityManager] makes
    it, [Ensure] reports a pending rotation and [DiscardPending] succeeds next,
    then the store holds the specification, the active root, the roots with their
    keys and the issuers with their versions that it held before, and no pending
    operation; the only other issuers are those that [Ensure] reports as created,
    and when it created none, nothing but the revision has changed. *)
Theorem Ensure_discard opts (w w1 w2 : World) res s :
  authority_inv (St := St) s → config_ok (config (w_mem w)) → stored (w_disk w) = Some s →
  Ensure opts w = (inr res, w1) → r_Pending res = true →
  DiscardPending w1 = (None, w2) →
  ∃ s2, stored (w_disk w2) = Some s2 ∧ Spec s2 = Spec s ∧ ActiveRoot s2 = ActiveRoot s ∧ Roots s2 = Roots s ∧
    Pending s2 = None ∧ Pending s = None ∧ Issuers s ⊆ Issuers s2 ∧ only_new s s2 (r_Issuers res) ∧
    (r_Issuers res = [] → same_content s s2).
Proof.
  intros Hinv Hc Es E Hpend Hdis.
  destruct (Ensure_success _ _ _ _ _ E Hinv Hc Es) as (s1 & s' & Es' & _ & Hres & Hsame & _).
  destruct (DiscardPending_success _ _ Hdis _ Es') as (p & s2 & Hp & Es2 & Hsame2).
  exists s2. split; [done|]. destruct Hres as (Hnone & _ & s0 & _ & Hex & Hnew & _ & Hcase).
  assert (∃ p', Pending s1 = Some p' ∧ discarded p' s1 = s0) as (p' & Hp' & Hd).
  { destruct Hcase as [(_ & ? & _)|[[(_ & p' & ? & _ & _ & ?) _]|[(_ & p' & ? & _ & _ & ?) _]]]; [congruence|..]; eauto. }
  destruct Hsame as (Hs1 & Hs2 & Hs3 & Hs4 & Hs5). rewrite Hp, Hp' in Hs5. injection Hs5 as ->.
  assert (same_content s0 (discarded p' s')) as Hsd.
  { rewrite <- Hd. unfold same_content, discarded. cbn. by rewrite Hs1, Hs2, Hs3, Hs4. }
  destruct Hsd as (? & ? & ? & ? & ?), Hsame2 as (? & ? & ? & Hi & ?), Hex.
  assert (Issuers s2 = Issuers s0) as Ei by congruence.
  split_and!; [congruence..|by rewrite Ei|intros slug i; rewrite Ei; apply Hnew|].
  intros Hno. unfold same_content. split_and!; [congruence..| |congruence].
  rewrite Ei. apply map_eq. intros slug. apply option_eq. intros i. split; [|intros Hl; by eapply lookup_weaken].
  intros Hl. destruct (Hnew slug i Hl) as [?|Hin]; [done|]. rewrite Hno in Hin. by apply elem_of_nil in Hin.
Qed.

(** *** Promotion *)

Lemma PromotePending_success fuel opts (w w' : World) res e s :
  PromotePending fuel opts w = (Some (inr (res, e)), w') → stored (w_disk w) = Some s →
  ∃ p deadline secret copy r1, stored (w_disk w') = Some (bump_revision (Revision s) (promoted p deadline s)) ∧
    valid (St := St) (bump_revision (Revision s) (promoted p deadline s)) ∧
    promote_outcome s (MDone (Some (r1, copy)) (promoted p deadline s)) ∧
    Pending s = Some p ∧ (Kind_ p = "root" → pending_opened s p secret) ∧
    (Kind_ p = "root" → ∃ o w0 x s1 w1 w2, keeps stored w w0 ∧ promote_mutation fuel o s w0 = (MDone x s1, w2) ∧
       trust_window s w1 w2 deadline) ∧
    res = {| pr_RootGeneration := ActiveRoot (promoted p deadline s);
             pr_Revision := Revision (bump_revision (Revision s) (promoted p deadline s)) |}.
Proof.
  intros E Es. unfold PromotePending in E. destruct (parseOptions scopePromote opts) as [|o]; [done|].
  inv_run E. injection E0 as <- <-. destruct (closed (w_mem w)); [done|]. inv_run E. destruct r as [|u]; [done|].
  apply update_success in E0 as (s0 & w0 & out & w1 & Hk & Hop & Ef & Hmem & Ho).
  assert (s0 = s) as -> by (destruct Hop as [[E1 _]|[E1 _]]; congruence).
  pose proof (promote_mutation_post stored fuel o s w0) as Hpost. eapply step_run in Hpost as [_ Hout]; [|exact Ef].
  destruct Ho as [[-> _]|(s1 & -> & Hv & Hd)]; [by cbn in Hout; subst|].
  pose proof (promote_mutation_run _ _ _ _ _ _ _ Ef) as (p & deadline & Hp & Es1 & Hwin).
  pose proof Hout as (p' & deadline' & secret & r1 & copy & -> & Hp' & Es2 & Hr1 & _ & Hk0).
  assert (p' = p) as -> by congruence. subst s1.
  inv_run E. destruct r as [|s2]; [done|].
  apply (load_law (St := St) (stored := stored)) in E0 as [[Hk2 _] Hld].
  destruct (Hld s2 eq_refl) as [Hs2 _]. rewrite Hd in Hs2. injection Hs2 as <-.
  inv_run E. injection E0 as <- <-. inv_run E.
  apply (loadUnlocks_law (St := St) (stored := stored)) in E0 as [Hl _]. inv_run E.
  assert (stored (w_disk h2) = stored (w_disk h1)) as Hst.
  { destruct r as [|unlocks]; [by injection E0 as <- <-|]. case_bool_decide; [by injection E0 as <- <-|].
    by apply (storeUnlocks_law (St := St) (stored := stored)) in E0 as [? _]. }
  assert (stored (w_disk w') = stored (w_disk h2) ∧
    res = {| pr_RootGeneration := pr_RootGeneration r1;
             pr_Revision := Revision (bump_revision (Revision s) (promoted p deadline s)) |}) as [Hw' ->].
  { destruct r0; [by injection E as <- <- <-|]. inv_run E. injection E as <- <- <-. split; [|done].
    apply (f_equal (λ x, w_disk x.2)) in E1. cbn [snd] in E1. by rewrite <- E1. }
  exists p, deadline, secret, copy, r1. split; [congruence|]. split_and!; try done.
  - intros Hr. by apply Hk0.
  - intros Hr. destruct (Hwin Hr) as [wc Hwc]. eexists _, w0, _, _, wc, w1. by split_and!.
  - by rewrite Hr1.
Qed.

(** What is left of the keys when nothing is pending. *)
Lemma keys_active s :
  authority_inv (St := St) s → Pending s = None →
  (∀ g r, Roots s !! g = Some r → EncryptedKeyDER r ≠ "" ↔ g = ActiveRoot s) ∧
  (∀ slug i n v, Issuers s !! slug = Some i → Versions i !! n = Some v → KeyDER v ≠ "" ↔ n = ActiveVersion i).
Proof.
  intros [Hok _] Hp. split.
  - intros g r Er. destruct (st_roots _ Hok _ _ Er) as (_ & _ & Hk). rewrite Hk.
    unfold pending_root. rewrite Hp. intuition congruence.
  - intros slug i n v Ei Ev. destruct (st_issuers _ Hok _ _ Ei) as (_ & _ & _ & _ & Hvs).
    destruct (Hvs _ _ Ev) as (_ & _ & Hk). rewrite Hk. unfold pending_version. rewrite Hp. intuition congruence.
Qed.

(** C2: promotion activates exactly what was staged and destroys the replaced
    keys.  When [PromotePending] returns a result, the store of a sound manager
    held a pending operation and now holds no pending one; the active root is the
    staged one for a root rotation and the old one otherwise; every issuer has its
    staged version active, or its old one when it was not part of the operation;
    the only private keys left are those of the active root and of the active
    versions; and in a root rotation the pending root's key was opened with a
    secret and the replaced root stays trusted until the end of its window.
    Without a ledger that is the longest leaf validity and the clock skew after
    the clock reading of the run of the mutation in this call; with a ledger it is
    the latest end, plus the clock skew, of the certificates issued under that
    root on all the pages that this run read, or its clock reading when there are
    none. *)
Theorem PromotePending_spec fuel opts (w w' : World) res e s :
  sound w → stored (w_disk w) = Some s → PromotePending fuel opts w = (Some (inr (res, e)), w') →
  ∃ p s', Pending s = Some p ∧ stored (w_disk w') = Some s' ∧
    res = {| pr_RootGeneration := ActiveRoot s'; pr_Revision := Revision s' |} ∧
    Pending s' = None ∧ Spec s' = Spec s ∧ ActiveRoot s' = staged_root p s ∧
    (∀ slug i, Issuers s !! slug = Some i → ∃ i', Issuers s' !! slug = Some i' ∧
       Definition_ i' = Definition_ i ∧ ActiveVersion i' = default (ActiveVersion i) (p_Issuers p !! slug)) ∧
    (∀ g r, Roots s' !! g = Some r → EncryptedKeyDER r ≠ "" ↔ g = ActiveRoot s') ∧
    (∀ slug i n v, Issuers s' !! slug = Some i → Versions i !! n = Some v →
       KeyDER v ≠ "" ↔ n = ActiveVersion i) ∧
    (Kind_ p = "root" → (∃ secret, pending_opened s p secret) ∧
       ∃ o w0 x s1 w1 w2 r, keeps stored w w0 ∧ promote_mutation fuel o s w0 = (MDone x s1, w2) ∧
         Roots s' !! ActiveRoot s = Some r ∧ trust_window s w1 w2 (RetiredTrustUntil r)).
Proof.
  intros Hw Es E. pose proof (proj1 Hw s Es) as Hinv.
  destruct (PromotePending_success _ _ _ _ _ _ _ E Es)
    as (p & d & secret & copy & r1 & Es' & Hv & Hout & Hp & Hopen & Hd & Hres).
  set (s' := bump_revision (Revision s) (promoted p d s)) in *.
  assert (authority_inv (St := St) s') as Hinv'.
  { apply bump_inv; [|done]. destruct Hout as (p' & d' & ? & ? & ? & [= _ <-] & Hp' & _ & _ & Hchk & _).
    rewrite Hp in Hp'. injection Hp' as <-. by eapply promoted_inv. }
  destruct (keys_active s' Hinv' eq_refl) as [Hkr Hki].
  exists p, s'. split_and!; try done.
  - intros slug i Ei. exists (match p_Issuers p !! slug with Some v => activate v i | None => i end).
    split; [change (Issuers s') with (activate_all (p_Issuers p) (Issuers s)); by rewrite lookup_activate_all, Ei|].
    by destruct (p_Issuers p !! slug).
  - intros Hk. split; [exists secret; by apply Hopen|].
    destruct (Hd Hk) as (o & w0 & x & s1 & w1 & w2 & Hk0 & Ef & Hwin). destruct Hinv as [[_ [_ [r Er]] _ _ _] _].
    destruct (promoted_window p d s r Hk Er) as (r' & Er' & <-). by exists o, w0, x, s1, w1, w2, r'.
Qed.

(** an identity with a common name can never be provisioned: on an empty
    store [Ensure] returns an error and the store stays empty.  The subject of
    a CA certificate carries the authority's own name, so validation finds
    that the identity read back differs from the declared one. *)
Theorem provision_common_name opts (w w' : World) r :
  config_ok (config (w_mem w)) → CommonName (identity (config (w_mem w))) ≠ "" →
  stored (w_disk w) = None → Ensure opts w = (r, w') →
  (∃ e, r = inl e) ∧ stored (w_disk w') = None.
Proof.
  intros Hc Hcn Es E. unfold Ensure in E.
  inv_run E. cbn in E0. injection E0 as <- <-. destruct (parseOptions scopeEnsure opts) as [|o]; [by injection E as <- <-; eauto|].
  destruct (rootRotateBeforeSet o && _); [by injection E as <- <-; eauto|].
  destruct (first_error _); [by injection E as <- <-; eauto|].
  inv_run E. injection E0 as <- <-. destruct (closed (w_mem w)); [by injection E as <- <-; eauto|].
  inv_run E. apply (update_law (St := St) (stored := stored)) in E0
    as [(e & -> & [Hk _])|(s & w0 & out & w1 & [Hkd Hkm] & Hop & Ef & _ & Ho)].
  { injection E as <- <-. split; [by eexists|]. congruence. }
  assert (s = zero_state) as -> by (destruct Hop as [[E1 _]|[_ E1]]; congruence).
  unfold ensure_mutation in Ef. cbn [ID Spec zero_state zero_spec] in Ef. rewrite String.eqb_refl in Ef.
  inv_run Ef. rewrite <- Hkm in Hc, Hcn.
  pose proof (provision_post stored zero_state w0 Hc eq_refl) as Hpost. eapply step_run in Hpost as [[Hqd _] Hq]; [|exact E0].
  destruct r1 as [e|[res s1]]; injection Ef as <- <-.
  - destruct Ho as [-> Hd]. injection E as <- <-. split; [by eexists|]. unfold keeps_document in Hd. congruence.
  - assert (¬ valid (St := St) (bump_revision 0 s1)) as Hnv.
    { intros Hv%validateState_None%no_common_name. destruct Hq as ((Hsp & _) & _). cbn in Hv, Hsp.
      destruct Hsp as [id Hsp]. rewrite Hsp in Hv. by apply Hcn. }
    destruct Ho as [(_ & ? & _)|(e & -> & [Hd|[? _]])]; [done| |done].
    injection E as <- <-. split; [by eexists|]. unfold keeps_document in Hd. congruence.
Qed.
End manager.

(** * Guards of the destructive operations

    The trust deadline computed from the ledger, the checks before a purge, and
    the comparison of the stored specification with the declaration. *)
From coqutil Require Import Datatypes.RecordSetters.
Import DoubleBraceUpdate.
#[local] Open Scope stdpp_scope.
#[local] Open Scope Z_scope.

(** ** The ledger deadline *)

Section guards.
Context `{Uni : Unicode, !UnicodeLaws, Cry : Crypto, Ent : !Env, !CryptoLaws, URLParser} {D St : Type}
  `{!Backend D} (stored : D → option authorityState) `{!BackendLaws D St stored}.

Abbreviation World := (world D (AuthorityManager St)).

(** C26: with a ledger, the trust deadline of a replaced root is computed from
    all pages and is exact: when the pages end, enough fuel gives the result,
    which no certificate issued under the root outlives (each record's expiry
    plus the clock skew is at most the deadline), and which one of them
    reaches unless there are none, when it is the zero time. *)
Theorem ledgerTrustDeadline_spec s g (w w' : World) records :
  pages "" w records w' →
  ∃ n d, (∀ fuel, (n ≤ fuel)%nat → ledgerTrustDeadline fuel s g "" 0 w = (Some (inr d), w')) ∧
    (∀ r, r ∈ records → issued_under s g r → ExpiresAt r + clockSkew ≤ d) ∧
    (d = 0 ∨ ∃ r, r ∈ records ∧ issued_under s g r ∧ d = ExpiresAt r + clockSkew).
Proof.
  intros Hp. destruct (ledgerTrustDeadline_fuel s g "" 0 w records w' Hp) as [n Hn].
  exists n, (deadline_of s g records 0). split; [done|].
  destruct (deadline_of_spec s g records 0) as (_ & Hcov & Hatt). by split.
Qed.

(** ** Purging *)

(** [Purge] removes the authority only when both expected values are given
    and are those of the stored authority; in every other case it returns an
    error and the stored document stays.  When it reports success, the manager
    is closed and holds no secret. *)
Theorem Purge_guard id fp (w w' : World) r :
  Purge id fp w = (r, w') →
  (r = None → generated (w_mem w') = ∅ ∧ closed (w_mem w') = true) ∧
  (stored (w_disk w') = stored (w_disk w) ∧ r ≠ None ∨
   ∃ s root, stored (w_disk w) = Some s ∧ id ≠ "" ∧ fp ≠ "" ∧ ID (Spec s) = id ∧
     Roots s !! ActiveRoot s = Some root ∧ root_Fingerprint root = fp).
Proof.
  intros E. unfold Purge in E. inv_run E.
  apply (load_law (St := St) (stored := stored)) in E0 as [[Hk Hm] Hs].
  destruct r0 as [e|s]; [injection E as <- <-; split; [done|by left]|].
  destruct (Hs s eq_refl) as [Es Hv]. apply validateState_None in Hv.
  destruct (String.eqb_spec id "") as [|Hid]; [injection E as <- <-; split; [done|by left]|].
  destruct (String.eqb_spec fp "") as [|Hfp]; [injection E as <- <-; split; [done|by left]|]. cbn [orb] in E.
  destruct (String.eqb_spec (ID (Spec s)) id) as [Eid|]; cbn [negb] in E; [|injection E as <- <-; split; [done|by left]].
  destruct (st_active _ Hv) as [_ [root Er]]. rewrite Er in E. cbn [from_option] in E.
  destruct (String.eqb_spec (root_Fingerprint root) fp) as [Efp|]; cbn [negb] in E;
    [|injection E as <- <-; split; [done|by left]].
  split; [|right; by exists s, root]. intros ->. inv_run E. destruct r; [done|].
  inv_run E. injection E1 as <- <-. inv_run E. injection E1 as <- <-. by injection E as <-.
Qed.
End guards.

(** ** The comparison with the declaration *)

Section drift.
Context `{Crypto} {D St : Type} `{!Backend D}.

Definition lost_identity_a : Identity := Build_Identity "a b" "c" "" "" "" "".
Definition lost_identity_b : Identity := Build_Identity "a" "b c" "" "" "" "".

(** A change of identity can go unnoticed.  [assertSpec] compares the
    printed values, and two different normal identities print the same: a
    manager that declares the second one gets the same answer from an authority
    that was made with the first one as if it had declared the first. *)
Theorem assertSpec_misses_identity (o : optionValues St) (s : authorityState) :
  identity o = lost_identity_b → spec_Identity (Spec s) = lost_identity_a →
  normalizeIdentity lost_identity_a = inr lost_identity_a ∧
  normalizeIdentity lost_identity_b = inr lost_identity_b ∧
  lost_identity_a ≠ lost_identity_b ∧
  assertSpec o s = assertSpec (o {{ identity := lost_identity_a }}) s.
Proof.
  intros Eo Es. split_and!; [by vm_compute|by vm_compute|by intros [=]|].
  assert (String.eqb (Sprint_identity lost_identity_b) (Sprint_identity lost_identity_a) = true) as Heq by by vm_compute.
  assert (String.eqb (Sprint_identity lost_identity_a) (Sprint_identity lost_identity_a) = true) as Heq' by by vm_compute.
  destruct o. cbn in Eo. subst. unfold assertSpec. cbn -[String.eqb Sprint_identity first_error].
  destruct b_principal as [ow gr]. rewrite Es, Heq, Heq'. by destruct identitySet.
Qed.
End drift.
