(* ===== verification/CertsWitnesses.v ===== *)
(** * Runs of the small instance

    The theorems about the authority manager at concrete worlds: a new
    authority with one issuer, a prepared root rotation, its promotion and its
    discarding. *)
From S2P Require Import Prelude.
From S2P Require Import GoStrings.
From S2P Require Import Utf8.
From S2P Require Import Text.
From S2P Require Import Errors.
From S2P Require Import GoNet.
From S2P Require Import CertsTypes.
From S2P Require Import CertsNames.
From S2P Require Import CertsCrypto.
From S2P Require Import CertsOptions.
From S2P Require Import CertsOptionsFacts.
From S2P Require Import CertsState.
From S2P Require Import CertsBackend.
From S2P Require Import CertsAuthority.
From S2P Require Import CertsStateFacts.
From S2P Require Import CertsStaged.
From S2P Require Import CertsExamples.
From S2P Require Import CertsAuthorityFacts.
From S2P Require Import CertsEnsure.
From S2P Require Import CertsOperations.
From S2P Require Import CertsTrustFacts.
From S2P Require Import CertsManager.
#[local] Open Scope stdpp_scope.
#[local] Open Scope Z_scope.

Abbreviation toy_world := (world memory_store (AuthorityManager ())).

Definition web_options : list (option (option_ ())) := [WithDNSSuffixes ["Example.com."]].
Definition web : IssuerDefinition :=
  match NewIssuerDefinition "Web" web_options with
  | inr d => d
  | inl _ => Build_IssuerDefinition "" "" 0 [] "" zero_Identity zero_SANPolicy
  end.

Lemma NewIssuerDefinition_spec_witness :
  NewIssuerDefinition "Web" web_options = inr web ∧
  normal_definition web ∧ validateDefinition (St := ()) web (def_Name web) = inr web.
Proof.
  split; [by vm_compute|]. apply (NewIssuerDefinition_spec "Web" web_options). by vm_compute.
Defined.

(** ** A manager of an empty store *)

Definition toy_options (v : Identity) : list (option (option_ ())) :=
  [WithStore (Some ()); WithAuthorityName "Acme"; WithIdentity v; WithIssuer web].

Definition toy_parsed (v : Identity) : optionValues () :=
  match parseOptions scopeAuthority (toy_options v) with inr o => o | inl _ => zero_options end.

Definition no_manager : AuthorityManager () := {| config := zero_options; generated := ∅; closed := true |}.
Definition toy_manager (v : Identity) : AuthorityManager () :=
  match (NewAuthorityManager (toy_options v) {| w_disk := empty_store; w_mem := (); w_tick := 0 |}).1 with
  | inr m => m
  | inl _ => no_manager
  end.
Definition toy_start (v : Identity) : toy_world :=
  {| w_disk := empty_store; w_mem := toy_manager v; w_tick := 0 |}.

Definition acme : Identity := Build_Identity "Acme" "" "SE" "" "" "".
Definition acme_named : Identity := Build_Identity "Acme" "" "SE" "" "" "Acme CA".

Lemma toy_config_ok v :
  manager_config (toy_parsed v) = inr (config (toy_manager v)) → identitySet (toy_parsed v) = true →
  authorityNameSet (toy_parsed v) = true → config_ok (config (toy_manager v)).
Proof. intros Hm Hi Hn. eapply manager_config_ok; [exact Hm| |]; congruence. Qed.

Lemma toy_sound : sound ms_document (toy_start acme).
Proof. split; [done|]. split; [by apply toy_config_ok; vm_compute|by vm_compute]. Qed.

Lemma calls_keep_authority_witness :
  sound ms_document (toy_start acme) ∧
  sound ms_document (run_calls [CEnsure []; CEnsure [WithRootRotateBefore 0]; CPromotePending 5 []] (toy_start acme)).2.
Proof. split; [apply toy_sound|]. apply (calls_keep_authority ms_document), toy_sound. Defined.

(** ** An existing authority and its rotation *)

Definition made : toy_world := (run_call (CEnsure []) (toy_start acme)).2.
Definition rotated_run := Ensure [WithRootRotateBefore 0] made.

Lemma made_sound : sound ms_document made.
Proof. apply (run_call_safe ms_document), toy_sound. Qed.
Lemma rotated_sound : sound ms_document (rotated_run).2.
Proof. apply (Ensure_safe ms_document [WithRootRotateBefore 0]), made_sound. Qed.

Definition document (w : toy_world) : authorityState := default zero_state (ms_document (w_disk w)).
Definition the_result {A} (d : A) (r : error + A) : A := match r with inr a => a | inl _ => d end.

Lemma Ensure_discard_witness :
  let res := the_result zero_EnsureResult rotated_run.1 in
  r_PendingKind res = PendingRoot ∧
  ∃ s2, ms_document (w_disk (DiscardPending rotated_run.2).2) = Some s2 ∧ same_content (document made) s2.
Proof.
  split; [by vm_compute|].
  destruct (Ensure_discard ms_document [WithRootRotateBefore 0] made rotated_run.2 (DiscardPending rotated_run.2).2
    (the_result zero_EnsureResult rotated_run.1) (document made)) as (s2 & Es & _ & _ & _ & _ & _ & _ & _ & Hs).
  - apply (proj1 made_sound). by vm_compute.
  - apply made_sound.
  - by vm_compute.
  - by vm_compute.
  - by vm_compute.
  - by vm_compute.
  - exists s2. split; [exact Es|]. apply Hs. by vm_compute.
Defined.

Definition promoted_run := PromotePending 5 [] rotated_run.2.
Definition promotion : PromotionResult := {| pr_RootGeneration := 2; pr_Revision := 3 |}.

Lemma PromotePending_spec_witness :
  ∃ p s', Pending (document rotated_run.2) = Some p ∧ ms_document (w_disk promoted_run.2) = Some s' ∧
    promotion = {| pr_RootGeneration := ActiveRoot s'; pr_Revision := Revision s' |}.
Proof.
  destruct (PromotePending_spec ms_document 5 [] rotated_run.2 promoted_run.2 promotion None (document rotated_run.2))
    as (p & s' & Hp & Hs & Hr & _).
  - apply rotated_sound.
  - by vm_compute.
  - by vm_compute.
  - exact (ex_intro _ p (ex_intro _ s' (conj Hp (conj Hs Hr)))).
Defined.

Definition named_run := Ensure [] (toy_start acme_named).

Lemma provision_common_name_witness :
  (∃ e, named_run.1 = inl e) ∧ ms_document (w_disk named_run.2) = None.
Proof.
  apply (provision_common_name ms_document [] (toy_start acme_named)).
  - by apply toy_config_ok; vm_compute.
  - by vm_compute.
  - done.
  - by vm_compute.
Defined.

(** ** Guards *)

Lemma Purge_guard_witness :
  let run := Purge "no such authority" "f" made in
  (run.1 = None → generated (w_mem run.2) = ∅ ∧ closed (w_mem run.2) = true) ∧
  (ms_document (w_disk run.2) = ms_document (w_disk made) ∧ run.1 ≠ None ∨
   ∃ s root, ms_document (w_disk made) = Some s ∧ "no such authority" ≠ "" ∧ "f" ≠ "" ∧
     ID (Spec s) = "no such authority" ∧ Roots s !! ActiveRoot s = Some root ∧ root_Fingerprint root = "f").
Proof. apply (Purge_guard ms_document "no such authority" "f" made), surjective_pairing. Defined.

Lemma ledgerTrustDeadline_spec_witness :
  ∃ n d, (∀ fuel, (n ≤ fuel)%nat →
      ledgerTrustDeadline fuel (document made) 1 "" 0 made = (Some (inr d), made)) ∧
    (∀ r, r ∈ [] → issued_under (document made) 1 r → ExpiresAt r + clockSkew ≤ d) ∧
    (d = 0 ∨ ∃ r, r ∈ [] ∧ issued_under (document made) 1 r ∧ d = ExpiresAt r + clockSkew).
Proof.
  apply (ledgerTrustDeadline_spec (document made) 1 made made []). constructor. by vm_compute.
Defined.

Definition lost_options : optionValues () :=
  match parseOptions scopeAuthority [WithIdentity lost_identity_b] with inr o => o | inl _ => zero_options end.
Definition lost_state : authorityState :=
  let sp := Spec zero_state in
  {| Spec := {| ID := ID sp; FormatVersion := 1; spec_Name := "Acme"; spec_Identity := lost_identity_a;
                RootValidity := Hour; spec_KeySpec := ECDSAP256; EncryptedRootKeys := true;
                spec_IssuanceMode := IssuanceNone; spec_Owner := "owner"; spec_Group := "group";
                spec_Backend := "memory" |};
     Revision := 1; ActiveRoot := 1; Roots := ∅; Issuers := ∅; Pending := None |}.

Lemma assertSpec_misses_identity_witness :
  assertSpec lost_options lost_state = None ∧ lost_identity_a ≠ lost_identity_b.
Proof.
  split; [by vm_compute|]. apply (assertSpec_misses_identity lost_options lost_state); by vm_compute.
Defined.
