(* ===== verification/IssuerWitnesses.v ===== *)
(** * Runs of the small issuer

    The theorems about bundles, trust, requests and signing at concrete
    values: the issuer of the small authority signs a request, and the
    certificates it issues are loaded, ordered and saved. *)
From S2P Require Import Prelude.
From S2P Require Import GoStrings.
From S2P Require Import Utf8.
From S2P Require Import Text.
From S2P Require Import Errors.
From S2P Require Import GoNet.
From S2P Require Import CertsTypes.
From S2P Require Import CertsNames.
From S2P Require Import CertsCrypto.
From S2P Require Import CertsOptions.
From S2P Require Import CertsOptionsFacts.
From S2P Require Import CertsState.
From S2P Require Import CertsBackend.
From S2P Require Import CertsAuthority.
From S2P Require Import CertsStateFacts.
From S2P Require Import CertsFiles.
From S2P Require Import CertsBundle.
From S2P Require Import CertsBundleFacts.
From S2P Require Import CertsLoad.
From S2P Require Import CertsTrust.
From S2P Require Import CertsIssuer.
From S2P Require Import CertsIssuerFacts.
From S2P Require Import CertsStaged.
From S2P Require Import CertsTrustFacts.
From S2P Require Import CertsExamples.
From S2P Require Import CertsAuthorityFacts.
From S2P Require Import CertsSigning.
From S2P Require Import CertsCsr.
From S2P Require Import CertsIssuance.
From S2P Require Import CertsManager.
From S2P Require Import CertsWitnesses.
#[local] Open Scope stdpp_scope.
#[local] Open Scope Z_scope.

(** ** A file system in which every call succeeds *)

Definition folder : FileInfo := {|
  fi_symlink := false; fi_dir := true; fi_regular := false; fi_perm := 493; fi_uid := 0; fi_gid := 0 |}.

#[export] Instance toy_host : Host := {|
  h_Abs _ p := inr p;
  h_Lstat _ p := if String.eqb p "/d" then inr folder else inl ErrNotExist;
  h_ReadFile _ _ := inl ErrNotExist;
  h_CreateTemp _ _ := inr "/d/.tmp";
  h_do _ _ := None |}.

Definition saved := atomicSave (St := ()) "/d/a.pem" "data" mode_public [] [].

Lemma atomicSave_spec_witness :
  saved.1 = None ∧ ∃ t, saved.2 = [] ++ t ∧ ∃ o, parseOptions (St := ()) scopeSave [] = inr o ∧
    save_done "/d/a.pem" "data" mode_public (replace o) [] t.
Proof.
  split; [by vm_compute|].
  apply (atomicSave_spec (St := ()) "/d/a.pem" "data" mode_public [] [] None saved.2). by vm_compute.
Defined.

(** ** The issuer of the small authority *)

Definition zero_cert : Certificate :=
  Build_Certificate "" "" "" (identityName zero_Identity) 0 0 0 false false 0 false 0 [] (OtherKey "") "" "" zero_SANs.
Definition no_issuer_manager : IssuerManager := {|
  im_name := ""; im_slug := ""; im_revision := 0; im_definition := web;
  im_version := Build_issuerVersion 0 0 "" "" ""; im_issuerCert := zero_cert; im_rootCert := zero_cert;
  im_signer := None; im_mode := ""; im_closed := true |}.

Definition toy_issuer : IssuerManager :=
  the_result no_issuer_manager (opened_issuer (document made) "Web" "web" false).
Definition issuer_world : world memory_store IssuerManager :=
  {| w_disk := w_disk made; w_mem := toy_issuer; w_tick := 100 |}.

Definition leaf_subject : Identity := Build_Identity "Acme" "" "SE" "" "" "a.example.com".
Definition leaf_sans : SANs := Build_SANs ["a.example.com"; "b.example.com"] [] [] [].

Definition csr_options : list (option (option_ ())) := [WithSubject leaf_subject; WithSANs leaf_sans].
Definition csr_run := NewCSR csr_options ([] : history).
Definition no_request : CertificateRequest := Build_CertificateRequest (identityName zero_Identity) (OtherKey "") [] zero_SANs.
Definition csr_bundle : CSRBundle :=
  the_result {| cb_csr := no_request; cb_csrDER := ""; cb_key := None; cb_passphrase := "" |} csr_run.1.

(** A request with an IPv4 address in its long form and a URI. *)
Definition many_sans : SANs := Build_SANs ["a.example.com"] [v4_in_6 +:+ unchars (map chr [10; 0; 0; 1])]
  [Some {| Scheme := "https"; URL_String := "https://a.example.com" |}] ["a@example.com"].
Definition many_options : list (option (option_ ())) := [WithSubject leaf_subject; WithSANs many_sans].
Definition many_run := NewCSR many_options ([] : history).
Definition many_bundle : CSRBundle := the_result csr_bundle many_run.1.

Lemma NewCSR_spec_witness :
  ∃ csr, parseCSRPEM (CSRPEM (Some many_bundle)) = inr csr ∧ strictCSRIdentity csr = inr leaf_subject ∧
    csr_names csr = Build_SANs ["a.example.com"] [unchars (map chr [10; 0; 0; 1])]
      [Some {| Scheme := "https"; URL_String := "https://a.example.com" |}] ["a@example.com"].
Proof.
  destruct (NewCSR_spec many_options [] many_run.2 many_bundle) as (o & v & names & csr & key & Eo & Ev & En & Ep & Es & _ & Hn & _).
  - by vm_compute.
  - exists csr. injection Eo as <-. injection Ev as <-. injection En as <-. split; [exact Ep|]. split; [exact Es|].
    apply Hn. constructor; [|constructor]. eexists. split; reflexivity.
Defined.

Definition sign_options : list (option (option_ ())) := [WithProfile TLSServer; WithLifetime Hour].
Definition sign_run := SignCSR 1 (CSRPEM (Some csr_bundle)) sign_options issuer_world.
Definition no_bundle : CertificateBundle := Build_CertificateBundle [] None [] None None "".
Definition signed : CertificateBundle :=
  match sign_run.1 with Some (inr b) => b | _ => no_bundle end.

Lemma signed_run : SignCSR 1 (CSRPEM (Some csr_bundle)) sign_options issuer_world = (Some (inr signed), sign_run.2).
Proof. by vm_compute. Qed.

Lemma SignCSR_spec_witness :
  ∃ cert, b_leaf signed = Some cert ∧ b_certs signed ≡ₚ [cert; im_issuerCert toy_issuer; im_rootCert toy_issuer] ∧
    NotAfter cert ≤ NotAfter (im_issuerCert toy_issuer) - clockSkew.
Proof.
  destruct (SignCSR_spec ms_document 1 (CSRPEM (Some csr_bundle)) sign_options issuer_world signed sign_run.2 signed_run)
    as (q & w1 & cert & serial & der & _ & Hleaf & Hcerts & _ & _ & [Ha Hb] & _).
  assert (w_mem sign_run.2 = toy_issuer) as Em by (by vm_compute). rewrite Em in Hcerts, Hb.
  exists cert. split; [exact Hleaf|]. split; [exact Hcerts|]. exact (Z.le_trans _ _ _ Ha Hb).
Defined.

Definition parsed_csr : CertificateRequest := the_result no_request (parseCSRPEM (CSRPEM (Some csr_bundle))).
Definition sign_values : optionValues () :=
  match parseOptions scopeSign sign_options with inr o => o | inl _ => zero_options end.

Lemma made_state_ok : state_ok (St := ()) (document made).
Proof. apply (proj1 made_sound). by vm_compute. Qed.

Lemma toy_linked : linked_names (im_issuerCert toy_issuer) (im_rootCert toy_issuer).
Proof. constructor; by vm_compute. Qed.

Lemma toy_rand n : ∃ bytes, env_rand n 20 = inr bytes.
Proof. by eexists. Qed.

Lemma toy_creates n t parent pub signer : sans_plain (cert_SANs t) = true →
  ∃ der cert, env_CreateCertificate n t parent pub signer = inr der ∧ x509_ParseCertificate der = inr cert.
Proof.
  intros Hp. destruct (parse_created t (issuer_text parent) pub signer Hp) as (c & Ec & _).
  eexists _, c. cbn -[parse_cert]. rewrite Hp. split; [done|]. by rewrite Ec.
Qed.

Lemma SignCSR_issues_witness :
  ∃ b cert w', SignCSR 1 (CSRPEM (Some csr_bundle)) sign_options issuer_world = (Some (inr b), w') ∧
    b_leaf b = Some cert ∧ cert_PublicKey cert = csr_PublicKey parsed_csr ∧ names_read leaf_sans (cert_SANs cert).
Proof.
  apply (SignCSR_issues 1 (CSRPEM (Some csr_bundle)) sign_options (document made) issuer_world sign_values parsed_csr
    leaf_subject leaf_sans leaf_subject leaf_sans).
  - apply made_state_ok.
  - by vm_compute.
  - by vm_compute.
  - apply toy_linked.
  - by vm_compute.
  - by vm_compute.
  - by vm_compute.
  - by vm_compute.
  - by vm_compute.
  - by vm_compute.
  - by vm_compute.
  - by vm_compute.
  - by vm_compute.
  - by (vm_compute; right; left).
  - split; by vm_compute.
  - by vm_compute.
  - exact toy_rand.
  - intros ski _ t n bytes key _ _. apply toy_creates. by vm_compute.
Defined.

(** ** Policy *)

Lemma validateRequest_spec_witness :
  validateRequest web leaf_subject leaf_sans = None ∧ request_allowed web leaf_subject leaf_sans.
Proof.
  split; [by vm_compute|]. apply (validateRequest_spec web leaf_subject leaf_sans); [| |by vm_compute].
  - repeat constructor; by vm_compute.
  - repeat constructor; by vm_compute.
Defined.

(** ** Ledger records *)

Definition toy_request (life : Duration) : leaf_request := {|
  lr_subject := leaf_subject; lr_sans := leaf_sans; lr_profile := TLSServer;
  lr_key := csr_PublicKey parsed_csr; lr_ski := "k"; lr_now := 1000 * Hour; lr_notAfter := 1000 * Hour + life |}.
Definition toy_leaf_der : string :=
  match env_CreateCertificate 0 (leaf_template (toy_request 1500000000) 5 toy_issuer) (im_issuerCert toy_issuer)
    (csr_PublicKey parsed_csr) (signer_of (OtherKey "s")) with inr d => d | inl _ => "" end.
Definition toy_leaf : Certificate := the_result zero_cert (parseCertDER toy_leaf_der).

Lemma toy_leaf_clean : clean_SANs leaf_sans.
Proof. constructor; repeat constructor; by vm_compute. Qed.

(** A lifetime of a second and a half: the record is refused. *)
Lemma ledger_record_valid_witness :
  validateLedgerRecord (ledger_record (toy_request 1500000000) toy_issuer 5 toy_leaf_der toy_leaf) ≠ None.
Proof.
  intros E. apply (ledger_record_valid 0 (toy_request 1500000000) 5 toy_issuer (im_issuerCert toy_issuer)
    (signer_of (OtherKey "s")) toy_leaf_der toy_leaf) in E.
  - revert E. by vm_compute.
  - by vm_compute.
  - by vm_compute.
  - apply toy_leaf_clean.
  - by vm_compute.
  - by vm_compute.
  - by vm_compute.
  - by vm_compute.
  - by vm_compute.
  - by vm_compute.
  - by vm_compute.
  - by vm_compute.
  - by vm_compute.
  - by vm_compute.
Defined.

(** ** Bundles *)

Definition shuffled : list (option Certificate) := map Some (reverse (b_certs signed)).
Definition leaf_key : option Signer := cb_key csr_bundle.
Definition keyed : CertificateBundle := the_result no_bundle (normalizeBundle shuffled leaf_key).

Lemma keyed_run : normalizeBundle shuffled leaf_key = inr keyed.
Proof. by vm_compute. Qed.

Lemma normalizeBundle_spec_witness :
  shuffled ≡ₚ map Some (b_certs keyed) ∧ chain_ok (b_certs keyed) ∧ length (b_certs keyed) = 3%nat.
Proof.
  destruct (normalizeBundle_spec shuffled leaf_key keyed keyed_run) as (Hp & _ & Hc & _).
  split; [exact Hp|]. split; [exact Hc|]. by vm_compute.
Defined.

Lemma normalizeBundle_perm_witness :
  normalizeBundle (reverse shuffled) leaf_key = inr keyed ∧ Validate (Some keyed) = None.
Proof.
  destruct (normalizeBundle_perm shuffled (reverse shuffled) leaf_key keyed (symmetry (reverse_Permutation _)) keyed_run)
    as (Hp & _ & Hv). exact (conj Hp Hv).
Defined.

Definition keyed_nth (n : nat) : Certificate := default zero_cert (b_certs keyed !! n).

Lemma keyed_certs : b_certs keyed = [keyed_nth 0; keyed_nth 1; keyed_nth 2].
Proof. by vm_compute. Qed.

Lemma keyed_parsed : Forall parsed (b_certs keyed).
Proof.
  rewrite keyed_certs. apply Forall_cons. split; [by vm_compute|]. apply Forall_cons. split; [by vm_compute|].
  apply Forall_singleton. by vm_compute.
Qed.

(** The chain in two inputs, the issuers first. *)
Definition two_parts : list (list Certificate) := [drop 1 (b_certs keyed); take 1 (b_certs keyed)].

Lemma bundle_reload_witness :
  NewCertificateBundle (pem_options (St := ()) (map certsPEM two_parts) leaf_key) [] = (inr keyed, []).
Proof.
  apply (bundle_reload shuffled leaf_key keyed two_parts []).
  - exact keyed_run.
  - by vm_compute.
  - exact keyed_parsed.
  - repeat constructor; by vm_compute.
  - unfold two_parts. cbn [concat]. rewrite app_nil_r, (comm (++)). by rewrite take_drop.
Defined.

(** ** Trust *)

Lemma inr_eq {B} (x y : B) : @inr error B x = inr y → x = y.
Proof. by intros [= ->]. Qed.

Definition toy_root : Certificate := im_rootCert toy_issuer.
Definition root_bundle : TrustBundle := {| t_certs := [toy_root] |}.

Lemma root_bundle_run : newTrustBundle [Some toy_root] = inr root_bundle.
Proof. by vm_compute. Qed.

Lemma newTrustBundle_spec_witness :
  TrustBundle_Validate (Some root_bundle) = None.
Proof. exact (proj2 (newTrustBundle_spec [Some toy_root] root_bundle) root_bundle_run). Defined.

Lemma trust_reload_witness :
  NewTrustBundle (pem_options (St := ()) (map certsPEM [[toy_root]]) None) [] = (inr root_bundle, []).
Proof.
  apply (trust_reload [Some toy_root] root_bundle [[toy_root]] []).
  - exact root_bundle_run.
  - apply Forall_singleton. by vm_compute.
  - by apply Forall_singleton.
  - done.
Defined.

Lemma buildTrustBundle_spec_witness :
  ∃ b, buildTrustBundle (document made) (2000000 * Hour) = inr b ∧ NoDup (Raw <$> t_certs b) ∧
    ∀ c, c ∈ t_certs b ↔ to_trust (document made) (2000000 * Hour) c.
Proof.
  pose proof (buildTrustBundle_spec (document made) (2000000 * Hour) made_state_ok) as Hs.
  destruct (buildTrustBundle (document made) (2000000 * Hour)) as [e|b] eqn:E.
  - exfalso. assert (match buildTrustBundle (document made) (2000000 * Hour) with inl _ => false | inr _ => true end = true) as Hc
      by (by vm_compute).
    rewrite E in Hc. discriminate Hc.
  - destruct Hs as (_ & Hn & Hm & _). exact (ex_intro _ b (conj eq_refl (conj Hn Hm))).
Defined.

Definition rotated_doc : authorityState := document rotated_run.2.
Lemma rotated_inv : authority_inv (St := ()) rotated_doc.
Proof. apply (proj1 rotated_sound). by vm_compute. Qed.

Definition promote_options : optionValues () :=
  match parseOptions scopePromote [] with inr o => o | inl _ => zero_options end.

(** The rotation of the small authority is promoted, and its bundle stays the
    same for the time that leaves may live. *)
Lemma trust_continuity_witness :
  ∃ x s' w', promote_mutation 5 promote_options rotated_doc rotated_run.2 = (MDone x s', w') ∧
    ∃ p d, Pending rotated_doc = Some p ∧ ∀ t b, (Kind_ p = "root" → t < d) →
      buildTrustBundle rotated_doc t = inr b ↔ buildTrustBundle s' t = inr b.
Proof.
  destruct (promote_mutation 5 promote_options rotated_doc rotated_run.2) as [o w'] eqn:E.
  assert (match o with MDone _ _ => True | _ => False end) as Ho.
  { assert (match (promote_mutation 5 promote_options rotated_doc rotated_run.2).1 with MDone _ _ => true | _ => false end = true)
      as Hc by (by vm_compute). rewrite E in Hc. by destruct o. }
  destruct o as [e|a|x s']; [destruct Ho|destruct Ho|]. exists x, s', w'. split; [reflexivity|].
  destruct (trust_continuity 5 promote_options rotated_doc rotated_run.2 rotated_inv) as [Hp _].
  - by vm_compute.
  - intros n. cbn. unfold Second, Hour, Minute, Second. lia.
  - destruct (Hp x s' w' E) as (p & d & Hpend & _ & Hb). exact (ex_intro _ p (ex_intro _ d (conj Hpend Hb))).
Defined.
