(* ===== verification/FileStoreWitnesses.v ===== *)
(** * Runs of a small file store

    A disk with one directory and a kernel in which every call succeeds: the
    authority of the small instance is written and read back, and a certificate
    is recorded in its ledger. *)
From S2P Require Import Prelude.
From S2P Require Import GoStrings.
From S2P Require Import Utf8.
From S2P Require Import Text.
From S2P Require Import Errors.
From S2P Require Import GoNet.
From S2P Require Import CertsTypes.
From S2P Require Import CertsNames.
From S2P Require Import CertsCrypto.
From S2P Require Import CertsOptions.
From S2P Require Import CertsOptionsFacts.
From S2P Require Import CertsState.
From S2P Require Import CertsBackend.
From S2P Require Import CertsAuthority.
From S2P Require Import CertsStateFacts.
From S2P Require Import CertsFiles.
From S2P Require Import CertsBundle.
From S2P Require Import CertsBundleFacts.
From S2P Require Import CertsLoad.
From S2P Require Import CertsTrust.
From S2P Require Import CertsIssuer.
From S2P Require Import CertsIssuerFacts.
From S2P Require Import CertsStaged.
From S2P Require Import CertsTrustFacts.
From S2P Require Import CertsExamples.
From S2P Require Import CertsAuthorityFacts.
From S2P Require Import CertsSigning.
From S2P Require Import CertsCsr.
From S2P Require Import CertsIssuance.
From S2P Require Import CertsManager.
From S2P Require Import CertsWitnesses.
From S2P Require Import IssuerWitnesses.
From S2P Require Import CertsDisk.
From S2P Require Import CertsFileStore.
From S2P Require Import CertsFileStoreFacts.
From S2P Require Import CertsFileStoreLaws.
From S2P Require Import CertsFileLedger.
#[local] Open Scope stdpp_scope.
#[local] Open Scope Z_scope.
Import FileStore.

#[export] Instance toy_kernel : Kernel := {|
  k_Getwd := ""; k_Geteuid := 0; k_Getegid := 0; k_umask := 18;
  k_Lookup _ := inr "0"; k_LookupGroup _ := inr "0"; k_Getgroups _ := inr [0];
  k_random n := N.of_nat n; k_fault _ := None; k_busy _ := 1%nat; k_ctx _ := None |}.

(** The one document and the one record that are written. *)
Definition sample : authorityState := document made.
Definition sample_request : leaf_request := toy_request Hour.
Definition sample_der : string :=
  match env_CreateCertificate 0 (leaf_template sample_request 5 toy_issuer) (im_issuerCert toy_issuer)
    (csr_PublicKey parsed_csr) (signer_of (OtherKey "s")) with inr d => d | inl _ => "" end.
Definition sample_leaf : Certificate := the_result zero_cert (parseCertDER sample_der).
Definition sample_record : LedgerRecord := ledger_record sample_request toy_issuer 5 sample_der sample_leaf.

#[export] Instance toy_json : JSON := {|
  json_state st := if bool_decide (st = sample) then inr "state" else inl (SysError "json");
  unjson_state text := if String.eqb text ("state" +:+ nl) then inr sample else inl (SysError "json");
  json_unlocks _ := inr "{}";
  unjson_unlocks _ := inr ∅;
  json_record r := if bool_decide (r = sample_record) then inr "record" else inl (SysError "json");
  unjson_record text := if String.eqb text ("record" +:+ nl) then inr sample_record else inl (SysError "json") |}.

#[export] Instance toy_json_laws : JSONLaws ().
Proof.
  split.
  - intros st d _. cbn. case_bool_decide as E; [|done]. intros [= <-]. by rewrite E.
  - intros r d _. cbn. case_bool_decide as E; [|done]. intros [= <-]. rewrite E. split; [|done].
    apply (bool_decide_unpack _). by vm_compute.
Qed.

Definition shop : FileStore := {| directory := "/d"; owner := "root"; group := "root"; uid := 0; gid := 0 |}.

Definition owned (k : node_kind) (perm : Z) : node := {| nd_kind := k; nd_perm := perm; nd_uid := 0; nd_gid := 0 |}.
Definition empty_shop : tree := <["/" := owned KDir (mode 7 5 5)]> (<["/d" := owned KDir (mode 7 5 0)]> ∅).

Definition on_tree {M} (t : tree) (m : M) : world disk M :=
  {| w_disk := {| d_tree := t; d_calls := 0 |}; w_mem := m; w_tick := 0 |}.

Definition write_sample : authorityState → stm (world disk ()) (outcome ()) := λ _, mret (MDone () sample).
Definition written := update (St := ()) shop write_sample (on_tree empty_shop ()).

Lemma FileStore_refines_witness :
  BackendLaws disk () (Backend0 := file_backend () shop) (stored_document shop) ∧
  written.1 = inr () ∧ stored_document shop (w_disk written.2) = Some sample.
Proof.
  split; [apply (FileStore_refines (St := ()) shop); done|]. split; by vm_compute.
Defined.

(** ** The ledger of a shop with an authority *)

Definition open_shop : tree :=
  <["/d/ca.json" := owned (KFile ("state" +:+ nl)) (mode 6 4 0)]>
  (<["/d/ca.lock" := owned (KFile "") (mode 6 4 0)]>
  (<["/d/ledger" := owned KDir (mode 7 7 0)]>
  (<["/d/ledger/ledger.jsonl" := owned (KFile "") (mode 6 6 0)]>
  (<["/d/ledger/ledger.lock" := owned (KFile "") (mode 6 6 0)]> empty_shop)))).

Definition appended := appendLedger (St := ()) shop sample_record (on_tree open_shop ()).

Lemma appended_run : appendLedger (St := ()) shop sample_record (on_tree open_shop ()) = (None, appended.2).
Proof. by vm_compute. Qed.

Lemma appendLedger_spec_witness :
  stored_ledger shop (tree_of (on_tree open_shop ())) = Some [] ∧
  stored_ledger shop (tree_of appended.2) = Some [sample_record].
Proof.
  destruct (appendLedger_spec (St := ()) shop sample_record (on_tree open_shop ()) None appended.2 ltac:(done) appended_run)
    as (_ & _ & st & l & _ & _ & _ & Hl & _ & Ha & _).
  assert (stored_ledger shop (tree_of (on_tree open_shop ())) = Some []) as E by (by vm_compute).
  rewrite E in Hl. injection Hl as <-. exact (conj E Ha).
Defined.

Lemma lookupLedger_spec_witness :
  ∃ l, stored_ledger shop (tree_of appended.2) = Some l ∧ sample_record ∈ l ∧
    entry_key sample_record = (Issuer sample_record, 1, "5").
Proof.
  apply (lookupLedger_spec shop (Issuer sample_record) 1 "5" appended.2 (inr sample_record)
    (lookupLedger shop (Issuer sample_record) 1 "5" appended.2).2).
  by vm_compute.
Defined.

Lemma file_pages_spec_witness :
  ∃ r w', ledger_pages (D := disk) (Backend0 := file_backend () shop) 1 "" []
      (on_tree (tree_of appended.2) no_issuer_manager) = (Some r, w') ∧
    ∀ all, r = inr all → all = [sample_record].
Proof.
  apply (file_pages_spec (St := ()) shop (on_tree (tree_of appended.2) no_issuer_manager) [sample_record] 1).
  - by vm_compute.
  - by vm_compute.
  - cbn. lia.
Defined.

(** The largest limit and any cursor but the first: the sum overflows. *)
Lemma page_bounds_witness :
  page [sample_record] 1 max_int64 = inl panic_slice.
Proof.
  rewrite (page_bounds [sample_record] 1 max_int64).
  - by vm_compute.
  - by vm_compute.
  - by vm_compute.
  - by vm_compute.
Defined.
