(* ===== verification/SqliteWitnesses.v ===== *)
(** * Runs of a small SQLite store

    A driver that satisfies the laws of [SQLiteLaws], and a store on a disk with
    one directory: the authority of the small instance is written and loaded, and
    a certificate is recorded and found. *)
From S2P Require Import Prelude.
From S2P Require Import GoStrings.
From S2P Require Import GoPath.
From S2P Require Import Utf8.
From S2P Require Import Errors.
From S2P Require Import GoNet.
From S2P Require Import CertsTypes.
From S2P Require Import CertsNames.
From S2P Require Import CertsCrypto.
From S2P Require Import CertsOptions.
From S2P Require Import CertsState.
From S2P Require Import CertsBackend.
From S2P Require Import CertsFiles.
From S2P Require Import CertsDisk.
From S2P Require Import CertsFileStore.
From S2P Require Import CertsFileStoreFacts.
From S2P Require Import CertsExamples.
From S2P Require Import CertsWitnesses.
From S2P Require Import IssuerWitnesses.
From S2P Require Import FileStoreWitnesses.
From S2P Require Import CertsSql.
From S2P Require Import CertsSqliteStore.
From S2P Require Import CertsSqliteFacts.
From S2P Require Import CertsSqliteLaws.
From S2P Require Import CertsSqliteParity.
From S2P Require Import CertsSqliteLedger.
From Stdlib Require Import Ascii.
#[local] Open Scope stdpp_scope.
#[local] Open Scope Z_scope.
Import SQLiteStore.

(** ** The text of the documents *)

#[export] Instance toy_sql_text : SQLText := {|
  marshal_state st := if bool_decide (st = sample) then inr ("state" +:+ nl) else inl (SysError "json");
  marshal_spec _ := inr "spec";
  marshal_definition _ := inr "definition";
  marshal_pending _ := inr "pending";
  marshal_record r := if bool_decide (r = sample_record) then inr ("record" +:+ nl) else inl (SysError "json");
  format_time t := Itoa t;
  user_Current := inr ("root", "0") |}.

#[export] Instance toy_sql_text_laws : SQLTextLaws ().
Proof.
  split.
  - intros st d _. cbn. case_bool_decide as E; [|done]. intros [= <-]. by rewrite E.
  - intros r d _. cbn. case_bool_decide as E; [|done]. intros [= <-]. by rewrite E.
Qed.

(** ** Databases as files *)

#[export] Instance ledger_row_eq_dec : EqDecision ledger_row.
Proof. solve_decision. Defined.
#[export] Instance database_eq_dec : EqDecision database.
Proof. solve_decision. Defined.
#[export] Instance ledger_row_countable : Countable ledger_row.
Proof.
  refine (inj_countable' (λ r, (lr_fingerprint r, lr_issuer r, lr_issuer_version r, lr_serial r, lr_document r))
    (λ '(f, i, v, n, d), Build_ledger_row f i v n d) _). by intros [].
Defined.
#[export] Instance database_countable : Countable database.
Proof.
  refine (inj_countable' (λ d, ((journal_mode d, schema_migrations d, authority_state d, authority_records d, root_generations d),
      (issuer_definitions d, issuer_versions d, topology_state d, encrypted_keys d, ledger d)))
    (λ '((j, m, a, r, g), (i, v, t, k, l)), Build_database j m a r g i v t k l) _). by intros [].
Defined.

(** The databases of the runs have short texts; any other is written in binary. *)
Definition db_new : database :=
  Build_database "delete" (Some {[1]}) (Some ∅) (Some ∅) (Some ∅) (Some ∅) (Some ∅) (Some ∅) (Some ∅) None.
Definition db_sample : database :=
  Build_database "delete" (Some {[1]}) (Some {[1 := (Revision sample, "state" +:+ nl)]})
    (Some {[ID (Spec sample) := (FormatVersion (Spec sample), "spec")]}) (Some (list_to_map (root_rows sample)))
    (Some (list_to_map (definition_rows sample))) (Some (list_to_map (version_rows sample)))
    (Some {[1 := (Revision sample, ActiveRoot sample, pending_text sample)]}) (Some (list_to_map (key_rows sample))) None.
Definition ledger_new : database := with_ledger [] empty_database.
Definition ledger_one : database := with_ledger [row_of_record sample_record ("record" +:+ nl)] empty_database.

Definition toy_image (d : database) : string :=
  if bool_decide (d = db_new) then "migrated" else if bool_decide (d = db_sample) then "stored"
  else if bool_decide (d = ledger_new) then "ledger_new" else if bool_decide (d = ledger_one) then "ledger_one"
  else String "." (bits (countable.encode d)).
Definition toy_parse (s : string) : sys_error + database :=
  if String.eqb s "" then inr empty_database else if String.eqb s "migrated" then inr db_new
  else if String.eqb s "stored" then inr db_sample else if String.eqb s "ledger_new" then inr ledger_new
  else if String.eqb s "ledger_one" then inr ledger_one
  else match s with
       | String _ s => match countable.decode (unbits s) with Some d => inr d | None => inl (SysError "file is not a database") end
       | "" => inl (SysError "file is not a database")
       end.

Lemma toy_parse_image d : toy_parse (toy_image d) = inr d.
Proof.
  unfold toy_image. repeat (case_bool_decide as E; [by rewrite E|clear E]).
  unfold toy_parse. cbn. by rewrite unbits_bits, countable.decode_encode.
Qed.

(** ** Data source names *)

Definition hex (c : ascii) : Z := let n := ord c in if n <? 65 then n - 48 else n - 55.
Fixpoint unescape (s : string) : string :=
  match s with
  | String a s' =>
      if Ascii.eqb a "%" then
        match s' with
        | String b (String c s'') => String (chr (16 * hex b + hex c)) (unescape s'')
        | _ => s
        end
      else String a (unescape s')
  | "" => ""
  end.

Definition toy_open (dsn : string) : sys_error + (string * bool) :=
  if IsAbs dsn then inr (dsn, false) else
  let p := unescape (TrimSuffix (sdrop 7 dsn) "?mode=ro") in
  if IsAbs p then inr (p, true) else inl (SysError "invalid uri authority").

Lemma unescape_byte c s : unescape (escape_byte c +:+ s) = String c (unescape s).
Proof. destruct c as [[] [] [] [] [] [] [] []]; reflexivity. Qed.
Lemma unescape_bytes p s : unescape (replace_bytes escape_byte p +:+ s) = p +:+ unescape s.
Proof.
  induction p as [|c p IH]; [done|]. cbn. by rewrite sapp_assoc, unescape_byte, IH.
Qed.

Lemma unescape_path p : unescape (TrimSuffix (escape_path p +:+ "?mode=ro") "?mode=ro") = p.
Proof.
  rewrite TrimSuffix_app. unfold escape_path. destruct (String.eqb_spec p "*") as [->|]; [done|].
  rewrite <- (sapp_nil_r (replace_bytes _ _)). by rewrite unescape_bytes, sapp_nil_r.
Qed.
Lemma toy_open_uri p : p ≠ "" →
  toy_open (sqliteReadOnlyDSN p) = if IsAbs p then inr (p, true) else inl (SysError "invalid uri authority").
Proof.
  intros Hp. unfold toy_open, sqliteReadOnlyDSN, file_url. rewrite (proj2 (String.eqb_neq p "") Hp).
  change (IsAbs (_ +:+ _)) with false. cbn iota.
  assert (∀ x, sdrop 7 (("file:" +:+ "//" +:+ x) +:+ "?mode=ro") = x +:+ "?mode=ro") as -> by done.
  cbn zeta. by rewrite unescape_path.
Qed.

#[export] Instance toy_sqlite : SQLite := {| db_image := toy_image; db_parse := toy_parse; open_dsn := toy_open |}.
#[export] Instance toy_sqlite_laws : SQLiteLaws.
Proof.
  split.
  - apply toy_parse_image.
  - done.
  - intros p Hp _. change (toy_open p = inr (p, false)). unfold toy_open. by rewrite Hp.
  - intros p Hp. change (toy_open (sqliteReadOnlyDSN p) = inr (p, true)). rewrite toy_open_uri by (by intros ->). by rewrite Hp.
  - intros host p Hh _ Hs.
    change (∃ e, toy_open (sqliteReadOnlyDSN (host +:+ "/" +:+ p)) = inl e). rewrite toy_open_uri by (by destruct host).
    assert (IsAbs (host +:+ "/" +:+ p) = false) as ->; [|by eexists]. destruct host as [|c host]; [done|].
    change (IsAbs _) with (Ascii.eqb "/" c && true). destruct (Ascii.eqb_spec "/" c) as [<-|]; [|done].
    by vm_compute in Hs.
Qed.

(** ** The store *)

Definition till : SQLiteStore := {|
  path := "/d/ca.sqlite"; owner := "root"; group := "root"; uid := 0; gid := 0; private := false; readOnly := false |}.
Definition in_till {M} (t : tree) (m : M) : world sqlite_disk M := {|
  w_disk := {| q_files := {| d_tree := t; d_calls := 0 |}; q_open := true |}; w_mem := m; w_tick := 0 |}.
Definition new_till : tree := <["/d/ca.sqlite" := owned (KFile "migrated") (mode 6 4 0)]> empty_shop.

Lemma till_path : store_path till ["d"] "ca.sqlite".
Proof. split; [done| |by vm_compute|done|by vm_compute]. repeat constructor; try done; cbn; set_solver. Qed.

Lemma SQLiteStore_refines_witness :
  BackendLaws sqlite_disk () (Backend0 := sqlite_backend () till) (stored_sql till) ∧
  stored_sql till {| q_files := {| d_tree := new_till; d_calls := 0 |}; q_open := true |} = None.
Proof. split; [exact (SQLiteStore_refines (St := ()) till ["d"] "ca.sqlite" till_path)|by vm_compute]. Defined.

(** Writing the sample and loading it. *)
Definition sell_sample : authorityState → stm (world sqlite_disk ()) (outcome ()) := λ st,
  mret (if Revision st =? 0 then MDone () sample else MError (ConflictError "sold" None)).
Definition sold := b_update (Backend := sqlite_backend () till) sell_sample (in_till new_till ()).
Lemma sold_run : b_update (Backend := sqlite_backend () till) sell_sample (in_till new_till ()) = (inr (), sold.2).
Proof. by vm_compute. Qed.

Lemma sample_first : bump_revision 0 sample = sample.
Proof. apply (bool_decide_unpack _). vm_compute. exact I. Qed.

Lemma done_inj {A W} (a a' : A) s s' (w w' : W) : (MDone a s, w) = (MDone a' s', w') → s = s'.
Proof. by intros [= _ -> _]. Qed.
Lemma sell_sample_done st st1 v v1 : sell_sample st v = (MDone () st1, v1) → bump_revision (Revision st) st1 = sample.
Proof.
  unfold sell_sample, mret, stm_ret. destruct (Z.eqb_spec (Revision st) 0) as [Hr|]; intros E.
  - apply done_inj in E. rewrite <- E, Hr. exact sample_first.
  - discriminate E.
Qed.

Lemma sql_update_load_witness :
  ∃ w, b_load (Backend := sqlite_backend () till) true sold.2 = (inr sample, w).
Proof.
  destruct (sql_update_load (St := ()) till ["d"] "ca.sqlite" true sell_sample (in_till new_till ()) () sold.2 till_path sold_run)
    as (st & w0 & st1 & w1 & w2 & Hf & Hl).
  - intros st v. unfold sell_sample, mret, stm_ret. cbn. by destruct (Revision st =? 0).
  - done.
  - by left.
  - exists w2. rewrite Hl, (sell_sample_done _ _ _ _ Hf). reflexivity.
Defined.

(** A stored document, and one whose rows have lost a key. *)
Definition with_database (d : database) : tree := <["/d/ca.sqlite" := owned (KFile (db_image d)) (mode 6 4 0)]> empty_shop.
Lemma lost_key : encrypted_keys (with_keys ∅ db_sample) ≠ Some (list_to_map (key_rows sample)).
Proof. apply (bool_decide_unpack _). vm_compute. exact I. Qed.
Lemma sql_load_exact_witness :
  ∃ r w', b_load (Backend := sqlite_backend () till) true (in_till (with_database (with_keys ∅ db_sample)) ()) = (r, w') ∧
    r ≠ inr sample.
Proof.
  destruct (sql_load_exact (St := ()) till ["d"] "ca.sqlite" (with_keys ∅ db_sample) true
    (in_till (with_database (with_keys ∅ db_sample)) ())) as (r & w' & E & Hr).
  - apply till_path.
  - done.
  - eexists. split; [|apply toy_parse_image]. reflexivity.
  - by left.
  - exists r, w'. split; [exact E|]. intros Hs. apply Hr in Hs as (data & _ & _ & _ & [_ _ _ _ _ Hk]).
    exact (lost_key Hk).
Defined.

(** A record in the ledger of a stored authority. *)
Definition open_till : tree :=
  <["/d/ca.ledger" := owned KDir (mode 7 7 0)]>
  (<["/d/ca.ledger/ledger.sqlite" := owned (KFile "ledger_new") (mode 6 6 0)]> (with_database db_sample)).
Definition receipt := appendLedger till sample_record (on_tree open_till (true, ())).
Lemma receipt_run : appendLedger till sample_record (on_tree open_till (true, ())) = (None, receipt.2).
Proof. by vm_compute. Qed.

Lemma receipt_found : ∃ r, (lookupLedger till (Issuer sample_record) (IssuerVersion sample_record) (Serial sample_record)
  receipt.2).1 = inr r.
Proof. eexists. vm_compute. reflexivity. Qed.

Lemma sql_append_spec_witness :
  (lookupLedger till (Issuer sample_record) (IssuerVersion sample_record) (Serial sample_record) receipt.2).1 = inr sample_record.
Proof.
  destruct (sql_append_spec (St := ()) till ["d"] "ca.sqlite" till_path sample_record (on_tree open_till (true, ())) None
    receipt.2 receipt_run) as (_ & st & _ & _ & _ & Hu).
  destruct (Hu [] ltac:(by vm_compute) ltac:(split; constructor)) as [_ Hl].
  destruct (Hl _ _ (surjective_pairing _)) as [E|(e & E & _)]; [exact E|].
  destruct receipt_found as [r Hr]. rewrite E in Hr. discriminate Hr.
Defined.
