(* ===== verification/Host.v ===== *)
(** * Facts about the host

    [src/host]: the platform, the identity and the executable of the process,
    and the names and addresses of the host.  What the operating system and the
    resolver answer are the classes [SystemQuery] and [NetworkQuery], the two
    interfaces of the package. *)
From stdpp Require Import pretty.
From S2P Require Import Prelude.
From S2P Require Import GoStrings.
From S2P Require Import Errors.
From S2P Require Import GoNet.
From Stdlib Require Import Ascii.
#[local] Open Scope stdpp_scope.
#[local] Open Scope Z_scope.

Module Host.

(** ** Platform *)

Definition Linux : string := "linux".
Definition Darwin : string := "darwin".
Definition Windows : string := "windows".

Record PlatformInfo := { OS : string; Arch : string }.
Definition platform (goos arch : string) : PlatformInfo := {| OS := goos; Arch := arch |}.
Definition IsUnix (o : string) : bool := String.eqb o Linux || String.eqb o Darwin.

(** ** The process *)

Lemma Itoa_not_empty z : Itoa z ≠ "".
Proof.
  unfold Itoa. destruct z as [|p|p]; [done| |done]. change (pretty (Z.pos p)) with (pretty (N.pos p)).
  destruct (pretty_N_head (N.pos p)) as (c & s & -> & _). done.
Qed.

(** What [errx.New] makes of a message and a cause. *)
Record host_error := { he_Message : string; he_Cause : option sys_error }.
Definition failure (message : string) (e : sys_error) : host_error := {| he_Message := message; he_Cause := Some e |}.

Record UserRecord := { u_Uid : string; u_Gid : string; u_Username : string; u_HomeDir : string }.
Record UserInfo := { UID : string; GID : string; Name : string; Home : string; IsRoot_ : bool }.
Record ProcessInfo := { PID : Z; Executable : string }.

(** [systemQuery], with the process ID; a lookup may answer a nil record. *)
Class SystemQuery := {
  effectiveUID : Z;
  lookupUser : string → sys_error + option UserRecord;
  currentUserRecord : sys_error + option UserRecord;
  executable : sys_error + string;
  evalSymlinks : string → sys_error + string;
  getwd : sys_error + string;
  getpid : Z;
}.

Section system.
Context `{SystemQuery}.

Definition isRoot (goos : string) (uid : Z) : bool := IsUnix goos && (uid =? 0).
Definition IsRoot (goos : string) : bool := isRoot goos effectiveUID.

Definition currentUser (goos : string) : host_error + UserInfo :=
  let '(uid, r) :=
    if IsUnix goos then let uid := Itoa effectiveUID in (uid, lookupUser uid) else ("", currentUserRecord) in
  match r with
  | inl e => inl (failure "host: resolving current user" e)
  | inr None => inl {| he_Message := "host: resolving current user: empty user record"; he_Cause := None |}
  | inr (Some u) =>
      inr {| UID := if String.eqb uid "" then u_Uid u else uid; GID := u_Gid u; Name := u_Username u;
             Home := u_HomeDir u; IsRoot_ := isRoot goos effectiveUID |}
  end.

Definition currentProcess : host_error + ProcessInfo :=
  match executable with
  | inl e => inl (failure "host: resolving executable" e)
  | inr exe =>
      match evalSymlinks exe with
      | inl e => inl (failure ("host: canonicalising executable " +:+ exe) e)
      | inr canonical => inr {| PID := getpid; Executable := canonical |}
      end
  end.

Definition workingDir : host_error + string :=
  match getwd with inl e => inl (failure "host: resolving working directory" e) | inr dir => inr dir end.

(** On Unix the identity is that of the effective user, whatever the user record says. *)
Lemma currentUser_spec goos u :
  currentUser goos = inr u →
  IsRoot_ u = IsRoot goos ∧
  if IsUnix goos then UID u = Itoa effectiveUID ∧
    ∃ r, lookupUser (Itoa effectiveUID) = inr (Some r) ∧ GID u = u_Gid r ∧ Name u = u_Username r ∧ Home u = u_HomeDir r
  else ∃ r, currentUserRecord = inr (Some r) ∧ UID u = u_Uid r ∧ GID u = u_Gid r ∧ Name u = u_Username r ∧ Home u = u_HomeDir r.
Proof.
  unfold currentUser, IsRoot. destruct (IsUnix goos).
  - destruct (lookupUser _) as [e|[r|]]; try done. intros [= <-]. cbn. split; [done|].
    destruct (String.eqb_spec (Itoa effectiveUID) "") as [E|_]; [|split; [done|by exists r]].
    by apply Itoa_not_empty in E.
  - destruct currentUserRecord as [e|[r|]]; try done. intros [= <-]. cbn. split; [done|]. by exists r.
Qed.
End system.

(** ** Addresses *)

Definition byte_at (ip : IP) (i : nat) : Z := match chars ip !! i with Some c => ord c | None => 0 end.

Definition IPv6loopback : IP := unchars (replicate 15 (chr 0) ++ [chr 1]).

(** [net.IP.Equal]: an IPv4 address and its IPv6 form are the same. *)
Definition Equal (ip x : IP) : bool :=
  if Nat.eqb (slen ip) (slen x) then String.eqb ip x
  else if Nat.eqb (slen ip) 4 && Nat.eqb (slen x) 16 then HasPrefix x v4_in_6 && String.eqb ip (sdrop 12 x)
  else if Nat.eqb (slen ip) 16 && Nat.eqb (slen x) 4 then HasPrefix ip v4_in_6 && String.eqb (sdrop 12 ip) x
  else false.

Definition IsLoopback (ip : IP) : bool :=
  match To4 ip with Some v4 => byte_at v4 0 =? 127 | None => Equal ip IPv6loopback end.
Definition IsLinkLocalMulticast (ip : IP) : bool :=
  match To4 ip with
  | Some v4 => (byte_at v4 0 =? 224) && (byte_at v4 1 =? 0) && (byte_at v4 2 =? 0)
  | None => Nat.eqb (slen ip) 16 && (byte_at ip 0 =? 255) && (Z.land (byte_at ip 1) 15 =? 2)
  end.
Definition IsLinkLocalUnicast (ip : IP) : bool :=
  match To4 ip with
  | Some v4 => (byte_at v4 0 =? 169) && (byte_at v4 1 =? 254)
  | None => Nat.eqb (slen ip) 16 && (byte_at ip 0 =? 254) && (Z.land (byte_at ip 1) 192 =? 128)
  end.

(** [net.Addr]: an [*net.IPNet], or something else. *)
Inductive Addr := AIPNet (ip : IP) | AOther.

(** [networkQuery]. *)
Class NetworkQuery := {
  hostname : sys_error + string;
  lookupIP : string → sys_error + list IP;
  lookupAddr : string → sys_error + list string;
  interfaceAddrs : sys_error + list Addr;
}.

(** ** Names and addresses *)

Record NetworkInfo := { Hostnames : list string; IPs : list IP }.

Definition appendUniqueString (values : list string) (value : string) : list string :=
  if String.eqb value "" then values else
  if existsb (λ existing, String.eqb existing value) values then values else values ++ [value].

Definition special (ip : IP) : bool := IsLoopback ip || IsLinkLocalUnicast ip || IsLinkLocalMulticast ip.

Definition addrIP (addr : Addr) : option IP :=
  match addr with AIPNet ip => if special ip then None else Some ip | AOther => None end.

Definition append_ip (current : list IP) (ip : IP) : list IP :=
  if String.eqb ip "" || special ip then current else
  if existsb (λ existing, Equal existing ip) current then current else current ++ [ip].
Definition appendIPs (current values : list IP) : list IP := foldl append_ip current values.

Section network.
Context `{NetworkQuery}.

(** The hostname with its short form, and its addresses. *)
Definition named : list string * list IP :=
  match hostname with
  | inl _ => ([], [])
  | inr name =>
      if String.eqb name "" then ([], []) else
      let names := appendUniqueString [] name in
      let names := match Cut name "." with Some (short, _) => appendUniqueString names short | None => names end in
      (names, match lookupIP name with inl _ => [] | inr ips => appendIPs [] ips end)
  end.

Definition add_addr (ips : list IP) (addr : Addr) : list IP :=
  match addrIP addr with Some ip => appendIPs ips [ip] | None => ips end.

(** The names that an address resolves to. *)
Definition add_names (names : list string) (ip : IP) : list string :=
  match lookupAddr (IP_String ip) with
  | inl _ => names
  | inr found => foldl (λ names name, appendUniqueString names (TrimSuffix name ".")) names found
  end.

Definition discoverNetwork : NetworkInfo :=
  let '(names, ips) := named in
  let ips := match interfaceAddrs with inl _ => ips | inr addrs => foldl add_addr ips addrs end in
  {| Hostnames := foldl add_names names ips; IPs := ips |}.
End network.

(** ** Addresses that are the same *)

Lemma Equal_canonical ip x : Equal ip x = true ↔ canonical ip = canonical x.
Proof.
  unfold Equal. destruct (canonical_cases ip) as [[Li ->]|[(z & -> & Lz & ->)|(-> & Ni & Mi)]],
    (canonical_cases x) as [[Lx ->]|[(y & -> & Ly & ->)|(-> & Nx & Mx)]].
  - rewrite Li, Lx, Nat.eqb_refl. apply String.eqb_eq.
  - rewrite Li, (mapped_length y), HasPrefix_app, mapped_drop by done. apply String.eqb_eq.
  - rewrite Li. destruct (Nat.eqb_spec 4 (slen x)); [lia|]. destruct (Nat.eqb_spec (slen x) 16) as [E|]; cbn [andb Nat.eqb].
    + rewrite Mx by done. split; [done|]. intros ->. lia.
    + split; [done|]. intros ->. lia.
  - rewrite Lx, (mapped_length z), HasPrefix_app, mapped_drop by done. apply String.eqb_eq.
  - rewrite !mapped_length by done. rewrite Nat.eqb_refl, String.eqb_eq. split; [|by intros ->].
    intros E%(f_equal (sdrop 12)). by rewrite !mapped_drop in E.
  - rewrite (mapped_length z) by done. destruct (Nat.eqb_spec 16 (slen x)) as [E|].
    + rewrite String.eqb_eq. split; [|by intros <-]. intros <-. rewrite HasPrefix_app in Mx. by specialize (Mx (eq_sym E)).
    + destruct (Nat.eqb_spec (slen x) 4); [done|]. cbn [andb Nat.eqb]. rewrite ?andb_false_r. split; [done|]. by intros <-.
  - rewrite Lx. destruct (Nat.eqb_spec (slen ip) 4); [done|]. cbn [andb Nat.eqb]. destruct (Nat.eqb_spec (slen ip) 16) as [E|]; cbn [andb Nat.eqb].
    + rewrite Mi by done. split; [done|]. by intros ->.
    + split; [done|]. by intros ->.
  - rewrite (mapped_length y) by done. destruct (Nat.eqb_spec (slen ip) 16) as [E|].
    + rewrite String.eqb_eq. split; [|by intros ->]. intros ->. rewrite HasPrefix_app in Mi. by specialize (Mi E).
    + destruct (Nat.eqb_spec (slen ip) 4); [done|]. cbn [andb Nat.eqb]. split; [done|]. by intros ->.
  - destruct (Nat.eqb_spec (slen ip) (slen x)) as [E|Hne]; [apply String.eqb_eq|].
    destruct (Nat.eqb_spec (slen ip) 4); [done|]. destruct (Nat.eqb_spec (slen x) 4); [done|]. rewrite andb_false_r.
    split; [done|]. by intros ->.
Qed.

(** ** What discovery finds *)

Definition eligible (ip : IP) : Prop := ip ≠ "" ∧ special ip = false.
(** Addresses without repetition, in either form, and without special ones. *)
Definition good_ips (l : list IP) : Prop := NoDup (map canonical l) ∧ Forall eligible l.
Definition good_names (l : list string) : Prop := NoDup l ∧ "" ∉ l.

Lemma append_ip_spec l ip :
  good_ips l →
  good_ips (append_ip l ip) ∧ (∃ t, append_ip l ip = l ++ t ∧ ∀ x, x ∈ t → x = ip) ∧
  (eligible ip → canonical ip ∈ map canonical (append_ip l ip)).
Proof.
  intros [Hn He]. unfold append_ip. destruct (String.eqb_spec ip "") as [->|Hne]; cbn [orb].
  { split; [done|]. split; [exists []; rewrite app_nil_r; split; [done|set_solver]|]. intros [? _]. done. }
  destruct (special ip) eqn:Es.
  { split; [done|]. split; [exists []; rewrite app_nil_r; split; [done|set_solver]|]. intros [_ ?]. congruence. }
  destruct (existsb _ l) eqn:Ex.
  - split; [done|]. split; [exists []; rewrite app_nil_r; split; [done|set_solver]|]. intros _.
    apply existsb_exists in Ex as (x & Hx%list_elem_of_In & E). apply Equal_canonical in E. rewrite <- E. by apply list_elem_of_fmap_2.
  - split; [split|split].
    + rewrite map_app. apply NoDup_app. split; [done|]. split; [|apply NoDup_singleton].
      intros c Hc ->%list_elem_of_singleton. apply list_elem_of_fmap in Hc as (x & E & Hx).
      assert (existsb (λ existing, Equal existing ip) l = true) as Ht; [|congruence].
      apply existsb_exists. exists x. split; [by apply list_elem_of_In|]. by apply Equal_canonical.
    + apply Forall_app. split; [done|]. by constructor.
    + exists [ip]. split; [done|]. intros x. by rewrite list_elem_of_singleton.
    + intros _. rewrite map_app, elem_of_app. right. by left.
Qed.

Lemma appendIPs_spec values : ∀ l, good_ips l →
  good_ips (appendIPs l values) ∧ (∃ t, appendIPs l values = l ++ t ∧ ∀ x, x ∈ t → x ∈ values) ∧
  ∀ ip, ip ∈ values → eligible ip → canonical ip ∈ map canonical (appendIPs l values).
Proof.
  unfold appendIPs. induction values as [|v values IH]; intros l Hl; cbn [foldl].
  { split; [done|]. split; [exists []; rewrite app_nil_r; split; [done|set_solver]|set_solver]. }
  destruct (append_ip_spec l v Hl) as (Hg & (t & Et & Ht) & Hv). destruct (IH _ Hg) as (Hg' & (t' & Et' & Ht') & Hv').
  split; [done|]. split.
  - exists (t ++ t'). rewrite app_assoc, <- Et. split; [done|]. set_solver.
  - intros ip [->|Hip]%elem_of_cons Hel; [|by apply Hv']. rewrite Et', map_app. apply elem_of_app. left. by apply Hv.
Qed.

Lemma appendUnique_spec l n :
  good_names l →
  good_names (appendUniqueString l n) ∧ (∃ t, appendUniqueString l n = l ++ t ∧ ∀ x, x ∈ t → x = n) ∧
  (n ≠ "" → n ∈ appendUniqueString l n).
Proof.
  intros [Hn He]. unfold appendUniqueString. destruct (String.eqb_spec n "") as [->|Hne].
  { split; [done|]. split; [exists []; rewrite app_nil_r; split; [done|set_solver]|done]. }
  destruct (existsb _ l) eqn:Ex.
  - split; [done|]. split; [exists []; rewrite app_nil_r; split; [done|set_solver]|]. intros _.
    apply existsb_exists in Ex as (x & Hx%list_elem_of_In & E). apply String.eqb_eq in E. by subst.
  - split; [split|split].
    + apply NoDup_app. split; [done|]. split; [|apply NoDup_singleton].
      intros c Hc ->%list_elem_of_singleton.
      assert (existsb (λ existing, String.eqb existing n) l = true) as Ht; [|congruence].
      apply existsb_exists. exists n. split; [by apply list_elem_of_In|]. apply String.eqb_refl.
    + rewrite elem_of_app, list_elem_of_singleton. naive_solver.
    + exists [n]. split; [done|]. intros x. by rewrite list_elem_of_singleton.
    + intros _. rewrite elem_of_app. right. by left.
Qed.

Section discovery.
Context `{NetworkQuery}.

(** The addresses that the host has: of its name and of its interfaces. *)
Definition address (ip : IP) : Prop :=
  (∃ name ips, hostname = inr name ∧ name ≠ "" ∧ lookupIP name = inr ips ∧ ip ∈ ips) ∨
  (∃ addrs, interfaceAddrs = inr addrs ∧ AIPNet ip ∈ addrs).
(** The names of the host, [ips] being its addresses. *)
Definition own_name (ips : list IP) (n : string) : Prop :=
  (∃ name, hostname = inr name ∧ name ≠ "" ∧ (n = name ∨ ∃ rest, Cut name "." = Some (n, rest))) ∨
  (∃ ip found name, ip ∈ ips ∧ lookupAddr (IP_String ip) = inr found ∧ name ∈ found ∧ n = TrimSuffix name ".").

Lemma good_nil_ips : good_ips [].
Proof. split; constructor. Qed.
Lemma good_nil_names : good_names [].
Proof. split; [constructor|set_solver]. Qed.

Lemma named_spec :
  good_names named.1 ∧ good_ips named.2 ∧
  (∀ n, n ≠ "" → n ∈ named.1 ↔ ∃ name, hostname = inr name ∧ name ≠ "" ∧ (n = name ∨ ∃ rest, Cut name "." = Some (n, rest))) ∧
  (∀ name, hostname = inr name → name ≠ "" → ∃ t, named.1 = name :: t) ∧
  ∀ ip, (ip ∈ named.2 → ∃ name ips, hostname = inr name ∧ name ≠ "" ∧ lookupIP name = inr ips ∧ ip ∈ ips) ∧
    ((∃ name ips, hostname = inr name ∧ name ≠ "" ∧ lookupIP name = inr ips ∧ ip ∈ ips) → eligible ip →
      canonical ip ∈ map canonical named.2).
Proof.
  unfold named. destruct hostname as [e|name].
  { split; [apply good_nil_names|]. split; [apply good_nil_ips|]. split; [set_solver|]. split; [done|]. set_solver. }
  destruct (String.eqb_spec name "") as [->|Hne].
  { split; [apply good_nil_names|]. split; [apply good_nil_ips|].
    split; [intros n _; split; [set_solver|intros (? & [= <-] & ? & _); done]|].
    split; [by intros ? [= <-]|]. intros ip. split; [set_solver|]. intros (? & ? & [= <-] & ? & _). done. }
  destruct (appendUnique_spec [] name good_nil_names) as (Hg & (t & Et & Ht) & Hin). cbn in Et.
  assert (appendUniqueString [] name = [name]) as E1.
  { unfold appendUniqueString. cbn. by rewrite (proj2 (String.eqb_neq name "") Hne). }
  rewrite E1 in *. clear Et Ht t Hin. cbn zeta. split; [|split; [|split; [|split]]].
  - cbn [fst]. destruct (Cut name ".") as [[short rest]|]; [|done]. by apply appendUnique_spec.
  - cbn [snd]. destruct (lookupIP name) as [e|ips]; [apply good_nil_ips|]. by apply appendIPs_spec, good_nil_ips.
  - intros n Hn. cbn [fst]. destruct (Cut name ".") as [[short rest]|] eqn:Ec.
    + destruct (appendUnique_spec [name] short Hg) as (_ & (t & Et & Ht) & Hs). rewrite Et in *. split.
      * intros [Hx|Hx]%elem_of_app; exists name; (split; [done|]; split; [done|]); [left; set_solver|right].
        exists rest. by rewrite Ec, (Ht n Hx).
      * intros (? & [= <-] & _ & [->|(r & Er)]); [set_solver|]. rewrite Ec in Er. injection Er as <- _. by apply Hs.
    + rewrite list_elem_of_singleton. split; [intros ->; exists name; auto|].
      intros (? & [= <-] & _ & [->|(r & Er)]); [done|]. congruence.
  - intros ? [= <-] _. cbn [fst]. destruct (Cut name ".") as [[short rest]|]; [|by exists []].
    destruct (appendUnique_spec [name] short Hg) as (_ & (t & Et & _) & _). rewrite Et. by exists t.
  - intros ip. cbn [snd]. destruct (lookupIP name) as [e|ips] eqn:El.
    { split; [set_solver|]. intros (? & ? & [= <-] & _ & E & _). congruence. }
    destruct (appendIPs_spec ips [] good_nil_ips) as (_ & (t & Et & Ht) & Hc). cbn in Et. split.
    + rewrite Et. intros Hip. exists name, ips. auto.
    + intros (? & ? & [= <-] & _ & E & Hip) Hel. rewrite El in E. injection E as <-. by apply Hc.
Qed.

Lemma add_addrs_spec addrs : ∀ l, good_ips l →
  good_ips (foldl add_addr l addrs) ∧
  (∃ t, foldl add_addr l addrs = l ++ t ∧ ∀ x, x ∈ t → AIPNet x ∈ addrs) ∧
  ∀ ip, AIPNet ip ∈ addrs → eligible ip → canonical ip ∈ map canonical (foldl add_addr l addrs).
Proof.
  induction addrs as [|a addrs IH]; intros l Hl; cbn [foldl].
  { split; [done|]. split; [exists []; rewrite app_nil_r; split; [done|set_solver]|set_solver]. }
  assert (good_ips (add_addr l a) ∧ (∃ t, add_addr l a = l ++ t ∧ ∀ x, x ∈ t → a = AIPNet x) ∧
    ∀ ip, a = AIPNet ip → eligible ip → canonical ip ∈ map canonical (add_addr l a)) as (Hg & (t & Et & Ht) & Hv).
  { unfold add_addr, addrIP. destruct a as [ip|].
    - destruct (special ip) eqn:Es.
      + split; [done|]. split; [exists []; rewrite app_nil_r; split; [done|set_solver]|]. intros ? [= <-] [_ ?]. congruence.
      + destruct (appendIPs_spec [ip] l Hl) as (Hg & (t & Et & Ht) & Hv). split; [done|]. split.
        * exists t. split; [done|]. intros x Hx%Ht. apply list_elem_of_singleton in Hx. by subst.
        * intros ? [= <-] Hel. apply Hv; [by left|done].
    - split; [done|]. split; [exists []; rewrite app_nil_r; split; [done|set_solver]|done]. }
  destruct (IH _ Hg) as (Hg' & (t' & Et' & Ht') & Hv'). split; [done|]. split.
  - exists (t ++ t'). rewrite app_assoc, <- Et. split; [done|]. intros x [Hx|Hx]%elem_of_app.
    + rewrite <- (Ht x Hx). by left.
    + right. by apply Ht'.
  - intros ip [<-|Hip]%elem_of_cons Hel; [|by apply Hv']. rewrite Et', map_app. apply elem_of_app. left. by apply Hv.
Qed.

Lemma fold_unique (f : string → string) found : ∀ l, good_names l →
  let l' := foldl (λ names name, appendUniqueString names (f name)) l found in
  good_names l' ∧ (∃ t, l' = l ++ t ∧ ∀ x, x ∈ t → ∃ name, name ∈ found ∧ x = f name) ∧
  ∀ name, name ∈ found → f name ≠ "" → f name ∈ l'.
Proof.
  induction found as [|a found IH]; intros l Hl; cbn [foldl].
  { split; [done|]. split; [exists []; rewrite app_nil_r; split; [done|set_solver]|set_solver]. }
  destruct (appendUnique_spec l (f a) Hl) as (Hg & (t & Et & Ht) & Hv). destruct (IH _ Hg) as (Hg' & (t' & Et' & Ht') & Hv').
  split; [done|]. split.
  - exists (t ++ t'). rewrite app_assoc, <- Et. split; [done|]. intros x [Hx|Hx]%elem_of_app.
    + exists a. split; [by left|by apply Ht].
    + destruct (Ht' x Hx) as (name & Hn & ->). exists name. split; [by right|done].
  - intros name [->|Hn]%elem_of_cons Hne; [|by apply Hv']. rewrite Et'. apply elem_of_app. left. by apply Hv.
Qed.

Lemma add_names_spec ips : ∀ l, good_names l →
  good_names (foldl add_names l ips) ∧
  (∃ t, foldl add_names l ips = l ++ t ∧ ∀ x, x ∈ t →
    ∃ ip found name, ip ∈ ips ∧ lookupAddr (IP_String ip) = inr found ∧ name ∈ found ∧ x = TrimSuffix name ".") ∧
  ∀ ip found name, ip ∈ ips → lookupAddr (IP_String ip) = inr found → name ∈ found → TrimSuffix name "." ≠ "" →
    TrimSuffix name "." ∈ foldl add_names l ips.
Proof.
  induction ips as [|a ips IH]; intros l Hl; cbn [foldl].
  { split; [done|]. split; [exists []; rewrite app_nil_r; split; [done|set_solver]|set_solver]. }
  assert (good_names (add_names l a) ∧ (∃ t, add_names l a = l ++ t ∧ ∀ x, x ∈ t →
      ∃ found name, lookupAddr (IP_String a) = inr found ∧ name ∈ found ∧ x = TrimSuffix name ".") ∧
    ∀ found name, lookupAddr (IP_String a) = inr found → name ∈ found → TrimSuffix name "." ≠ "" →
      TrimSuffix name "." ∈ add_names l a) as (Hg & (t & Et & Ht) & Hv).
  { unfold add_names. destruct (lookupAddr (IP_String a)) as [e|found].
    - split; [done|]. split; [exists []; rewrite app_nil_r; split; [done|set_solver]|done].
    - destruct (fold_unique (λ name, TrimSuffix name ".") found l Hl) as (Hg & (t & Et & Ht) & Hv). split; [done|]. split.
      + exists t. split; [done|]. intros x Hx%Ht. destruct Hx as (name & ? & ?). by exists found, name.
      + intros ? name [= <-] Hn Hne. by apply Hv. }
  destruct (IH _ Hg) as (Hg' & (t' & Et' & Ht') & Hv'). split; [done|]. split.
  - exists (t ++ t'). rewrite app_assoc, <- Et. split; [done|]. intros x [Hx|Hx]%elem_of_app.
    + destruct (Ht x Hx) as (found & name & ? & ? & ?). exists a, found, name. split; [by left|done].
    + destruct (Ht' x Hx) as (ip & found & name & ? & ?). exists ip, found, name. split; [by right|done].
  - intros ip found name [->|Hip]%elem_of_cons Hf Hn Hne; [|by eapply Hv'].
    rewrite Et'. apply elem_of_app. left. by eapply Hv.
Qed.
End discovery.

(** C40: discovery of the network.  Whatever the resolver and the interfaces
    answer: the addresses are exactly those of the hostname and of the interfaces
    that are neither nil, loopback nor link-local, each once although IPv4
    addresses may come in two forms; the names are exactly the hostname, its short
    form and the names of those addresses, without empty ones and each once, and
    the hostname comes first. *)
Theorem discoverNetwork_spec `{NetworkQuery} :
  let info := discoverNetwork in
  NoDup (map canonical (IPs info)) ∧ (∀ ip, ip ∈ IPs info → eligible ip ∧ address ip) ∧
  (∀ ip, address ip → eligible ip → canonical ip ∈ map canonical (IPs info)) ∧
  NoDup (Hostnames info) ∧ (∀ n, n ∈ Hostnames info ↔ n ≠ "" ∧ own_name (IPs info) n) ∧
  ∀ name, hostname = inr name → name ≠ "" → head (Hostnames info) = Some name.
Proof.
  destruct named_spec as (Hn & Hi & Hnames & Hfirst & Haddr). unfold discoverNetwork. destruct named as [names ips].
  cbn [fst snd] in *.
  set (all := match interfaceAddrs with inl _ => ips | inr addrs => foldl add_addr ips addrs end). cbn zeta. cbn [IPs Hostnames].
  assert (good_ips all ∧ (∀ ip, ip ∈ all → address ip) ∧
    ∀ ip, address ip → eligible ip → canonical ip ∈ map canonical all) as (Hg & Hfrom & Hto).
  { subst all. unfold address. destruct interfaceAddrs as [e|addrs].
    - split; [done|]. split; [intros ip Hip; left; by apply Haddr|]. intros ip [Hx|(? & ? & _)] Hel; [by apply Haddr|done].
    - destruct (add_addrs_spec addrs ips Hi) as (Hg & (t & Et & Ht) & Hv). split; [done|]. split.
      + intros ip. rewrite Et. intros [Hip|Hip]%elem_of_app; [left; by apply Haddr|right]. exists addrs. split; [done|by apply Ht].
      + intros ip [Hx|(? & [= <-] & Hx)] Hel; [|by apply Hv]. rewrite Et, map_app. apply elem_of_app. left. by apply Haddr. }
  destruct (add_names_spec all names Hn) as (Hgn & (t & Et & Ht) & Hv).
  destruct Hg as [Hnd Hel]. rewrite Forall_forall in Hel. destruct Hgn as [Hndn Hempty].
  split; [done|]. split; [intros ip Hip; split; [by apply Hel|by apply Hfrom]|]. split; [done|]. split; [done|]. split.
  - intros n. split.
    + intros Hin. assert (n ≠ "") as Hne by (by intros ->). split; [done|]. rewrite Et in Hin. unfold own_name.
      apply elem_of_app in Hin as [Hin|Hin]; [left; by apply Hnames|right; by apply Ht].
    + intros [Hne [Hx|(ip & found & name & Hip & Hf & Hm & ->)]]; [|by eapply Hv].
      rewrite Et. apply elem_of_app. left. by apply Hnames.
  - intros name Hh Hne. destruct (Hfirst name Hh Hne) as [t' ->]. by rewrite Et.
Qed.

End Host.
