(* ===== verification/Style.v ===== *)
(** * Styled text

    [src/style] and [src/term]: ANSI codes around a text, and when they are
    used.  Which files are terminals is the class [Terminals]. *)
From S2P Require Import Prelude.
From S2P Require Import GoStrings.
From Stdlib Require Import Ascii.
#[local] Open Scope stdpp_scope.
#[local] Open Scope Z_scope.

(** A writer: one of the standard streams, another file, or no file. *)
Inductive writer := Stdout | Stderr | File (n : Z) | Buffer (n : Z).
#[global] Instance writer_eq_dec : EqDecision writer.
Proof. solve_decision. Defined.

(** [golang.org/x/term.IsTerminal] of a file, and the environment. *)
Class Terminals := {
  x_IsTerminal : writer → bool;
  env_NO_COLOR : string;
}.

Module Style.

(** ** Colors and modifiers *)

Abbreviation Color := Z.
Abbreviation Mod := Z.
Definition NoColor : Color := 0.
Definition Red : Color := 1.
Definition Green : Color := 2.
Definition Yellow : Color := 3.
Definition Dim : Mod := 2.

Definition esc : string := String (chr 27) "".
Definition ansi (n : string) : string := esc +:+ "[" +:+ n +:+ "m".
Definition ansiReset : string := ansi "0".

Definition colorCode (c : Color) : string :=
  match c with
  | 1 => ansi "31" | 2 => ansi "32" | 3 => ansi "33" | 4 => ansi "34" | 5 => ansi "35" | 6 => ansi "36" | 7 => ansi "37"
  | 8 => ansi "91" | 9 => ansi "92" | 10 => ansi "93" | 11 => ansi "94" | 12 => ansi "95" | 13 => ansi "96" | 14 => ansi "97"
  | _ => ""
  end.
Definition modCode (m : Mod) : string :=
  match m with 1 => ansi "1" | 2 => ansi "2" | 3 => ansi "3" | 4 => ansi "4" | _ => "" end.

Definition buildPrefix (c : Color) (mods : list Mod) : string :=
  foldl (λ prefix m, prefix +:+ modCode m) "" mods +:+ colorCode c.

Definition render (text : string) (c : Color) (mods : list Mod) : string :=
  let p := buildPrefix c mods in
  if String.eqb p "" then text else p +:+ text +:+ ansiReset.
Definition Raw (text : string) (c : Color) (mods : list Mod) : string := render text c mods.

(** ** Stylers *)

(** [term.IsTerminal]: only a file is a terminal. *)
Definition IsTerminal `{Terminals} (w : writer) : bool :=
  match w with Buffer _ => false | _ => x_IsTerminal w end.

Record Styler := { active : bool }.
(** [New]; a nil writer is [None]. *)
Definition New `{Terminals} (suppress : bool) (w : option writer) : Styler :=
  if negb (String.eqb env_NO_COLOR "") then {| active := false |}
  else if suppress then {| active := false |}
  else match w with None => {| active := true |} | Some w => {| active := IsTerminal w |} end.

Definition Apply (s : Styler) (text : string) (c : Color) (mods : list Mod) : string :=
  if negb (active s) then text else render text c mods.

Record style := { prefix : string }.
Definition Build (s : Styler) (c : Color) (mods : list Mod) : style :=
  if negb (active s) then {| prefix := "" |} else {| prefix := buildPrefix c mods |}.
Definition Style_Apply (s : style) (text : string) : string :=
  if String.eqb (prefix s) "" then text else prefix s +:+ text +:+ ansiReset.

(** ** What a terminal shows *)

(** The text without its escape sequences, each of which ends with [m]. *)
Fixpoint shown (inside : bool) (s : string) : string :=
  match s with
  | "" => ""
  | String c s =>
      if inside then shown (negb (Ascii.eqb c "m")) s
      else if Ascii.eqb c (chr 27) then shown true s else String c (shown false s)
  end.
Definition plain_text (s : string) : Prop := chr 27 ∉ chars s.

(** A sequence of codes, which shows nothing. *)
Definition codes (p : string) : Prop := ∀ s, shown false (p +:+ s) = shown false s.

Lemma shown_plain a b : plain_text a → shown false (a +:+ b) = a +:+ shown false b.
Proof.
  unfold plain_text. induction a as [|c a IH]; [done|]. cbn [shown String.append chars]. intros [Hc Ha]%not_elem_of_cons.
  destruct (Ascii.eqb_spec c (chr 27)) as [E|_]; [by destruct Hc|]. by rewrite IH.
Qed.

Lemma codes_ansi n : "m"%char ∉ chars n → codes (ansi n).
Proof.
  intros Hn s. unfold ansi. cbn. induction n as [|c n IH]; cbn; [done|]. apply not_elem_of_cons in Hn as [Hc Hn].
  destruct (Ascii.eqb_spec c "m"); [done|]. by apply IH.
Qed.
Lemma codes_app p q : codes p → codes q → codes (p +:+ q).
Proof. intros Hp Hq s. by rewrite sapp_assoc, Hp, Hq. Qed.

Ltac no_m := cbn; rewrite ?not_elem_of_cons; repeat split; (done || apply not_elem_of_nil).
Ltac ansi_codes := apply codes_ansi; no_m.
Lemma codes_color c : codes (colorCode c).
Proof. unfold colorCode. repeat case_match; done || ansi_codes. Qed.
Lemma codes_mod m : codes (modCode m).
Proof. unfold modCode. repeat case_match; done || ansi_codes. Qed.
Lemma codes_prefix c mods : codes (buildPrefix c mods).
Proof.
  unfold buildPrefix. apply codes_app; [|apply codes_color]. assert (codes "") as Hp by done. revert Hp.
  generalize "". induction mods as [|m mods IH]; intros p Hp; cbn; [done|]. apply IH, codes_app; [done|apply codes_mod].
Qed.

(** A styled text shows the text, whatever comes after it. *)
Lemma shown_Apply s text c mods rest :
  plain_text text → shown false (Apply s text c mods +:+ rest) = text +:+ shown false rest.
Proof.
  intros Ht. unfold Apply, render. destruct (active s); cbn [negb]; [|by apply shown_plain]. cbn zeta.
  destruct (String.eqb _ _); [by apply shown_plain|].
  rewrite !sapp_assoc, codes_prefix, shown_plain by done. unfold ansiReset. by rewrite codes_ansi by no_m.
Qed.

(** Styling changes no text that is shown: an inactive styler leaves the text,
    a style that was built gives what the styler gives, and without its codes a
    styled text is the text. *)
Theorem styled_text s text c mods :
  Style_Apply (Build s c mods) text = Apply s text c mods ∧
  (active s = false → Apply s text c mods = text) ∧
  (plain_text text → shown false (Apply s text c mods) = text).
Proof.
  assert (plain_text text → shown false (Apply s text c mods) = text) as Hshown.
  { intros Ht. rewrite <- (sapp_nil_r (Apply _ _ _ _)), shown_Apply by done. apply sapp_nil_r. }
  unfold Style_Apply, Build, Apply, render in *. by destruct (active s).
Qed.
End Style.
