(* ===== verification/Printer.v ===== *)
(** * The console printer

    [src/console/printer] and [src/console]: level-gated output with markers,
    colors and indentation, tables, prompts, and the [slog.Handler] that renders
    records with the printer.  A printer writes each line in one call, so the
    world keeps the writes in order with the writer of each; levels are shared by
    reference.  [fmt] is the class [Formats]. *)
From S2P Require Import Prelude.
From S2P Require Import GoStrings.
From S2P Require Import Utf8.
From S2P Require Import Style.
From Stdlib Require Import Ascii.
#[local] Open Scope stdpp_scope.
#[local] Open Scope Z_scope.
Import Style.

(** ** Levels and records of [log/slog] *)

Definition LevelDebug : Z := -4.
Definition LevelInfo : Z := 0.
Definition LevelWarn : Z := 4.
Definition LevelError : Z := 8.

(** [slog.Value]: of the kinds that the program asks for, or any other with its text. *)
Inductive slog_value :=
  | KString (s : string)
  | KInt64 (z : Z)
  | KBool (b : bool)
  | KOther (text : string).
#[global] Instance slog_value_eq_dec : EqDecision slog_value.
Proof. solve_decision. Defined.
Record Attr := { Key : string; Value : slog_value }.
#[global] Instance Attr_eq_dec : EqDecision Attr.
Proof. solve_decision. Defined.
Record Record_ := { Time : Z; Level : Z; Message : string; Attrs : list Attr }.

Definition value_String (v : slog_value) : string :=
  match v with
  | KString s => s
  | KInt64 z => Itoa z
  | KBool b => if b then "true" else "false"
  | KOther text => text
  end.

(** The methods of a value panic on another kind. *)
Definition Int64 (v : slog_value) : string + Z :=
  match v with KInt64 z => inr z | _ => inl "Value kind is not Int64" end.
Definition Bool (v : slog_value) : string + bool :=
  match v with KBool b => inr b | _ => inl "Value kind is not Bool" end.

(** ** hints.go, console.go *)

Definition HintPrefix : string := "console.".
Definition HintIndent : string := "console.indent".
Definition HintSuccess : string := "console.success".

Definition ParseLevel `{Unicode} (s : string) : Z :=
  let s := ToLower (TrimSpace s) in
  if String.eqb s "debug" || String.eqb s "verbose" then LevelDebug
  else if String.eqb s "info" then LevelInfo
  else if String.eqb s "warn" || String.eqb s "warning" then LevelWarn
  else if String.eqb s "error" then LevelError
  else LevelInfo.

(** [fmt.Sprintf] and [fmt.Sprintln]; the format [%s] of a string is the string. *)
Class Formats := {
  fmt_arg : Type;
  arg_string : string → fmt_arg;
  Sprintf : string → list fmt_arg → string;
  Sprintln : list fmt_arg → string;
}.
Class FormatsLaws `{Formats} := { Sprintf_s s : Sprintf "%s" [arg_string s] = s }.

Module Printer.

Definition newline : ascii := "010".
Definition nl : string := String newline "".
(** Go's [int] wraps around. *)
Definition int64 (z : Z) : Z := (z + 2 ^ 63) mod 2 ^ 64 - 2 ^ 63.

(** ** The world: levels by reference, writes in order, reads to come *)

Record pworld := {
  levels : gmap nat Z;
  writes : list (writer * string);
  reads : list string;
}.
Abbreviation io A := (stm pworld A).

(** [slog.LevelVar]; the zero value is the info level. *)
Definition level_of (r : nat) (w : pworld) : Z := default 0 (levels w !! r).
Definition get_level (r : nat) : io Z := λ w, (level_of r w, w).
Definition put_level (r : nat) (l : Z) : io () := λ w,
  ((), {| levels := <[r := l]> (levels w); writes := writes w; reads := reads w |}).
Definition new_level (l : Z) : io nat := λ w,
  let r := fresh (dom (levels w)) in
  (r, {| levels := <[r := l]> (levels w); writes := writes w; reads := reads w |}).
Definition write (out : writer) (s : string) : io () := λ w,
  ((), {| levels := levels w; writes := writes w ++ [(out, s)]; reads := reads w |}).

(** ** options.go *)

Record config := {
  c_outWriter : option writer;
  c_errWriter : option writer;
  c_outToErr : bool;
  c_errToOut : bool;
  c_level : Z;
  c_suppressColor : bool;
}.
Abbreviation Option_ := (config → config).
Definition WithLevel (l : Z) : Option_ := λ c,
  Build_config (c_outWriter c) (c_errWriter c) (c_outToErr c) (c_errToOut c) l (c_suppressColor c).
Definition WithColor (enabled : bool) : Option_ := λ c,
  Build_config (c_outWriter c) (c_errWriter c) (c_outToErr c) (c_errToOut c) (c_level c) (negb enabled).
Definition WithOutToErr : Option_ := λ c,
  Build_config (c_outWriter c) (c_errWriter c) true (c_errToOut c) (c_level c) (c_suppressColor c).
Definition WithErrToOut : Option_ := λ c,
  Build_config (c_outWriter c) (c_errWriter c) (c_outToErr c) true (c_level c) (c_suppressColor c).
Definition withWriters (out err : writer) : Option_ := λ c,
  Build_config (Some out) (Some err) (c_outToErr c) (c_errToOut c) (c_level c) (c_suppressColor c).

Definition newConfig (opts : list Option_) : config :=
  foldl (λ c opt, opt c) (Build_config None None false false LevelInfo false) opts.

Definition resolveStreams (c : config) : writer * writer :=
  let out := if c_outToErr c then Stderr else Stdout in
  let out := match c_outWriter c with Some w => w | None => out end in
  let err := if c_errToOut c then Stdout else Stderr in
  let err := match c_errWriter c with Some w => w | None => err end in
  (out, err).

(** ** printer.go *)

Record printer := {
  outW : writer;
  errW : writer;
  level : nat;
  outStyle : Styler;
  errStyle : Styler;
  indent : Z;
  textColor : Color;
}.

Definition newPrinter `{Terminals} (c : config) : io printer :=
  let '(out, err) := resolveStreams c in
  r ← new_level (c_level c);
  mret {| outW := out; errW := err; level := r; outStyle := Style.New (c_suppressColor c) (Some out);
          errStyle := Style.New (c_suppressColor c) (Some err); indent := 0; textColor := NoColor |}.
Definition New `{Terminals} (opts : list Option_) : io printer := newPrinter (newConfig opts).

Definition withIndent (p : printer) (n : Z) : printer := {|
  outW := outW p; errW := errW p; level := level p; outStyle := outStyle p; errStyle := errStyle p;
  indent := int64 (indent p + n); textColor := textColor p |}.
Definition WithTextColor (p : printer) (c : Color) : printer := {|
  outW := outW p; errW := errW p; level := level p; outStyle := outStyle p; errStyle := errStyle p;
  indent := indent p; textColor := c |}.
Definition SetLevel (p : printer) (l : Z) : io () := put_level (level p) l.

Definition indentPrefix (p : printer) : string :=
  if indent p <=? 0 then "" else Repeat "  " (Z.to_nat (indent p)).

Definition writeLine (p : printer) (out : writer) (s : Styler) (marker text : string) : io () :=
  let text := Apply s text (textColor p) [] in
  if String.eqb marker "" then write out (indentPrefix p +:+ text +:+ nl)
  else write out (indentPrefix p +:+ marker +:+ " " +:+ text +:+ nl).

(** [if p.level.Level() > l { return }]. *)
Definition gated (p : printer) (l : Z) (m : io ()) : io () :=
  l0 ← get_level (level p);
  if l <? l0 then mret () else m.

Definition check_mark : string := unchars (map chr [226; 156; 147]).
Definition cross_mark : string := unchars (map chr [226; 156; 151]).

Section printing.
Context `{Formats, Unicode}.

Definition Info (p : printer) (msg : string) (args : list fmt_arg) : io () :=
  gated p LevelInfo (writeLine p (outW p) (outStyle p) "" (Sprintf msg args)).
Definition Success (p : printer) (msg : string) (args : list fmt_arg) : io () :=
  gated p LevelInfo (writeLine p (outW p) (outStyle p) (Apply (outStyle p) check_mark Green []) (Sprintf msg args)).
Definition Warn (p : printer) (msg : string) (args : list fmt_arg) : io () :=
  gated p LevelWarn (writeLine p (errW p) (errStyle p) (Apply (errStyle p) "!" Yellow []) (Sprintf msg args)).
Definition Error (p : printer) (msg : string) (args : list fmt_arg) : io () :=
  gated p LevelError (writeLine p (errW p) (errStyle p) (Apply (errStyle p) cross_mark Red []) (Sprintf msg args)).
Definition Verbose (p : printer) (msg : string) (args : list fmt_arg) : io () :=
  gated p LevelDebug (write (outW p) (indentPrefix p +:+ Apply (outStyle p) (Sprintf msg args) (textColor p) [Dim] +:+ nl)).
Definition Print_ (p : printer) (msg : string) (args : list fmt_arg) : io () :=
  gated p LevelInfo (write (outW p) (indentPrefix p +:+ Sprintf msg args +:+ nl)).
Definition Printf (p : printer) (msg : string) (args : list fmt_arg) : io () :=
  gated p LevelInfo (write (outW p) (indentPrefix p +:+ Sprintf msg args)).
Definition Println (p : printer) (args : list fmt_arg) : io () :=
  gated p LevelInfo (write (outW p) (indentPrefix p +:+ Sprintln args)).

(** ** table.go *)

Definition columnPadding : Z := 2.
Definition len (s : string) : Z := Z.of_nat (slen s).

(** A row makes the columns that there are wide enough for its cells. *)
Fixpoint widen (widths : list Z) (row : list string) : list Z :=
  match widths, row with
  | w :: widths, cell :: row => (if w <? len cell then len cell else w) :: widen widths row
  | _, _ => widths
  end.
Definition column_widths (headers : list string) (rows : list (list string)) : list Z :=
  foldl widen (map len headers) rows.

(** The text of a line; the last cell is not padded, and any other without a
    width is an index out of range. *)
Fixpoint line_text (cells : list string) (widths : list Z) : string + string :=
  match cells with
  | [] => inr ""
  | [cell] => inr cell
  | cell :: cells =>
      match widths with
      | [] => inl "index out of range"
      | w :: widths =>
          match line_text cells widths with
          | inl e => inl e
          | inr rest => inr (cell +:+ Repeat " " (Z.to_nat (w - len cell + columnPadding)) +:+ rest)
          end
      end
  end.

(** The lines up to a panic; what was written before it stays. *)
Fixpoint write_lines (out : writer) (rows : list (list string)) (widths : list Z) : io (string + ()) :=
  match rows with
  | [] => mret (inr ())
  | row :: rows =>
      match line_text row widths with
      | inl e => mret (inl e)
      | inr text => _ ← write out (text +:+ nl); write_lines out rows widths
      end
  end.
Definition renderTable (out : writer) (headers : list string) (rows : list (list string)) : io (string + ()) :=
  match rows with
  | [] => mret (inr ())
  | _ => write_lines out (headers :: rows) (column_widths headers rows)
  end.
Definition Table (p : printer) (headers : list string) (rows : list (list string)) : io (string + ()) :=
  l0 ← get_level (level p);
  if LevelInfo <? l0 then mret (inr ()) else renderTable (outW p) headers rows.

(** ** handler.go *)

Record hintSet := { h_indent : Z; h_success : bool }.
Record printerHandler := {
  p_of : printer;
  attrs : list Attr;
  hints : hintSet;
  group : string;
}.
Definition Slog (p : printer) : printerHandler := {|
  p_of := p; attrs := []; hints := {| h_indent := 0; h_success := false |}; group := "" |}.

Definition Enabled (h : printerHandler) (l : Z) : io bool := l0 ← get_level (level (p_of h)); mret (l0 <=? l).

Definition grouped (g key : string) : string := if String.eqb g "" then key else g +:+ "." +:+ key.
Definition formatAttr (a : Attr) : string := Key a +:+ "=" +:+ value_String (Value a).

Definition add_indent (hs : hintSet) (z : Z) : hintSet :=
  {| h_indent := int64 (h_indent hs + z); h_success := h_success hs |}.
Definition set_success (hs : hintSet) (b : bool) : hintSet := {| h_indent := h_indent hs; h_success := b |}.

(** One attribute of a record: a hint, or data. *)
Definition take_attr (g : string) (acc : hintSet * list string) (a : Attr) : string + (hintSet * list string) :=
  let '(hs, data) := acc in
  let key := grouped g (Key a) in
  if HasPrefix key HintPrefix then
    if String.eqb key HintIndent then
      match Int64 (Value a) with inl e => inl e | inr z => inr (add_indent hs z, data) end
    else if String.eqb key HintSuccess then
      match Bool (Value a) with inl e => inl e | inr b => inr (set_success hs b, data) end
    else inr (hs, data)
  else inr (hs, data ++ [key +:+ "=" +:+ value_String (Value a)]).
Fixpoint take_attrs (g : string) (acc : hintSet * list string) (l : list Attr) : string + (hintSet * list string) :=
  match l with
  | [] => inr acc
  | a :: l => match take_attr g acc a with inl e => inl e | inr acc => take_attrs g acc l end
  end.

(** The method of the printer for a record. *)
Definition route (target : printer) (l : Z) (success : bool) (msg : string) : io () :=
  let args := [arg_string msg] in
  if LevelError <=? l then Error target "%s" args
  else if LevelWarn <=? l then Warn target "%s" args
  else if success && (LevelInfo <=? l) then Success target "%s" args
  else if LevelInfo <=? l then Info target "%s" args
  else Verbose target "%s" args.

Definition message (msg : string) (data : list string) : string :=
  match data with [] => msg | _ => msg +:+ " " +:+ Join data " " end.

Definition Handle (h : printerHandler) (r : Record_) : io (string + ()) :=
  match take_attrs (group h) (hints h, map formatAttr (attrs h)) (Attrs r) with
  | inl e => mret (inl e)
  | inr (hs, data) =>
      let target := if 0 <? h_indent hs then withIndent (p_of h) (h_indent hs) else p_of h in
      _ ← route target (Level r) (h_success hs) (message (Message r) data);
      mret (inr ())
  end.

(** One attribute of [WithAttrs]. *)
Definition keep_attr (g : string) (acc : hintSet * list Attr) (a : Attr) : string + (hintSet * list Attr) :=
  let '(hs, data) := acc in
  let key := grouped g (Key a) in
  if HasPrefix key HintPrefix then
    if String.eqb key HintIndent then
      match Int64 (Value a) with inl e => inl e | inr z => inr (add_indent hs z, data) end
    else if String.eqb key HintSuccess then inr (set_success hs true, data)
    else inr (hs, data)
  else inr (hs, data ++ [{| Key := key; Value := Value a |}]).
Fixpoint keep_attrs (g : string) (acc : hintSet * list Attr) (l : list Attr) : string + (hintSet * list Attr) :=
  match l with
  | [] => inr acc
  | a :: l => match keep_attr g acc a with inl e => inl e | inr acc => keep_attrs g acc l end
  end.

Definition WithAttrs (h : printerHandler) (l : list Attr) : string + printerHandler :=
  match keep_attrs (group h) (hints h, []) l with
  | inl e => inl e
  | inr (hs, data) => inr {| p_of := p_of h; attrs := attrs h ++ data; hints := hs; group := group h |}
  end.
Definition WithGroup (h : printerHandler) (name : string) : printerHandler := {|
  p_of := p_of h; attrs := attrs h; hints := hints h; group := grouped (group h) name |}.

(** ** prompter.go *)

Definition MaxScanTokenSize : nat := 65536.

Fixpoint cut_line (s : string) : option string :=
  match s with
  | "" => None
  | String c s => if Ascii.eqb c newline then Some "" else match cut_line s with None => None | Some l => Some (String c l) end
  end.
Definition drop_cr (s : string) : string := TrimSuffix s (String (chr 13) "").

(** A scanner of its own for every line: what it read after the line is lost. *)
Fixpoint scan (acc : string) (rs : list string) : option string * list string :=
  match cut_line acc with
  | Some line => (Some (drop_cr line), rs)
  | None =>
      if Nat.leb MaxScanTokenSize (slen acc) then (None, rs) else
      match rs with
      | [] => (if String.eqb acc "" then None else Some (drop_cr acc), [])
      | r :: rs => scan (acc +:+ r) rs
      end
  end.
Definition readLine : io string := λ w,
  let '(r, rs) := scan "" (reads w) in
  (match r with Some line => TrimSpace line | None => "" end,
   {| levels := levels w; writes := writes w; reads := rs |}).

Definition Prompt (p : printer) (msg fallback : string) : io string :=
  _ ← (if negb (String.eqb fallback "")
       then write (outW p) (msg +:+ " [" +:+ Apply (outStyle p) fallback NoColor [Dim] +:+ "]: ")
       else write (outW p) (msg +:+ ": "));
  line ← readLine;
  mret (if String.eqb line "" then fallback else line).
Definition Continue (p : printer) (msg : string) : io bool :=
  _ ← write (outW p) (msg +:+ " [y/N]: ");
  line ← readLine;
  mret (let line := ToLower line in String.eqb line "y" || String.eqb line "yes").

(** [isTerminalInput]: a reader that can be written to, too. *)
Definition isTerminalInput `{Terminals} (input : writer) : bool := IsTerminal input.
Definition unavailable : string :=
  "printer: interactive input unavailable: stdin is not a terminal; supply the required value with a flag or configuration".
Definition NewPrompter `{Terminals} (check : option (writer → bool)) (input : writer) (opts : list Option_)
    : io (string + printer) :=
  let check := match check with Some f => f | None => isTerminalInput end in
  if negb (check input) then mret (inl unavailable) else
  p ← newPrinter (newConfig opts);
  mret (inr p).
End printing.

(** ** Tables *)

(** The column where a cell starts. *)
Definition column (widths : list Z) (i : nat) : Z := foldr (λ w z, w + columnPadding + z) 0 (take i widths).

Lemma widen_length ws row : length (widen ws row) = length ws.
Proof. revert row. induction ws as [|w ws IH]; intros [|c row]; cbn; congruence. Qed.
Lemma widen_mono ws row i w w' : ws !! i = Some w → widen ws row !! i = Some w' → w ≤ w'.
Proof.
  revert row i. induction ws as [|x ws IH]; intros [|c row] [|i]; cbn; intros E E'; simplify_eq; try done; try lia.
  - destruct (Z.ltb_spec w (len c)); lia.
  - by eapply IH.
Qed.
Lemma widen_fits ws row i w cell : widen ws row !! i = Some w → row !! i = Some cell → len cell ≤ w.
Proof.
  revert row i. induction ws as [|x ws IH]; intros [|c row] [|i]; cbn; intros E E'; simplify_eq; try done.
  - destruct (Z.ltb_spec x (len cell)); lia.
  - by eapply IH.
Qed.

Lemma widths_fold rows : ∀ ws, let ws' := foldl widen ws rows in
  length ws' = length ws ∧
  (∀ i w w', ws !! i = Some w → ws' !! i = Some w' → w ≤ w') ∧
  ∀ row i w cell, row ∈ rows → ws' !! i = Some w → row !! i = Some cell → len cell ≤ w.
Proof.
  induction rows as [|row rows IH]; intros ws; cbn [foldl].
  { split; [done|]. split; [|set_solver]. intros i w w' E E'. simplify_eq. done. }
  destruct (IH (widen ws row)) as (Hl & Hm & Hf). split; [by rewrite Hl, widen_length|]. split.
  - intros i w w' Ew Ew'. destruct (widen ws row !! i) as [x|] eqn:Ex.
    + transitivity x; [by eapply widen_mono|by eapply Hm].
    + apply lookup_ge_None in Ex. rewrite widen_length in Ex. apply lookup_lt_Some in Ew. lia.
  - intros row' i w cell [->|Hr]%elem_of_cons Ew Ec; [|by eapply Hf].
    destruct (widen ws row !! i) as [x|] eqn:Ex.
    + transitivity x; [by eapply widen_fits|by eapply Hm].
    + apply lookup_ge_None in Ex. apply lookup_lt_Some in Ew. lia.
Qed.

(** A column is as wide as its widest cell, the header among them. *)
Lemma column_widths_spec headers rows :
  length (column_widths headers rows) = length headers ∧
  ∀ row i w cell, row ∈ headers :: rows → column_widths headers rows !! i = Some w → row !! i = Some cell → len cell ≤ w.
Proof.
  destruct (widths_fold rows (map len headers)) as (Hl & Hm & Hf). fold (column_widths headers rows) in *.
  split; [by rewrite Hl, length_map|]. intros row i w cell [->|Hr]%elem_of_cons Ew Ec; [|by eapply Hf].
  eapply Hm; [|exact Ew]. rewrite list_lookup_fmap, Ec. done.
Qed.

Lemma len_app a b : len (a +:+ b) = len a + len b.
Proof. unfold len. rewrite slen_app. lia. Qed.
Lemma len_spaces n : len (Repeat " " n) = Z.of_nat n.
Proof. unfold len. induction n as [|n IH]; [done|]. cbn [Repeat]. rewrite slen_app. change (slen " ") with 1%nat. lia. Qed.

(** The cells of a line are in their columns. *)
Lemma line_text_spec ws : ∀ cells,
  (∀ i w cell, ws !! i = Some w → cells !! i = Some cell → len cell ≤ w) →
  if decide (length cells ≤ S (length ws))%nat then
    ∃ text, line_text cells ws = inr text ∧
      ∀ i cell, cells !! i = Some cell → ∃ a b, text = a +:+ cell +:+ b ∧ len a = column ws i
  else line_text cells ws = inl "index out of range".
Proof.
  assert (∀ ws : list Z, ∃ text, line_text [] ws = inr text ∧
    ∀ i cell, [] !! i = Some cell → ∃ a b, text = a +:+ cell +:+ b ∧ len a = column ws i) as Hnil.
  { intros ws'. exists "". split; [by destruct ws'|]. intros i cell Hi. by rewrite lookup_nil in Hi. }
  assert (∀ (ws : list Z) one, ∃ text, line_text [one] ws = inr text ∧
    ∀ i cell, [one] !! i = Some cell → ∃ a b, text = a +:+ cell +:+ b ∧ len a = column ws i) as Hone.
  { intros ws' one. exists one. split; [by destruct ws'|]. intros [|i] c Hi; [|by destruct i].
    injection Hi as <-. exists "", "". by rewrite sapp_nil_r. }
  induction ws as [|w ws IH]; intros [|cell [|c cells]] Hw; cbn [length].
  - rewrite decide_True by lia. apply Hnil.
  - rewrite decide_True by lia. apply Hone.
  - by rewrite decide_False by lia.
  - rewrite decide_True by lia. apply Hnil.
  - rewrite decide_True by lia. apply Hone.
  - assert (∀ i w cell, ws !! i = Some w → (c :: cells) !! i = Some cell → len cell ≤ w) as Hw'.
    { intros i x y. apply (Hw (S i)). }
    specialize (IH (c :: cells) Hw'). cbn [line_text length] in *. cbn [line_text] in IH. case_decide as Hd.
    + rewrite decide_True by lia. destruct IH as (text & Et & Hc). cbn [line_text] in Et |- *. rewrite Et. eexists. split; [done|].
      intros [|i] y.
      * intros [= <-]. by exists "", (Repeat " " (Z.to_nat (w - len cell + columnPadding)) +:+ text).
      * intros Hy. destruct (Hc i y Hy) as (a & b & -> & Ha).
        exists (cell +:+ Repeat " " (Z.to_nat (w - len cell + columnPadding)) +:+ a), b.
        split; [by rewrite !sapp_assoc|]. rewrite !len_app, len_spaces, Ha. unfold column. cbn [take foldr].
        pose proof (Hw 0%nat w cell eq_refl eq_refl). unfold columnPadding. lia.
    + rewrite decide_False by lia. cbn [line_text] in IH |- *. by rewrite IH.
Qed.

(** How many rows come before the first that does not fit. *)
Fixpoint taken {A} (f : A → bool) (l : list A) : nat :=
  match l with [] => 0%nat | a :: l => if f a then S (taken f l) else 0%nat end.

Lemma write_lines_spec out ws (fits : list string → bool) rows : ∀ w,
  (∀ row, row ∈ rows →
    if fits row then ∃ text, line_text row ws = inr text ∧
      ∀ i cell, row !! i = Some cell → ∃ a b, text = a +:+ cell +:+ b ∧ len a = column ws i
    else line_text row ws = inl "index out of range") →
  ∃ texts, let w' := (write_lines out rows ws w).2 in
    levels w' = levels w ∧ reads w' = reads w ∧
    writes w' = writes w ++ map (λ text, (out, text +:+ nl)) texts ∧
    ((write_lines out rows ws w).1 = inr () ↔ forallb fits rows = true) ∧
    length texts = taken fits rows ∧
    ∀ row text, (row, text) ∈ zip rows texts →
      ∀ i cell, row !! i = Some cell → ∃ a b, text = a +:+ cell +:+ b ∧ len a = column ws i.
Proof.
  induction rows as [|row rows IH]; intros w Hline.
  { exists []. cbn. rewrite app_nil_r. repeat split; try done. intros ? ? Hx. by apply elem_of_nil in Hx. }
  pose proof (Hline row ltac:(by left)) as Hrow. cbn [write_lines forallb taken]. destruct (fits row); cbn [andb].
  - destruct Hrow as (text & -> & Hcells).
    destruct (IH (write out (text +:+ nl) w).2) as (texts & H1 & H2 & H3 & H4 & H5 & H6); [intros; apply Hline; by right|].
    exists (text :: texts).
    change ((_ ← write out (text +:+ nl); write_lines out rows ws) w) with (write_lines out rows ws (write out (text +:+ nl) w).2).
    cbn zeta in *. split; [exact H1|]. split; [exact H2|]. split.
    { rewrite H3. cbn [map]. by rewrite cons_middle, app_assoc. }
    split; [exact H4|]. split; [by rewrite <- H5|].
    intros row' text' [[= -> ->]|Hx]%elem_of_cons; [done|by apply H6].
  - rewrite Hrow. exists []. cbn. rewrite app_nil_r. repeat split; try done. intros ? ? Hx. by apply elem_of_nil in Hx.
Qed.

Lemma column_S ws i x : ws !! i = Some x → column ws (S i) = column ws i + x + columnPadding.
Proof.
  unfold column, columnPadding. revert i. induction ws as [|w ws IH]; intros [|i] E; cbn in *; simplify_eq.
  - rewrite take_0. cbn. lia.
  - rewrite (IH i E). lia.
Qed.
Lemma column_gap ws (rows : list (list string)) :
  (∀ row i w cell, row ∈ rows → ws !! i = Some w → row !! i = Some cell → len cell ≤ w) →
  ∀ row i cell x, row ∈ rows → row !! i = Some cell → ws !! i = Some x →
    column ws i + len cell + columnPadding ≤ column ws (S i).
Proof. intros Hf row i cell x Hr Hc Hx. rewrite (column_S _ _ _ Hx). pose proof (Hf row i x cell Hr Hx Hc). lia. Qed.

(** C39: tables.  A table is rendered exactly when no row has more than one cell
    beyond the headers: then the headers and each row are one line, and in all
    of them the cell of a column starts at the same byte, at least two after the
    end of the cell before it.  With a longer row the rows before it are written
    and then the printer panics.  Without rows nothing is written. *)
Theorem renderTable_spec out headers rows w :
  let '(r, w') := renderTable out headers rows w in
  let ws := column_widths headers rows in
  let fits := λ row : list string, bool_decide (length row ≤ S (length headers))%nat in
  levels w' = levels w ∧ reads w' = reads w ∧
  (r = inr () ↔ rows = [] ∨ forallb fits rows = true) ∧
  ∃ texts, writes w' = writes w ++ map (λ text, (out, text +:+ nl)) texts ∧
    length texts = match rows with [] => 0%nat | _ => S (taken fits rows) end ∧
    (∀ row text, (row, text) ∈ zip (headers :: rows) texts →
      ∀ i cell, row !! i = Some cell → ∃ a b, text = a +:+ cell +:+ b ∧ len a = column ws i) ∧
    ∀ row i cell x, row ∈ headers :: rows → row !! i = Some cell → ws !! i = Some x →
      column ws i + len cell + columnPadding ≤ column ws (S i).
Proof.
  destruct (column_widths_spec headers rows) as [Hl Hfit].
  set (ws := column_widths headers rows) in *. set (fits := λ row : list string, bool_decide (length row ≤ S (length headers))%nat).
  assert (∀ row, row ∈ headers :: rows →
    if fits row then ∃ text, line_text row ws = inr text ∧
      ∀ i cell, row !! i = Some cell → ∃ a b, text = a +:+ cell +:+ b ∧ len a = column ws i
    else line_text row ws = inl "index out of range") as Hline.
  { intros row Hr. pose proof (line_text_spec ws row (λ i x cell, Hfit row i x cell Hr)) as Hs. rewrite Hl in Hs.
    unfold fits. case_decide as Hd; [by rewrite bool_decide_true|by rewrite bool_decide_false]. }
  destruct (write_lines_spec out ws fits (headers :: rows) w Hline) as (texts & Hlev & Hrd & Hw & Hr & Hlen & Hcells).
  assert (fits headers = true) as Hh by (apply bool_decide_eq_true; lia).
  unfold renderTable. fold ws. destruct rows as [|row rows'].
  { cbn. split; [done|]. split; [done|]. split; [by split; [left|]|]. exists []. rewrite app_nil_r. split; [done|]. split; [done|].
    split; [intros ? ? Hx; by apply elem_of_nil in Hx|]. apply column_gap, Hfit. }
  destruct (write_lines out (headers :: row :: rows') ws w) as [r w'] eqn:E. cbn [fst snd] in *. cbn zeta.
  split; [done|]. split; [done|]. split.
  - rewrite Hr. cbn [forallb]. rewrite Hh. cbn [andb]. split; [by right|by intros [?|?]].
  - exists texts. split; [done|]. split; [|split; [done|apply column_gap, Hfit]].
    rewrite Hlen. cbn [taken]. by rewrite Hh.
Qed.

(** ** The handler *)
Section handler.
Context `{Formats}.

(** A success hint that says so. *)
Definition true_success (g : string) (a : Attr) : Prop := grouped g (Key a) = HintSuccess → Value a = KBool true.

(** What [WithAttrs] keeps is what [Handle] would take. *)
Lemma keep_take g l : ∀ hs data texts,
  Forall (true_success g) l → texts = map formatAttr data →
  take_attrs g (hs, texts) l =
    match keep_attrs g (hs, data) l with inl e => inl e | inr (hs', data') => inr (hs', map formatAttr data') end.
Proof.
  induction l as [|a l IH]; intros hs data texts Hs ->; [done|]. apply Forall_cons in Hs as [Ha Hl]. cbn [take_attrs keep_attrs].
  unfold take_attr, keep_attr. cbn zeta. destruct (HasPrefix (grouped g (Key a)) HintPrefix).
  - destruct (String.eqb (grouped g (Key a)) HintIndent); [destruct (Int64 (Value a)); [done|by apply IH]|].
    destruct (String.eqb_spec (grouped g (Key a)) HintSuccess) as [E|_]; [|by apply IH].
    rewrite (Ha E). cbn [Bool]. by apply IH.
  - apply IH; [done|]. by rewrite map_app.
Qed.

Lemma take_app g l1 : ∀ acc l2,
  take_attrs g acc (l1 ++ l2) = match take_attrs g acc l1 with inl e => inl e | inr acc => take_attrs g acc l2 end.
Proof.
  induction l1 as [|a l1 IH]; intros acc l2; [done|]. cbn [take_attrs app]. destruct (take_attr g acc a); [done|apply IH].
Qed.

Lemma keep_start g l : ∀ hs data,
  keep_attrs g (hs, data) l =
    match keep_attrs g (hs, []) l with inl e => inl e | inr (hs', data') => inr (hs', data ++ data') end.
Proof.
  induction l as [|a l IH]; intros hs data; cbn [keep_attrs]; [by rewrite app_nil_r|].
  unfold keep_attr. cbn zeta. destruct (HasPrefix _ _).
  - destruct (String.eqb _ HintIndent); [destruct (Int64 (Value a)); [done|apply IH]|].
    destruct (String.eqb _ HintSuccess); apply IH.
  - rewrite IH. symmetry. rewrite IH. destruct (keep_attrs g (hs, []) l) as [e|[hs' data']]; [done|]. cbn [app]. by rewrite <- (app_assoc data).
Qed.

(** Attributes that a logger was given with [With] are rendered as those of
    the record.  Handling a record with the handler that [WithAttrs] makes, hints
    included and within any group, writes what handling the record with the
    attributes in front of its own writes, and it panics when that does, provided
    every success hint among them is true. *)
Theorem WithAttrs_Handle h l r w :
  Forall (true_success (group h)) l →
  let direct := Handle h {| Time := Time r; Level := Level r; Message := Message r; Attrs := l ++ Attrs r |} w in
  match WithAttrs h l with
  | inl e => direct = (inl e, w)
  | inr h' => Handle h' r w = direct
  end.
Proof.
  intros Hl. unfold WithAttrs, Handle. cbn zeta. cbn [Level Message Attrs]. rewrite take_app.
  rewrite (keep_take _ l (hints h) (attrs h)) by done. rewrite (keep_start _ l (hints h) (attrs h)).
  destruct (keep_attrs (group h) (hints h, []) l) as [e|[hs data]]; [done|]. cbn. done.
Qed.

(** A success hint is taken for true by [WithAttrs] and for its value by [Handle]. *)
Lemma With_ignores_success p :
  let a := {| Key := HintSuccess; Value := KBool false |} in
  WithAttrs (Slog p) [a] = inr {| p_of := p; attrs := []; hints := {| h_indent := 0; h_success := true |}; group := "" |} ∧
  take_attrs "" ({| h_indent := 0; h_success := false |}, []) [a] = inr ({| h_indent := 0; h_success := false |}, []).
Proof. by split. Qed.

(** In a group a hint is no hint, and its key is printed. *)
Lemma grouped_hint_printed p :
  let h := WithGroup (Slog p) "job" in
  take_attrs (group h) (hints h, []) [{| Key := HintIndent; Value := KInt64 2 |}] =
    inr (hints h, ["job.console.indent=2"]).
Proof. reflexivity. Qed.

(** *** The line of a record *)

(** The least level at which a printer shows a record of level [l], its stream
    and its mark. *)
Definition gate_of (l : Z) : Z :=
  if LevelError <=? l then LevelError else if LevelWarn <=? l then LevelWarn
  else if LevelInfo <=? l then LevelInfo else LevelDebug.
Definition stream_of (p : printer) (l : Z) : writer := if LevelWarn <=? l then errW p else outW p.
Definition mark_of (l : Z) (success : bool) : string :=
  if LevelError <=? l then cross_mark +:+ " " else if LevelWarn <=? l then "! "
  else if success && (LevelInfo <=? l) then check_mark +:+ " " else "".
Definition spaces (z : Z) : string := if z <=? 0 then "" else Repeat "  " (Z.to_nat z).

(** A method is gated by the level of its own. *)
Lemma gated_run p g m w : gated p g m w = if g <? level_of (level p) w then ((), w) else m w.
Proof. unfold gated, get_level, mbind, stm_bind. by destruct (g <? level_of (level p) w). Qed.
Lemma route_gated p l success msg w :
  gate_of l < level_of (level p) w → route p l success msg w = ((), w).
Proof.
  intros Hl%Z.ltb_lt. unfold gate_of, route, Error, Warn, Success, Info, Verbose in *. cbn zeta.
  destruct (LevelError <=? l), (LevelWarn <=? l), (LevelInfo <=? l), success; cbn [andb] in *; by rewrite gated_run, Hl.
Qed.

(** With a level between two standard ones the handler is enabled for records
    that it then does not show. *)
Lemma enabled_not_shown h r w :
  gate_of (Level r) < level_of (level (p_of h)) w ≤ Level r →
  (Enabled h (Level r) w).1 = true ∧ (Handle h r w).2 = w.
Proof.
  intros [Hg Hl]. split; [by apply Z.leb_le|]. unfold Handle. destruct (take_attrs _ _ _) as [e|[hs data]]; [done|]. cbn zeta.
  unfold mbind, stm_bind. rewrite route_gated; [done|]. by destruct (0 <? h_indent hs).
Qed.

Lemma plain_app a b : plain_text (a +:+ b) ↔ plain_text a ∧ plain_text b.
Proof. unfold plain_text. rewrite chars_app, not_elem_of_app. done. Qed.
Lemma plain_indent p : plain_text (indentPrefix p).
Proof.
  unfold indentPrefix. case_match; [apply not_elem_of_nil|]. induction (Z.to_nat (indent p)) as [|n IH]; [apply not_elem_of_nil|].
  cbn [Repeat]. apply plain_app. split; [|done]. unfold plain_text. cbn. rewrite !not_elem_of_cons. repeat split; [done|done|apply not_elem_of_nil].
Qed.
Ltac plain_literal := unfold plain_text; cbn; rewrite ?not_elem_of_cons; repeat split; (done || apply not_elem_of_nil).

Lemma shown_line p s text rest :
  plain_text text → shown false (indentPrefix p +:+ Apply s text (textColor p) [] +:+ rest) = indentPrefix p +:+ text +:+ shown false rest.
Proof. intros Ht. rewrite shown_plain by apply plain_indent. by rewrite shown_Apply. Qed.

Lemma writeLine_run p out s marker mark c text w :
  plain_text text → plain_text mark → marker = Apply s mark c [] ∧ mark ≠ "" ∨ marker = "" ∧ mark = "" →
  ∃ line, writeLine p out s marker text w = write out line w ∧
    shown false line = indentPrefix p +:+ (if String.eqb mark "" then "" else mark +:+ " ") +:+ text +:+ nl.
Proof.
  intros Ht Hm Hk. unfold writeLine. destruct Hk as [[-> Hne]|[-> ->]].
  - rewrite (proj2 (String.eqb_neq mark "") Hne).
    assert (String.eqb (Apply s mark c []) "" = false) as ->.
    { unfold Apply, render. destruct (negb _); [by apply String.eqb_neq|]. cbn zeta.
      destruct (String.eqb (buildPrefix c []) ""); [by apply String.eqb_neq|]. apply String.eqb_neq. intros E%(f_equal slen). rewrite !slen_app in E. by cbn in E; lia. }
    eexists. split; [done|]. rewrite shown_plain by apply plain_indent. rewrite shown_Apply by done.
    rewrite (shown_plain " ") by plain_literal. rewrite shown_Apply by done. by rewrite !sapp_assoc.
  - eexists. split; [done|]. by rewrite shown_line.
Qed.

Lemma route_run `{!FormatsLaws} p l success msg w :
  plain_text msg →
  ∃ line, route p l success msg w = (if gate_of l <? level_of (level p) w then ((), w) else write (stream_of p l) line w) ∧
    shown false line = indentPrefix p +:+ mark_of l success +:+ msg +:+ nl.
Proof.
  intros Hm. unfold route, gate_of, stream_of, mark_of, Error, Warn, Success, Info, Verbose. rewrite !Sprintf_s. cbn zeta.
  assert (∀ (n : string), n +:+ " " +:+ msg +:+ nl = (n +:+ " ") +:+ msg +:+ nl) as Ha by (intros; by rewrite sapp_assoc).
  destruct (Z.leb_spec LevelError l) as [H8|H8]; [|destruct (Z.leb_spec LevelWarn l) as [H4|H4];
    [|destruct (Z.leb_spec LevelInfo l) as [HI|HI]; [destruct success|]]]; cbn [andb]; rewrite ?andb_false_r.
  - assert (LevelWarn <=? l = true) as -> by (apply Z.leb_le; unfold LevelError, LevelWarn in *; lia).
    destruct (writeLine_run p (errW p) (errStyle p) (Apply (errStyle p) cross_mark Red []) cross_mark Red msg w)
      as (line & E & Hl); [done|plain_literal|by left|]. exists line. split; [by rewrite gated_run, E|exact Hl].
  - destruct (writeLine_run p (errW p) (errStyle p) (Apply (errStyle p) "!" Yellow []) "!" Yellow msg w)
      as (line & E & Hl); [done|plain_literal|by left|]. exists line. split; [by rewrite gated_run, E|exact Hl].
  - destruct (writeLine_run p (outW p) (outStyle p) (Apply (outStyle p) check_mark Green []) check_mark Green msg w)
      as (line & E & Hl); [done|plain_literal|by left|]. exists line. split; [by rewrite gated_run, E|exact Hl].
  - destruct (writeLine_run p (outW p) (outStyle p) "" "" Red msg w)
      as (line & E & Hl); [done|plain_literal|by right|]. exists line. split; [by rewrite gated_run, E|exact Hl].
  - eexists. split; [by rewrite gated_run|]. rewrite shown_plain by apply plain_indent. by rewrite shown_Apply.
Qed.

(** *** What the attributes of a record say

    By their keys within the group, and not by how [Handle] goes through them. *)
Definition full_key (g : string) (a : Attr) : string := grouped g (Key a).
Definition well_kinded (g : string) (a : Attr) : Prop :=
  (full_key g a = HintIndent → ∃ z, Value a = KInt64 z) ∧ (full_key g a = HintSuccess → ∃ b, Value a = KBool b).
#[local] Instance well_kinded_dec g a : Decision (well_kinded g a).
Proof.
  unfold well_kinded. destruct (decide (full_key g a = HintIndent)) as [E|], (decide (full_key g a = HintSuccess)) as [e|].
  - exfalso. by rewrite E in e.
  - destruct (Value a); first [left; split; [by eauto|done]|right; intros [Hx _]; by destruct (Hx E)].
  - destruct (Value a); first [left; split; [done|by eauto]|right; intros [_ Hx]; by destruct (Hx e)].
  - left. by split.
Defined.

(** The amounts and the successes that are hinted at, in order, and the texts of
    the attributes whose key is not one of the console. *)
Definition indents (g : string) (l : list Attr) : list Z :=
  omap (λ a, match Value a with KInt64 z => if decide (full_key g a = HintIndent) then Some z else None | _ => None end) l.
Definition successes (g : string) (l : list Attr) : list bool :=
  omap (λ a, match Value a with KBool b => if decide (full_key g a = HintSuccess) then Some b else None | _ => None end) l.
Definition texts (g : string) (l : list Attr) : list string :=
  map (λ a, full_key g a +:+ "=" +:+ value_String (Value a)) (filter (λ a, HasPrefix (full_key g a) "console." = false) l).

(** What [Handle] must come to from the hints of the handler. *)
Definition hinted (g : string) (hs : hintSet) (l : list Attr) : hintSet :=
  {| h_indent := foldl (λ n z, int64 (n + z)) (h_indent hs) (indents g l);
     h_success := default (h_success hs) (last (successes g l)) |}.

Lemma take_attr_spec g hs data a : well_kinded g a →
  take_attr g (hs, data) a = inr (hinted g hs [a], data ++ texts g [a]).
Proof.
  intros [Hi Hs]. unfold take_attr, hinted, texts, indents, successes, well_kinded, full_key in *. cbn zeta.
  change (filter ?P [a]) with (if decide (P a) then [a] else []).
  destruct (String.eqb_spec (grouped g (Key a)) HintIndent) as [E|E];
    [|destruct (String.eqb_spec (grouped g (Key a)) HintSuccess) as [E'|E']].
  - destruct (Hi E) as [z Ez]. cbn [omap list_omap]. rewrite Ez, E. cbn. rewrite app_nil_r. by destruct hs.
  - destruct (Hs E') as [b Eb]. cbn [omap list_omap]. rewrite Eb, E'. cbn. rewrite app_nil_r. by destruct hs.
  - change HintPrefix with "console.".
    assert (∀ v, (match v with KInt64 z => if decide (grouped g (Key a) = HintIndent) then Some z else None | _ => None end) = None) as H1
      by (intros []; try done; by rewrite decide_False).
    assert (∀ v, (match v with KBool b => if decide (grouped g (Key a) = HintSuccess) then Some b else None | _ => None end) = None) as H2
      by (intros []; try done; by rewrite decide_False).
    cbn [omap list_omap]. rewrite H1, H2. destruct hs, (HasPrefix (grouped g (Key a)) "console."); cbn; by rewrite ?app_nil_r.
Qed.

Lemma hinted_cons g hs a l : hinted g (hinted g hs [a]) l = hinted g hs (a :: l).
Proof.
  unfold hinted, indents, successes. f_equal.
  - cbn [omap list_omap h_indent]. by destruct (match Value a with KInt64 _ => _ | _ => _ end).
  - cbn [omap list_omap h_success]. destruct (match Value a with KBool _ => _ | _ => _ end); [|done].
    rewrite (last_cons _ (omap _ l)). by destruct (last (omap _ l)).
Qed.
Lemma texts_cons g a l : texts g (a :: l) = texts g [a] ++ texts g l.
Proof. unfold texts. change (a :: l) with ([a] ++ l). by rewrite filter_app, map_app. Qed.

Lemma take_attrs_spec g l : ∀ hs data, Forall (well_kinded g) l →
  take_attrs g (hs, data) l = inr (hinted g hs l, data ++ texts g l).
Proof.
  induction l as [|a l IH]; intros hs data Hl.
  { cbn. unfold hinted, texts. cbn. rewrite app_nil_r. by destruct hs. }
  apply Forall_cons in Hl as [Ha Hl]. cbn [take_attrs]. rewrite take_attr_spec by done. rewrite IH by done.
  by rewrite hinted_cons, (texts_cons g a l), app_assoc.
Qed.

(** A hint of another kind panics. *)
Lemma take_attrs_panics g l : ∀ acc, ¬ Forall (well_kinded g) l → ∃ e, take_attrs g acc l = inl e.
Proof.
  induction l as [|a l IH]; intros [hs data] Hl; [by destruct Hl|]. cbn [take_attrs].
  destruct (decide (well_kinded g a)) as [Ha|Ha].
  - rewrite take_attr_spec by done. apply IH. intros Hl'. apply Hl. by constructor.
  - assert (∃ e, take_attr g (hs, data) a = inl e) as [e ->]; [|eauto]. unfold take_attr. cbn zeta.
    unfold well_kinded, full_key in Ha. destruct (decide (grouped g (Key a) = HintIndent)) as [E|E].
    + rewrite E. cbn. destruct (Value a) eqn:Ev; cbn; eauto. destruct Ha. split; [eauto|]. by rewrite E.
    + destruct (decide (grouped g (Key a) = HintSuccess)) as [E'|]; [|by destruct Ha].
      rewrite E'. cbn. destruct (Value a) eqn:Ev; cbn; eauto. destruct Ha. split; [done|eauto].
Qed.

Lemma message_Join msg data : message msg data = Join (msg :: data) " ".
Proof. by destruct data. Qed.

(** C38: rendering a record.  The keys of a record's attributes, within the group of
    the handler, say what they are: [console.indent] is an amount to indent by,
    [console.success] a success, any other below [console.] is ignored, and the
    rest is text; a hint in a group is therefore text as well
    ([grouped_hint_printed]).  If one of the first two is not of its kind, handling
    the record panics with nothing written.  Otherwise, from the hints and
    attributes of the handler on, amounts add up and the last success counts.  A
    record is shown if the level of the printer is at most the standard level at or
    below the record's own (debug for all below information), which is not whether
    the handler is enabled for it ([enabled_not_shown]); if not, nothing is
    written.  If it is, and its text has no escape character, exactly one line is,
    to the error stream from the warning level on and to the output stream below
    it: without its colors it is the indentation of the printer and, if it is
    positive, of the hints, then the mark of the level, the message and the texts
    of the handler and of the record. *)
Theorem Handle_line `{!FormatsLaws} h r w :
  (¬ Forall (well_kinded (group h)) (Attrs r) → ∃ e, Handle h r w = (inl e, w)) ∧
  (Forall (well_kinded (group h)) (Attrs r) →
   let text := Join (Message r :: map formatAttr (attrs h) ++ texts (group h) (Attrs r)) " " in
   let amount := foldl (λ n z, int64 (n + z)) (h_indent (hints h)) (indents (group h) (Attrs r)) in
   let success := default (h_success (hints h)) (last (successes (group h) (Attrs r))) in
   (gate_of (Level r) < level_of (level (p_of h)) w → Handle h r w = (inr (), w)) ∧
   (level_of (level (p_of h)) w ≤ gate_of (Level r) → plain_text text →
    ∃ line, Handle h r w = (inr (), {| levels := levels w; writes := writes w ++ [(stream_of (p_of h) (Level r), line)];
                                       reads := reads w |}) ∧
      shown false line =
        spaces (if 0 <? amount then int64 (indent (p_of h) + amount) else indent (p_of h)) +:+
        mark_of (Level r) success +:+ text +:+ nl)).
Proof.
  split.
  { intros Hk. unfold Handle. destruct (take_attrs_panics (group h) (Attrs r) (hints h, map formatAttr (attrs h)) Hk) as [e ->]. by exists e. }
  intros Hk text amount success. set (hs := hinted (group h) (hints h) (Attrs r)).
  change amount with (h_indent hs). change success with (h_success hs).
  set (target := if 0 <? h_indent hs then withIndent (p_of h) (h_indent hs) else p_of h).
  assert (Handle h r w = (inr (), (route target (Level r) (h_success hs) text w).2)) as ->.
  { unfold Handle. rewrite take_attrs_spec by done. rewrite message_Join. fold hs. fold target. fold text.
    unfold mbind, stm_bind. by destruct (route _ _ _ _ w). }
  assert (level target = level (p_of h) ∧ stream_of target (Level r) = stream_of (p_of h) (Level r)) as [El Es]
    by (subst target; by destruct (0 <? h_indent hs)).
  split.
  - intros Hg. rewrite route_gated; [done|by rewrite El].
  - intros Hg Hp. destruct (route_run target (Level r) (h_success hs) _ w Hp) as (line & E & Hl).
    rewrite El, Es, (proj2 (Z.ltb_ge _ _) Hg) in E. rewrite E. exists line. split; [done|].
    rewrite Hl. unfold indentPrefix, spaces, target. by destruct (0 <? h_indent hs).
Qed.
End handler.

(** ** Runs *)

Definition plain_formats : Formats := {|
  fmt_arg := string; arg_string := id; Sprintf f args := match args with [a] => a | _ => f end;
  Sprintln args := Join args " " +:+ nl |}.
Lemma plain_formats_laws : @FormatsLaws plain_formats.
Proof. by split. Qed.

Definition console : printer := {|
  outW := Stdout; errW := Stderr; level := 0; outStyle := {| active := true |}; errStyle := {| active := true |};
  indent := 1; textColor := 4 |}.
Definition quiet_world : pworld := {| levels := ∅; writes := []; reads := [] |}.
Definition tagged : printerHandler := {|
  p_of := console; attrs := [{| Key := "job.id"; Value := KInt64 7 |}]; hints := {| h_indent := 0; h_success := false |};
  group := "" |}.
Definition enrolled : Record_ := {|
  Time := 0; Level := LevelInfo; Message := "enrolled";
  Attrs := [{| Key := HintIndent; Value := KInt64 1 |}; {| Key := HintSuccess; Value := KBool true |};
            {| Key := "host"; Value := KString "a" |}] |}.

Lemma Handle_line_witness :
  (∃ line, @Handle plain_formats tagged enrolled quiet_world =
      (inr (), {| levels := ∅; writes := [(Stdout, line)]; reads := [] |}) ∧
    shown false line = "    " +:+ check_mark +:+ " enrolled job.id=7 host=a" +:+ nl) ∧
  ∃ e, @Handle plain_formats tagged {| Time := 0; Level := LevelInfo; Message := "";
         Attrs := [{| Key := HintIndent; Value := KString "2" |}] |} quiet_world = (inl e, quiet_world).
Proof.
  split.
  - pose proof (proj2 (@Handle_line plain_formats plain_formats_laws tagged enrolled quiet_world)) as Hl.
    destruct Hl as [_ Hl]; [repeat constructor; intros E; first [discriminate E|by eexists]|].
    apply Hl; [done|]. apply (bool_decide_unpack _). vm_compute. exact I.
  - apply (proj1 (@Handle_line plain_formats plain_formats_laws tagged {| Time := 0; Level := LevelInfo; Message := "";
         Attrs := [{| Key := HintIndent; Value := KString "2" |}] |} quiet_world)).
    intros [[Hk _] _]%Forall_cons. by destruct (Hk eq_refl) as [z Hz].
Defined.

Lemma WithAttrs_Handle_witness :
  ∃ h, WithAttrs tagged [{| Key := HintIndent; Value := KInt64 1 |}; {| Key := "n"; Value := KInt64 2 |}] = inr h ∧
    @Handle plain_formats h enrolled quiet_world =
    @Handle plain_formats tagged
      {| Time := 0; Level := LevelInfo; Message := "enrolled";
         Attrs := [{| Key := HintIndent; Value := KInt64 1 |}; {| Key := "n"; Value := KInt64 2 |}] ++ Attrs enrolled |} quiet_world.
Proof.
  pose proof (@WithAttrs_Handle plain_formats tagged
    [{| Key := HintIndent; Value := KInt64 1 |}; {| Key := "n"; Value := KInt64 2 |}] enrolled quiet_world) as Hw.
  eexists. split; [reflexivity|]. apply Hw. repeat constructor; done.
Defined.

End Printer.
