(* ===== verification/Logger.v ===== *)
(** * The console logger

    [src/console/logger]: loggers that share a level and write each record to
    every sink, the handler that adds the IDs of a context and removes console
    hints, and the queue of records from before there is a logger.  The JSON
    handler of [log/slog] is modelled by the entry that it writes; which writes a
    sink accepts, the clock, the random numbers and the opening of a log file are
    the class [LogHost]. *)
From S2P Require Import Prelude.
From S2P Require Import GoStrings.
From S2P Require Import Style.
From S2P Require Import Printer.
From Stdlib Require Import Ascii.
#[local] Open Scope stdpp_scope.
#[local] Open Scope Z_scope.

(** ** Records and arguments of [log/slog] *)

(** An argument of a logging method: text, an attribute, or another value. *)
Inductive arg := AStr (s : string) | AAttr (a : Attr) | AVal (v : slog_value).

Definition any_value (a : arg) : slog_value :=
  match a with
  | AStr s => KString s
  | AAttr a => KOther (Key a +:+ "=" +:+ value_String (Value a))
  | AVal v => v
  end.
Definition badKey : string := "!BADKEY".

(** [argsToAttrSlice]. *)
Fixpoint argsToAttrs (args : list arg) : list Attr :=
  match args with
  | [] => []
  | AStr s :: [] => [{| Key := badKey; Value := KString s |}]
  | AStr s :: v :: args => {| Key := s; Value := any_value v |} :: argsToAttrs args
  | AAttr a :: args => a :: argsToAttrs args
  | AVal v :: args => {| Key := badKey; Value := v |} :: argsToAttrs args
  end.

Definition text_attr (key v : string) : Attr := {| Key := key; Value := KString v |}.
Definition with_attrs (l : list Attr) (r : Record_) : Record_ :=
  {| Time := Time r; Level := Level r; Message := Message r; Attrs := l |}.

(** What a JSON handler writes for a record: each attribute with its groups. *)
Record entry := { e_Time : Z; e_Level : Z; e_Message : string; e_Attrs : list (list string * Attr) }.

(** The clock and the random digits of a run ID, each by the number of the call, the
    writes that a sink accepts, [os.OpenFile] of a log file, the base name of the
    program, and [%q]. *)
Class LogHost := {
  now : nat → Z;
  rand_hex : nat → nat → Z;
  accepts : writer → nat → bool;
  open_log : string → string + writer;
  binary : string;
  quoted : string → string;
}.

Module Logger.

(** ** The world: levels by reference, attempted writes with their success *)

Record lworld := { l_levels : gmap nat Z; l_out : list (writer * entry * bool); l_tick : nat }.
Abbreviation io A := (stm lworld A).

Definition level_of (r : nat) (w : lworld) : Z := default 0 (l_levels w !! r).
Definition new_level (l : Z) : io nat := λ w,
  let r := fresh (dom (l_levels w)) in
  (r, {| l_levels := <[r := l]> (l_levels w); l_out := l_out w; l_tick := l_tick w |}).
Definition put_level (r : nat) (l : Z) : io () := λ w,
  ((), {| l_levels := <[r := l]> (l_levels w); l_out := l_out w; l_tick := l_tick w |}).

Section logging.
Context `{LogHost}.

(** The time of the clock. *)
Definition time_Now : io Z := λ w,
  (now (l_tick w), {| l_levels := l_levels w; l_out := l_out w; l_tick := S (l_tick w) |}).
Definition emit (out : writer) (e : entry) : io bool := λ w,
  let ok := accepts out (length (l_out w)) in
  (ok, {| l_levels := l_levels w; l_out := l_out w ++ [(out, e, ok)]; l_tick := l_tick w |}).

(** ** context.go *)

Record ctx := { ctx_request : option string; ctx_trace : option string }.
Definition Background : ctx := {| ctx_request := None; ctx_trace := None |}.
Definition WithRequestID (c : ctx) (id : string) : ctx := {| ctx_request := Some id; ctx_trace := ctx_trace c |}.
Definition WithTraceID (c : ctx) (id : string) : ctx := {| ctx_request := ctx_request c; ctx_trace := Some id |}.
Definition RequestIDFrom (c : ctx) : string := default "" (ctx_request c).
Definition TraceIDFrom (c : ctx) : string := default "" (ctx_trace c).

(** ** handler.go *)

Inductive handler :=
  | JSON (out : writer) (lvl : nat) (groups : list string) (attrs : list (list string * Attr))
  | Context (inner : handler) (hasRequestID hasTraceID : bool)
  | Fan (handlers : list handler).

Definition is_hint (a : Attr) : bool := HasPrefix (Key a) HintPrefix.
Definition filterHintAttrs (l : list Attr) : list Attr := List.filter (λ a, negb (is_hint a)) l.

(** The methods of a [fanHandler], by those of its children. *)
Definition fan_Enabled (enabled : handler → bool) (hs : list handler) : bool := existsb enabled hs.
Definition fan_Handle (enabled : handler → lworld → bool) (handle : handler → io bool) : list handler → io bool :=
  fix deliver hs :=
    match hs with
    | [] => mret true
    | h :: hs => λ w, deliver hs (if enabled h w then (handle h w).2 else w)
    end.
Definition fan_WithAttrs (with_attrs : handler → handler) (hs : list handler) : handler := Fan (map with_attrs hs).
Definition fan_WithGroup (with_group : handler → handler) (hs : list handler) : handler := Fan (map with_group hs).

Fixpoint Enabled (h : handler) (l : Z) (w : lworld) : bool :=
  match h with
  | JSON _ lvl _ _ => level_of lvl w <=? l
  | Context inner _ _ => Enabled inner l w
  | Fan hs => fan_Enabled (λ h, Enabled h l w) hs
  end.

Definition json_entry (groups : list string) (attrs : list (list string * Attr)) (r : Record_) : entry := {|
  e_Time := Time r; e_Level := Level r; e_Message := Message r; e_Attrs := attrs ++ map (pair groups) (Attrs r) |}.

(** The IDs of the context that are not stamped yet. *)
Definition context_attrs (c : ctx) (hasRequestID hasTraceID : bool) : list Attr :=
  (if hasRequestID || String.eqb (RequestIDFrom c) "" then [] else [text_attr "request_id" (RequestIDFrom c)]) ++
  (if hasTraceID || String.eqb (TraceIDFrom c) "" then [] else [text_attr "trace_id" (TraceIDFrom c)]).

(** Whether the handler reports no error; a fan drops the errors of its children. *)
Fixpoint Handle (h : handler) (c : ctx) (r : Record_) : io bool :=
  match h with
  | JSON out _ groups attrs => emit out (json_entry groups attrs r)
  | Context inner hasRequestID hasTraceID =>
      let l := Attrs r ++ context_attrs c hasRequestID hasTraceID in
      Handle inner c (with_attrs (if existsb is_hint l then filterHintAttrs l else l) r)
  | Fan hs => fan_Handle (λ h w, Enabled h (Level r) w) (λ h, Handle h c r) hs
  end.

Fixpoint WithAttrs (h : handler) (l : list Attr) : handler :=
  match h with
  | JSON out lvl groups attrs => JSON out lvl groups (attrs ++ map (pair groups) l)
  | Context inner hasRequestID hasTraceID => Context (WithAttrs inner (filterHintAttrs l)) hasRequestID hasTraceID
  | Fan hs => fan_WithAttrs (λ h, WithAttrs h l) hs
  end.
Fixpoint WithGroup (h : handler) (name : string) : handler :=
  match h with
  | JSON out lvl groups attrs => JSON out lvl (groups ++ [name]) attrs
  | Context inner hasRequestID hasTraceID => Context (WithGroup inner name) hasRequestID hasTraceID
  | Fan hs => fan_WithGroup (λ h, WithGroup h name) hs
  end.

Definition newContextHandler (inner : handler) : handler := Context inner false false.
Definition withHasRequestID (h : handler) : handler :=
  match h with Context inner _ hasTraceID => Context inner true hasTraceID | _ => h end.
Definition withHasTraceID (h : handler) : handler :=
  match h with Context inner hasRequestID _ => Context inner hasRequestID true | _ => h end.

(** ** options.go, logger.go *)

Record config := {
  c_level : Z; c_stderr : bool; c_filePath : string; c_runID : string; c_writer : option writer }.
Abbreviation Option_ := (config → config).
Definition WithLevel (l : Z) : Option_ := λ c, Build_config l (c_stderr c) (c_filePath c) (c_runID c) (c_writer c).
Definition WithStderr : Option_ := λ c, Build_config (c_level c) true (c_filePath c) (c_runID c) (c_writer c).
Definition WithFile (path : string) : Option_ := λ c,
  Build_config (c_level c) (c_stderr c) path (c_runID c) (c_writer c).
Definition WithRunID (id : string) : Option_ := λ c,
  Build_config (c_level c) (c_stderr c) (c_filePath c) id (c_writer c).
Definition withWriter (out : writer) : Option_ := λ c,
  Build_config (c_level c) (c_stderr c) (c_filePath c) (c_runID c) (Some out).
Definition new_config (opts : list Option_) : config :=
  foldl (λ c opt, opt c) (Build_config LevelInfo false "" "" None) opts.

Definition baseWriter (c : config) : writer := match c_writer c with Some out => out | None => Stderr end.

Definition resolveWriters (c : config) : list writer * string :=
  let base := baseWriter c in
  let writers := if c_stderr c then [base] else [] in
  let '(writers, fallbackMsg) :=
    if String.eqb (c_filePath c) "" then (writers, "") else
    match open_log (c_filePath c) with
    | inl err =>
        (match writers with [] => [base] | _ => writers end, "cannot open log file " +:+ quoted (c_filePath c) +:+ ": " +:+ err)
    | inr f => (writers ++ [f], "")
    end in
  (match writers with [] => [base] | _ => writers end, fallbackMsg).

Definition hex_digit (z : Z) : string :=
  match chars "0123456789abcdef" !! Z.to_nat z with Some c => String c "" | None => "" end.
Definition run_digits (n : nat) : string := foldr (λ i s, hex_digit (rand_hex n i) +:+ s) "" (seq 0 16).
Definition generateRunID : io string := λ w,
  (run_digits (l_tick w), {| l_levels := l_levels w; l_out := l_out w; l_tick := S (l_tick w) |}).

(** The [slog.Logger] of a logger has its handler. *)
Record logger := {
  handler_of : handler;
  level : nat;
  unit_ : string;
  hasRequestID : bool;
  hasTraceID : bool;
}.

(** [slog.Logger.log]. *)
Definition log (l : logger) (c : ctx) (lvl : Z) (msg : string) (args : list arg) : io () := λ w,
  if Enabled (handler_of l) lvl w then
    let '(t, w) := time_Now w in
    ((), (Handle (handler_of l) c {| Time := t; Level := lvl; Message := msg; Attrs := argsToAttrs args |} w).2)
  else ((), w).
Definition Debug (l : logger) := log l Background LevelDebug.
Definition Info (l : logger) := log l Background LevelInfo.
Definition Warn (l : logger) := log l Background LevelWarn.
Definition Error (l : logger) := log l Background LevelError.
Definition DebugContext (l : logger) (c : ctx) := log l c LevelDebug.
Definition InfoContext (l : logger) (c : ctx) := log l c LevelInfo.
Definition WarnContext (l : logger) (c : ctx) := log l c LevelWarn.
Definition ErrorContext (l : logger) (c : ctx) := log l c LevelError.

Definition SetLevel (l : logger) (lvl : Z) : io () := put_level (level l) lvl.

Definition For (l : logger) (unit : string) : logger :=
  let nested := unit_ l +:+ "." +:+ unit in
  {| handler_of := WithAttrs (handler_of l) [text_attr "unit" nested]; level := level l; unit_ := nested;
     hasRequestID := hasRequestID l; hasTraceID := hasTraceID l |}.
Definition WithRequest (l : logger) (id : string) : logger := {|
  handler_of := withHasRequestID (WithAttrs (handler_of l) [text_attr "request_id" id]); level := level l;
  unit_ := unit_ l; hasRequestID := true; hasTraceID := hasTraceID l |}.
Definition WithTrace (l : logger) (id : string) : logger := {|
  handler_of := withHasTraceID (WithAttrs (handler_of l) [text_attr "trace_id" id]); level := level l;
  unit_ := unit_ l; hasRequestID := hasRequestID l; hasTraceID := true |}.
(** [slog.Logger.With] without arguments is the logger itself. *)
Definition With (l : logger) (args : list arg) : logger := {|
  handler_of := match args with [] => handler_of l | _ => WithAttrs (handler_of l) (argsToAttrs args) end;
  level := level l; unit_ := unit_ l; hasRequestID := hasRequestID l; hasTraceID := hasTraceID l |}.

Definition json_handlers (lvl : nat) (ws : list writer) : handler :=
  match ws with
  | [out] => JSON out lvl [] []
  | _ => Fan (map (λ out, JSON out lvl [] []) ws)
  end.

Definition New (program : string) (opts : list Option_) : io logger :=
  let program := if String.eqb program "" then binary else program in
  let c := new_config opts in
  runID ← (if String.eqb (c_runID c) "" then generateRunID else mret (c_runID c));
  r ← new_level (c_level c);
  let '(writers, fallbackMsg) := resolveWriters c in
  let h := WithAttrs (newContextHandler (json_handlers r writers))
    [text_attr "program" program; text_attr "unit" program; text_attr "run_id" runID] in
  let l := {| handler_of := h; level := r; unit_ := program; hasRequestID := false; hasTraceID := false |} in
  _ ← (if String.eqb fallbackMsg "" then mret () else Warn l "logger degraded" [AStr "reason"; AStr fallbackMsg]);
  mret l.

(** ** prelogger.go *)

Record preLogger := { records : list Record_; flushed : bool }.
Definition Pre : preLogger := {| records := []; flushed := false |}.

(** A method panics with a message, or answers the queue after it. *)
Definition record (p : preLogger) (lvl : Z) (msg : string) (args : list arg) : io (string + preLogger) :=
  if flushed p then mret (inl "logger.PreLogger: used after Flush") else
  t ← time_Now;
  mret (inr {| records := records p ++ [{| Time := t; Level := lvl; Message := msg; Attrs := argsToAttrs args |}];
               flushed := false |}).
Definition Count (p : preLogger) (lvl : Z) : Z :=
  foldl (λ n r, if lvl <=? Level r then n + 1 else n) 0 (records p).

Fixpoint replay (h : handler) (l : list Record_) : io () :=
  match l with [] => mret () | r :: l => _ ← Handle h Background r; replay h l end.
(** The target is the handler of a logger, or nil. *)
Definition Flush (p : preLogger) (target : option handler) : io (string + preLogger) :=
  if flushed p then mret (inl "logger.PreLogger: Flush called twice") else
  match target with
  | None => mret (inr {| records := []; flushed := true |})
  | Some h => _ ← replay h (records p); mret (inr {| records := []; flushed := true |})
  end.

(** ** Derived loggers *)

Inductive derivation := DFor (unit : string) | DRequest (id : string) | DTrace (id : string) | DWith (args : list arg).
Definition derive (l : logger) (d : derivation) : logger :=
  match d with
  | DFor unit => For l unit
  | DRequest id => WithRequest l id
  | DTrace id => WithTrace l id
  | DWith args => With l args
  end.

(** What a logger stamps on its records: a specification without handlers. *)
Record stamp := { s_unit : string; s_attrs : list Attr; s_request : bool; s_trace : bool }.
Definition stamp_derive (s : stamp) (d : derivation) : stamp :=
  match d with
  | DFor unit =>
      let u := s_unit s +:+ "." +:+ unit in
      {| s_unit := u; s_attrs := s_attrs s ++ [text_attr "unit" u]; s_request := s_request s; s_trace := s_trace s |}
  | DRequest id =>
      {| s_unit := s_unit s; s_attrs := s_attrs s ++ [text_attr "request_id" id]; s_request := true; s_trace := s_trace s |}
  | DTrace id =>
      {| s_unit := s_unit s; s_attrs := s_attrs s ++ [text_attr "trace_id" id]; s_request := s_request s; s_trace := true |}
  | DWith args =>
      {| s_unit := s_unit s; s_attrs := s_attrs s ++ filterHintAttrs (argsToAttrs args); s_request := s_request s;
         s_trace := s_trace s |}
  end.

Definition top (l : list Attr) : list (list string * Attr) := map (pair []) l.

(** The sinks of a handler, all with the same attributes and level. *)
Definition sinks (lvl : nat) (ws : list writer) (attrs : list Attr) : handler :=
  match ws with
  | [out] => JSON out lvl [] (top attrs)
  | _ => Fan (map (λ out, JSON out lvl [] (top attrs)) ws)
  end.

(** A logger with the writers [ws] and the stamp [s]. *)
Definition stamps (l : logger) (ws : list writer) (s : stamp) : Prop :=
  handler_of l = Context (sinks (level l) ws (s_attrs s)) (s_request s) (s_trace s) ∧ unit_ l = s_unit s ∧
  hasRequestID l = s_request s ∧ hasTraceID l = s_trace s.

Lemma sinks_WithAttrs lvl ws attrs l : WithAttrs (sinks lvl ws attrs) l = sinks lvl ws (attrs ++ l).
Proof.
  assert (∀ out, WithAttrs (JSON out lvl [] (top attrs)) l = JSON out lvl [] (top (attrs ++ l))) as Hj.
  { intros out. cbn. unfold top. by rewrite map_app. }
  assert (WithAttrs (Fan (map (λ out, JSON out lvl [] (top attrs)) ws)) l =
    Fan (map (λ out, JSON out lvl [] (top (attrs ++ l))) ws)) as Hf.
  { cbn [WithAttrs]. unfold fan_WithAttrs. rewrite map_map. f_equal. apply map_ext. intros out. apply Hj. }
  unfold sinks. destruct ws as [|out [|out' ws]]; [exact Hf|apply Hj|exact Hf].
Qed.

Lemma filter_none l : existsb is_hint l = false → filterHintAttrs l = l.
Proof.
  unfold filterHintAttrs. induction l as [|a l IH]; [done|]. cbn [List.filter existsb].
  intros [-> Hl]%orb_false_iff. cbn [negb]. by rewrite IH.
Qed.

Lemma derive_stamps l ws s d : stamps l ws s → stamps (derive l d) ws (stamp_derive s d).
Proof.
  intros (Hh & Hu & Hr & Ht). destruct d as [u|id|id|args]; unfold derive, For, WithRequest, WithTrace, With, stamps; cbn; rewrite Hh, ?Hu.
  1-3: by cbn; rewrite sinks_WithAttrs; repeat split.
  repeat split; [|done..]. destruct args as [|a args]; [by rewrite app_nil_r|]. cbn [WithAttrs]. by rewrite sinks_WithAttrs.
Qed.

(** The writes of one record to the sinks. *)
Fixpoint deliveries (ws : list writer) (e : entry) (n : nat) : list (writer * entry * bool) :=
  match ws with [] => [] | out :: ws => (out, e, accepts out n) :: deliveries ws e (S n) end.
Definition delivered (ws : list writer) (e : entry) (w : lworld) : lworld :=
  {| l_levels := l_levels w; l_out := l_out w ++ deliveries ws e (length (l_out w)); l_tick := l_tick w |}.

Lemma fan_Handle_cons e f h hs w : fan_Handle e f (h :: hs) w = fan_Handle e f hs (if e h w then (f h w).2 else w).
Proof. done. Qed.
Lemma fan_handle lvl attrs c r ws : ∀ w,
  (Handle (Fan (map (λ out, JSON out lvl [] (top attrs)) ws)) c r w).2 =
    if level_of lvl w <=? Level r then delivered ws (json_entry [] (top attrs) r) w else w.
Proof.
  cbn [Handle]. induction ws as [|out ws IH]; intros w.
  { cbn. unfold delivered. cbn. rewrite app_nil_r. case_match; by destruct w. }
  cbn [map]. rewrite fan_Handle_cons. cbn beta. cbn [Enabled]. destruct (level_of lvl w <=? Level r) eqn:E.
  - rewrite IH. assert (level_of lvl (Handle (JSON out lvl [] (top attrs)) c r w).2 = level_of lvl w) as -> by done.
    rewrite E. unfold delivered. cbn [Handle emit snd l_levels l_out l_tick deliveries]. f_equal.
    rewrite length_app, <- app_assoc. cbn [length app]. by rewrite Nat.add_1_r.
  - by rewrite IH, E.
Qed.

Lemma sinks_Enabled lvl ws attrs l w : ws ≠ [] → Enabled (sinks lvl ws attrs) l w = (level_of lvl w <=? l).
Proof.
  intros Hw. unfold sinks. destruct ws as [|out [|out' ws]]; [done|done|]. cbn [map Enabled]. unfold fan_Enabled. cbn [existsb Enabled].
  destruct (level_of lvl w <=? l) eqn:El; [done|]. cbn [orb]. clear Hw. induction ws as [|x ws IH]; [done|].
  cbn [map existsb Enabled]. by rewrite El.
Qed.

Lemma sinks_Handle lvl ws attrs c r w :
  ws ≠ [] → (level_of lvl w <=? Level r) = true →
  (Handle (sinks lvl ws attrs) c r w).2 = delivered ws (json_entry [] (top attrs) r) w.
Proof.
  intros Hw Hl. unfold sinks. destruct ws as [|out [|out' ws]]; [done| |].
  - done.
  - by rewrite fan_handle, Hl.
Qed.

(** The entry of a record, by the stamp. *)
Definition stamped (s : stamp) (c : ctx) (r : Record_) : entry := {|
  e_Time := Time r; e_Level := Level r; e_Message := Message r;
  e_Attrs := top (s_attrs s ++ filterHintAttrs (Attrs r ++ context_attrs c (s_request s) (s_trace s))) |}.

Lemma handle_stamped l ws s c r w :
  stamps l ws s → ws ≠ [] → (level_of (level l) w <=? Level r) = true →
  (Handle (handler_of l) c r w).2 = delivered ws (stamped s c r) w.
Proof.
  intros (-> & _) Hw Hl. cbn [Handle]. rewrite sinks_Handle; [|done|exact Hl]. f_equal. unfold json_entry, stamped, top.
  cbn [Attrs with_attrs Time Level Message]. f_equal. rewrite map_app. f_equal. f_equal.
  destruct (existsb is_hint _) eqn:E; [done|]. by rewrite filter_none.
Qed.

Definition program_of (program : string) : string := if String.eqb program "" then binary else program.
Definition run_of (c : config) (n : nat) : string := if String.eqb (c_runID c) "" then run_digits n else c_runID c.
Definition ticks_of (c : config) (n : nat) : nat := if String.eqb (c_runID c) "" then S n else n.
Definition first_stamp (program : string) (c : config) (n : nat) : stamp := {|
  s_unit := program_of program;
  s_attrs := [text_attr "program" (program_of program); text_attr "unit" (program_of program); text_attr "run_id" (run_of c n)];
  s_request := false; s_trace := false |}.

Lemma writers_some c : (resolveWriters c).1 ≠ [].
Proof. unfold resolveWriters. repeat case_match; simplify_eq/=; done || (by destruct (if _ then _ else _)). Qed.

(** What a new logger reports when its file cannot be opened. *)
Definition degraded (program : string) (c : config) (w : lworld) : list (writer * entry * bool) :=
  if String.eqb (resolveWriters c).2 "" || (LevelWarn <? c_level c) then [] else
  deliveries (resolveWriters c).1
    (stamped (first_stamp program c (l_tick w)) Background
      {| Time := now (ticks_of c (l_tick w)); Level := LevelWarn; Message := "logger degraded";
         Attrs := [text_attr "reason" (resolveWriters c).2] |}) (length (l_out w)).

Lemma run_id_run c w :
  (if String.eqb (c_runID c) "" then generateRunID else mret (c_runID c)) w =
    (run_of c (l_tick w), {| l_levels := l_levels w; l_out := l_out w; l_tick := ticks_of c (l_tick w) |}).
Proof. unfold run_of, ticks_of. destruct w. by case_match. Qed.

Lemma warn_run l ws s reason w :
  stamps l ws s → ws ≠ [] →
  let w' := (Warn l "logger degraded" [AStr "reason"; AStr reason] w).2 in
  l_levels w' = l_levels w ∧
  l_out w' = l_out w ++ if LevelWarn <? level_of (level l) w then [] else
    deliveries ws (stamped s Background {| Time := now (l_tick w); Level := LevelWarn; Message := "logger degraded";
      Attrs := [text_attr "reason" reason] |}) (length (l_out w)).
Proof.
  intros Hs Hne. unfold Warn, log.
  assert (Enabled (handler_of l) LevelWarn w = (level_of (level l) w <=? LevelWarn)) as ->.
  { rewrite (proj1 Hs). cbn [Enabled]. by apply sinks_Enabled. }
  rewrite Z.ltb_antisym. destruct (level_of (level l) w <=? LevelWarn) eqn:E; cbn [negb].
  - cbn [time_Now snd]. by rewrite (handle_stamped l ws s).
  - by rewrite app_nil_r.
Qed.

Lemma New_run program opts w :
  let c := new_config opts in
  let '(l, w') := New program opts w in
  stamps l (resolveWriters c).1 (first_stamp program c (l_tick w)) ∧
  l_levels w' = <[level l := c_level c]> (l_levels w) ∧ level l ∉ dom (l_levels w) ∧
  l_out w' = l_out w ++ degraded program c w.
Proof.
  cbn zeta. unfold New. set (c := new_config opts). unfold mbind at 1, stm_bind at 1. rewrite run_id_run. fold (program_of program).
  unfold degraded. destruct (resolveWriters c) as [ws msg] eqn:Ew. pose proof (writers_some c) as Hne. rewrite Ew in Hne.
  cbn [fst snd] in *. unfold mbind at 1, stm_bind at 1, new_level. cbn [l_levels l_out l_tick].
  set (r := fresh (dom (l_levels w))). set (s := first_stamp program c (l_tick w)).
  set (l0 := {| handler_of := WithAttrs _ _ |}). set (w0 := {| l_levels := _ |}).
  assert (stamps l0 ws s) as Hs.
  { split; [|done]. cbn. f_equal. assert (json_handlers r ws = sinks r ws []) as -> by (unfold json_handlers, sinks; by destruct ws as [|? [|? ?]]). by rewrite sinks_WithAttrs. }
  assert (level_of (level l0) w0 = c_level c) as Hl by (unfold level_of; cbn; by rewrite lookup_insert_eq).
  pose proof (warn_run l0 ws s msg w0 Hs Hne) as [H1 H2]. rewrite Hl in H2.
  assert (r ∉ dom (l_levels w)) as Hr by apply is_fresh.
  destruct (String.eqb msg ""); cbn [orb].
  { unfold mbind, stm_bind. cbn. by rewrite app_nil_r. }
  unfold mbind, stm_bind. destruct (Warn l0 _ _ w0) as [[] w1]. cbn [snd] in *.
  split; [exact Hs|]. split; [exact H1|]. split; [exact Hr|]. exact H2.
Qed.

(** C37: what a logger writes.  A logger is made whatever its options, with at
    least one sink and a level of its own, and when its file cannot be opened it
    reports so on its sinks, unless its level is above warnings.  However it is derived, it writes a record at or above its level, which all
    loggers derived from one share, to every sink exactly once, also when sinks
    fail, and below the level to none.  The entry has the program, the nested unit,
    the run ID and the attributes of the derivations in their order, then those of
    the record without console hints and the IDs of the context that the logger
    does not have already. *)
Theorem logger_writes program opts ds c lvl msg args w :
  let cfg := new_config opts in
  let '(l0, w1) := New program opts w in
  let l := foldl derive l0 ds in
  let s := foldl stamp_derive (first_stamp program cfg (l_tick w)) ds in
  let ws := (resolveWriters cfg).1 in
  ws ≠ [] ∧ level l = level l0 ∧ unit_ l = s_unit s ∧
  l_levels w1 = <[level l := c_level cfg]> (l_levels w) ∧ level l ∉ dom (l_levels w) ∧
  l_out w1 = l_out w ++ degraded program cfg w ∧
  ∀ w2, let w3 := (log l c lvl msg args w2).2 in
    l_levels w3 = l_levels w2 ∧
    l_out w3 = l_out w2 ++
      if level_of (level l0) w2 <=? lvl then
        deliveries ws (stamped s c {| Time := now (l_tick w2); Level := lvl; Message := msg; Attrs := argsToAttrs args |})
          (length (l_out w2))
      else [].
Proof.
  cbn zeta. pose proof (New_run program opts w) as Hn. cbn zeta in Hn.
  destruct (New program opts w) as [l0 w1]. destruct Hn as (Hs & Hlev & Hfresh & Hout).
  set (ws := (resolveWriters (new_config opts)).1) in *. assert (ws ≠ []) as Hne by apply writers_some. clearbody ws.
  revert Hs. generalize (first_stamp program (new_config opts) (l_tick w)). intros s Hs.
  assert (level (foldl derive l0 ds) = level l0 ∧ stamps (foldl derive l0 ds) ws (foldl stamp_derive s ds)) as [Hl Hst].
  { clear -Hs. revert l0 s Hs. induction ds as [|d ds IH]; intros l0 s Hs; [done|]. cbn [foldl].
    destruct (IH (derive l0 d) (stamp_derive s d) (derive_stamps _ _ _ d Hs)) as [El Es]. split; [|done].
    rewrite El. by destruct d. }
  split; [done|]. split; [done|]. split; [apply Hst|]. rewrite Hl.
  split; [done|]. split; [done|]. split; [done|]. intros w2. unfold log. set (l := foldl derive l0 ds) in *.
  assert (Enabled (handler_of l) lvl w2 = (level_of (level l0) w2 <=? lvl)) as ->.
  { rewrite (proj1 Hst). cbn [Enabled]. by rewrite (sinks_Enabled _ ws), Hl. }
  destruct (level_of (level l0) w2 <=? lvl) eqn:El.
  - cbn [time_Now snd]. rewrite (handle_stamped l ws (foldl stamp_derive s ds)); [done|done|done|].
    rewrite Hl. exact El.
  - split; [done|]. by rewrite app_nil_r.
Qed.
(** ** The queue *)

(** What replaying writes: with one sink every record, with more those that the
    level lets through. *)
Fixpoint replayed (ws : list writer) (lvl : Z) (s : stamp) (l : list Record_) (n : nat) : list (writer * entry * bool) :=
  match l with
  | [] => []
  | r :: l =>
      let d := if match ws with [_] => true | _ => lvl <=? Level r end then deliveries ws (stamped s Background r) n else [] in
      d ++ replayed ws lvl s l (n + length d)
  end.

Lemma handle_any l ws s r w :
  stamps l ws s → ws ≠ [] →
  (Handle (handler_of l) Background r w).2 =
    if match ws with [_] => true | _ => level_of (level l) w <=? Level r end
    then delivered ws (stamped s Background r) w else w.
Proof.
  intros Hs Hne. destruct (level_of (level l) w <=? Level r) eqn:E.
  { rewrite (handle_stamped l ws s) by done. by destruct ws as [|? [|? ?]]. }
  destruct ws as [|out [|out' ws]]; [done| |].
  - destruct Hs as (-> & _). cbn [Handle sinks emit snd]. unfold delivered. cbn [deliveries]. f_equal. f_equal. f_equal. f_equal.
    unfold json_entry, stamped, top. cbn [Attrs with_attrs Time Level Message]. f_equal. rewrite map_app. f_equal. f_equal.
    destruct (existsb is_hint _) eqn:Eh; [done|]. by rewrite filter_none.
  - destruct Hs as (-> & _). cbn [Handle sinks]. change (map ?f (out :: out' :: ws)) with (map f (out :: out' :: ws)).
    pose proof (fan_handle (level l) (s_attrs s) Background) as Hf. cbn [Handle] in Hf. rewrite Hf. cbn [with_attrs Level]. by rewrite E.
Qed.

Lemma replay_run l ws s recs : stamps l ws s → ws ≠ [] → ∀ w,
  l_levels (replay (handler_of l) recs w).2 = l_levels w ∧
  l_out (replay (handler_of l) recs w).2 = l_out w ++ replayed ws (level_of (level l) w) s recs (length (l_out w)).
Proof.
  intros Hs Hne. induction recs as [|r recs IH]; intros w; [by rewrite app_nil_r|].
  change (replay (handler_of l) (r :: recs) w) with
    (let '(_, w1) := Handle (handler_of l) Background r w in replay (handler_of l) recs w1).
  pose proof (handle_any l ws s r w Hs Hne) as Hh. destruct (Handle (handler_of l) Background r w) as [ok w1]. cbn [snd] in Hh.
  subst w1. destruct (IH (if match ws with [_] => true | _ => level_of (level l) w <=? Level r end
    then delivered ws (stamped s Background r) w else w)) as [H1 H2]. rewrite H1, H2. clear IH H1 H2. cbn [replayed].
  destruct (match ws with [_] => true | _ => level_of (level l) w <=? Level r end); cbn zeta.
  - split; [done|]. change (level_of (level l) (delivered ws (stamped s Background r) w)) with (level_of (level l) w).
    cbn [delivered l_out]. by rewrite <- app_assoc, length_app.
  - split; [done|]. cbn [app length]. by rewrite Nat.add_0_r.
Qed.

(** A flush writes the queued records in their order with their times, empties the
    queue, and every method but [Count] panics after it. *)
Lemma Flush_run l ws s p w :
  stamps l ws s → ws ≠ [] → flushed p = false →
  ∃ w', Flush p (Some (handler_of l)) w = (inr {| records := []; flushed := true |}, w') ∧
    l_levels w' = l_levels w ∧
    l_out w' = l_out w ++ replayed ws (level_of (level l) w) s (records p) (length (l_out w)).
Proof.
  intros Hs Hne Hp. unfold Flush. rewrite Hp. unfold mbind, stm_bind.
  destruct (replay_run l ws s (records p) Hs Hne w) as [H1 H2]. destruct (replay (handler_of l) (records p) w) as [[] w1].
  by exists w1.
Qed.

(** With one sink the level does not gate the records of the queue, with two it does. *)
Lemma flush_ignores_level out s r n :
  replayed [out] LevelInfo s [r] n = deliveries [out] (stamped s Background r) n ∧
  (Level r < LevelInfo → ∀ out', replayed [out; out'] LevelInfo s [r] n = []).
Proof.
  split; [cbn; done|]. intros Hr out'. cbn [replayed].
  assert (LevelInfo <=? Level r = false) as -> by (by apply Z.leb_gt). done.
Qed.

(** After a flush no record is counted and none panics. *)
Lemma count_after_flush p h w p' w' lvl : Flush p h w = (inr p', w') → Count p' lvl = 0.
Proof.
  unfold Flush. destruct (flushed p); [done|]. destruct h as [h|].
  - unfold mbind, stm_bind. destruct (replay h (records p) w) as [? w1]. by intros [= <- _].
  - by intros [= <- _].
Qed.

(** The unit of a derived logger is written twice. *)
Lemma unit_repeated s u :
  filter (λ a, Key a = "unit") (s_attrs (stamp_derive s (DFor u))) =
  filter (λ a, Key a = "unit") (s_attrs s) ++ [text_attr "unit" (s_unit s +:+ "." +:+ u)].
Proof. cbn. by rewrite filter_app. Qed.
End logging.

End Logger.
