(* ===== verification/AccountWitnesses.v ===== *)
(** * A concrete host for the account operations

    A system that has no account [app] until one is created, and the theorems
    about accounts applied to it. *)
From S2P Require Import Prelude.
From S2P Require Import GoStrings.
From S2P Require Import GoPath.
From S2P Require Import Utf8.
From S2P Require Import Errors.
From S2P Require Import Account.
From S2P Require Import AccountPlatforms.
From S2P Require Import AccountFacts.
#[local] Open Scope stdpp_scope.
#[local] Open Scope Z_scope.

Definition newline : string := String "010" "".

Definition creates (c : call) : bool :=
  match c with
  | Command "useradd" ("--uid" :: _) | Command "dscl" ["."; "-create"; "/Users/app"] => true
  | _ => false
  end.
Definition known (h : history) : bool := existsb creates h.

Definition app_user : User := {| Uid := "700"; Gid := "800"; Username := "app" |}.
Definition help_text : string :=
  "--uid --gid --home --home-dir --shell --groups --create-home --no-create-home".

Definition group_answer (c : call) : error + GroupEntry :=
  match c with
  | LookupGroup "web" | LookupGroupId "800" => inr {| g_Gid := "800"; g_Name := "web" |}
  | LookupGroup n | LookupGroupId n => inl (UnknownGroupError n)
  | _ => inl (Sys ErrNotExist)
  end.

Definition command_answer (name : string) (args : list string) : string * option sys_error :=
  match name, args with
  | "getent", _ => ("app:x:700:800::/srv/app:/bin/sh" +:+ newline, None)
  | _, ["--help"] => (help_text, None)
  | "dscl", ["."; "-list"; "/Users"; _] =>
      (Join ["root 0"; "one 500"; "two 501"; "four 503"; ""] newline, None)
  | _, _ => ("", None)
  end.

#[global] Instance demo_host : AccountHost := {|
  a_ctx := λ _, None;
  a_user := λ h _, if known h then inr app_user else inl ErrNotExist;
  a_group := λ _ c, group_answer c;
  a_groupIds := λ _ _, inr ["800"];
  a_command := λ _ name args, command_answer name args;
  a_stat := λ h _, if existsb (λ c, match c with Mkdir _ _ => true | _ => false end) h
                   then inr (Some {| st_dir := true; st_perm := 493; st_owner := Some (700, 800) |})
                   else inl ErrNotExist;
  a_do := λ _ _, None;
|}.

Definition app_spec : Spec := {|
  s_Name := "app"; s_UID := Some 700; s_Group := "web"; s_GID := Some 800; s_Groups := Some [];
  s_Home := "/srv/app"; s_HomePolicy := EnsureHome; s_HomeMode := 0; s_Shell := "/bin/sh";
  s_Hidden := None; s_Existing := Reconcile |}.
Definition linux : operation := productionDeps Linux true.
Definition app_record : AccountRecord := {|
  Name := "app"; UID := "700"; GID := "800"; Group := "web"; Home := "/srv/app"; Shell := "/bin/sh";
  Groups := []; Hidden := false |}.

(** The account is created, with its home directory. *)
Example Ensure_creates :
  (Ensure linux app_spec []).1 =
    ({| Created := true; Changed := creationChanges app_spec ++ [home_absent]; Account := app_record |}, None).
Proof. by vm_compute. Qed.

Lemma Ensure_verified_witness :
  ∃ res h, Ensure linux app_spec [] = ((res, None), h) ∧ verified linux app_spec (Account res).
Proof.
  eexists _, _. split; [vm_compute; reflexivity|].
  eapply (Ensure_verified linux app_spec []). vm_compute. reflexivity.
Defined.

Lemma unapplied_reads_witness : emits reading (Check_ linux app_spec) ∧ Check_ linux app_spec [] ≠ ((zero_result, None), []).
Proof. split; [|by vm_compute]. apply (unapplied_reads Linux true app_spec false); by left. Defined.

(** Two declared groups in the other order. *)
Definition grouped : Spec := {|
  s_Name := "app"; s_UID := Some 700; s_Group := "web"; s_GID := None; s_Groups := Some ["b"; "a"];
  s_Home := ""; s_HomePolicy := LeaveHomeUnchanged; s_HomeMode := 0; s_Shell := "";
  s_Hidden := Some false; s_Existing := Reconcile |}.
Definition grouped_record : AccountRecord := {|
  Name := "app"; UID := "700"; GID := "800"; Group := "web"; Home := "/srv/app"; Shell := "/bin/sh";
  Groups := ["a"; "b"]; Hidden := false |}.

Lemma compareFor_spec_witness : conforms Darwin grouped grouped_record.
Proof.
  apply (compareFor_spec Darwin grouped grouped_record); [by vm_compute| |by vm_compute].
  apply (bool_decide_unpack (Forall (λ v, v ≠ "" ∧ "000"%char ∉ chars v) (Groups grouped_record))). by vm_compute.
Defined.

(** A home directory that is named and left alone, and one that is required. *)
Definition named_home (p : HomePolicy) : Spec := {|
  s_Name := "app"; s_UID := None; s_Group := "web"; s_GID := None; s_Groups := None;
  s_Home := "/srv/app"; s_HomePolicy := p; s_HomeMode := 0; s_Shell := "";
  s_Hidden := None; s_Existing := Verify |}.

Lemma unchecked_options_witness :
  unchecked (named_home LeaveHomeUnchanged) false = ["--home-dir"] ∧
  unchecked (named_home RequireHome) false = ["--no-create-home"].
Proof.
  split.
  - apply (unchecked_options (named_home LeaveHomeUnchanged) false); by vm_compute.
  - apply (unchecked_options (named_home RequireHome) false); by vm_compute.
Defined.

Definition users_listing : string := Join ["root 0"; "one 500"; "two 501"; "four 503"; ""] newline.
Definition list_users : call := Command "dscl" ["."; "-list"; "/Users"; "UniqueID"].

Lemma listing : commandOutput "dscl" ["."; "-list"; "/Users"; "UniqueID"] [] = (inr users_listing, [list_users]).
Proof. by vm_compute. Qed.
Lemma listed : DarwinBackend.used_ids users_listing = [500; 501; 503].
Proof. by vm_compute. Qed.

Example allocateUID_502 : DarwinBackend.allocateUID [] = (inr 502, [list_users]).
Proof. by vm_compute. Qed.

Lemma allocateID_least_witness : ∃ r, least_free [500; 501; 503] 500 r.
Proof.
  pose proof (allocateID_least "/Users" "UniqueID" "macOS local UID allocation" users_listing [] _ listing) as Hr.
  rewrite listed in Hr. destruct Hr as (r & _ & Hr). exists r. exact Hr.
Defined.

Lemma modify_memberships_witness :
  ∃ h1 adds dels, DarwinBackend.setAttributes grouped [] = (None, h1) ∧
    (list_to_set ["b"; "c"] ∪ list_to_set adds) ∖ list_to_set dels =@{gset string} list_to_set ["b"; "a"].
Proof.
  edestruct (modify_memberships grouped
    {| Name := "app"; UID := "700"; GID := "800"; Group := "web"; Home := "/srv/app"; Shell := "/bin/sh";
       Groups := ["b"; "c"]; Hidden := false |} ["b"; "a"] []) as (h1 & adds & dels & E & _ & Hs & _);
    [vm_compute; reflexivity|reflexivity|].
  exists h1, adds, dels. split; [exact E|exact Hs].
Defined.

(** ** Work that is done and not reported

    On macOS the record is created, the next command fails, and the result
    names no change of the account. *)
Definition failing_host : AccountHost := {|
  a_ctx := @a_ctx demo_host; a_user := @a_user demo_host; a_group := @a_group demo_host;
  a_groupIds := @a_groupIds demo_host;
  a_command := λ _ name args,
    match args with
    | [_; "-create"; _; "UniqueID"; _] => ("refused", Some ErrPermission)
    | _ => command_answer name args
    end;
  a_stat := @a_stat demo_host; a_do := @a_do demo_host;
|}.

Definition failed_run := @Ensure failing_host (@productionDeps failing_host Darwin true) app_spec [].

(** The answer of a macOS [Ensure] whose account was created and whose
    identifier could not be set: an error, and no completed change. *)
Lemma created_unreported :
  Command "dscl" ["."; "-create"; "/Users/app"] ∈ failed_run.2 ∧
  Changed failed_run.1.1 = [] ∧ failed_run.1.2 ≠ None.
Proof. split_and!; [apply (bool_decide_unpack _)| |]; by vm_compute. Qed.
