(* ===== verification/ServiceWitnesses.v ===== *)
(** * A concrete host for the service operations

    A user's service on Linux whose directories and unit do not exist yet, an
    encoding of the metadata, and the theorems about services applied to them. *)
From stdpp Require Import countable.
From S2P Require Import Prelude.
From S2P Require Import GoStrings.
From S2P Require Import GoPath.
From S2P Require Import Utf8.
From S2P Require Import Errors.
From S2P Require Account.
From S2P Require AccountWitnesses.
From S2P Require Import Service.
From S2P Require Import ServiceFiles.
From S2P Require Import ServicePlatforms.
From S2P Require Import ServiceOperation.
From S2P Require Import ServiceFacts.
From S2P Require Import ServiceDirectoryFacts.
From S2P Require Import ServiceFlowFacts.
#[local] Open Scope stdpp_scope.
#[local] Open Scope Z_scope.

(** ** An encoding of the metadata *)

Definition fields : Type :=
  string * string * list string * option (gmap string string) * string * string * string * string * Z.
Definition to_fields (m : definitionMetadata) : fields :=
  (Description m, Binary m, Args m, Environment m, Account_ m, Stdout m, Stderr m, Revision m, Restart m).
Definition of_fields (f : fields) : definitionMetadata :=
  let '(d, b, a, e, c, o, r, v, s) := f in
  {| Description := d; Binary := b; Args := a; Environment := e; Account_ := c; Stdout := o; Stderr := r;
     Revision := v; Restart := s |}.

#[global] Instance toy_metadata : MetadataJSON := {|
  Marshal m := bits (countable.encode (to_fields m));
  Unmarshal s := of_fields <$> countable.decode (unbits s);
|}.
#[global] Instance toy_metadata_laws : MetadataLaws.
Proof.
  constructor. intros m _. cbn [Marshal Unmarshal toy_metadata]. rewrite unbits_bits, decode_encode. by destruct m.
Qed.

(** ** A host *)

Definition made (p : string) (h : history) : bool := existsb (λ c, bool_decide (c = Mkdir p 448)) h.
Definition directory (perm : Z) : sys_error + option FileInfo :=
  inr (Some {| fi_kind := Directory; fi_perm := perm; fi_owner := Some (1000, 1000) |}).

#[global] Instance demo_service_host : ServiceHost := {|
  sv_ctx := λ _, None;
  sv_run := λ _ _ args, match args with ["--version"] => ("systemd 257 (257.9)", None) | _ => ("", None) end;
  sv_read := λ _ _, inl ErrNotExist;
  sv_stat := λ h c,
    match c with
    | Stat "/opt/app" => inr (Some {| fi_kind := Regular; fi_perm := 493; fi_owner := Some (0, 0) |})
    | Lstat "/home" | Lstat "/home/alice" => directory 493
    | Lstat p => if made p h then directory 448 else inl ErrNotExist
    | _ => inl ErrNotExist
    end;
  sv_temp := λ _ dir, inr (dir +:+ "/.service-1");
  sv_do := λ _ _, None;
  sv_account := λ _, AccountWitnesses.demo_host;
|}.

Definition demo_options : list Opt :=
  [WithName "app"; WithBinary "/opt/app"; WithArgs ["serve"; "a b"]; WithStateDir []; WithStdoutLog []].
Definition alice : UserInfo := {| u_UID := "1000"; u_GID := "1000"; u_Name := "alice"; u_Home := "/home/alice" |}.

Definition demo_spec : specification := {|
  sp_name := "app"; sp_description := ""; sp_binary := "/opt/app"; sp_stdout := ""; sp_stderr := "";
  sp_revision := ""; sp_args := ["serve"; "a b"]; sp_env := None; sp_scope := User;
  sp_restart := RestartOnFailure; sp_account := None; sp_runtimeDir := None; sp_configDir := None;
  sp_stateDir := Some ""; sp_logDir := None; sp_configWritable := false; sp_configReadDeclared := false;
  sp_stdoutLog := Some ""; sp_stderrLog := None |}.
Definition demo_operation : operation :=
  {| op_spec := demo_spec; op_platform := "linux"; op_user := alice; op_root := false |}.

Lemma New_demo : New "linux" (inr alice) false demo_options = inr (demo_operation, SystemdBackend.systemdBackend).
Proof. reflexivity. Qed.

Lemma New_type_witness : specification_ok demo_spec.
Proof. apply (New_type "linux" (inr alice) false demo_options demo_operation _ New_demo). Defined.

Definition demo_run := ensure SystemdBackend.systemdBackend demo_operation [].

(** The service is installed, with its directories. *)
Example demo_installs :
  Installed demo_run.1.1.1 = true ∧ Reasons demo_run.1.1.1 = [Missing; DirectoriesChanged] ∧
  map Path (DirectoryChanges demo_run.1.1.1) = ["/home/alice/.app"; "/home/alice/.app/lib"; "/home/alice/.app/log"] ∧
  demo_run.1.1.2 = None.
Proof. split_and!; by vm_compute. Qed.

Lemma demo_succeeds : ensure SystemdBackend.systemdBackend demo_operation [] =
  ((demo_run.1.1.1, None, demo_run.1.2), demo_run.2).
Proof.
  assert (demo_run.1.1.2 = None) as E by (by vm_compute).
  rewrite <- E. unfold demo_run. by destruct (ensure _ _ _) as [[[? ?] ?] ?].
Qed.

Lemma Ensure_establishes_witness :
  executable_seen "/opt/app" ∧
  (∃ changed, in_place (definition_path "linux" demo_run.1.2) (definition_text "linux" demo_run.1.2) changed).
Proof.
  destruct (Ensure_establishes "linux" SystemdBackend.systemdBackend demo_operation [] _ _ _ eq_refl demo_succeeds)
    as (Hx & _ & Hp & _). split; [exact Hx|exact Hp].
Defined.

Lemma demo_valid : validate demo_spec = None.
Proof. by vm_compute. Qed.
Lemma demo_one_line : one_line_paths demo_spec.
Proof. split_and!; [one_line_const..|]. intros a E. discriminate E. Qed.

Lemma unit_has_its_lines_witness :
  Split (SystemdBackend.renderSystemd demo_operation) "010" = SystemdBackend.unit_lines demo_operation ++ [""].
Proof. apply (unit_has_its_lines demo_operation demo_valid demo_one_line). Defined.

Lemma demo_json : json_text (metadataFor demo_spec).
Proof.
  constructor.
  - repeat apply List.Forall_cons; try apply List.Forall_nil; by vm_compute.
  - repeat apply List.Forall_cons; try apply List.Forall_nil; by vm_compute.
  - intros k v E. cbn in E. by rewrite lookup_empty in E.
  - cbn. unfold RestartOnFailure. lia.
Qed.

(** The same service with another argument. *)
Definition changed_spec : specification := set_run ["serve"] None User RestartOnFailure None demo_spec.
Lemma rendered_reasons_witness :
  ArgumentsChanged ∈ changeReasons (SystemdBackend.renderSystemd demo_operation) changed_spec true false ∧
  BinaryChanged ∉ changeReasons (LaunchdBackend.plist demo_operation) changed_spec true false.
Proof.
  split.
  - apply (rendered_reasons demo_operation _ changed_spec ArgumentsChanged (or_introl eq_refl) demo_json). by vm_compute.
  - intros E. apply (rendered_reasons demo_operation _ changed_spec BinaryChanged (or_intror eq_refl) demo_json) in E. by apply E.
Defined.

Lemma cleanup_checks_path_witness :
  is_directory (sv_stat [] (Lstat "/home")).
Proof.
  destruct (cleanup_checks_path "/home/alice" [] None [Lstat "/home"; Lstat "/home/alice"; RemoveAll "/home/alice"]
              ltac:(by vm_compute)) as [[n E]|[_ Hall]].
  - exfalso. destruct n as [|[|[|n]]]; vm_compute in E; discriminate E.
  - apply (Hall O "/home"). by vm_compute.
Defined.

Lemma demo_options_ok : options_ok demo_spec.
Proof. constructor; cbn; naive_solver. Qed.
Lemma app_plain : plain "app".
Proof. split_and!; try done. apply (bool_decide_unpack _). by vm_compute. Qed.

Definition purge_state : PurgeOptions := {| purge_Config := false; purge_State := true; purge_Logs := false |}.
(** The service after it was ensured, when its directories are there and the
    paths of its logs are known. *)
Definition logged_operation : operation :=
  with_spec demo_operation (set_streams "/home/alice/.app/log/out.log" "/home/alice/.app/log/err.log" demo_spec).
Definition ensured_history : history :=
  [Mkdir "/home/alice/.app" 448; Mkdir "/home/alice/.app/lib" 448; Mkdir "/home/alice/.app/log" 448].
Definition purged_history : history :=
  ensured_history ++ [CtxErr; Lstat "/home"; Lstat "/home/alice"; Lstat "/home/alice/.app"; Lstat "/home/alice/.app/lib";
    RemoveAll "/home/alice/.app/lib"].
Lemma logged_options_ok : options_ok (op_spec logged_operation).
Proof. constructor; cbn; naive_solver. Qed.

Definition home_bases : AppDirectories :=
  {| Runtime := "/home/alice"; Config := "/home/alice"; State := "/home/alice"; Logs := "/home/alice" |}.
Definition logged_directories : managedDirectories := resolve_in (op_spec logged_operation) home_bases.
Lemma logged_bases : bk_directoryBases SystemdBackend.systemdBackend User "/home/alice" = inr home_bases.
Proof. by vm_compute. Qed.
Lemma logged_resolved : resolveDirectories (op_spec logged_operation) SystemdBackend.systemdBackend "/home/alice" =
  inr logged_directories.
Proof. by vm_compute. Qed.


Definition daemon : specification :=
  set_dirs None (Some "com.example.app") (Some "com.example.app") None
    (set_run [] None System RestartOnFailure None (set_name "com.example.app" empty_spec)).
Lemma launchd_state_is_config_witness :
  ∃ d, resolveDirectories daemon LaunchdBackend.launchdBackend "/root" = inr d ∧
    Config (d_paths d) = State (d_paths d) ∧ Config (d_paths d) = "/Library/Application Support/com.example.app".
Proof.
  eexists. split; [vm_compute; reflexivity|]. split; [|reflexivity].
  eapply (launchd_state_is_config daemon "com.example.app" "/root"); by vm_compute.
Defined.

Lemma write_replaces_witness : ∃ tmp, snd (write "/etc/x" "data" 420 []) = write_calls "/etc/x" "data" tmp 420.
Proof.
  destruct (write_replaces "/etc/x" "data" 420 [] None (snd (write "/etc/x" "data" 420 [])) ltac:(by vm_compute))
    as [Hw _]. exact (Hw eq_refl).
Defined.

Definition system_operation : operation :=
  {| op_spec := daemon; op_platform := "darwin"; op_user := alice; op_root := false |}.
Lemma system_needs_root_witness : ∃ e, start LaunchdBackend.launchdBackend system_operation [] = (Some e, [CtxErr]).
Proof. apply (system_needs_root LaunchdBackend.launchdBackend system_operation purge_state [] eq_refl eq_refl). Defined.

(** ** What validation and removal let through *)

(** A line end in the path of the binary, which nothing rejects, adds a line to
    the unit. *)
Definition split_binary : specification :=
  set_text "" ("/opt/a" +:+ nl +:+ "User=root" +:+ nl +:+ "b/app") "" demo_spec.
Lemma binary_adds_lines :
  validate split_binary = None ∧
  "User=root" ∈ Split (SystemdBackend.renderSystemd (with_spec demo_operation split_binary)) "010".
Proof. split; [by vm_compute|]. apply (bool_decide_unpack _). by vm_compute. Qed.

(** Two dashes in a revision end up inside a comment, where XML forbids them. *)
Lemma revision_in_comment :
  validate (set_text "" "/opt/app" "1--2" demo_spec) = None ∧
  LaunchdBackend.comment ("compage-revision: " +:+ LaunchdBackend.xml "1--2") =
    "<!-- compage-revision: 1--2 -->" ∧
  LaunchdBackend.comment ("compage-revision: " +:+ LaunchdBackend.xml "1--2") ∈
    LaunchdBackend.plist_lines (with_spec demo_operation (set_text "" "/opt/app" "1--2" demo_spec)).
Proof. split_and!; [by vm_compute..|]. apply (bool_decide_unpack _). by vm_compute. Qed.

(** Logs inside the state directory go with it, and nothing refuses that. *)
Definition nested : specification := set_dirs None None (Some "data") (Some "data/logs") demo_spec.
Lemma purge_takes_nested_logs :
  ∃ d, resolveDirectories nested SystemdBackend.systemdBackend "/home/alice" = inr d ∧
    State (d_paths d) = "/home/alice/.app/data" ∧ Logs (d_paths d) = "/home/alice/.app/data/logs" ∧
    purge_refused (with_spec demo_operation nested) d purge_state = false.
Proof. eexists. split; [vm_compute; reflexivity|]. split_and!; by vm_compute. Qed.
