(* ===== verification/ConfigWitnesses.v ===== *)
(** * A concrete configuration

    A schema with every kind of field, a host with a file and a variable, toy
    numbers and a toy JSON text; a load, an override and a save run on them, and
    the theorems about configurations applied to these runs. *)
From stdpp Require Import pretty.
From S2P Require Import Prelude.
From S2P Require Import GoStrings.
From S2P Require Import GoPath.
From S2P Require Import Utf8.
From S2P Require Import Errors.
From S2P Require Errx.
From S2P Require Import ConfigTypes.
From S2P Require Import ConfigOptions.
From S2P Require Import ConfigRegistry.
From S2P Require Import ConfigFormats.
From S2P Require Import ConfigDecode.
From S2P Require Import ConfigResolve.
From S2P Require Import ConfigFile.
From S2P Require Import Config.
From S2P Require Import ConfigFormatsFacts.
From S2P Require Import ConfigRegistryFacts.
From S2P Require Import ConfigDecodeFacts.
From S2P Require Import ConfigFlowFacts.
From S2P Require Import ConfigSaveFacts.
From Stdlib Require Import Ascii.
#[local] Open Scope stdpp_scope.
#[local] Open Scope Z_scope.

#[local] Existing Instance ascii_tables.

(** ** Numbers *)

(** A float is printed as its bits, a duration as its nanoseconds. *)
#[global] Instance toy_numbers : Numbers := {|
  ParseFloat := ParseUint;
  FormatFloat := Itoa;
  ParseDuration s := match Atoi s with inl _ => inl (SysError "invalid duration") | inr z => inr z end;
  Duration_String := Itoa;
|}.

#[global] Instance toy_numbers_laws : NumbersLaws.
Proof.
  constructor; cbn.
  - intros s b. apply ParseUint_bounds.
  - intros s z. destruct (Atoi s) as [e|z'] eqn:E; [done|]. intros [= <-]. by eapply Atoi_bounds.
  - intros z Hz. by rewrite Atoi_Itoa.
Qed.

Lemma digits_ascii s : ∀ acc n, digits s acc = Some n → ascii_string s.
Proof.
  unfold ascii_string. induction s as [|c s IH]; intros acc n; cbn; [constructor|].
  destruct (digit c) as [d|] eqn:Ed; [|done]. intros Hd. constructor; [|by eapply IH].
  unfold digit in Ed. destruct (_ && _) eqn:E; [|done]. apply andb_true_iff in E as [_ ?%Z.leb_le]. lia.
Qed.

Lemma ascii_utf8 s : ascii_string s → utf8 s.
Proof. intros Hs. unfold utf8. rewrite runes_ascii by done. by rewrite encode_ascii, unchars_chars. Qed.

Lemma Itoa_ascii z : ascii_string (Itoa z).
Proof.
  unfold Itoa. assert (∀ n : N, ascii_string (pretty n)) as Hn by (intros n; eapply digits_ascii, digits_pretty_N).
  destruct z as [|p|p]; [by repeat constructor|apply Hn|].
  change (pretty (Z.neg p)) with (String "-" (pretty (N.pos p))). constructor; [by vm_compute|apply Hn].
Qed.

(** ** The schema *)

Definition fld (name : string) (tags : list (string * string)) (t : gotype) : structField gotype :=
  {| sf_Name := name; sf_PkgPath := ""; sf_Anonymous := false; sf_Tag := tags; sf_Type := t |}.

Definition Item : gotype := Struct {| tn_pkg := "main"; tn_Name := "Item" |}
  [fld "ID" [] (Basic TInt); fld "Label" [("cfg", "label")] (Basic TString)].
(** A named slice type, [type Items []Item]. *)
Definition Items : type_name := {| tn_pkg := "main"; tn_Name := "Items" |}.
Definition App : gotype := Struct {| tn_pkg := "main"; tn_Name := "App" |}
  [fld "Name" [("default", "app"); ("save", "true"); ("validate", "short")] (Basic TString);
   fld "Port" [("env", "PORT"); ("flag", "port"); ("default", "80"); ("save", "true")] (Basic TInt64);
   fld "Token" [("sensitive", "true"); ("save", "true"); ("required", "true")] (Basic TString);
   fld "Tags" [("save", "true")] strings_type;
   fld "Items" [("save", "true")] (Slice (Some Items) Item);
   {| sf_Name := "hidden"; sf_PkgPath := "main"; sf_Anonymous := false; sf_Tag := []; sf_Type := Other "func()" |};
   fld "DB" [] (Struct {| tn_pkg := "main"; tn_Name := "DB" |}
     [fld "Host" [("default", "localhost"); ("save", "true")] (Basic TString);
      fld "MaxWait" [("default", "5"); ("save", "true")] (Basic TDuration)])].

#[global] Instance demo_schema : Schema := {| schema := App; ValidateConfig := Some (λ _, None) |}.

(** ** A toy JSON text *)

Definition obj (l : list token) : list token := Delim "{" :: l ++ [Delim "}"].
Definition arr (l : list token) : list token := Delim "[" :: l ++ [Delim "]"].

(** The file before the load. *)
Definition file_tokens : list token :=
  obj [StringToken "token"; StringToken "secret"; StringToken "tags"; Delim "["; StringToken "a"; StringToken "b"; Delim "]";
       StringToken "items"; Delim "["; Delim "{"; StringToken "id"; NumberToken "7"; StringToken "label"; StringToken "x";
       Delim "}"; Delim "]"].
(** The file after the override of the name and a save. *)
Definition saved_tokens : list token :=
  obj ([StringToken "db"; Delim "{"; StringToken "host"; StringToken "localhost"; StringToken "max_wait"; StringToken "5";
        Delim "}"; StringToken "items"; Delim "["; Delim "{"; StringToken "id"; NumberToken "7"; StringToken "label";
        StringToken "x"; Delim "}"; Delim "]"; StringToken "name"; StringToken "new"; StringToken "tags"; Delim "[";
        StringToken "a"; StringToken "b"; Delim "]"; StringToken "token"; StringToken "secret"]).

#[global] Instance token_eq_dec : EqDecision token.
Proof. solve_decision. Defined.

#[global] Instance toy_formats : Formats := {|
  json_tokens s :=
    if String.eqb s "before" then {| s_tokens := file_tokens; s_end := None |}
    else if String.eqb s ("after" +:+ newline) then {| s_tokens := saved_tokens; s_end := None |}
    else {| s_tokens := []; s_end := Some ("syntax error", false) |};
  json_marshal root :=
    if bool_decide (tokens_of (json_view Itoa (VMap root)) = saved_tokens) then inr "after" else inl "unsupported";
  toml_unmarshal _ := inl "unsupported"; toml_marshal _ := inl "unsupported";
  yaml_unmarshal_node _ := inl "unsupported"; yaml_unmarshal _ := inl "unsupported"; yaml_marshal _ := inl "unsupported";
|}.

#[global] Program Instance toy_json_laws : JSONFileLaws := {| json_float := Itoa |}.
Next Obligation. intros b Hb _. cbn. by apply ParseUint_Itoa. Qed.
Next Obligation. intros z. apply ascii_utf8, Itoa_ascii. Qed.
Next Obligation.
  intros root data _. cbn [json_marshal toy_formats]. case_bool_decide as E; [|done]. intros [= <-].
  by rewrite E.
Qed.

(** ** A host *)

#[global] Instance demo_config_host : ConfigHost := {|
  cf_env := λ _ name, if String.eqb name "PORT" then Some "8080" else if String.eqb name "DIR" then Some "etc" else None;
  cf_home := λ _, inr "/root";
  cf_lstat := λ _ _, inr true;
  cf_read := λ _ _, inr "before";
  cf_temp := λ _ dir, inr (dir +:+ "/.config-1");
  cf_do := λ _ _, None;
|}.

Definition short : FieldValidator := λ _ v,
  match v with VString s => if (slen s <=? 8)%nat then None else Some "too long" | _ => None end.
Definition demo_flags : FlagSet := λ _ name, if String.eqb name "port" then Some ("0", false) else None.
Definition demo_opts : list (option Option) :=
  [Some (WithFile "/$DIR/app.json"); Some (WithValidator "short" (Some short));
   Some (WithFlagSource (Some (pflag_Lookup (Some demo_flags)))); Some (WithInitial "token" (VString "none"))].

Definition w0 : world := {| w_cfg := New demo_opts; w_hist := [] |}.
Abbreviation w1 := (Load w0).2.
Abbreviation w2 := (Set_ "name" (VString "new") w1).2.
Abbreviation w3 := (Save w2).2.

Lemma pair_run {A B} (p : A * B) a : p.1 = a → p = (a, p.2).
Proof. intros <-. by destruct p. Qed.

Lemma demo_load_run : Load w0 = (None, w1).
Proof. apply pair_run. by vm_compute. Qed.
Lemma set_run : Set_ "name" (VString "new") w1 = (None, w2).
Proof. apply pair_run. by vm_compute. Qed.
Lemma save_run : Save w2 = (None, w3).
Proof. apply pair_run. by vm_compute. Qed.
Lemma set_too_long : (Set_ "name" (VString "much too long") w1).1 ≠ None.
Proof. by vm_compute. Qed.

Lemma w1_consistent : consistent (w_cfg w1).
Proof.
  destruct (run_ops_kept demo_opts [OpLoad] w0 (new_kept demo_opts)) as (_ & Hc & _). exact Hc.
Qed.

Definition demo_o : options := match Config_options demo_opts with inr o => o | inl _ => no_options end.
Definition demo_r : registry :=
  match makeRegistry App demo_o with inr r => r | inl _ => {| r_fields := []; r_byKey := ∅ |} end.
Lemma demo_registry : makeRegistry App demo_o = inr demo_r.
Proof. by vm_compute. Qed.

(** The snapshot after the override. *)
Abbreviation demo_st := (c_st (w_cfg w2)).
Lemma demo_resolve :
  resolve demo_r (st_layers demo_st) (st_path demo_st) (st_fileLoaded demo_st) (o_validators demo_o) = inr demo_st.
Proof. by vm_compute. Qed.

(** The field at a place of the registry. *)
Definition demo_field (i : nat) : option fieldMeta := r_fields demo_r !! i.
Lemma demo_field_elem i f : demo_field i = Some f → f ∈ r_fields demo_r.
Proof. exact (list_elem_of_lookup_2 (r_fields demo_r) i f). Qed.

(** ** The theorems applied *)

Lemma Load_spec_witness : Load w0 = (None, w1) ∧ c_loaded (w_cfg w1) = true.
Proof.
  split; [exact demo_load_run|]. destruct (Load_spec w0 w1 demo_load_run) as (o & r & i & f & e & g & p & l & _ & _ & _ & _ & _ & _ & _ & Hl & _).
  exact Hl.
Defined.

Lemma Set_spec_witness : Set_ "name" (VString "new") w1 = (None, w2) ∧
  Config_Origin (w_cfg w2) "name" = Some {| o_Source := SourceSet; o_Detail := "" |}.
Proof.
  split; [exact set_run|].
  destruct (Set_spec "name" (VString "new") w1 w2 w1_consistent set_run) as (o & r & f & v & _ & _ & _ & _ & _ & Ho & _).
  exact Ho.
Defined.

Abbreviation demo_run := (foldl (flip run_op) {| w_cfg := New demo_opts; w_hist := [] |}
  [OpLoad; OpSet "name" (VString "new"); OpSave]).
Lemma demo_run_loaded : c_loaded (w_cfg demo_run) = true.
Proof. by vm_compute. Qed.

Lemma operations_consistent_witness : c_loaded (w_cfg demo_run) = true ∧
  (Validate {| w_cfg := w_cfg demo_run; w_hist := [] |}).1 = None.
Proof.
  split; [exact demo_run_loaded|].
  destruct (operations_consistent demo_opts [OpLoad; OpSet "name" (VString "new"); OpSave] []) as (_ & Hv & _).
  exact (Hv demo_run_loaded []).
Defined.

Lemma pair_failed {A B} (p : option A * B) : p.1 ≠ None → ∃ e, p = (Some e, p.2).
Proof. destruct p as [[e|] b]; cbn; [eauto|done]. Qed.

Abbreviation w_long := (Set_ "name" (VString "much too long") w1).2.
Lemma set_rejected : ∃ e, Set_ "name" (VString "much too long") w1 = (Some e, w_long).
Proof. exact (pair_failed _ set_too_long). Qed.

Lemma failure_keeps_snapshot_witness : (∃ e, Set_ "name" (VString "much too long") w1 = (Some e, w_long)) ∧
  same_snapshot (w_cfg w1) (w_cfg w_long).
Proof.
  split; [exact set_rejected|]. destruct set_rejected as [e E].
  destruct (failure_keeps_snapshot w1 w_long) as (_ & Hs & _). exact (Hs _ _ e E).
Defined.

Lemma resolve_spec_witness : makeRegistry App demo_o = inr demo_r ∧
  snapshot demo_r (st_layers demo_st) (st_path demo_st) (st_fileLoaded demo_st) (o_validators demo_o) demo_st.
Proof.
  split; [exact demo_registry|].
  exact (proj2 (proj1 (resolve_spec App demo_o demo_r _ _ _ _ _ demo_registry) demo_resolve)).
Defined.

Lemma makeRegistry_spec_witness : makeRegistry App demo_o = inr demo_r ∧ NoDup (map f_key (r_fields demo_r)).
Proof. split; [exact demo_registry|]. apply (makeRegistry_spec App demo_o demo_r demo_registry). Defined.

Definition items_raw : gov := VList (Some [VMap [("id", VString "7"); ("label", VString "x")]]).
Definition items_value : gov :=
  VStructs (Some Items) {| tn_pkg := "main"; tn_Name := "Item" |} (Some [[VInt 7; VString "x"]]).
Definition no_field : fieldMeta := {|
  f_key := ""; f_field := ""; f_env := ""; f_flag := ""; f_validate := ""; f_index := []; f_typ := Other "";
  f_elements := None; f_required := false; f_sensitive := false; f_save := false; f_def := ""; f_hasDef := false |}.
Definition items_field : fieldMeta := default no_field (demo_field 2).
Definition token_field : fieldMeta := default no_field (demo_field 6).
Lemma items_field_elem : items_field ∈ r_fields demo_r.
Proof. apply (demo_field_elem 2). by vm_compute. Qed.
Lemma token_field_elem : token_field ∈ r_fields demo_r.
Proof. apply (demo_field_elem 6). by vm_compute. Qed.
Lemma items_decoded : coerceWithSchema items_raw (f_typ items_field) (f_elements items_field) = inr items_value.
Proof. by vm_compute. Qed.

Lemma decoded_typed_witness : typed (f_typ items_field) (f_elements items_field) items_value ∧
  ∃ es items rows, f_elements items_field = Some es ∧ items_value = VStructs (Some Items) (es_typ es) (Some rows) ∧
    Forall2 (row_of_item es) items rows ∧ Forall (Forall finite_value) rows.
Proof.
  destruct (decoded_typed App demo_o demo_r items_field items_raw items_value demo_registry items_field_elem) as [Ht Hr];
    [vm_compute; tauto|exact I|exact items_decoded|]. split; [exact Ht|].
  destruct Hr as (x & items & rows & _ & _ & Ev & Hr & Hf). eexists _, items, rows.
  split; [reflexivity|]. split; [exact Ev|]. split; [exact Hr|exact Hf].
Defined.

Lemma token_saved : saved demo_st token_field = true.
Proof. by vm_compute. Qed.

Lemma Save_writes_witness : saved demo_st token_field = true ∧ f_save token_field = true.
Proof.
  split; [exact token_saved|]. exact (proj1 (proj1 (proj1 (Save_writes demo_st demo_r []) token_field) token_saved)).
Defined.

Lemma demo_no_namespaces : no_namespaces (r_fields demo_r).
Proof.
  assert (forallb (λ f, forallb (λ g, negb (HasPrefix (f_key g) (f_key f +:+ "."))) (r_fields demo_r)) (r_fields demo_r) = true)
    as E%forallb_Forall by by vm_compute.
  rewrite Forall_forall in E. intros f g Hf Hg. specialize (E f Hf). apply forallb_Forall in E.
  rewrite Forall_forall in E. by apply negb_true_iff, E.
Qed.

(** A raw value of text, as a file, a variable or a tag gives it. *)
Fixpoint textual (v : gov) : bool :=
  match v with
  | VNil | VString _ | VBool _ | VNumber _ => true
  | VList (Some l) => forallb textual l
  | VMap m => forallb (λ kv, textual kv.2) m
  | _ => false
  end.

Lemma textual_go_value v : textual v = true → go_value v.
Proof.
  induction v as [l IH|m IH|v Hl] using gov_ind'; cbn [textual]; intros Ht.
  - apply forallb_Forall in Ht. cbn. rewrite go_list. split; [done|]. rewrite !Forall_forall in *. auto.
  - apply forallb_Forall in Ht. cbn. rewrite go_map. split; [done|]. rewrite !Forall_forall in *. auto.
  - by destruct v as [| | | | | | | | | | |[]| | | | |].
Qed.

Lemma textual_layers r ls : forallb (λ s, forallb (λ kv, textual kv.2) (map_to_list (layer_of ls s)))
  (SourceNone :: sources) = true → layers_ok r ls.
Proof.
  intros Hall f s v Hf Hv. apply forallb_Forall in Hall. rewrite Forall_forall in Hall.
  assert (textual v = true) as Ht.
  { assert (s ∈ SourceNone :: sources) as Hs by (destruct s; set_solver).
    apply Hall, forallb_Forall in Hs. rewrite Forall_forall in Hs. apply (Hs (f_key f, v)).
    by apply elem_of_map_to_list. }
  split; [by apply textual_go_value|]. by destruct (f_elements f), v.
Qed.

Lemma demo_layers_ok : layers_ok demo_r (st_layers demo_st).
Proof. apply textual_layers. by vm_compute. Qed.

(** The same for what [save_read_back] asks of text. *)
Definition utf8b (s : string) : bool := String.eqb (encode (runes s)) s.
Definition scalarb (v : gov) : bool := match v with VString s => utf8b s | VFloat _ => false | _ => true end.
Definition writableb (v : gov) : bool :=
  match v with
  | VStrings None | VStructs _ _ None => false
  | VStrings (Some l) => forallb utf8b l
  | VStructs _ _ (Some rows) => forallb (forallb scalarb) rows
  | v => scalarb v
  end.
Definition namesb (f : fieldMeta) : bool :=
  forallb utf8b (Split (f_key f) ".") &&
  match f_elements f with Some es => forallb utf8b (map ef_name (es_fields es)) | None => true end.

Lemma utf8b_ok l : forallb utf8b l = true → Forall utf8 l.
Proof. rewrite forallb_Forall. intros Hl. eapply Forall_impl; [exact Hl|]. intros s E. by apply String.eqb_eq in E. Qed.
Lemma scalarb_ok v : scalarb v = true → writable_scalar v.
Proof. destruct v; cbn; try done. intros E. by apply String.eqb_eq in E. Qed.

Lemma writableb_ok v : writableb v = true → writable v.
Proof.
  destruct v as [| | | | | | | | | |[l|]| | | |s t [rows|]| |]; try done; try apply scalarb_ok; cbn [writableb writable].
  - intros Hl. exists l. split; [done|by apply utf8b_ok].
  - rewrite forallb_Forall. intros Hr. exists rows. split; [done|]. eapply Forall_impl; [exact Hr|].
    intros row Hrow. apply forallb_Forall in Hrow. eapply Forall_impl; [exact Hrow|apply scalarb_ok].
Qed.

Lemma namesb_ok f : namesb f = true → names_utf8 f.
Proof.
  unfold namesb, names_utf8. intros [H1 H2]%andb_true_iff. split; [by apply utf8b_ok|].
  destruct (f_elements f); [by apply utf8b_ok|done].
Qed.

Lemma demo_writable : forallb (λ f, writableb (valueAt (st_values demo_st) f) && namesb f) (r_fields demo_r) = true.
Proof. by vm_compute. Qed.

Lemma demo_encoded : Encode jsonFormat (save_root demo_st (r_fields demo_r)) = inr ("after" +:+ newline).
Proof. by vm_compute. Qed.

Lemma save_read_back_witness : ∃ flat,
  decode_file jsonFormat demo_r "/etc/app.json" ("after" +:+ newline) = inr flat ∧ is_Some (flat !! f_key token_field).
Proof.
  destruct (save_read_back App demo_o demo_r _ "/etc/app.json" _ _ demo_st ("after" +:+ newline) demo_registry
    demo_no_namespaces demo_layers_ok demo_resolve) as (flat & Ef & Hk & _).
  - intros f Hf _. pose proof (proj1 (forallb_Forall _ _) demo_writable) as Hw. rewrite Forall_forall in Hw.
    destruct (proj1 (andb_true_iff _ _) (Hw f Hf)) as [Hv Hn]. split; [exact (writableb_ok _ Hv)|exact (namesb_ok _ Hn)].
  - exact demo_encoded.
  - exists flat. split; [exact Ef|]. apply Hk. exists token_field.
    split; [exact token_field_elem|]. split; [exact token_saved|reflexivity].
Defined.
